(** * EasyBackuper restore handler: a shallow embedding of
      [src/endstone_easybackuper/restore_handler.py] and the properties
      of its restore pipeline. *)

From Stdlib Require Import List String Ascii ZArith Lia Bool Arith.
Import ListNotations.
Local Open Scope list_scope.

(** ** Python exceptions and results *)

(** The exception classes the handler can meet.  [KeyboardInterrupt] and
    [SystemExit] derive from [BaseException] only, so an
    [except Exception] clause lets them through. *)
Inductive exn : Type :=
| ZeroDivisionError
| FileExistsError (p : list string)
| FileNotFoundError (p : list string)
| NotADirectoryError (p : list string)
| IsADirectoryError (p : list string)
| PermissionError (p : list string)
| ValueError
| AttributeError
| OSError
| UnicodeDecodeError
| KeyboardInterrupt
| SystemExit (code : Z).

Definition is_Exception (e : exn) : bool :=
  match e with
  | KeyboardInterrupt | SystemExit _ => false
  | _ => true
  end.

(** What a call comes to: a value, an exception, or no return at all
    (the unbounded polling loop of [main]). *)
Inductive outcome (A : Type) : Type :=
| Ok (a : A)
| Raise (e : exn)
| Hang.
Arguments Ok {A} a.
Arguments Raise {A} e.
Arguments Hang {A}.

(** ** Batch partitioning of [copy_dir_with_progress] (lines 153-155) *)

Module Batching.

(** [a // b] on Python integers: floor division, [ZeroDivisionError] when
    the divisor is zero.  [Z.div] rounds towards minus infinity as
    Python does. *)
Definition floordiv (a b : Z) : outcome Z :=
  if (b =? 0)%Z then Raise ZeroDivisionError else Ok (a / b)%Z.

(** [range(start, stop, step)] for a positive step.  The fuel is the
    distance to cover, enough for every step of at least one. *)
Fixpoint range_loop (fuel : nat) (i stop step : nat) : list nat :=
  match fuel with
  | O => []
  | S fuel' =>
      if i <? stop then i :: range_loop fuel' (i + step) stop step else []
  end.

Definition range (start stop step : nat) : list nat :=
  range_loop (stop - start) start stop step.

(** [l[i:j]] for [0 <= i <= j]; Python clips the slice at the end of the
    list, as [firstn] and [skipn] do. *)
Definition slice {A} (l : list A) (i j : nat) : list A :=
  firstn (j - i) (skipn i l).

(** [batch_size = max(1, len(files_to_copy) // max_threads)] *)
Definition batch_size (n : nat) (max_threads : Z) : outcome nat :=
  match floordiv (Z.of_nat n) max_threads with
  | Ok q => Ok (Z.to_nat (Z.max 1 q))
  | Raise e => Raise e
  | Hang => Hang
  end.

(** [batches = [files_to_copy[i:i + batch_size]
                for i in range(0, len(files_to_copy), batch_size)]] *)
Definition make_batches {A} (files_to_copy : list A) (max_threads : Z)
  : outcome (list (list A)) :=
  match batch_size (List.length files_to_copy) max_threads with
  | Ok bs =>
      Ok (map (fun i => slice files_to_copy i (i + bs))
              (range 0 (List.length files_to_copy) bs))
  | Raise e => Raise e
  | Hang => Hang
  end.

(** One thread is created and started per batch (lines 158-162). *)
Definition threads_spawned {A} (files_to_copy : list A) (max_threads : Z)
  : outcome nat :=
  match make_batches files_to_copy max_threads with
  | Ok bs => Ok (List.length bs)
  | Raise e => Raise e
  | Hang => Hang
  end.

(** Ceiling division, the batch size the specification names. *)
Definition ceil_div (n w : nat) : nat := (n + w - 1) / w.

End Batching.

(** ** The file system the handler works on *)

(** A path is the list of its components below the file system root;
    components are plain names (no separator, no dot or dot-dot entry).
    Symbolic links are not represented. *)
Definition path := list string.

(** A regular file carries its bytes and the read-only attribute that
    [os.chmod(..., stat.S_IWUSR)] clears; a directory lists its entries
    in the order [os.scandir] reports them. *)
#[warnings="-register-all"]
Inductive node : Type :=
| File (data : string) (readonly : bool)
| Dir (entries : list (string * node)).

Module FS.

Fixpoint assoc (x : string) (es : list (string * node)) : option node :=
  match es with
  | [] => None
  | (y, c) :: es' => if String.eqb x y then Some c else assoc x es'
  end.

(** Replace the entry called [x], or add it at the end of the listing. *)
Fixpoint set_entry (x : string) (v : node) (es : list (string * node))
  : list (string * node) :=
  match es with
  | [] => [(x, v)]
  | (y, c) :: es' =>
      if String.eqb x y then (x, v) :: es' else (y, c) :: set_entry x v es'
  end.

Fixpoint del_entry (x : string) (es : list (string * node))
  : list (string * node) :=
  match es with
  | [] => []
  | (y, c) :: es' =>
      if String.eqb x y then del_entry x es' else (y, c) :: del_entry x es'
  end.

Fixpoint get (n : node) (p : path) : option node :=
  match p with
  | [] => Some n
  | x :: p' =>
      match n with
      | Dir es =>
          match assoc x es with
          | Some c => get c p'
          | None => None
          end
      | File _ _ => None
      end
  end.

Definition exists_ (n : node) (p : path) : bool :=
  match get n p with Some _ => true | None => false end.

Definition is_dir (n : node) (p : path) : bool :=
  match get n p with Some (Dir _) => true | _ => false end.

Definition is_file (n : node) (p : path) : bool :=
  match get n p with Some (File _ _) => true | _ => false end.

(** [alter_at p f n] rewrites the entry at [p]: [f] receives what is
    there and answers what to leave ([None] removes the entry).  Nothing
    happens when the parent of [p] is not a directory of [n]. *)
Fixpoint alter_at (p : path) (f : option node -> option node) (n : node)
  : node :=
  match p, n with
  | [], _ => n
  | _, File _ _ => n
  | [x], Dir es =>
      match f (assoc x es) with
      | Some v => Dir (set_entry x v es)
      | None => Dir (del_entry x es)
      end
  | x :: p', Dir es =>
      match assoc x es with
      | Some c => Dir (set_entry x (alter_at p' f c) es)
      | None => n
      end
  end.

(** The chain of empty directories [p] names, for a part of a path that
    does not exist yet. *)
Fixpoint fresh_dirs (p : path) : node :=
  match p with
  | [] => Dir []
  | x :: p' => Dir [(x, fresh_dirs p')]
  end.

(** [os.makedirs(full)] ([exist_ok = false]) and
    [Path.mkdir(parents=True, exist_ok=True)] ([exist_ok = true]):
    missing components are created, a regular file on the way is an
    error, and so is an existing target unless [exist_ok] holds and the
    target is a directory. *)
Fixpoint makedirs_node (exist_ok : bool) (full p : path) (n : node)
  : outcome node :=
  match n with
  | File _ _ =>
      match p with
      | [] => Raise (FileExistsError full)
      | _ :: _ => Raise (NotADirectoryError full)
      end
  | Dir es =>
      match p with
      | [] => if exist_ok then Ok n else Raise (FileExistsError full)
      | x :: p' =>
          match assoc x es with
          | Some c =>
              match makedirs_node exist_ok full p' c with
              | Ok c' => Ok (Dir (set_entry x c' es))
              | Raise e => Raise e
              | Hang => Hang
              end
          | None => Ok (Dir (set_entry x (fresh_dirs p') es))
          end
      end
  end.

Definition makedirs (exist_ok : bool) (p : path) (n : node) : outcome node :=
  makedirs_node exist_ok p p n.

(** [shutil.rmtree(p, ignore_errors=True)]: a directory at [p] goes with
    all it holds; a regular file at [p] stays where it is (the
    [NotADirectoryError] is ignored), and a missing [p] is not an error.
    Failures inside the removal of a directory are not represented. *)
Definition rmtree (p : path) (n : node) : node :=
  match get n p with
  | Some (Dir _) => alter_at p (fun _ => None) n
  | _ => n
  end.

(** [Path.unlink]: the target must be a regular file; a read-only file
    cannot be unlinked (the behaviour the [chmod] call is there for). *)
Definition unlink (p : path) (n : node) : outcome node :=
  match get n p with
  | Some (File _ ro) =>
      if ro then Raise (PermissionError p)
      else Ok (alter_at p (fun _ => None) n)
  | Some (Dir _) => Raise (PermissionError p)
  | None => Raise (FileNotFoundError p)
  end.

(** [Path.rmdir]: the target must be an empty directory. *)
Definition rmdir (p : path) (n : node) : outcome node :=
  match get n p with
  | Some (Dir []) => Ok (alter_at p (fun _ => None) n)
  | Some (Dir (_ :: _)) => Raise OSError
  | Some (File _ _) => Raise (NotADirectoryError p)
  | None => Raise (FileNotFoundError p)
  end.

(** [os.chmod(p, stat.S_IWUSR)]: the file becomes writable. *)
Definition chmod_writable (p : path) (n : node) : outcome node :=
  match get n p with
  | Some (File d _) => Ok (alter_at p (fun _ => Some (File d false)) n)
  | Some (Dir _) => Ok n
  | None => Raise (FileNotFoundError p)
  end.

Definition basename (p : path) : path :=
  match rev p with
  | [] => []
  | x :: _ => [x]
  end.

Definition parent (p : path) : path := removelast p.

(** [shutil.copy2(src, dst)]: [src] must be a regular file; when [dst] is
    a directory the copy goes inside it under the source's name; the
    directory receiving the copy must exist; a read-only file in the way
    cannot be overwritten.  The copy keeps the bytes and the
    attributes. *)
Definition copy2 (src dst : path) (n : node) : outcome node :=
  match get n src with
  | Some (File d ro) =>
      let target := if is_dir n dst then dst ++ basename src else dst in
      match target with
      | [] => Raise (IsADirectoryError target)
      | _ :: _ =>
          if negb (is_dir n (parent target)) then
            Raise (FileNotFoundError target)
          else
            match get n target with
            | Some (Dir _) => Raise (IsADirectoryError target)
            | Some (File _ true) => Raise (PermissionError target)
            | _ => Ok (alter_at target (fun _ => Some (File d ro)) n)
            end
      end
  | Some (Dir _) => Raise (IsADirectoryError src)
  | None => Raise (FileNotFoundError src)
  end.

Definition dir_names (es : list (string * node)) : list string :=
  map fst (filter (fun e => match snd e with Dir _ => true | _ => false end) es).

Definition file_names (es : list (string * node)) : list string :=
  map fst (filter (fun e => match snd e with File _ _ => true | _ => false end) es).

(** [os.walk(top, topdown)] on the tree [n] found at [top]: one triple
    [(root, dirs, files)] per directory, a directory before its
    subdirectories when [topdown] holds and after them otherwise. *)
Fixpoint walk_node (topdown : bool) (top : path) (n : node)
  : list (path * list string * list string) :=
  match n with
  | File _ _ => []
  | Dir es =>
      let here := (top, dir_names es, file_names es) in
      let below :=
        (fix go (l : list (string * node)) :=
           match l with
           | [] => []
           | (x, c) :: l' => walk_node topdown (top ++ [x]) c ++ go l'
           end) es in
      if topdown then here :: below else below ++ [here]
  end.

Definition walk_entries (topdown : bool) (top : path)
  : list (string * node) -> list (path * list string * list string) :=
  fix go (l : list (string * node)) :=
    match l with
    | [] => []
    | (x, c) :: l' => walk_node topdown (top ++ [x]) c ++ go l'
    end.

(** [os.walk] from the file system root [n]: nothing is yielded when
    [top] is missing or is not a directory. *)
Definition walk (topdown : bool) (top : path) (n : node)
  : list (path * list string * list string) :=
  match get n top with
  | Some c => walk_node topdown top c
  | None => []
  end.

(** [PurePath.relative_to]: [ValueError] unless [base] is a prefix. *)
Fixpoint relative_to (p base : path) : outcome path :=
  match base, p with
  | [], _ => Ok p
  | b :: base', x :: p' =>
      if String.eqb b x then relative_to p' base' else Raise ValueError
  | _ :: _, [] => Raise ValueError
  end.

Fixpoint is_prefix (p q : path) : bool :=
  match p, q with
  | [], _ => true
  | x :: p', y :: q' => String.eqb x y && is_prefix p' q'
  | _ :: _, [] => false
  end.

(** Two paths that part ways: neither leads to the other. *)
Fixpoint diverge (p q : path) : bool :=
  match p, q with
  | x :: p', y :: q' => if String.eqb x y then diverge p' q' else true
  | _, _ => false
  end.

(** A file system without two entries of one name in a directory. *)
Fixpoint wf (n : node) : Prop :=
  match n with
  | File _ _ => True
  | Dir es =>
      NoDup (map fst es) /\
      (fix all (l : list (string * node)) : Prop :=
         match l with
         | [] => True
         | (_, c) :: l' => wf c /\ all l'
         end) es
  end.

End FS.

(** ** Joining a path and a name *)

Module Pathlib.

Local Open Scope string_scope.

(** The text cut at every [/]; [piece] is the part read since the last
    cut. *)
Fixpoint split (text piece : string) : list string :=
  match text with
  | EmptyString => [piece]
  | String a rest =>
      if Ascii.eqb a "/" then piece :: split rest ""
      else split rest (piece ++ String a "")
  end.

(** [PurePosixPath(text).parts], the root left out: the pieces between
    the separators, without the empty ones and the single dots.  A
    double dot stays a component of its own. *)
Definition parts (text : string) : list string :=
  filter (fun x => negb (String.eqb x "" || String.eqb x ".")) (split text "").

Definition is_absolute (text : string) : bool :=
  match text with
  | String a _ => Ascii.eqb a "/"
  | EmptyString => false
  end.

(** [base / name] on POSIX paths: an absolute [name] takes the place of
    [base]. *)
Definition joinpath (base : path) (name : string) : path :=
  if is_absolute name then parts name else (base ++ parts name)%list.

Fixpoint has_separator (text : string) : bool :=
  match text with
  | EmptyString => false
  | String a rest =>
      Ascii.eqb a "/" || Ascii.eqb a "\" || Ascii.eqb a ":" || has_separator rest
  end.

(** A name that is one component of a path and names an entry of the
    directory it is joined to: no separator in it (on Windows the
    backslash and the colon of a drive count as well), and not empty,
    [.] or [..]. *)
Definition plain (name : string) : bool :=
  negb (has_separator name) &&
  negb (String.eqb name "" || String.eqb name "." || String.eqb name "..").

End Pathlib.

(** ** Inputs of a run *)

(** [os.name == 'nt'] or not. *)
Inductive platform : Type := Nt | Posix.

(** [restore_info], built from the three positional arguments.  The
    world name is taken as one component of a path ([Pathlib.plain]),
    so that [dir / world_name] is [dir ++ [world_name]]. *)
Record request : Type := mkRequest {
  backup_file : path;
  server_dir : path;      (* absolute *)
  world_name : string
}.

(** A path of the configuration: relative to the working directory
    (the server directory after [os.chdir]) or absolute. *)
Inductive cfg_path : Type :=
| Rel (p : path)
| Abs (p : path).

Definition resolve (cwd : path) (p : cfg_path) : path :=
  match p with
  | Rel q => cwd ++ q
  | Abs q => q
  end.

(** What [load_config] leaves behind: the dictionary it returns and the
    globals [restore_config] and [global_config], as [main] reads them,
    with the defaults of its [.get] calls applied.  The values have the
    types of their defaults, the [restart_server] section and its three
    settings included.  [restore_config_readable] tells whether
    [restore_config] and its [config] entry are dictionaries, as the
    [.get] calls of lines 295-296 need them to be: [load_config] assigns
    [restore_config] before it looks into it, so a [Restore] entry of
    another type stays in the global. *)
Record configuration : Type := mkConfiguration {
  use_7z : bool;
  exe_7z_path : cfg_path;
  BackupFolderPath : cfg_path;                 (* default ./backup *)
  max_workers : Z;                             (* default 4 *)
  backup_old_world_before_restore : bool;
  restart_status : bool;
  wait_time_s : Z;                             (* default 10 *)
  start_script_path : cfg_path;                (* default ./start.bat *)
  debug : bool;
  restore_config_readable : bool
}.

(** One answer of the process-list command ([tasklist] or [ps aux]):
    [Popen] raises, the output does not decode, the user interrupts the
    wait, or the decoded text. *)
Inductive ps_result : Type :=
| PsSpawnError
| PsUndecodable
| PsInterrupted
| PsOutput (text : string).

(** What surrounds the run: the platform, the successive answers of the
    process-list command, the clock, and what the archive tools and the
    start script do when they are called.  An archive tool may fail to
    start ([Popen] with the shell, or [subprocess.run] with [tar],
    raises); when it has run it leaves its return code, and the bytes it
    printed may or may not decode where the handler decodes them. *)
Record environment : Type := mkEnvironment {
  os_name : platform;
  process_table : list ps_result;
  clock : string;                         (* strftime("%Y%m%d_%H%M%S") *)
  compress_returncode : Z;
  compress_output : list string;          (* stdout lines *)
  compress_archive : option string;       (* bytes of the archive, if written *)
  extract_returncode : Z;
  extract_output : list string;
  extract_entries : option (list (string * node));  (* what the archive unpacks to *)
  launch_raises : bool;
  compress_starts : bool;
  compress_decodes : bool;
  extract_starts : bool;
  extract_decodes : bool
}.

(** ** Recorded events *)

Inductive level : Type := DEBUG | INFO | WARNING | ERROR | SUCCESS.

(** The messages of [plugin_print], by the place that prints them.  The
    start-up banner and the separator lines are not recorded, and the
    informational lines that one step prints in a row count as one. *)
Inductive message : Type :=
| MsgFileCopied (src dst : path)
| MsgFileCopyFailed (src dst : path) (e : exn)
| MsgDirCreated (dst : path)
| MsgServerRunning
| MsgServerStopped
| MsgServerNotDetected
| MsgPreBackupSetting (b : bool)
| MsgPreBackupEnabled
| MsgBackingUpWorlds (worlds_dir : path)
| Msg7zMissing (exe : path)
| Msg7zCompress (src : path) (archive : path)
| Msg7zCompressFailed
| Msg7zCompressDone
| MsgTarCompress (src : path) (archive : path)
| MsgTarCompressFailed
| MsgTarCompressDone
| MsgBackupSaved (archive : path)
| MsgToolOutput (line : string)
| MsgCleaningTempBackup (p : path)
| MsgTempBackupCleaned
| MsgPreBackupDone
| MsgPreBackupFailed (e : exn)
| MsgPreBackupDisabled
| MsgRestoreStart
| MsgTempDirCreated (p : path)
| Msg7zExtract (archive target : path)
| Msg7zExtractFailed
| Msg7zExtractDone
| MsgTarExtract (archive target : path)
| MsgTarExtractFailed
| MsgTarExtractDone
| MsgOldWorldExists (p : path)
| MsgDeletingOldWorld
| MsgFileDeleted (p : path)
| MsgDirDeleted (p : path)
| MsgOldWorldDeleted
| MsgCopyStart
| MsgCopyTarget (src dst : path)
| MsgCopyThreads (n : Z)
| MsgCopyDone
| MsgCleaningTemp (p : path)
| MsgTempCleaned
| MsgRestoreDone
| MsgRestartSetting (b : bool)
| MsgRestartEnabled
| MsgRestartWaiting (seconds : Z)
| MsgStartScript (p : path)
| MsgStartingServer
| MsgServerLaunched
| MsgLaunchFailed
| MsgRestartDisabled
| MsgInterrupted
| MsgFatal (e : exn)
| MsgTraceback (e : exn).

Inductive backend : Type := SevenZip | Tar.

(** What a run does, in the order it does it. *)
Inductive event : Type :=
| Log (lv : level) (m : message)
| MakeDirs (p : path)
| ThreadStart (i : nat)
| ThreadJoin (i : nat)
| CopyFile (src dst : path)
| RunCompress (b : backend) (archive source : path) (snapshot : option node)
| RunExtract (b : backend) (archive target : path)
| Sleep (seconds : Z)
| Launch (script cwd : path).

Record state : Type := mkState {
  fs : node;
  events : list event
}.

(** ** Stateful computations with exceptions *)

Definition M (A : Type) : Type := state -> outcome A * state.

Definition ret {A} (a : A) : M A := fun s => (Ok a, s).

Definition bind {A B} (c : M A) (k : A -> M B) : M B :=
  fun s =>
    match c s with
    | (Ok a, s') => k a s'
    | (Raise e, s') => (Raise e, s')
    | (Hang, s') => (Hang, s')
    end.

Notation "x <- c ;; k" := (bind c (fun x => k))
  (at level 61, c at next level, right associativity).
Notation "c ;;; k" := (bind c (fun _ => k))
  (at level 61, right associativity).

Definition raise {A} (e : exn) : M A := fun s => (Raise e, s).

Definition read_fs : M node := fun s => (Ok (fs s), s).

Definition emit (e : event) : M unit :=
  fun s => (Ok tt, mkState (fs s) (events s ++ [e])).

(** A file system call that either changes the tree or raises. *)
Definition fs_call (f : node -> outcome node) : M unit :=
  fun s =>
    match f (fs s) with
    | Ok n' => (Ok tt, mkState n' (events s))
    | Raise e => (Raise e, s)
    | Hang => (Hang, s)
    end.

Definition fs_update (f : node -> node) : M unit :=
  fun s => (Ok tt, mkState (f (fs s)) (events s)).

Definition lift {A} (o : outcome A) : M A := fun s => (o, s).

(** [try: c  except Exception as e: handler e] *)
Definition try_except {A} (c : M A) (handler : exn -> M A) : M A :=
  fun s =>
    match c s with
    | (Raise e, s') => if is_Exception e then handler e s' else (Raise e, s')
    | r => r
    end.

Fixpoint for_each {A} (l : list A) (body : A -> M unit) : M unit :=
  match l with
  | [] => ret tt
  | a :: l' => body a ;;; for_each l' body
  end.

Definition when (b : bool) (c : M unit) : M unit :=
  if b then c else ret tt.

(** [needle in hay] on Python strings. *)
Fixpoint contains (needle hay : string) : bool :=
  if String.prefix needle hay then true
  else
    match hay with
    | EmptyString => false
    | String _ hay' => contains needle hay'
    end.

(** Destination of a walked entry: [dst / (root / name).relative_to(src)]
    (lines 131-133 and 137-139). *)
Definition pair_for (src dst root : path) (name : string)
  : outcome (path * path) :=
  match FS.relative_to (root ++ [name]) src with
  | Ok rel => Ok (root ++ [name], dst ++ rel)
  | Raise e => Raise e
  | Hang => Hang
  end.

Fixpoint pairs_for (src dst root : path) (names : list string)
  : outcome (list (path * path)) :=
  match names with
  | [] => Ok []
  | x :: names' =>
      match pair_for src dst root x with
      | Ok pr =>
          match pairs_for src dst root names' with
          | Ok l => Ok (pr :: l)
          | Raise e => Raise e
          | Hang => Hang
          end
      | Raise e => Raise e
      | Hang => Hang
      end
  end.

(** The loop over [os.walk(src)] of lines 129-140: the directories to
    create and the files to copy, in discovery order. *)
Fixpoint collect (src dst : path)
         (walked : list (path * list string * list string))
  : outcome (list (path * path) * list (path * path)) :=
  match walked with
  | [] => Ok ([], [])
  | (root, dirs, files) :: walked' =>
      match pairs_for src dst root dirs with
      | Ok ds =>
          match pairs_for src dst root files with
          | Ok fls =>
              match collect src dst walked' with
              | Ok (dirs_to_create, files_to_copy) =>
                  Ok (ds ++ dirs_to_create, fls ++ files_to_copy)
              | Raise e => Raise e
              | Hang => Hang
              end
          | Raise e => Raise e
          | Hang => Hang
          end
      | Raise e => Raise e
      | Hang => Hang
      end
  end.

Fixpoint indexed_from {A} (i : nat) (l : list A) : list (nat * A) :=
  match l with
  | [] => []
  | a :: l' => (i, a) :: indexed_from (S i) l'
  end.

(** What is found where a tree is unpacked over an existing one:
    directories are merged entry by entry, the existing entries first
    and the new names after them; anything else is replaced by what is
    unpacked ([tar] and [7za x -y] overwrite). *)
Fixpoint overlay (old new : node) : node :=
  match old, new with
  | Dir ds, Dir cs =>
      Dir ((fix go (l : list (string * node)) : list (string * node) :=
              match l with
              | [] => []
              | (x, c) :: l' =>
                  (x, match FS.assoc x cs with
                      | Some c' => overlay c c'
                      | None => c
                      end) :: go l'
              end) ds
           ++ filter (fun e => negb (existsb (String.eqb (fst e)) (map fst ds))) cs)
  | _, _ => new
  end.

(** The exception of a tool that cannot be started: [Popen] with the
    shell for 7za, [subprocess.run] for [tar]. *)
Definition spawn_error (b : backend) : exn :=
  match b with
  | SevenZip => OSError
  | Tar => FileNotFoundError ["tar"%string]
  end.

(** ** The handler *)

Section Handler.

Variable cfg : configuration.
Variable req : request.
Variable env : environment.

(** [plugin_print]: a [DEBUG] line is dropped unless debugging is on. *)
Definition plugin_print (lv : level) (m : message) : M unit :=
  match lv with
  | DEBUG => if debug cfg then emit (Log lv m) else ret tt
  | _ => emit (Log lv m)
  end.

(** [copy_file_with_progress] (lines 101-112): a failed copy is logged
    and swallowed. *)
Definition copy_file_with_progress (src dst : path) : M unit :=
  try_except
    (emit (CopyFile src dst) ;;;
     fs_call (FS.copy2 src dst) ;;;
     plugin_print DEBUG (MsgFileCopied src dst))
    (fun e => plugin_print ERROR (MsgFileCopyFailed src dst e)).

(** The thread target [copy_files] (lines 149-151). *)
Definition copy_files (files : list (path * path)) : M unit :=
  for_each files (fun sd => copy_file_with_progress (fst sd) (snd sd)).

(** One turn of the directory loop (lines 143-146). *)
Definition ensure_dir (sd : path * path) : M unit :=
  n <- read_fs ;;
  when (negb (FS.exists_ n (snd sd)))
       (fs_call (FS.makedirs false (snd sd)) ;;;
        emit (MakeDirs (snd sd)) ;;;
        plugin_print DEBUG (MsgDirCreated (snd sd))).

(** [copy_dir_with_progress] from the walk on (lines 125-166).  The
    worker threads write to pairwise different destinations; their
    effect on the file system is taken in the order the threads are
    started, each batch as a whole. *)
Definition copy_core (src dst : path) (max_threads : Z) : M unit :=
  n <- read_fs ;;
  plan <- lift (collect src dst (FS.walk true src n)) ;;
  for_each (fst plan) ensure_dir ;;;
  batches <- lift (Batching.make_batches (snd plan) max_threads) ;;
  for_each (indexed_from 0 batches)
           (fun ib => emit (ThreadStart (fst ib)) ;;; copy_files (snd ib)) ;;;
  for_each (indexed_from 0 batches) (fun ib => emit (ThreadJoin (fst ib))).

(** [copy_dir_with_progress] (lines 114-166). *)
Definition copy_dir_with_progress (src dst : path) (max_threads : Z)
  : M unit :=
  n <- read_fs ;;
  when (negb (FS.exists_ n dst))
       (fs_call (FS.makedirs false dst) ;;;
        emit (MakeDirs dst) ;;;
        plugin_print DEBUG (MsgDirCreated dst)) ;;;
  copy_core src dst max_threads.

Definition process_name : string :=
  match os_name env with
  | Nt => "bedrock_server.exe"%string
  | Posix => "bedrock_server"%string
  end.

(** One query of the process table (lines 273-278 and 281-286):
    [Popen], then [stdout.read().decode(encoding)], then the substring
    test.  [None] stands for an exhausted list of answers. *)
Definition query (r : ps_result) : M bool :=
  match r with
  | PsSpawnError => raise OSError
  | PsUndecodable => raise UnicodeDecodeError
  | PsInterrupted => raise KeyboardInterrupt
  | PsOutput text => ret (contains process_name text)
  end.

(** The loop of lines 280-288, on the answers still to come. *)
Fixpoint wait_loop (answers : list ps_result) : M unit :=
  match answers with
  | [] => fun s => (Hang, s)
  | r :: answers' =>
      running <- query r ;;
      if running then emit (Sleep 1) ;;; wait_loop answers'
      else ret tt
  end.

(** [WAIT_PROCESS] (lines 262-292). *)
Definition wait_process : M unit :=
  match process_table env with
  | [] => fun s => (Hang, s)
  | r :: answers =>
      running <- query r ;;
      if running then
        plugin_print WARNING MsgServerRunning ;;;
        wait_loop answers ;;;
        plugin_print SUCCESS MsgServerStopped
      else
        plugin_print INFO MsgServerNotDetected
  end.

(** The directories [main] builds with [/] from the server directory
    and the world name.  The world name is one plain component of a
    path ([Pathlib.plain]), for which [dir / world_name] is the entry
    of that name in [dir]. *)
Definition worlds_dir : path := server_dir req ++ ["worlds"%string].
Definition temp_backup_dir : path :=
  server_dir req ++ ["temp_easybackuper_backup"%string].
Definition temp_world_backup_dir : path := temp_backup_dir ++ [world_name req].
Definition temp_dir : path := server_dir req ++ ["temp_easybackuper"%string].
Definition temp_world_dir : path := temp_dir ++ [world_name req].
Definition current_world_dir : path := worlds_dir ++ [world_name req].
Definition backup_dir : path := resolve (server_dir req) (BackupFolderPath cfg).
Definition exe_path : path := resolve (server_dir req) (exe_7z_path cfg).

Definition backup_name : string := ("before_restore_" ++ clock env)%string.

Definition old_backup_file_path : path :=
  backup_dir ++
  [if use_7z cfg then (backup_name ++ ".7z")%string
   else (backup_name ++ ".tar.gz")%string].

(** What the compression tool leaves on disk: the archive, when it
    writes one and its place can take a file. *)
Definition tool_write (p : path) (data : option string) (n : node) : node :=
  match data with
  | None => n
  | Some d =>
      match FS.get n p with
      | Some (Dir _) => n
      | _ => FS.alter_at p (fun _ => Some (File d false)) n
      end
  end.

(** [bytes.decode]: [UnicodeDecodeError] on bytes that are not text of
    the encoding. *)
Definition decode (valid : bool) : M unit :=
  if valid then ret tt else raise UnicodeDecodeError.

(** [tar] is run by [subprocess.run] with [text=True], which decodes
    what the tool printed before it returns; the output of 7za is
    decoded by the handler, once it has looked at the return code. *)
Definition decode_in_run (b : backend) (valid : bool) : M unit :=
  match b with
  | Tar => decode valid
  | SevenZip => ret tt
  end.

(** The archive tool called on [source]: when it starts, the call is
    recorded with the tree it finds there. *)
Definition run_compress (b : backend) : M Z :=
  if compress_starts env then
    n <- read_fs ;;
    emit (RunCompress b old_backup_file_path temp_world_backup_dir
                      (FS.get n temp_world_backup_dir)) ;;;
    fs_update (tool_write old_backup_file_path (compress_archive env)) ;;;
    decode_in_run b (compress_decodes env) ;;;
    ret (compress_returncode env)
  else raise (spawn_error b).

(** What the extraction tool leaves in its target directory: the
    entries of the archive, laid over what the directory holds.  [7za]
    creates a missing target; [tar] is given one that exists. *)
Definition tool_extract (target : path) (n : node) : node :=
  match extract_entries env with
  | None => n
  | Some es =>
      FS.alter_at target
                  (fun old => Some (match old with
                                    | Some o => overlay o (Dir es)
                                    | None => Dir es
                                    end)) n
  end.

Definition run_extract (b : backend) : M Z :=
  if extract_starts env then
    emit (RunExtract b (backup_file req) temp_world_dir) ;;;
    fs_update (tool_extract temp_world_dir) ;;;
    decode_in_run b (extract_decodes env) ;;;
    ret (extract_returncode env)
  else raise (spawn_error b).

(** The first half of [PRE_BACKUP] (lines 302-322): the backup folder,
    a fresh temporary directory, and the copy of the worlds directory
    into it. *)
Definition pre_backup_snapshot : M unit :=
  fs_call (FS.makedirs true backup_dir) ;;;
  n <- read_fs ;;
  when (FS.exists_ n temp_backup_dir)
       (fs_update (FS.rmtree temp_backup_dir)) ;;;
  fs_call (FS.makedirs true temp_backup_dir) ;;;
  plugin_print INFO (MsgBackingUpWorlds worlds_dir) ;;;
  copy_dir_with_progress worlds_dir temp_world_backup_dir (max_workers cfg).

(** The second half (lines 324-366): compression and removal of the
    temporary directory.  The answer [Some c] is a [return c] of [main]
    from inside the phase. *)
Definition pre_backup_archive : M (option Z) :=
  early <-
    (if use_7z cfg then
       n <- read_fs ;;
       if negb (FS.exists_ n exe_path) then
         plugin_print ERROR (Msg7zMissing exe_path) ;;;
         fs_update (FS.rmtree temp_backup_dir) ;;;
         ret None
       else
         plugin_print INFO (Msg7zCompress temp_world_backup_dir old_backup_file_path) ;;;
         rc <- run_compress SevenZip ;;
         if negb (rc =? 0)%Z then
           decode (compress_decodes env) ;;;
           plugin_print ERROR Msg7zCompressFailed ;;;
           fs_update (FS.rmtree temp_backup_dir) ;;;
           ret (Some 1%Z)
         else
           decode (compress_decodes env) ;;;
           for_each (compress_output env)
                    (fun line => plugin_print INFO (MsgToolOutput line)) ;;;
           plugin_print SUCCESS Msg7zCompressDone ;;;
           plugin_print SUCCESS (MsgBackupSaved old_backup_file_path) ;;;
           ret None
     else
       plugin_print INFO (MsgTarCompress temp_world_backup_dir old_backup_file_path) ;;;
       rc <- run_compress Tar ;;
       if negb (rc =? 0)%Z then
         plugin_print ERROR MsgTarCompressFailed ;;;
         ret None
       else
         plugin_print SUCCESS MsgTarCompressDone ;;;
         plugin_print SUCCESS (MsgBackupSaved old_backup_file_path) ;;;
         ret None) ;;
  match early with
  | Some c => ret (Some c)
  | None =>
      plugin_print INFO (MsgCleaningTempBackup temp_backup_dir) ;;;
      fs_update (FS.rmtree temp_backup_dir) ;;;
      plugin_print SUCCESS MsgTempBackupCleaned ;;;
      plugin_print SUCCESS MsgPreBackupDone ;;;
      ret None
  end.

(** The reads of lines 295-296, which no [try] encloses: [.get] on
    [restore_config] and on its [config] entry. *)
Definition read_backup_old_world : M bool :=
  if restore_config_readable cfg then ret (backup_old_world_before_restore cfg)
  else raise AttributeError.

(** Lines 297-371, with the setting that was read: both halves under
    the [try ... except Exception] of the phase. *)
Definition pre_backup_with (backup_old_world : bool) : M (option Z) :=
  plugin_print INFO (MsgPreBackupSetting backup_old_world) ;;;
  if backup_old_world then
    plugin_print INFO MsgPreBackupEnabled ;;;
    try_except
      (pre_backup_snapshot ;;; pre_backup_archive)
      (fun e => plugin_print ERROR (MsgPreBackupFailed e) ;;; ret None)
  else
    plugin_print INFO MsgPreBackupDisabled ;;;
    ret None.

(** [PRE_BACKUP] (lines 294-371). *)
Definition pre_backup : M (option Z) :=
  backup_old_world <- read_backup_old_world ;;
  pre_backup_with backup_old_world.

(** [EXTRACT] (lines 373-430); [Some 1] is the [return 1] of a failed
    extraction. *)
Definition extract_phase : M (option Z) :=
  plugin_print INFO MsgRestoreStart ;;;
  n <- read_fs ;;
  when (FS.exists_ n temp_dir) (fs_update (FS.rmtree temp_dir)) ;;;
  fs_call (FS.makedirs true temp_dir) ;;;
  plugin_print INFO (MsgTempDirCreated temp_dir) ;;;
  if use_7z cfg then
    n <- read_fs ;;
    if negb (FS.exists_ n exe_path) then
      plugin_print ERROR (Msg7zMissing exe_path) ;;;
      fs_update (FS.rmtree temp_dir) ;;;
      ret (Some 1%Z)
    else
      plugin_print INFO (Msg7zExtract (backup_file req) temp_world_dir) ;;;
      rc <- run_extract SevenZip ;;
      if negb (rc =? 0)%Z then
        decode (extract_decodes env) ;;;
        plugin_print ERROR Msg7zExtractFailed ;;;
        fs_update (FS.rmtree temp_dir) ;;;
        ret (Some 1%Z)
      else
        decode (extract_decodes env) ;;;
        for_each (extract_output env)
                 (fun line => plugin_print INFO (MsgToolOutput line)) ;;;
        plugin_print SUCCESS Msg7zExtractDone ;;;
        ret None
  else
    plugin_print INFO (MsgTarExtract (backup_file req) temp_world_dir) ;;;
    fs_call (FS.makedirs true temp_world_dir) ;;;
    rc <- run_extract Tar ;;
    if negb (rc =? 0)%Z then
      plugin_print ERROR MsgTarExtractFailed ;;;
      fs_update (FS.rmtree temp_dir) ;;;
      ret (Some 1%Z)
    else
      plugin_print SUCCESS MsgTarExtractDone ;;;
      ret None.

(** The loop over the files of one walked directory (lines 439-443). *)
Definition unlink_files (root : path) (files : list string) : M unit :=
  for_each files
           (fun name =>
              fs_call (FS.chmod_writable (root ++ [name])) ;;;
              plugin_print DEBUG (MsgFileDeleted (root ++ [name])) ;;;
              fs_call (FS.unlink (root ++ [name]))).

(** The loop over its subdirectories (lines 444-447). *)
Definition rmdir_dirs (root : path) (dirs : list string) : M unit :=
  for_each dirs
           (fun name =>
              plugin_print DEBUG (MsgDirDeleted (root ++ [name])) ;;;
              fs_call (FS.rmdir (root ++ [name]))).

(** The body of the deletion loop for one walked directory
    (lines 439-447). *)
Definition delete_walked (t : path * list string * list string) : M unit :=
  let '(root, dirs, files) := t in
  unlink_files root files ;;; rmdir_dirs root dirs.

(** Deletion of the old world (lines 433-449).  With [topdown=False]
    [os.walk] lists a directory before it descends and yields it after
    its subdirectories, and the loop body only touches what has been
    yielded already, so the walk is the walk of the tree as it stands
    when the loop starts. *)
Definition delete_old_world : M unit :=
  n <- read_fs ;;
  when (FS.exists_ n current_world_dir)
       (plugin_print WARNING (MsgOldWorldExists current_world_dir) ;;;
        plugin_print INFO MsgDeletingOldWorld ;;;
        for_each (FS.walk false current_world_dir n) delete_walked ;;;
        plugin_print DEBUG (MsgDirDeleted worlds_dir) ;;;
        plugin_print SUCCESS MsgOldWorldDeleted).

(** [SWAP] (lines 432-466): deletion, copy, removal of the staging
    directory. *)
Definition swap_phase : M unit :=
  delete_old_world ;;;
  plugin_print INFO MsgCopyStart ;;;
  plugin_print INFO (MsgCopyTarget temp_world_dir worlds_dir) ;;;
  plugin_print INFO (MsgCopyThreads (max_workers cfg)) ;;;
  copy_dir_with_progress temp_world_dir worlds_dir (max_workers cfg) ;;;
  plugin_print SUCCESS MsgCopyDone ;;;
  plugin_print INFO (MsgCleaningTemp temp_dir) ;;;
  fs_update (FS.rmtree temp_dir) ;;;
  plugin_print SUCCESS MsgTempCleaned ;;;
  plugin_print SUCCESS MsgRestoreDone.

(** [time.sleep]: a negative delay is a [ValueError]. *)
Definition sleep (seconds : Z) : M unit :=
  if (seconds <? 0)%Z then raise ValueError else emit (Sleep seconds).

(** [RESTART_DECISION] (lines 470-510). *)
Definition restart_phase : M unit :=
  plugin_print INFO (MsgRestartSetting (restart_status cfg)) ;;;
  if restart_status cfg then
    plugin_print INFO MsgRestartEnabled ;;;
    plugin_print INFO (MsgRestartWaiting (wait_time_s cfg)) ;;;
    sleep (wait_time_s cfg) ;;;
    plugin_print INFO (MsgStartScript (resolve (server_dir req) (start_script_path cfg))) ;;;
    try_except
      (plugin_print INFO MsgStartingServer ;;;
       (if launch_raises env then raise OSError
        else emit (Launch (resolve (server_dir req) (start_script_path cfg))
                          (server_dir req))) ;;;
       plugin_print SUCCESS MsgServerLaunched)
      (fun _ => plugin_print ERROR MsgLaunchFailed)
  else
    plugin_print INFO MsgRestartDisabled.

(** [setup_logging] (lines 17-39) as far as the file system goes: the
    log directory is created under the server directory.  The log file
    inside it is not part of the tree; the recorded events stand for
    what is written to it. *)
Definition setup_logging : M unit :=
  fs_call (FS.makedirs true (server_dir req ++ ["logs"%string; "EasyBackuper"%string])).

(** [os.chdir]. *)
Definition chdir (p : path) : M unit :=
  n <- read_fs ;;
  match FS.get n p with
  | Some (Dir _) => ret tt
  | Some (File _ _) => raise (NotADirectoryError p)
  | None => raise (FileNotFoundError p)
  end.

(** [main] (lines 234-512); the configuration is what [load_config]
    produced. *)
Definition main : M Z :=
  setup_logging ;;;
  chdir (server_dir req) ;;;
  wait_process ;;;
  early <- pre_backup ;;
  match early with
  | Some c => ret c
  | None =>
      early <- extract_phase ;;
      match early with
      | Some c => ret c
      | None =>
          swap_phase ;;;
          restart_phase ;;;
          ret 0%Z
      end
  end.

(** The run up to the EXTRACT phase. *)
Definition before_extract : M (option Z) :=
  setup_logging ;;;
  chdir (server_dir req) ;;;
  wait_process ;;;
  pre_backup.

(** The restore phases: what [main] does once the wait for the server
    is over (lines 294-512). *)
Definition restore_phases : M Z :=
  early <- pre_backup ;;
  match early with
  | Some c => ret c
  | None =>
      early <- extract_phase ;;
      match early with
      | Some c => ret c
      | None =>
          swap_phase ;;;
          restart_phase ;;;
          ret 0%Z
      end
  end.

End Handler.

(** ** The script body (lines 514-550) *)

(** The three positional arguments, each possibly missing or empty. *)
Record arguments : Type := mkArguments {
  arg_backup_file : option path;
  arg_server_dir : option path;
  arg_world_name : option string
}.

Definition parse_request (a : arguments) : option request :=
  match arg_backup_file a, arg_server_dir a, arg_world_name a with
  | Some b, Some s, Some w =>
      match b, s, w with
      | [], _, _ | _, [], _ | _, _, EmptyString => None
      | _, _, _ => Some (mkRequest b s w)
      end
  | _, _, _ => None
  end.

(** How the interpreter leaves: the exit status of the process, or no
    exit at all. *)
Inductive exit : Type :=
| Exit (status : Z)
| NoExit.

(** The [__main__] block: usage error, then [main] under its three
    handlers.  Nothing follows the [try] statement, so after a normal
    return of [main], and after the handler of [Exception], the
    interpreter reaches the end of the script and leaves with status
    0; [exit_code] is assigned and not read again. *)
Definition script (cfg : configuration) (env : environment) (a : arguments)
           (s : state) : exit * state :=
  match parse_request a with
  | None =>
      (Exit 1, s)
  | Some req =>
      match main cfg req env s with
      | (Ok exit_code, s') => (Exit 0, s')
      | (Raise (SystemExit c), s') => (Exit c, s')
      | (Raise KeyboardInterrupt, s') =>
          (Exit 130, snd (plugin_print cfg WARNING MsgInterrupted s'))
      | (Raise e, s') =>
          (Exit 0,
           snd ((plugin_print cfg ERROR (MsgFatal e) ;;;
                 plugin_print cfg ERROR (MsgTraceback e)) s'))
      | (Hang, s') => (NoExit, s')
      end
  end.

(** What [parser.parse_args()] (line 525) comes to.  The parser knows
    three optional positional arguments and the [-h] option that
    [argparse] adds: it returns a namespace with the positionals it was
    given, or it leaves the interpreter itself, with status 2 after a
    usage error (a fourth positional, an unknown option) and with
    status 0 once the help is printed. *)
Inductive parsed : Type :=
| Namespace (a : arguments)
| UsageError
| HelpPrinted.

(** The script from its first line on: the parser's own exits come
    before the [try] statement is reached. *)
Definition process (cfg : configuration) (env : environment) (p : parsed)
           (s : state) : exit * state :=
  match p with
  | Namespace a => script cfg env a s
  | UsageError => (Exit 2, s)
  | HelpPrinted => (Exit 0, s)
  end.

(** ** The worker threads of a directory copy, step by step *)

Module Threads.

(** Where the main thread stands in lines 143-166: in the directory
    loop, starting the threads, joining them, past the last join, or
    dead from an exception. *)
Inductive main_pc : Type :=
| AtDirs (left : list (path * path))
| AtStart (left : list (nat * list (path * path)))
| AtJoin (left : list nat)
| Done
| Crashed (e : exn).

(** The main thread, the started threads with the files each has still
    to copy, and the state they share. *)
Record pool : Type := mkPool {
  pc : main_pc;
  running : list (nat * list (path * path));
  st : state
}.

Definition add_event (s : state) (e : event) : state :=
  mkState (fs s) (events s ++ [e]).

Section Steps.

Variable cfg : configuration.
Variable files_to_copy : list (path * path).
Variable max_threads : Z.

(** One step of one thread; the threads take their steps in any
    order. *)
Inductive step : pool -> pool -> Prop :=
| step_dir sd left run s s' :
    ensure_dir cfg sd s = (Ok tt, s') ->
    step (mkPool (AtDirs (sd :: left)) run s) (mkPool (AtDirs left) run s')
| step_dir_raises sd left run s e s' :
    ensure_dir cfg sd s = (Raise e, s') ->
    step (mkPool (AtDirs (sd :: left)) run s) (mkPool (Crashed e) run s')
| step_batches run s batches :
    Batching.make_batches files_to_copy max_threads = Ok batches ->
    step (mkPool (AtDirs []) run s)
         (mkPool (AtStart (indexed_from 0 batches)) run s)
| step_batches_raises run s e :
    Batching.make_batches files_to_copy max_threads = Raise e ->
    step (mkPool (AtDirs []) run s) (mkPool (Crashed e) run s)
| step_start i b left run s :
    step (mkPool (AtStart ((i, b) :: left)) run s)
         (mkPool (AtStart left) (run ++ [(i, b)]) (add_event s (ThreadStart i)))
| step_started run s :
    step (mkPool (AtStart []) run s) (mkPool (AtJoin (map fst run)) run s)
| step_copy p i sd todo before after s o s' :
    copy_file_with_progress cfg (fst sd) (snd sd) s = (o, s') ->
    step (mkPool p (before ++ (i, sd :: todo) :: after) s)
         (mkPool p (before ++ (i, todo) :: after) s')
| step_join i left run s :
    In (i, []) run ->
    step (mkPool (AtJoin (i :: left)) run s)
         (mkPool (AtJoin left) run (add_event s (ThreadJoin i)))
| step_done run s :
    step (mkPool (AtJoin []) run s) (mkPool Done run s).


End Steps.

(** The pool when the plan has been drawn up (line 142). *)
Definition start (dirs_to_create : list (path * path)) (s : state) : pool :=
  mkPool (AtDirs dirs_to_create) [] s.




End Threads.

(** ** Whether a staged tree fits where it is copied to *)

(** [compatible T D]: the tree [T] can be copied onto what is found at
    the destination ([None] for nothing): where [T] has a directory the
    destination has nothing or a directory, where [T] has a file the
    destination has nothing or a writable file. *)
Fixpoint compatible (T : node) (D : option node) : bool :=
  match T with
  | File _ _ =>
      match D with
      | None => true
      | Some (File _ ro) => negb ro
      | Some (Dir _) => false
      end
  | Dir es =>
      match D with
      | None => true
      | Some (File _ _) => false
      | Some (Dir ds) =>
          (fix all (l : list (string * node)) : bool :=
             match l with
             | [] => true
             | (x, c) :: l' => compatible c (FS.assoc x ds) && all l'
             end) es
      end
  end.

(** The listing of the worlds directory once the old world [w] has been
    through the deletion loop: a directory of that name is emptied. *)
Definition emptied_world (w : string) (ws : list (string * node))
  : list (string * node) :=
  match FS.assoc w ws with
  | Some (Dir _) => FS.set_entry w (Dir []) ws
  | _ => ws
  end.

(** ** Reading the record of a run *)

Definition is_restore_start (e : event) : bool :=
  match e with Log INFO MsgRestoreStart => true | _ => false end.

(** The run got as far as the EXTRACT phase. *)
Definition reached_extract (s : state) : bool :=
  existsb is_restore_start (events s).

Definition is_error_log (e : event) : bool :=
  match e with Log ERROR _ => true | _ => false end.

Definition is_extract_error (e : event) : bool :=
  match e with
  | Log ERROR (Msg7zMissing _)
  | Log ERROR Msg7zExtractFailed
  | Log ERROR MsgTarExtractFailed => true
  | _ => false
  end.



(** ** Sentences of the specification, as they are written *)

(** "Failure to query the process table is treated as server not
    detected": when the process-list command cannot be started the run
    logs that no server was detected and goes on to the restore
    phases. *)
Definition query_failure_recovered
           (cfg : configuration) (req : request) (env : environment)
           (s : state) : Prop :=
  hd_error (process_table env) = Some PsSpawnError ->
  In (Log INFO MsgServerNotDetected) (events (snd (main cfg req env s))) /\
  reached_extract (snd (main cfg req env s)) = true.

(** "Copy the extracted world directory into the active world
    directory": after a successful run every file of the archive is
    found, unchanged, under [serverDirectory/worlds/worldName]. *)
Definition world_populated_from_archive
           (cfg : configuration) (req : request) (env : environment)
           (s : state) : Prop :=
  forall entries,
    extract_entries env = Some entries ->
    fst (main cfg req env s) = Ok 0%Z /\
    forall p d ro,
      FS.get (Dir entries) p = Some (File d ro) ->
      FS.get (fs (snd (main cfg req env s))) (current_world_dir req ++ p)
        = Some (File d ro).

(** ** Concrete runs *)

Module Sample.

Local Open Scope string_scope.

(** A server directory with two worlds, one of them holding a read-only
    file, and the 7za executable at its default place. *)
Definition fs0 : node :=
  Dir [("srv",
        Dir [("worlds",
              Dir [("Bedrock",
                    Dir [("level.dat", File "old" true);
                         ("db", Dir [("000.ldb", File "x" false)])]);
                   ("Other", Dir [("level.dat", File "o" false)])]);
             ("plugins",
              Dir [("EasyBackuper", Dir [("7za.exe", File "exe" false)])])])].

(** The same server without the 7za executable. *)
Definition fs_no_exe : node :=
  Dir [("srv",
        Dir [("worlds",
              Dir [("Bedrock",
                    Dir [("level.dat", File "old" true);
                         ("db", Dir [("000.ldb", File "x" false)])]);
                   ("Other", Dir [("level.dat", File "o" false)])])])].

Definition st0 : state := mkState fs0 [].
Definition st_no_exe : state := mkState fs_no_exe [].

Definition req0 : request :=
  mkRequest ["srv"; "backup"; "world.7z"] ["srv"] "Bedrock".

Definition args0 : arguments :=
  mkArguments (Some ["srv"; "backup"; "world.7z"]) (Some ["srv"]) (Some "Bedrock").

Definition exe0 : cfg_path := Rel ["plugins"; "EasyBackuper"; "7za.exe"].

(** tar backend, no pre-restore backup, no restart. *)
Definition cfg_tar : configuration :=
  mkConfiguration false exe0 (Rel ["backup"]) 4 false false 10
                  (Rel ["start.bat"]) true true.

(** 7z backend, no pre-restore backup. *)
Definition cfg_7z : configuration :=
  mkConfiguration true exe0 (Rel ["backup"]) 4 false false 10
                  (Rel ["start.bat"]) true true.

(** Pre-restore backup on, 7z or tar backend. *)
Definition cfg_7z_backup : configuration :=
  mkConfiguration true exe0 (Rel ["backup"]) 4 true false 10
                  (Rel ["start.bat"]) true true.

Definition cfg_tar_backup : configuration :=
  mkConfiguration false exe0 (Rel ["backup"]) 4 true false 10
                  (Rel ["start.bat"]) true true.

(** The archive holds the world under a top-level folder of its name. *)
Definition archive_with_folder : list (string * node) :=
  [("Bedrock", Dir [("level.dat", File "new" false)])].

(** The archive holds the files of the world at its top level. *)
Definition archive_flat : list (string * node) :=
  [("level.dat", File "new" false)].

Definition quiet : list ps_result := [PsOutput "root 1 0.0 /sbin/init"].

(** Every tool succeeds. *)
Definition env_ok (entries : list (string * node)) : environment :=
  mkEnvironment Posix quiet "20240101_000000"
                0 [] (Some "ARCHIVE") 0 [] (Some entries) false
                true true true true.

(** The compression tool exits with status 2 and writes nothing. *)
Definition env_compress_fails : environment :=
  mkEnvironment Posix quiet "20240101_000000"
                2 [] None 0 [] (Some archive_with_folder) false
                true true true true.

(** The extraction tool exits with status 2 after a partial extraction. *)
Definition env_extract_fails : environment :=
  mkEnvironment Posix quiet "20240101_000000"
                0 [] (Some "ARCHIVE") 2 [] (Some archive_flat) false
                true true true true.

(** The process-list command cannot be started. *)
Definition env_ps_fails : environment :=
  mkEnvironment Posix [PsSpawnError] "20240101_000000"
                0 [] (Some "ARCHIVE") 0 [] (Some archive_with_folder) false
                true true true true.

(** The user interrupts the wait for the server to stop. *)
Definition env_interrupted : environment :=
  mkEnvironment Posix
                [PsOutput "mc 7 1.0 ./bedrock_server"; PsInterrupted]
                "20240101_000000"
                0 [] (Some "ARCHIVE") 0 [] (Some archive_with_folder) false
                true true true true.

End Sample.

(** ** Further readings of the record of a run *)

(** The copies attempted, in the order of the attempts. *)
Fixpoint attempts (evs : list event) : list (path * path) :=
  match evs with
  | [] => []
  | CopyFile a b :: evs' => (a, b) :: attempts evs'
  | _ :: evs' => attempts evs'
  end.

Definition is_run_compress (e : event) : bool :=
  match e with RunCompress _ _ _ _ => true | _ => false end.



Definition is_launch (e : event) : bool :=
  match e with Launch _ _ => true | _ => false end.

Definition is_debug_log (e : event) : bool :=
  match e with Log DEBUG _ => true | _ => false end.

Definition is_sleep (e : event) : bool :=
  match e with Sleep _ => true | _ => false end.

(** ** More concrete runs *)

Module Scenario.

Local Open Scope string_scope.

(** tar backend with the worker count set to zero. *)
Definition cfg_zero_workers : configuration :=
  mkConfiguration false Sample.exe0 (Rel ["backup"]) 0 false false 10
                  (Rel ["start.bat"]) true true.


(** tar backend, restart after the restore with a delay of three
    seconds, or with a negative delay. *)
Definition cfg_restart : configuration :=
  mkConfiguration false Sample.exe0 (Rel ["backup"]) 4 false true 3
                  (Rel ["start.sh"]) false true.

Definition cfg_negative_delay : configuration :=
  mkConfiguration false Sample.exe0 (Rel ["backup"]) 4 false true (-1)
                  (Rel ["start.sh"]) false true.

(** The server is seen in the first three listings and gone in the
    fourth. *)
Definition env_server_stops : environment :=
  mkEnvironment Posix
                [PsOutput "mc 7 1.0 ./bedrock_server";
                 PsOutput "mc 7 1.0 ./bedrock_server";
                 PsOutput "mc 7 0.3 ./bedrock_server";
                 PsOutput "root 1 0.0 /sbin/init"]
                "20240101_000000"
                0 [] (Some "ARCHIVE") 0 [] (Some Sample.archive_with_folder) false
                true true true true.

(** The start script cannot be launched. *)
Definition env_launch_fails : environment :=
  mkEnvironment Posix Sample.quiet "20240101_000000"
                0 [] (Some "ARCHIVE") 0 [] (Some Sample.archive_with_folder) true
                true true true true.


(** The server of [Sample.fs0] on a disk that holds something else
    beside it. *)
Definition fs_shared : node :=
  Dir [("srv",
        Dir [("worlds",
              Dir [("Bedrock", Dir [("level.dat", File "old" true)])])]);
       ("home", Dir [("notes.txt", File "mine" false)])].

Definition st_shared : state := mkState fs_shared [].

(** A disk on which the server directory does not exist yet. *)
Definition st_empty : state := mkState (Dir []) [].

(** The extraction tool exits with status 2 and what it printed is not
    text of the encoding the handler decodes it with. *)
Definition env_extract_garbled : environment :=
  mkEnvironment Posix Sample.quiet "20240101_000000"
                0 [] (Some "ARCHIVE") 2 [] None false
                true true true false.

(** No archive tool can be started for the compression. *)
Definition env_compress_missing : environment :=
  mkEnvironment Posix Sample.quiet "20240101_000000"
                0 [] None 0 [] (Some Sample.archive_with_folder) false
                false true true true.

(** The sample server when the first half of PRE_BACKUP has copied its
    worlds. *)
Definition st_snapshot : state :=
  snd (pre_backup_snapshot Sample.cfg_tar_backup Sample.req0 Sample.st0).

(** The server of [Sample.fs0] with a regular file where the staging
    directory has to go. *)
Definition fs_staging_blocked : node :=
  Dir [("srv",
        Dir [("worlds",
              Dir [("Bedrock", Dir [("level.dat", File "old" true)])]);
             ("plugins",
              Dir [("EasyBackuper", Dir [("7za.exe", File "exe" false)])]);
             ("temp_easybackuper", File "note" false)])].

Definition st_staging_blocked : state := mkState fs_staging_blocked [].

End Scenario.

(** ** [load_config] (lines 168-232) *)

Module Config.

Local Open Scope string_scope.
Local Open Scope list_scope.

(** What [json.load] builds: Python values.  A float is kept by its
    text; a dictionary lists its items in insertion order.  Text is
    taken one character per code point. *)
#[warnings="-register-all"]
Inductive json : Type :=
| JNull
| JBool (b : bool)
| JInt (z : Z)
| JFloat (repr : string)
| JStr (s : string)
| JList (items : list json)
| JDict (items : list (string * json)).

(** The part of a Python dictionary that has strings for keys, the only
    keys the handler looks up. *)
Definition dict : Type := list (string * json).

Fixpoint lookup (k : string) (d : dict) : option json :=
  match d with
  | [] => None
  | (k', v) :: d' => if String.eqb k k' then Some v else lookup k d'
  end.

(** [d[k] = v]: an existing key keeps its place. *)
Fixpoint set (k : string) (v : json) (d : dict) : dict :=
  match d with
  | [] => [(k, v)]
  | (k', v') :: d' =>
      if String.eqb k k' then (k, v) :: d' else (k', v') :: set k v d'
  end.

(** [d.get(k, default)] on a dictionary. *)
Definition get_or (d : dict) (k : string) (default : json) : json :=
  match lookup k d with
  | Some v => v
  | None => default
  end.

(** The exceptions of [load_config]'s [try] block, all of class
    [Exception]: the file cannot be opened as a file, its text is not
    JSON, and the three errors of the dictionary operations. *)
Inductive error : Type :=
| OpenFailed
| DecodeFailed
| TypeErr
| ValueErr
| AttributeErr.

Inductive result (A : Type) : Type :=
| Got (a : A)
| Failed (e : error).
Arguments Got {A} a.
Arguments Failed {A} e.

(** [x.get(k, default)] on any value: only a dictionary has the
    method. *)
Definition get (x : json) (k : string) (default : json) : result json :=
  match x with
  | JDict d => Got (get_or d k default)
  | _ => Failed AttributeErr
  end.

(** One element of a sequence handed to [dict.update]: it has to be an
    iterable of two items, the key and the value.  A string gives its
    characters and a dictionary its keys. *)
Definition item_pair (x : json) : result (json * json) :=
  match x with
  | JList [k; v] => Got (k, v)
  | JList _ => Failed ValueErr
  | JStr (String a (String b EmptyString)) =>
      Got (JStr (String a EmptyString), JStr (String b EmptyString))
  | JStr _ => Failed ValueErr
  | JDict [(k1, _); (k2, _)] => Got (JStr k1, JStr k2)
  | JDict _ => Failed ValueErr
  | JNull | JBool _ | JInt _ | JFloat _ => Failed TypeErr
  end.

(** The insertion of such a pair: a list or a dictionary cannot be a
    key; a key that is no string is stored by Python where no lookup of
    the handler finds it. *)
Definition store (kv : json * json) (d : dict) : result dict :=
  match fst kv with
  | JStr k => Got (set k (snd kv) d)
  | JList _ | JDict _ => Failed TypeErr
  | JNull | JBool _ | JInt _ | JFloat _ => Got d
  end.

Fixpoint update_seq (items : list json) (d : dict) : dict * option error :=
  match items with
  | [] => (d, None)
  | x :: items' =>
      match item_pair x with
      | Failed e => (d, Some e)
      | Got kv =>
          match store kv d with
          | Failed e => (d, Some e)
          | Got d' => update_seq items' d'
          end
      end
  end.

(** [d.update(x)]: the dictionary as the call leaves it, and the
    exception the call raised, if any.  What was inserted before the
    exception stays. *)
Definition update (d : dict) (x : json) : dict * option error :=
  match x with
  | JDict items => (fold_left (fun acc kv => set (fst kv) (snd kv) acc) items d, None)
  | JList items => update_seq items d
  | JStr EmptyString => (d, None)
  | JStr _ => (d, Some ValueErr)
  | JNull | JBool _ | JInt _ | JFloat _ => (d, Some TypeErr)
  end.

(** The module globals [load_config] assigns. *)
Record globals : Type := mkGlobals {
  global_debug : json;                  (* global_config["debug"] *)
  global_max_workers : option json;     (* global_config["max_workers"], once set *)
  global_restore_config : json;         (* restore_config *)
  global_config : json                  (* config *)
}.

(** The globals as the module sets them up (lines 42-50). *)
Definition initial_globals : globals :=
  mkGlobals (JBool false) None (JDict []) (JDict []).

(** The lines [load_config] prints; none of them is a [DEBUG] line, and
    the logger is not set up yet, so they go to the console only. *)
Inductive config_message : Type :=
| MsgTrying (p : path) (found : bool)
| MsgNoConfigFile
| MsgUsingPath (p : path)
| MsgContent (config : json)
| MsgRestore (restore_config : json)
| MsgRestoreNested (nested : json)
| MsgBackupValue (v : json)
| MsgDebugValue (v : json)
| MsgMaxWorkersValue (v : json)
| MsgLoaded (p : path)
| MsgDebugMode (v : json)
| MsgLoadFailed (e : error)
| MsgLoadTraceback (e : error).

Definition line : Type := level * config_message.

(** The statements of the [try] block: globals and printed lines are
    threaded through, and an exception ends the block. *)
Definition L (A : Type) : Type :=
  globals * list line -> result A * (globals * list line).

Definition ret {A} (a : A) : L A := fun st => (Got a, st).

Definition bind {A B} (c : L A) (k : A -> L B) : L B :=
  fun st =>
    match c st with
    | (Got a, st') => k a st'
    | (Failed e, st') => (Failed e, st')
    end.

Definition say (lv : level) (m : config_message) : L unit :=
  fun st => (Got tt, (fst st, snd st ++ [(lv, m)])).

Definition assign (f : globals -> globals) : L unit :=
  fun st => (Got tt, (f (fst st), snd st)).

Definition call {A} (r : result A) : L A := fun st => (r, st).

Definition set_config (v : json) (g : globals) : globals :=
  mkGlobals (global_debug g) (global_max_workers g) (global_restore_config g) v.

Definition set_restore_config (v : json) (g : globals) : globals :=
  mkGlobals (global_debug g) (global_max_workers g) v (global_config g).

Definition set_debug (v : json) (g : globals) : globals :=
  mkGlobals v (global_max_workers g) (global_restore_config g) (global_config g).

Definition set_max_workers (v : json) (g : globals) : globals :=
  mkGlobals (global_debug g) (Some v) (global_restore_config g) (global_config g).

Definition default_config : dict :=
  [("use_7z", JBool false);
   ("exe_7z_path", JStr "./plugins/EasyBackuper/7za.exe")].

Definition config_file : path :=
  ["plugins"; "EasyBackuper"; "config"; "EasyBackuper.json"].

Section Loading.

(** [json.load] on the text of a file: [None] when the text is not
    valid UTF-8 or not valid JSON. *)
Variable json_load : string -> option json.

Variable server_dir : path.   (* restore_info["server_dir"] *)
Variable cwd : path.          (* Path.cwd() *)
Variable n : node.            (* the file system *)

(** The three candidates of lines 174-178; the third is relative and
    names the file the second names. *)
Definition possible_paths : list path :=
  [server_dir ++ config_file; cwd ++ config_file; cwd ++ config_file].

(** The search loop of lines 180-185. *)
Fixpoint find_config (paths : list path) : list line * option path :=
  match paths with
  | [] => ([], None)
  | p :: paths' =>
      if FS.exists_ n p then ([(INFO, MsgTrying p true)], Some p)
      else
        let '(ls, found) := find_config paths' in
        ((INFO, MsgTrying p false) :: ls, found)
  end.

(** [open(config_path)] and [json.load(f)], lines 201-202. *)
Definition open_and_load (p : path) : result json :=
  match FS.get n p with
  | Some (File text _) =>
      match json_load text with
      | Some config => Got config
      | None => Failed DecodeFailed
      end
  | _ => Failed OpenFailed
  end.

(** Lines 203-227, from the first print after [json.load] to the last
    before [return]; [updated] is what [default_config.update(config)]
    raised. *)
Definition load_body (p : path) (config : json) (updated : option error)
  : L unit :=
  bind (say INFO (MsgContent config)) (fun _ =>
  bind (match updated with
        | Some e => call (Failed e)
        | None => ret tt
        end) (fun _ =>
  bind (call (get config "Restore" (JDict []))) (fun restore_config =>
  bind (assign (set_restore_config restore_config)) (fun _ =>
  bind (say INFO (MsgRestore restore_config)) (fun _ =>
  bind (call (get restore_config "config" (JDict []))) (fun nested =>
  bind (say INFO (MsgRestoreNested nested)) (fun _ =>
  bind (call (get nested "backup_old_world_before_restore" (JBool false)))
       (fun backup_old_world =>
  bind (say INFO (MsgBackupValue backup_old_world)) (fun _ =>
  bind (call (get nested "debug" (JBool false))) (fun debug_value =>
  bind (say INFO (MsgDebugValue debug_value)) (fun _ =>
  bind (assign (set_debug debug_value)) (fun _ =>
  bind (call (get config "Max_Workers" (JInt 4))) (fun max_workers =>
  bind (say INFO (MsgMaxWorkersValue max_workers)) (fun _ =>
  bind (assign (set_max_workers max_workers)) (fun _ =>
  bind (say SUCCESS (MsgLoaded p)) (fun _ =>
  say INFO (MsgDebugMode debug_value))))))))))))))))).

(** The [except Exception] clause, lines 229-231. *)
Definition handler (e : error) (st : globals * list line)
  : globals * list line :=
  (fst st, snd st ++ [(WARNING, MsgLoadFailed e); (ERROR, MsgLoadTraceback e)]).

(** [load_config]: the dictionary it returns, the globals and the
    printed lines it leaves. *)
Definition load_config (g : globals) : dict * (globals * list line) :=
  let '(probes, found) := find_config possible_paths in
  match found with
  | None =>
      ([("use_7z", JBool false);
        ("exe_7z_path", JStr "./plugins/EasyBackuper/7za.exe")],
       (g, probes ++ [(WARNING, MsgNoConfigFile)]))
  | Some p =>
      let st := (g, probes ++ [(INFO, MsgUsingPath p)]) in
      match open_and_load p with
      | Failed e => (default_config, handler e st)
      | Got config =>
          let '(d, updated) := update default_config config in
          match load_body p config updated (set_config config (fst st), snd st) with
          | (Got _, st') => (d, st')
          | (Failed e, st') => (d, handler e st')
          end
      end
  end.

End Loading.

(** What [main] reads afterwards. *)

(** [restore_config.get("config", {}).get("backup_old_world_before_restore",
    False)], lines 295-296. *)
Definition read_backup_old_world (g : globals) : result json :=
  match get (global_restore_config g) "config" (JDict []) with
  | Got nested => get nested "backup_old_world_before_restore" (JBool false)
  | Failed e => Failed e
  end.

(** [global_config.get("max_workers", 4)], lines 321 and 456. *)
Definition read_max_workers (g : globals) : json :=
  match global_max_workers g with
  | Some v => v
  | None => JInt 4
  end.

End Config.

(** ** Concrete configuration files *)

Module ConfigScenario.
Import Config.

Local Open Scope string_scope.

(** A configuration that sets the backend, the worker count and the
    [Restore] section. *)
Definition full_items : list (string * json) :=
  [("use_7z", JBool true);
   ("Max_Workers", JInt 8);
   ("Restore",
    JDict [("config",
            JDict [("debug", JBool true);
                   ("backup_old_world_before_restore", JBool true)])])].

(** A configuration whose [Restore] entry is [null]. *)
Definition null_restore_items : list (string * json) :=
  [("use_7z", JBool true); ("Restore", JNull)].

(** The parser on the three texts of the files below. *)
Definition parse (text : string) : option json :=
  if String.eqb text "full" then Some (JDict full_items)
  else if String.eqb text "null restore" then Some (JDict null_restore_items)
  else if String.eqb text "other" then Some (JDict [("use_7z", JBool false)])
  else None.

Definition config_dir (text : string) : node :=
  Dir [("plugins",
        Dir [("EasyBackuper",
              Dir [("config", Dir [("EasyBackuper.json", File text false)])])])].

(** A configuration file in the server directory and another one in the
    directories [home] and [tmp]. *)
Definition fs_two_files : node :=
  Dir [("srv", config_dir "full");
       ("home", config_dir "other");
       ("tmp", config_dir "null restore")].

(** The file of the server directory has a [null] for [Restore]. *)
Definition fs_null_restore : node :=
  Dir [("srv", config_dir "null restore")].

(** The file of the server directory is not JSON. *)
Definition fs_garbled : node :=
  Dir [("srv", config_dir "{")].

End ConfigScenario.

(** ** [plugin_print] and the logger of [setup_logging] (lines 17-99) *)

Module Console.

Local Open Scope string_scope.

(** The escape character of the colour sequences. *)
Definition esc : string := String (ascii_of_nat 27) EmptyString.

(** The dictionary [level_colors] (lines 67-73). *)
Definition level_colors (level : string) : option string :=
  if String.eqb level "DEBUG" then Some (esc ++ "[36m")
  else if String.eqb level "INFO" then Some (esc ++ "[37m")
  else if String.eqb level "WARNING" then Some (esc ++ "[33m")
  else if String.eqb level "ERROR" then Some (esc ++ "[31m")
  else if String.eqb level "SUCCESS" then Some (esc ++ "[32m")
  else None.

(** The levels of the [logging] module. *)
Definition logging_DEBUG : Z := 10.
Definition logging_INFO : Z := 20.
Definition logging_WARNING : Z := 30.
Definition logging_ERROR : Z := 40.

(** The dictionary [log_level_map] (lines 87-93). *)
Definition log_level_map (level : string) : option Z :=
  if String.eqb level "DEBUG" then Some logging_DEBUG
  else if String.eqb level "INFO" then Some logging_INFO
  else if String.eqb level "WARNING" then Some logging_WARNING
  else if String.eqb level "ERROR" then Some logging_ERROR
  else if String.eqb level "SUCCESS" then Some logging_INFO
  else None.

(** [logger_head] (line 79). *)
Definition logger_head (level : string) : string :=
  let level_color :=
    match level_colors level with
    | Some c => c
    | None => esc ++ "[37m"
    end in
  "[" ++ esc ++ "[32mEasyBackuper" ++ esc ++ "[0m] [" ++
  level_color ++ level ++ esc ++ "[0m] ".

(** What has been printed on the console and what has been written to
    the log file, a record with its level. *)
Record output : Type := mkOutput {
  console : list string;
  log_file : list (Z * string)
}.

(** [logger.log(level, text)] on a logger whose effective level is
    [threshold]: a record below the threshold is dropped. *)
Definition logger_log (threshold : Z) (level : Z) (text : string)
           (out : output) : output :=
  if (threshold <=? level)%Z
  then mkOutput (console out) (log_file out ++ [(level, text)])%list
  else out.

(** [plugin_print] (lines 56-99).  [debug] is the truth value of
    [global_config["debug"]]; [logger] is [None] until [main] has
    assigned the logger, and then its effective level. *)
Definition plugin_print (debug : bool) (logger : option Z)
           (text level : string) (out : output) : bool * output :=
  if String.eqb level "DEBUG" && negb debug then (true, out)
  else
    let printed :=
      mkOutput (console out ++ [(logger_head level ++ text)%string])%list
               (log_file out) in
    match logger with
    | None => (true, printed)
    | Some threshold =>
        let log_level :=
          match log_level_map level with
          | Some l => l
          | None => logging_INFO
          end in
        (true, logger_log threshold log_level text printed)
    end.

(** The level [setup_logging] configures the root logger with
    (line 28); the logger it returns has no level of its own. *)
Definition setup_logging_level (debug : bool) : Z :=
  if debug then logging_DEBUG else logging_INFO.

End Console.

(** ** A run that finds leftovers *)

Module Leftovers.

Local Open Scope string_scope.

(** The server of [Sample.fs0] with a staging directory that an earlier
    run left behind. *)
Definition fs_stale : node :=
  Dir [("srv",
        Dir [("worlds",
              Dir [("Bedrock", Dir [("level.dat", File "old" true)])]);
             ("temp_easybackuper",
              Dir [("Bedrock", Dir [("stale.dat", File "stale" false)]);
                   ("junk", File "j" false)])])].

Definition st_stale : state := mkState fs_stale [].

End Leftovers.

(* ================ Properties ================ *)

(** ** The batch partition *)

Module BatchingFacts.
Import Batching.

Lemma range_loop_below fuel i stop step k :
  In k (range_loop fuel i stop step) -> k < stop.
Proof.
  revert i. induction fuel as [|fuel IH]; intros i; simpl; [tauto|].
  destruct (i <? stop) eqn:E; simpl; [|tauto].
  intros [<-|H]; [now apply Nat.ltb_lt | eauto].
Qed.

(** The slices taken at the indices of the range, glued together, are
    the list from the first index on. *)
Lemma concat_slices {A} (l : list A) (bs : nat) :
  1 <= bs ->
  forall fuel i,
    List.length l - i <= fuel ->
    List.concat (map (fun i => slice l i (i + bs))
                (range_loop fuel i (List.length l) bs)) = skipn i l.
Proof.
  intros Hbs. induction fuel as [|fuel IH]; intros i Hfuel; simpl.
  - symmetry. apply skipn_all2. lia.
  - destruct (i <? List.length l) eqn:E.
    + apply Nat.ltb_lt in E. simpl. rewrite IH by lia.
      unfold slice. replace (i + bs - i) with bs by lia.
      replace (i + bs) with (bs + i) by lia.
      rewrite <- skipn_skipn. apply firstn_skipn.
    + apply Nat.ltb_ge in E. symmetry. apply skipn_all2. lia.
Qed.

Lemma slice_nonempty {A} (l : list A) i bs :
  1 <= bs -> i < List.length l -> slice l i (i + bs) <> [].
Proof.
  intros Hbs Hi H. apply (f_equal (@List.length A)) in H.
  unfold slice in H. rewrite length_firstn, length_skipn in H.
  simpl in H. lia.
Qed.

Lemma batch_size_positive n w bs : batch_size n w = Ok bs -> 1 <= bs.
Proof.
  unfold batch_size, floordiv. destruct (w =? 0)%Z; [discriminate|].
  intros [= <-]. lia.
Qed.

Lemma batch_size_defined n w : w <> 0%Z -> exists bs, batch_size n w = Ok bs.
Proof.
  intros Hw. unfold batch_size, floordiv.
  destruct (w =? 0)%Z eqn:E; [apply Z.eqb_eq in E; contradiction|eauto].
Qed.

(** For a divisor other than zero the batches are defined, none is
    empty, and in order they make up the file list. *)
Lemma make_batches_concat {A} (files : list A) (w : Z) :
  w <> 0%Z ->
  exists batches,
    make_batches files w = Ok batches /\
    List.concat batches = files /\
    (forall b, In b batches -> b <> []).
Proof.
  intros Hw. destruct (batch_size_defined (List.length files) w Hw) as [bs Hbs].
  pose proof (batch_size_positive _ _ _ Hbs) as Hpos.
  unfold make_batches. rewrite Hbs. eexists; split; [reflexivity|]. split.
  - unfold range. rewrite concat_slices by lia. reflexivity.
  - intros b Hb. apply in_map_iff in Hb as (i & <- & Hi).
    apply range_loop_below in Hi. now apply slice_nonempty.
Qed.

(** Two different members of a list of lists whose concatenation has no
    repetition share no element. *)
Lemma concat_NoDup_disjoint {A} (L : list (list A)) :
  NoDup (List.concat L) ->
  forall i j a b,
    i <> j -> nth_error L i = Some a -> nth_error L j = Some b ->
    forall x, In x a -> ~ In x b.
Proof.
  induction L as [|c L IH]; intros HN i j a b Hij Ha Hb x Hxa Hxb.
  - destruct i; discriminate.
  - simpl in HN. apply NoDup_app_remove_l in HN as HN'.
    assert (Hcross : forall y, In y c -> forall d, In d L -> ~ In y d).
    { intros y Hy d Hd Hyd.
      assert (In y (List.concat L)) by (apply in_concat; eauto).
      clear - HN Hy H. induction c as [|z c IHc]; [contradiction|].
      simpl in HN. inversion HN; subst. destruct Hy as [->|Hy].
      - apply H2. apply in_or_app. now right.
      - auto. }
    destruct i as [|i], j as [|j]; simpl in Ha, Hb.
    + contradiction.
    + injection Ha as <-. apply nth_error_In in Hb. exact (Hcross x Hxa b Hb Hxb).
    + injection Hb as <-. apply nth_error_In in Ha. exact (Hcross x Hxb a Ha Hxa).
    + apply (IH HN' i j a b ltac:(congruence) Ha Hb x Hxa Hxb).
Qed.

End BatchingFacts.

(** C4.  For every list of files (the empty one too) and every worker
    count of at least one, the batches glued together in order are the
    file list, no batch is empty, two different batches of a list
    without repetition share no file, and no thread is spawned for an
    empty list. *)
Theorem batches_partition_the_files {A} (files : list A) (max_threads : Z) :
  (1 <= max_threads)%Z ->
  exists batches,
    Batching.make_batches files max_threads = Ok batches /\
    List.concat batches = files /\
    (forall b, In b batches -> b <> []) /\
    (NoDup files ->
     forall i j bi bj,
       i <> j -> nth_error batches i = Some bi -> nth_error batches j = Some bj ->
       forall x, In x bi -> ~ In x bj) /\
    (files = [] -> Batching.threads_spawned files max_threads = Ok 0).
Proof.
  intros Hw.
  destruct (BatchingFacts.make_batches_concat files max_threads) as (bs & Hbs & Hcat & Hne);
    [lia|].
  exists bs. repeat split; auto.
  - intros HN. apply BatchingFacts.concat_NoDup_disjoint. now rewrite Hcat.
  - intros ->. unfold Batching.threads_spawned. rewrite Hbs.
    destruct bs as [|b bs]; [reflexivity|].
    exfalso. simpl in Hcat. apply app_eq_nil in Hcat as [Hb _].
    apply (Hne b); [now left | assumption].
Qed.

Lemma batches_partition_the_files_witness :
  (1 <= 3)%Z /\
  exists batches,
    Batching.make_batches [1; 2; 3; 4; 5; 6; 7; 8] 3 = Ok batches /\
    List.concat batches = [1; 2; 3; 4; 5; 6; 7; 8] /\
    (forall b, In b batches -> b <> []) /\
    (NoDup [1; 2; 3; 4; 5; 6; 7; 8] ->
     forall i j bi bj,
       i <> j -> nth_error batches i = Some bi -> nth_error batches j = Some bj ->
       forall x, In x bi -> ~ In x bj) /\
    ([1; 2; 3; 4; 5; 6; 7; 8] = [] ->
     Batching.threads_spawned [1; 2; 3; 4; 5; 6; 7; 8] 3 = Ok 0).
Proof.
  split; [lia|].
  apply (batches_partition_the_files [1; 2; 3; 4; 5; 6; 7; 8] 3). lia.
Defined.

(** C3.  Seven files and four workers: the batch size is
    [max(1, 7 // 4) = 1], not the ceiling 2, so the partition has seven
    batches of one file and seven threads are started, three more than
    the worker count. *)
Theorem seven_files_four_workers_seven_threads {A} (a b c d e f g : A) :
  Batching.batch_size 7 4 = Ok 1 /\
  Batching.ceil_div 7 4 = 2 /\
  Batching.make_batches [a; b; c; d; e; f; g] 4
    = Ok [[a]; [b]; [c]; [d]; [e]; [f]; [g]] /\
  Batching.threads_spawned [a; b; c; d; e; f; g] 4 = Ok 7.
Proof. repeat split. Qed.

(** Membership in a list that is written out. *)
Ltac find_in_list := repeat (first [left; reflexivity | right]).

(** ** Exit status of the script *)

(** Whatever code [main] returns, the script leaves with status 0. *)
Lemma script_after_return cfg env a req s c s' :
  parse_request a = Some req ->
  main cfg req env s = (Ok c, s') ->
  script cfg env a s = (Exit 0, s').
Proof. intros Hp Hm. unfold script. now rewrite Hp, Hm. Qed.

(** An exception that [except Exception] catches is logged and the
    script leaves with status 0 as well. *)
Lemma script_after_exception cfg env a req s e s' :
  parse_request a = Some req ->
  main cfg req env s = (Raise e, s') ->
  is_Exception e = true ->
  fst (script cfg env a s) = Exit 0.
Proof.
  intros Hp Hm He. unfold script. rewrite Hp, Hm.
  destruct e; try reflexivity; discriminate.
Qed.

Lemma script_after_interrupt cfg env a req s s' :
  parse_request a = Some req ->
  main cfg req env s = (Raise KeyboardInterrupt, s') ->
  fst (script cfg env a s) = Exit 130.
Proof. intros Hp Hm. unfold script. now rewrite Hp, Hm. Qed.

(** C8.  With the 7z backend configured and its executable missing,
    [main] returns 1 and the process still leaves with status 0, not 1;
    so it does when the extraction tool fails and when an exception
    reaches the top level.  Success gives 0 and an interruption 130, as
    stated. *)
Theorem exit_status_of_fatal_runs :
  fst (main Sample.cfg_7z Sample.req0 (Sample.env_ok Sample.archive_with_folder)
            Sample.st_no_exe) = Ok 1%Z /\
  fst (script Sample.cfg_7z (Sample.env_ok Sample.archive_with_folder)
              Sample.args0 Sample.st_no_exe) = Exit 0 /\
  fst (main Sample.cfg_tar Sample.req0 Sample.env_extract_fails Sample.st0)
    = Ok 1%Z /\
  fst (script Sample.cfg_tar Sample.env_extract_fails Sample.args0 Sample.st0)
    = Exit 0 /\
  fst (main Sample.cfg_tar Sample.req0 Sample.env_ps_fails Sample.st0)
    = Raise OSError /\
  fst (script Sample.cfg_tar Sample.env_ps_fails Sample.args0 Sample.st0)
    = Exit 0 /\
  fst (script Sample.cfg_tar (Sample.env_ok Sample.archive_with_folder)
              Sample.args0 Sample.st0) = Exit 0 /\
  fst (script Sample.cfg_tar Sample.env_interrupted Sample.args0 Sample.st0)
    = Exit 130.
Proof. repeat split; vm_compute; reflexivity. Qed.

(** ** PRE_BACKUP *)

(** C1.  Pre-restore backup on, 7z backend, the executable present, the
    compression exits with status 2: the failure is logged and the
    temporary backup directory removed, but [main] returns 1 there and
    the EXTRACT phase is never reached.  With the tar backend the same
    failure lets the run go on to EXTRACT and end with 0. *)
Theorem compression_failure_7z_ends_the_run :
  let r := main Sample.cfg_7z_backup Sample.req0 Sample.env_compress_fails
                Sample.st0 in
  let r' := main Sample.cfg_tar_backup Sample.req0 Sample.env_compress_fails
                 Sample.st0 in
  fst r = Ok 1%Z /\
  In (Log ERROR Msg7zCompressFailed) (events (snd r)) /\
  FS.exists_ (fs (snd r)) (temp_backup_dir Sample.req0) = false /\
  reached_extract (snd r) = false /\
  FS.get (fs (snd r)) (current_world_dir Sample.req0)
    = FS.get Sample.fs0 (current_world_dir Sample.req0) /\
  fst r' = Ok 0%Z /\
  In (Log ERROR MsgTarCompressFailed) (events (snd r')) /\
  FS.exists_ (fs (snd r')) (temp_backup_dir Sample.req0) = false /\
  reached_extract (snd r') = true.
Proof.
  vm_compute. repeat split; try reflexivity; find_in_list.
Qed.

(** ** WAIT_PROCESS *)

Lemma makedirs_node_raises ok full p n e :
  FS.makedirs_node ok full p n = Raise e -> is_Exception e = true.
Proof.
  revert n. induction p as [|x p IH]; intros n; destruct n as [d ro|es]; simpl;
    try (intros [= <-]; reflexivity).
  - destruct ok; [discriminate | intros [= <-]; reflexivity].
  - destruct (FS.assoc x es) as [c|]; [|discriminate].
    destruct (FS.makedirs_node ok full p c) eqn:E; try discriminate.
    intros [= <-]. eauto.
Qed.

Lemma makedirs_node_returns ok full p n : FS.makedirs_node ok full p n <> Hang.
Proof.
  revert n. induction p as [|x p IH]; intros n; destruct n as [d ro|es]; simpl;
    try discriminate.
  - destruct ok; discriminate.
  - destruct (FS.assoc x es) as [c|]; [|discriminate].
    specialize (IH c). destruct (FS.makedirs_node ok full p c); try discriminate.
    congruence.
Qed.


(** ** Paths *)

Module PathFacts.
Import FS.

Lemma is_prefix_refl p : is_prefix p p = true.
Proof. induction p; simpl; [|rewrite String.eqb_refl]; auto. Qed.

Lemma is_prefix_app p r : is_prefix p (p ++ r) = true.
Proof. induction p; simpl; [|rewrite String.eqb_refl]; auto. Qed.

Lemma is_prefix_inv p q :
  is_prefix p q = true -> exists r, q = p ++ r.
Proof.
  revert q. induction p as [|x p IH]; intros q H; simpl in *; [eauto|].
  destruct q as [|y q]; [discriminate|].
  apply andb_true_iff in H as [E H]. apply String.eqb_eq in E as ->.
  destruct (IH _ H) as [r ->]. eauto.
Qed.

Lemma diverge_sym p q : diverge p q = diverge q p.
Proof.
  revert q. induction p as [|x p IH]; intros [|y q]; simpl; auto.
  rewrite (String.eqb_sym y x). destruct (String.eqb x y); auto.
Qed.

Lemma diverge_not_prefix p q : diverge p q = true -> is_prefix p q = false.
Proof.
  revert q. induction p as [|x p IH]; intros [|y q]; simpl; try discriminate.
  destruct (String.eqb x y); simpl; auto.
Qed.

Lemma diverge_app_r p q r : diverge p q = true -> diverge p (q ++ r) = true.
Proof.
  revert q. induction p as [|x p IH]; intros [|y q]; simpl; try discriminate.
  destruct (String.eqb x y); auto.
Qed.

Lemma diverge_app_l p q r : diverge p q = true -> diverge (p ++ r) q = true.
Proof. rewrite !(diverge_sym _ q). apply diverge_app_r. Qed.

(** Two paths that leave a common stem by different names part ways. *)
Lemma diverge_after_stem s a b r r' :
  String.eqb a b = false -> diverge (s ++ a :: r) (s ++ b :: r') = true.
Proof.
  intros H. induction s as [|x s IH]; simpl; [now rewrite H|].
  now rewrite String.eqb_refl.
Qed.

Lemma not_prefix_after_stem s a b r r' :
  String.eqb a b = false -> is_prefix (s ++ a :: r) (s ++ b :: r') = false.
Proof. intros H. apply diverge_not_prefix. now apply diverge_after_stem. Qed.

End PathFacts.

(** ** The file system operations *)

Module FSFacts.
Import FS PathFacts.

Lemma assoc_set_same x v es : assoc x (set_entry x v es) = Some v.
Proof.
  induction es as [|[y c] es IH]; simpl.
  - now rewrite String.eqb_refl.
  - destruct (String.eqb x y) eqn:E; simpl; [now rewrite String.eqb_refl|].
    now rewrite E.
Qed.

Lemma assoc_set_other x y v es :
  String.eqb y x = false -> assoc y (set_entry x v es) = assoc y es.
Proof.
  intros H. induction es as [|[z c] es IH]; simpl.
  - now rewrite H.
  - destruct (String.eqb x z) eqn:E; simpl.
    + apply String.eqb_eq in E as <-. now rewrite H.
    + now rewrite IH.
Qed.

Lemma assoc_del_same x es : assoc x (del_entry x es) = None.
Proof.
  induction es as [|[y c] es IH]; simpl; [reflexivity|].
  destruct (String.eqb x y) eqn:E; simpl; [assumption|]. now rewrite E.
Qed.

Lemma assoc_del_other x y es :
  String.eqb y x = false -> assoc y (del_entry x es) = assoc y es.
Proof.
  intros H. induction es as [|[z c] es IH]; simpl; [reflexivity|].
  destruct (String.eqb x z) eqn:E; simpl.
  - apply String.eqb_eq in E as <-. now rewrite H.
  - now rewrite IH.
Qed.

(** An entry rewritten at [p] leaves alone every path that parts ways
    with [p]. *)
Lemma get_alter_at_diverge f p : forall n q,
  diverge q p = true -> get (alter_at p f n) q = get n q.
Proof.
  induction p as [|x p IH]; intros n q H.
  - destruct q; discriminate.
  - destruct q as [|y q]; [discriminate|]. simpl in H.
    destruct n as [d ro|es]; [destruct p; reflexivity|].
    destruct (String.eqb y x) eqn:E.
    + apply String.eqb_eq in E as ->.
      destruct p as [|x' p]; [destruct q; discriminate|].
      cbn [alter_at]. destruct (assoc x es) as [c|] eqn:A; [|reflexivity].
      cbn [get]. rewrite assoc_set_same, A. now apply IH.
    + assert (forall v, get (Dir (set_entry x v es)) (y :: q) = get (Dir es) (y :: q)) as Hset
          by (intros v; cbn [get]; now rewrite assoc_set_other).
      destruct p as [|x' p]; cbn [alter_at].
      * destruct (f (assoc x es)); [apply Hset|].
        cbn [get]. now rewrite assoc_del_other.
      * destruct (assoc x es); [apply Hset | reflexivity].
Qed.

(** After a removal nothing is left at the path. *)
Lemma get_removed p : forall n,
  p <> [] -> get (alter_at p (fun _ => None) n) p = None.
Proof.
  induction p as [|x p IH]; intros n Hp; [contradiction|].
  destruct n as [d ro|es]; [destruct p; reflexivity|].
  destruct p as [|x' p]; cbn [alter_at].
  - cbn [get]. now rewrite assoc_del_same.
  - destruct (assoc x es) as [c|] eqn:A.
    + cbn [get]. rewrite assoc_set_same. apply IH. discriminate.
    + cbn [get]. now rewrite A.
Qed.

(** [rmtree] removes, or does nothing. *)
Lemma rmtree_cases p n :
  rmtree p n = alter_at p (fun _ => None) n \/ rmtree p n = n.
Proof.
  unfold rmtree. destruct (get n p) as [[d ro|es]|]; auto.
Qed.

(** After [rmtree] nothing is left at the path, unless a regular file
    was there. *)
Lemma get_rmtree_gone p n :
  p <> [] -> is_file n p = false -> get (rmtree p n) p = None.
Proof.
  intros Hp Hf. unfold rmtree, is_file in *.
  destruct (get n p) as [[d ro|es]|] eqn:G; try discriminate.
  - now apply get_removed.
  - exact G.
Qed.


(** A removal creates nothing. *)
Lemma get_remove_none p : forall n q,
  get n q = None -> get (alter_at p (fun _ => None) n) q = None.
Proof.
  induction p as [|x p IH]; intros n q H; [destruct n; exact H|].
  destruct q as [|y q]; [discriminate|].
  destruct n as [d ro|es]; [destruct p; exact H|].
  cbn [get] in H.
  destruct (String.eqb y x) eqn:E.
  - apply String.eqb_eq in E as ->.
    destruct p as [|x' p]; cbn [alter_at].
    + cbn [get]. now rewrite assoc_del_same.
    + destruct (assoc x es) as [c|] eqn:A; cbn [get].
      * rewrite assoc_set_same. now apply IH.
      * now rewrite A.
  - destruct p as [|x' p]; cbn [alter_at].
    + cbn [get]. now rewrite assoc_del_other.
    + destruct (assoc x es) as [c|] eqn:A; cbn [get].
      * now rewrite assoc_set_other.
      * exact H.
Qed.

Lemma get_fresh_dirs_below p q :
  is_prefix q p = false -> get (fresh_dirs p) q = None.
Proof.
  revert q. induction p as [|x p IH]; intros [|y q] H; try discriminate.
  - reflexivity.
  - simpl in *. destruct (String.eqb y x); simpl in H; auto.
Qed.

(** [makedirs] leaves alone every path that does not lead to its
    target. *)
Lemma get_makedirs_node_other ok full p : forall n n' q,
  is_prefix q p = false ->
  makedirs_node ok full p n = Ok n' ->
  get n' q = get n q.
Proof.
  induction p as [|x p IH]; intros n n' q Hq H.
  - destruct n; simpl in H; [discriminate|]. destruct ok; [|discriminate].
    now injection H as <-.
  - destruct q as [|y q]; [discriminate|].
    destruct n as [d ro|es]; [discriminate|]. simpl in H, Hq.
    destruct (String.eqb y x) eqn:E.
    + apply String.eqb_eq in E as ->. simpl in Hq.
      destruct (assoc x es) as [c|] eqn:A.
      * destruct (makedirs_node ok full p c) as [c'| |] eqn:M; try discriminate.
        injection H as <-. cbn [get]. rewrite assoc_set_same, A. eauto.
      * injection H as <-. cbn [get]. rewrite assoc_set_same, A.
        now apply get_fresh_dirs_below.
    + assert (forall v, get (Dir (set_entry x v es)) (y :: q) = get (Dir es) (y :: q)) as Hset
          by (intros v; cbn [get]; now rewrite assoc_set_other).
      destruct (assoc x es) as [c|].
      * destruct (makedirs_node ok full p c); try discriminate.
        injection H as <-. apply Hset.
      * injection H as <-. apply Hset.
Qed.

Lemma get_makedirs_other ok p n n' q :
  is_prefix q p = false -> makedirs ok p n = Ok n' -> get n' q = get n q.
Proof. apply get_makedirs_node_other. Qed.

Lemma get_app n p r :
  get n (p ++ r) = match get n p with Some c => get c r | None => None end.
Proof.
  revert n. induction p as [|x p IH]; intros n; simpl; [reflexivity|].
  destruct n as [d ro|es]; [reflexivity|].
  destruct (assoc x es); auto.
Qed.

Lemma get_below_file d ro q : q <> [] -> get (File d ro) q = None.
Proof. destruct q; [contradiction | reflexivity]. Qed.

(** Writing a regular file where no directory stands leaves alone every
    path that does not lead to it. *)
Lemma get_put_file_other d ro p : forall n q,
  is_prefix q p = false ->
  match get n p with Some (Dir _) => False | _ => True end ->
  get (alter_at p (fun _ => Some (File d ro)) n) q = get n q.
Proof.
  induction p as [|x p IH]; intros n q Hq Hp; [destruct n; reflexivity|].
  destruct q as [|y q]; [discriminate|].
  destruct n as [d' ro'|es]; [destruct p; reflexivity|].
  simpl in Hq. cbn [get] in Hp.
  destruct (String.eqb y x) eqn:E.
  - apply String.eqb_eq in E as ->. simpl in Hq.
    destruct p as [|x' p]; cbn [alter_at].
    + destruct q as [|z q]; [discriminate|].
      cbn [get]. rewrite assoc_set_same.
      destruct (assoc x es) as [[?|?]|]; simpl in *; tauto.
    + destruct (assoc x es) as [c|] eqn:A; [|reflexivity].
      cbn [get]. rewrite assoc_set_same, A. now apply IH.
  - destruct p as [|x' p]; cbn [alter_at].
    + cbn [get]. now rewrite assoc_set_other.
    + destruct (assoc x es) as [c|] eqn:A; [|reflexivity].
      cbn [get]. now rewrite assoc_set_other.
Qed.

(** Rewriting an entry does not change whether a path that does not
    pass through it is a directory. *)
Lemma is_dir_alter_at f p : forall n q,
  is_prefix p q = false -> is_dir (alter_at p f n) q = is_dir n q.
Proof.
  unfold is_dir.
  induction p as [|x p IH]; intros n q Hq; [discriminate|].
  destruct n as [d ro|es]; [destruct p; reflexivity|].
  destruct q as [|y q].
  - destruct p; cbn [alter_at]; [destruct (f _)|destruct (assoc x es)]; reflexivity.
  - simpl in Hq. destruct (String.eqb x y) eqn:E.
    + apply String.eqb_eq in E as <-. simpl in Hq.
      destruct p as [|x' p]; [discriminate|]. cbn [alter_at].
      destruct (assoc x es) as [c|] eqn:A; [|reflexivity].
      cbn [get]. rewrite assoc_set_same, A. now apply IH.
    + rewrite String.eqb_sym in E.
      destruct p as [|x' p]; cbn [alter_at].
      * destruct (f _); cbn [get];
          [now rewrite assoc_set_other | now rewrite assoc_del_other].
      * destruct (assoc x es) as [c|] eqn:A; [|reflexivity].
        cbn [get]. now rewrite assoc_set_other.
Qed.

(** [makedirs] turns no directory into anything else. *)
Lemma is_dir_makedirs_node ok full p : forall n n' q,
  makedirs_node ok full p n = Ok n' ->
  is_dir n q = true -> is_dir n' q = true.
Proof.
  unfold is_dir.
  induction p as [|x p IH]; intros n n' q H Hq.
  - destruct n; simpl in H; [discriminate|]. destruct ok; [|discriminate].
    now injection H as <-.
  - destruct n as [d ro|es]; [discriminate|]. simpl in H.
    destruct q as [|y q].
    + destruct (assoc x es) as [c|].
      * destruct (makedirs_node ok full p c); try discriminate.
        now injection H as <-.
      * now injection H as <-.
    + cbn [get] in Hq.
      destruct (String.eqb y x) eqn:E.
      * apply String.eqb_eq in E as ->.
        destruct (assoc x es) as [c|] eqn:A; [|discriminate].
        destruct (makedirs_node ok full p c) as [c'| |] eqn:M; try discriminate.
        injection H as <-. cbn [get]. rewrite assoc_set_same. eauto.
      * assert (forall v, get (Dir (set_entry x v es)) (y :: q) = get (Dir es) (y :: q)) as Hset
            by (intros v; cbn [get]; now rewrite assoc_set_other).
        destruct (assoc x es) as [c|].
        -- destruct (makedirs_node ok full p c); try discriminate.
           injection H as <-. now rewrite Hset.
        -- injection H as <-. now rewrite Hset.
Qed.

Lemma is_dir_app n p r : is_dir n (p ++ r) = true -> is_dir n p = true.
Proof.
  unfold is_dir. rewrite get_app.
  destruct (get n p) as [[d ro|es]|]; try discriminate; [|reflexivity].
  destruct r; discriminate.
Qed.

(** Below an existing directory a missing entry can be created. *)
Lemma makedirs_node_child ok full s x : forall n,
  is_dir n s = true -> get n (s ++ [x]) = None ->
  exists n', makedirs_node ok full (s ++ [x]) n = Ok n' /\
             get n' (s ++ [x]) = Some (Dir []).
Proof.
  unfold is_dir.
  induction s as [|y s IH]; intros n Hd Hx.
  - destruct n as [d ro|es]; [discriminate|]. simpl in *.
    destruct (assoc x es) eqn:A.
    + discriminate.
    + eexists. split; [reflexivity|]. cbn [get]. now rewrite assoc_set_same.
  - destruct n as [d ro|es]; [discriminate|]. simpl in *.
    destruct (assoc y es) as [c|] eqn:A; [|discriminate].
    destruct (IH c Hd Hx) as (c' & M & G).
    rewrite M. eexists. split; [reflexivity|].
    cbn [get]. now rewrite assoc_set_same.
Qed.

Lemma get_fresh_dirs_self p : get (fresh_dirs p) p = Some (Dir []).
Proof.
  induction p as [|x p IH]; [reflexivity|].
  cbn [fresh_dirs get assoc]. now rewrite String.eqb_refl.
Qed.

(** A path that was missing is an empty directory once it is made. *)
Lemma makedirs_node_fresh ok full p : forall n n',
  makedirs_node ok full p n = Ok n' -> get n p = None ->
  get n' p = Some (Dir []).
Proof.
  induction p as [|x p IH]; intros n n' H G; [discriminate|].
  destruct n as [d ro|es]; [discriminate|]. simpl in H. cbn [get] in G.
  destruct (assoc x es) as [c|] eqn:A.
  - destruct (makedirs_node ok full p c) as [c'| |] eqn:M; try discriminate.
    injection H as <-. cbn [get]. rewrite assoc_set_same. eauto.
  - injection H as <-. cbn [get]. rewrite assoc_set_same.
    apply get_fresh_dirs_self.
Qed.

(** A regular file at the path: [FileExistsError], also with
    [exist_ok]. *)
Lemma makedirs_node_on_file ok full p : forall n,
  is_file n p = true -> makedirs_node ok full p n = Raise (FileExistsError full).
Proof.
  unfold is_file. induction p as [|x p IH]; intros n H.
  - destruct n; [reflexivity|discriminate].
  - destruct n as [d ro|es]; [discriminate|]. cbn [get] in H. simpl.
    destruct (assoc x es) as [c|]; [|discriminate]. now rewrite (IH c H).
Qed.

(** The pattern of lines 313-315 and 381-383: what is at [p] is removed
    with [rmtree] and [p] is made again.  When that goes through, [p]
    is an empty directory. *)
Lemma fresh_dir_made p n n' :
  p <> [] ->
  makedirs true p (if exists_ n p then rmtree p n else n) = Ok n' ->
  get n' p = Some (Dir []).
Proof.
  intros Hp. unfold exists_, rmtree, makedirs.
  destruct (get n p) as [[d ro|es]|] eqn:G; intros H.
  - rewrite makedirs_node_on_file in H; [discriminate|].
    unfold is_file. now rewrite G.
  - eapply makedirs_node_fresh; [exact H|]. now apply get_removed.
  - eapply makedirs_node_fresh; [exact H|exact G].
Qed.

End FSFacts.

(** ** Relations every step of a computation keeps *)

Section Keeps.

Variable R : node -> node -> Prop.
Hypothesis R_refl : forall n, R n n.
Hypothesis R_trans : forall a b c, R a b -> R b c -> R a c.

(** [c] takes a file system to one related to it, whether it returns,
    raises or hangs. *)
Definition keeps {A} (c : M A) : Prop :=
  forall s, R (fs s) (fs (snd (c s))).

Lemma keeps_ret {A} (a : A) : keeps (ret a).
Proof. intros s. apply R_refl. Qed.

Lemma keeps_raise {A} e : keeps (@raise A e).
Proof. intros s. apply R_refl. Qed.

Lemma keeps_lift {A} (o : outcome A) : keeps (lift o).
Proof. intros s. apply R_refl. Qed.

Lemma keeps_hang {A} : keeps (fun s => (@Hang A, s)).
Proof. intros s. apply R_refl. Qed.

Lemma keeps_read_fs : keeps read_fs.
Proof. intros s. apply R_refl. Qed.

Lemma keeps_emit e : keeps (emit e).
Proof. intros s. apply R_refl. Qed.

Lemma keeps_bind {A B} (c : M A) (k : A -> M B) :
  keeps c -> (forall a, keeps (k a)) -> keeps (bind c k).
Proof.
  intros Hc Hk s. unfold bind. specialize (Hc s).
  destruct (c s) as [[a|e|] s']; simpl in *; auto.
  eapply R_trans; [exact Hc | apply Hk].
Qed.

(** The continuation only matters at the state and value it is run
    with. *)
Lemma keeps_bind_at {A B} (c : M A) (k : A -> M B) :
  keeps c ->
  (forall s a s', c s = (Ok a, s') -> R (fs s') (fs (snd (k a s')))) ->
  keeps (bind c k).
Proof.
  intros Hc Hk s. unfold bind. specialize (Hc s). specialize (Hk s).
  destruct (c s) as [[a|e|] s']; simpl in *; auto.
  eapply R_trans; [exact Hc | now apply Hk].
Qed.

Lemma keeps_try_except {A} (c : M A) h :
  keeps c -> (forall e, keeps (h e)) -> keeps (try_except c h).
Proof.
  intros Hc Hh s. unfold try_except. specialize (Hc s).
  destruct (c s) as [[a|e|] s']; simpl in *; auto.
  destruct (is_Exception e); simpl; auto.
  eapply R_trans; [exact Hc | apply Hh].
Qed.

Lemma keeps_for_each {A} (l : list A) body :
  (forall a, In a l -> keeps (body a)) -> keeps (for_each l body).
Proof.
  induction l as [|a l IH]; intros H; simpl.
  - apply keeps_ret.
  - apply keeps_bind; [apply H; now left|].
    intros _. apply IH. intros b Hb. apply H. now right.
Qed.

Lemma keeps_when b c : keeps c -> keeps (when b c).
Proof. destruct b; simpl; auto using keeps_ret. Qed.

Lemma keeps_fs_call f :
  (forall n n', f n = Ok n' -> R n n') -> keeps (fs_call f).
Proof.
  intros H s. unfold fs_call. destruct (f (fs s)) eqn:E; simpl; auto.
Qed.

Lemma keeps_fs_update f : (forall n, R n (f n)) -> keeps (fs_update f).
Proof. intros H s. apply H. Qed.

Lemma keeps_plugin_print cfg lv m : keeps (plugin_print cfg lv m).
Proof.
  unfold plugin_print. destruct lv; try apply keeps_emit.
  destruct (debug cfg); [apply keeps_emit | apply keeps_ret].
Qed.

Lemma keeps_sleep z : keeps (sleep z).
Proof. unfold sleep. destruct (z <? 0)%Z; [apply keeps_raise | apply keeps_emit]. Qed.

Lemma keeps_decode valid : keeps (decode valid).
Proof. destruct valid; [apply keeps_ret | apply keeps_raise]. Qed.

Lemma keeps_decode_in_run b valid : keeps (decode_in_run b valid).
Proof. destruct b; [apply keeps_ret | apply keeps_decode]. Qed.

Lemma keeps_read_backup_old_world cfg : keeps (read_backup_old_world cfg).
Proof.
  unfold read_backup_old_world.
  destruct (restore_config_readable cfg); [apply keeps_ret | apply keeps_raise].
Qed.

(** [PRE_BACKUP] keeps what it keeps with the setting of the
    configuration. *)
Lemma keeps_pre_backup cfg req env :
  keeps (pre_backup_with cfg req env (backup_old_world_before_restore cfg)) ->
  keeps (pre_backup cfg req env).
Proof.
  intros K s. unfold pre_backup, bind, read_backup_old_world.
  destruct (restore_config_readable cfg); [apply K | apply R_refl].
Qed.

(** An archive tool keeps what its effect on the disk keeps. *)
Lemma keeps_run_compress cfg req env b :
  (forall n, R n (tool_write (old_backup_file_path cfg req env)
                             (compress_archive env) n)) ->
  keeps (run_compress cfg req env b).
Proof.
  intros Hw. unfold run_compress.
  destruct (compress_starts env); [|apply keeps_raise].
  apply keeps_bind; [apply keeps_read_fs|]. intros n.
  apply keeps_bind; [apply keeps_emit|]. intros _.
  apply keeps_bind; [apply keeps_fs_update, Hw|]. intros _.
  apply keeps_bind; [apply keeps_decode_in_run|]. intros _. apply keeps_ret.
Qed.

Lemma keeps_run_extract req env b :
  (forall n, R n (tool_extract env (temp_world_dir req) n)) ->
  keeps (run_extract req env b).
Proof.
  intros Hw. unfold run_extract.
  destruct (extract_starts env); [|apply keeps_raise].
  apply keeps_bind; [apply keeps_emit|]. intros _.
  apply keeps_bind; [apply keeps_fs_update, Hw|]. intros _.
  apply keeps_bind; [apply keeps_decode_in_run|]. intros _. apply keeps_ret.
Qed.

Lemma keeps_query env r : keeps (query env r).
Proof. destruct r; simpl; auto using keeps_raise, keeps_ret. Qed.

Lemma keeps_wait_loop env answers : keeps (wait_loop env answers).
Proof.
  induction answers as [|r answers IH]; simpl; [apply keeps_hang|].
  apply keeps_bind; [apply keeps_query|]. intros [|]; [|apply keeps_ret].
  apply keeps_bind; [apply keeps_emit | auto].
Qed.

Lemma keeps_wait_process cfg env : keeps (wait_process cfg env).
Proof.
  unfold wait_process. destruct (process_table env) as [|r answers];
    [apply keeps_hang|].
  apply keeps_bind; [apply keeps_query|]. intros [|].
  - apply keeps_bind; [apply keeps_plugin_print|]. intros _.
    apply keeps_bind; [apply keeps_wait_loop|]. intros _.
    apply keeps_plugin_print.
  - apply keeps_plugin_print.
Qed.

Lemma keeps_chdir p : keeps (chdir p).
Proof.
  unfold chdir. apply keeps_bind; [apply keeps_read_fs|].
  intros n. destruct (FS.get n p) as [[|]|]; auto using keeps_ret, keeps_raise.
Qed.

Lemma keeps_restart_phase cfg req env : keeps (restart_phase cfg req env).
Proof.
  unfold restart_phase.
  apply keeps_bind; [apply keeps_plugin_print|]. intros _.
  destruct (restart_status cfg); [|apply keeps_plugin_print].
  repeat (apply keeps_bind; [first [apply keeps_plugin_print | apply keeps_sleep]|]; intros _).
  apply keeps_try_except; [|intros; apply keeps_plugin_print].
  apply keeps_bind; [apply keeps_plugin_print|]. intros _.
  apply keeps_bind; [|intros; apply keeps_plugin_print].
  destruct (launch_raises env); [apply keeps_raise | apply keeps_emit].
Qed.

End Keeps.

(** Takes a goal [keeps R c] apart along the structure of [c], down to
    the file system calls and the branches. *)
Ltac keeps_steps T Rf :=
  repeat first
    [ apply (keeps_plugin_print _ Rf)
    | apply (keeps_emit _ Rf)
    | apply (keeps_ret _ Rf)
    | apply (keeps_raise _ Rf)
    | apply (keeps_read_fs _ Rf)
    | apply (keeps_lift _ Rf)
    | apply (keeps_sleep _ Rf)
    | apply (keeps_decode _ Rf)
    | apply (keeps_read_backup_old_world _ Rf)
    | apply (keeps_when _ Rf)
    | apply (keeps_bind _ T); [ | intros ? ]
    | apply (keeps_try_except _ T); [ | intros ? ]
    | apply (keeps_for_each _ Rf T); intros ? ? ].

(** ** What a copy plan writes to *)

Module PlanFacts.
Import FS.

Lemma pair_for_target src dst root x pr :
  pair_for src dst root x = Ok pr ->
  fst pr = root ++ [x] /\ exists rel, snd pr = dst ++ rel.
Proof.
  unfold pair_for. destruct (relative_to (root ++ [x]) src); try discriminate.
  intros [= <-]. simpl. eauto.
Qed.

Lemma pairs_for_targets src dst root names l :
  pairs_for src dst root names = Ok l ->
  forall sd, In sd l -> exists rel, snd sd = dst ++ rel.
Proof.
  revert l. induction names as [|x names IH]; intros l; simpl.
  - intros [= <-] sd [].
  - destruct (pair_for src dst root x) as [pr| |] eqn:P; try discriminate.
    destruct (pairs_for src dst root names) as [l'| |]; try discriminate.
    intros [= <-] sd [<-|H]; [|eauto].
    now apply pair_for_target in P as [_ ?].
Qed.

(** Every destination of the plan lies under [dst]. *)
Lemma collect_targets src dst walked plan :
  collect src dst walked = Ok plan ->
  forall sd, In sd (fst plan) \/ In sd (snd plan) ->
             exists rel, snd sd = dst ++ rel.
Proof.
  revert plan. induction walked as [|[[root dirs] files] walked IH]; intros plan; simpl.
  - intros [= <-] sd [[]|[]].
  - destruct (pairs_for src dst root dirs) as [ds| |] eqn:D; try discriminate.
    destruct (pairs_for src dst root files) as [fl| |] eqn:F; try discriminate.
    destruct (collect src dst walked) as [[ds' fl']| |]; try discriminate.
    intros [= <-] sd. simpl. rewrite !in_app_iff.
    intros [[H|H]|[H|H]].
    + exact (pairs_for_targets _ _ _ _ _ D sd H).
    + apply (IH _ eq_refl). now left.
    + exact (pairs_for_targets _ _ _ _ _ F sd H).
    + apply (IH _ eq_refl). now right.
Qed.

End PlanFacts.

(** ** What a directory copy keeps *)

Section CopyKeeps.

Variable R : node -> node -> Prop.
Hypothesis R_refl : forall n, R n n.
Hypothesis R_trans : forall a b c, R a b -> R b c -> R a c.

Variable cfg : configuration.
Variable dst : path.

(** Creating a directory under [dst] and copying a file to a place
    under [dst] keep the relation. *)
Hypothesis R_makedirs :
  forall rel ok n n', FS.makedirs ok (dst ++ rel) n = Ok n' -> R n n'.
Hypothesis R_copy2 :
  forall rel src n n', FS.copy2 src (dst ++ rel) n = Ok n' -> R n n'.

Lemma keeps_copy_file_under src rel :
  keeps R (copy_file_with_progress cfg src (dst ++ rel)).
Proof.
  unfold copy_file_with_progress. keeps_steps R_trans R_refl.
  apply (keeps_fs_call _ R_refl). apply R_copy2.
Qed.

Lemma keeps_ensure_dir_under src rel :
  keeps R (ensure_dir cfg (src, dst ++ rel)).
Proof.
  unfold ensure_dir. keeps_steps R_trans R_refl.
  apply (keeps_fs_call _ R_refl). apply R_makedirs.
Qed.

Lemma in_indexed_from {A} (l : list A) i0 i a :
  In (i, a) (indexed_from i0 l) -> In a l.
Proof.
  revert i0. induction l as [|b l IH]; simpl; [tauto|].
  intros i0 [[= _ <-]|H]; [now left | right; eauto].
Qed.

(** So does the whole copy into [dst]. *)
Lemma keeps_copy_dir_under src k :
  keeps R (copy_dir_with_progress cfg src dst k).
Proof.
  unfold copy_dir_with_progress, copy_core.
  apply (keeps_bind _ R_trans); [apply (keeps_read_fs _ R_refl)|].
  intros n0. apply (keeps_bind _ R_trans).
  { keeps_steps R_trans R_refl.
    apply (keeps_fs_call _ R_refl). intros n n'.
    rewrite <- (app_nil_r dst) at 1. apply R_makedirs. }
  intros _. apply (keeps_bind _ R_trans); [apply (keeps_read_fs _ R_refl)|].
  intros n. apply (keeps_bind_at _ R_trans); [apply (keeps_lift _ R_refl)|].
  intros s plan s' Hplan. unfold lift in Hplan. injection Hplan as Hplan <-.
  pose proof (PlanFacts.collect_targets _ _ _ _ Hplan) as Htargets.
  revert s. change (keeps R
    (for_each (fst plan) (ensure_dir cfg);;;
     batches <- lift (Batching.make_batches (snd plan) k);;
     for_each (indexed_from 0 batches)
       (fun ib => emit (ThreadStart (fst ib));;; copy_files cfg (snd ib));;;
     for_each (indexed_from 0 batches) (fun ib => emit (ThreadJoin (fst ib))))).
  apply (keeps_bind _ R_trans).
  { apply (keeps_for_each _ R_refl R_trans).
    intros [sp dp] Hin. destruct (Htargets _ (or_introl Hin)) as [rel E].
    simpl in E. subst dp. apply keeps_ensure_dir_under. }
  intros _. apply (keeps_bind_at _ R_trans); [apply (keeps_lift _ R_refl)|].
  intros s batches s' Hb. unfold lift in Hb. injection Hb as Hb <-.
  assert (Hin : forall b, In b batches -> forall sd, In sd b -> In sd (snd plan)).
  { destruct (Z.eq_dec k 0) as [->|Hk].
    - unfold Batching.make_batches, Batching.batch_size, Batching.floordiv in Hb.
      simpl in Hb. discriminate.
    - destruct (BatchingFacts.make_batches_concat (snd plan) k Hk) as (bs & Hbs & Hcat & _).
      rewrite Hb in Hbs. injection Hbs as <-.
      intros b Hbin sd Hsdin. rewrite <- Hcat. apply in_concat. eauto. }
  revert s. change (keeps R
    (for_each (indexed_from 0 batches)
       (fun ib => emit (ThreadStart (fst ib));;; copy_files cfg (snd ib));;;
     for_each (indexed_from 0 batches) (fun ib => emit (ThreadJoin (fst ib))))).
  apply (keeps_bind _ R_trans).
  - apply (keeps_for_each _ R_refl R_trans). intros [i b] Hib. simpl.
    apply (keeps_bind _ R_trans); [apply (keeps_emit _ R_refl)|].
    intros _. unfold copy_files.
    apply (keeps_for_each _ R_refl R_trans). intros [sp dp] Hsd.
    apply in_indexed_from in Hib.
    destruct (Htargets _ (or_intror (Hin b Hib _ Hsd))) as [rel E].
    simpl in E. subst dp. apply keeps_copy_file_under.
  - intros _. keeps_steps R_trans R_refl.
Qed.

End CopyKeeps.

(** ** Paths a run leaves alone *)

Section Untouched.

Variable w : path.

(** The entry at [w], with all that is below it, is the same in both
    file systems. *)
Definition same_at (n n' : node) : Prop := FS.get n' w = FS.get n w.

Lemma same_at_refl n : same_at n n.
Proof. reflexivity. Qed.

Lemma same_at_trans a b c : same_at a b -> same_at b c -> same_at a c.
Proof. unfold same_at. congruence. Qed.

Lemma same_at_alter f p n :
  FS.diverge w p = true -> same_at n (FS.alter_at p f n).
Proof. intros H. unfold same_at. now apply FSFacts.get_alter_at_diverge. Qed.

Lemma same_at_rmtree p n : FS.diverge w p = true -> same_at n (FS.rmtree p n).
Proof.
  intros H. destruct (FSFacts.rmtree_cases p n) as [-> | ->];
    [now apply same_at_alter | apply same_at_refl].
Qed.

Lemma same_at_makedirs ok p n n' :
  FS.is_prefix w p = false -> FS.makedirs ok p n = Ok n' -> same_at n n'.
Proof. intros H M. unfold same_at. eapply FSFacts.get_makedirs_other; eauto. Qed.

Lemma same_at_copy2 src dst n n' :
  FS.diverge w dst = true -> FS.copy2 src dst n = Ok n' -> same_at n n'.
Proof.
  intros H. unfold FS.copy2.
  destruct (FS.get n src) as [[d ro|]|]; try discriminate.
  set (target := if FS.is_dir n dst then dst ++ FS.basename src else dst).
  assert (Ht : FS.diverge w target = true).
  { unfold target. destruct (FS.is_dir n dst); auto using PathFacts.diverge_app_r. }
  destruct target as [|x t] eqn:T; [discriminate|].
  destruct (negb _); [discriminate|].
  destruct (FS.get n (x :: t)) as [[? [|]|]|]; try discriminate;
    intros E;
    assert (E' : n' = FS.alter_at (x :: t) (fun _ => Some (File d ro)) n)
      by congruence;
    rewrite E'; now apply same_at_alter.
Qed.

Lemma keeps_copy_dir cfg src dst k :
  FS.diverge w dst = true ->
  keeps same_at (copy_dir_with_progress cfg src dst k).
Proof.
  intros H. apply (keeps_copy_dir_under _ same_at_refl same_at_trans).
  - intros rel ok n n'. apply same_at_makedirs.
    now apply PathFacts.diverge_not_prefix, PathFacts.diverge_app_r.
  - intros rel s n n'. apply same_at_copy2. now apply PathFacts.diverge_app_r.
Qed.

End Untouched.

(** ** The directories of a run *)

Module Layout.
Import FS PathFacts.

Lemma world_is req :
  current_world_dir req = server_dir req ++ "worlds"%string :: [world_name req].
Proof. unfold current_world_dir, worlds_dir. now rewrite <- app_assoc. Qed.

Lemma temp_world_is req :
  temp_world_dir req = server_dir req ++ "temp_easybackuper"%string :: [world_name req].
Proof. unfold temp_world_dir, temp_dir. now rewrite <- app_assoc. Qed.

Lemma temp_world_backup_is req :
  temp_world_backup_dir req
  = server_dir req ++ "temp_easybackuper_backup"%string :: [world_name req].
Proof. unfold temp_world_backup_dir, temp_backup_dir. now rewrite <- app_assoc. Qed.

Lemma world_diverge_temp req :
  diverge (current_world_dir req) (temp_dir req) = true.
Proof. rewrite world_is. now apply diverge_after_stem. Qed.

Lemma world_diverge_temp_world req :
  diverge (current_world_dir req) (temp_world_dir req) = true.
Proof. apply diverge_app_r, world_diverge_temp. Qed.

Lemma world_diverge_temp_backup req :
  diverge (current_world_dir req) (temp_backup_dir req) = true.
Proof. rewrite world_is. now apply diverge_after_stem. Qed.

Lemma world_diverge_temp_world_backup req :
  diverge (current_world_dir req) (temp_world_backup_dir req) = true.
Proof. apply diverge_app_r, world_diverge_temp_backup. Qed.

Lemma world_not_prefix_logs req :
  is_prefix (current_world_dir req)
            (server_dir req ++ ["logs"%string; "EasyBackuper"%string]) = false.
Proof. rewrite world_is. now apply not_prefix_after_stem. Qed.

(** A path is never a prefix of a shorter one. *)
Lemma longer_not_prefix s x r : is_prefix (s ++ x :: r) s = false.
Proof. induction s as [|y s IH]; simpl; [reflexivity|]. now rewrite String.eqb_refl. Qed.

Lemma not_prefix_app_r p q r :
  is_prefix p (q ++ r) = false -> is_prefix p q = false.
Proof.
  intros H. destruct (is_prefix p q) eqn:E; [|reflexivity].
  apply is_prefix_inv in E as [t ->]. rewrite <- app_assoc in H.
  now rewrite is_prefix_app in H.
Qed.

Lemma not_prefix_app_l p q r :
  is_prefix p q = false -> is_prefix (p ++ r) q = false.
Proof.
  revert q. induction p as [|x p IH]; intros [|y q]; simpl; try discriminate; auto.
  destruct (String.eqb x y); simpl; auto.
Qed.

Lemma prefix_snoc p s x :
  is_prefix p (s ++ [x]) = true -> p = s ++ [x] \/ is_prefix p s = true.
Proof.
  revert s. induction p as [|y p IH]; intros s H; [now right|].
  destruct s as [|z s]; simpl in *.
  - apply andb_true_iff in H as [E H]. apply String.eqb_eq in E as ->.
    destruct p; [now left | discriminate].
  - apply andb_true_iff in H as [E H]. rewrite E. simpl.
    apply String.eqb_eq in E as ->.
    destruct (IH _ H) as [->|P]; [now left | now right].
Qed.

End Layout.

(** ** The world directory before the SWAP phase *)

Section WorldUntouched.

Variable cfg : configuration.
Variable req : request.
Variable env : environment.

Let world := current_world_dir req.

Lemma same_at_tool_write w p data n :
  FS.is_prefix w p = false -> same_at w n (tool_write p data n).
Proof.
  intros H. unfold same_at, tool_write. destruct data as [d|]; [|reflexivity].
  destruct (FS.get n p) as [[d' ro|es]|] eqn:G; try reflexivity;
    apply FSFacts.get_put_file_other; auto; now rewrite G.
Qed.

Lemma keeps_world_setup_logging : keeps (same_at world) (setup_logging req).
Proof.
  apply (keeps_fs_call _ (same_at_refl world)). intros n n'.
  apply same_at_makedirs. apply Layout.world_not_prefix_logs.
Qed.

Lemma keeps_world_run_compress b :
  FS.is_prefix world (old_backup_file_path cfg req env) = false ->
  keeps (same_at world) (run_compress cfg req env b).
Proof.
  intros H. apply (keeps_run_compress _ (same_at_refl world) (same_at_trans world)).
  intros n0. now apply same_at_tool_write.
Qed.

Lemma keeps_world_rmtree p :
  FS.diverge world p = true -> keeps (same_at world) (fs_update (FS.rmtree p)).
Proof. intros H. apply keeps_fs_update. intros n. now apply same_at_rmtree. Qed.

Lemma keeps_world_pre_backup_snapshot :
  FS.is_prefix world (old_backup_file_path cfg req env) = false ->
  keeps (same_at world) (pre_backup_snapshot cfg req).
Proof.
  intros H. unfold pre_backup_snapshot.
  pose proof (same_at_trans world) as T. pose proof (same_at_refl world) as Rf.
  pose proof (keeps_world_rmtree _ (Layout.world_diverge_temp_backup req)) as Hrm.
  apply (keeps_bind _ T).
  { apply (keeps_fs_call _ Rf). intros n n'. apply same_at_makedirs.
    unfold old_backup_file_path in H. now apply Layout.not_prefix_app_r in H. }
  intros _. apply (keeps_bind _ T); [apply (keeps_read_fs _ Rf)|]. intros n.
  apply (keeps_bind _ T); [apply (keeps_when _ Rf), Hrm|]. intros _.
  apply (keeps_bind _ T).
  { apply (keeps_fs_call _ Rf). intros ? ?. apply same_at_makedirs.
    apply PathFacts.diverge_not_prefix, Layout.world_diverge_temp_backup. }
  intros _. apply (keeps_bind _ T); [apply (keeps_plugin_print _ Rf)|]. intros _.
  apply keeps_copy_dir, Layout.world_diverge_temp_world_backup.
Qed.

Lemma keeps_world_pre_backup_archive :
  FS.is_prefix world (old_backup_file_path cfg req env) = false ->
  keeps (same_at world) (pre_backup_archive cfg req env).
Proof.
  intros H. unfold pre_backup_archive.
  pose proof (same_at_trans world) as T. pose proof (same_at_refl world) as Rf.
  pose proof (keeps_world_rmtree _ (Layout.world_diverge_temp_backup req)) as Hrm.
  apply (keeps_bind _ T).
  - destruct (use_7z cfg).
    + apply (keeps_bind _ T); [apply (keeps_read_fs _ Rf)|]. intros n1.
      destruct (negb (FS.exists_ n1 (exe_path cfg req))).
      * keeps_steps T Rf. exact Hrm.
      * apply (keeps_bind _ T); [apply (keeps_plugin_print _ Rf)|]. intros _.
        apply (keeps_bind _ T); [now apply keeps_world_run_compress|]. intros rc.
        destruct (negb (rc =? 0)%Z); keeps_steps T Rf. exact Hrm.
    + apply (keeps_bind _ T); [apply (keeps_plugin_print _ Rf)|]. intros _.
      apply (keeps_bind _ T); [now apply keeps_world_run_compress|]. intros rc.
      destruct (negb (rc =? 0)%Z); keeps_steps T Rf.
  - intros [c|]; keeps_steps T Rf. exact Hrm.
Qed.

Lemma keeps_world_pre_backup :
  (backup_old_world_before_restore cfg = true ->
   FS.is_prefix world (old_backup_file_path cfg req env) = false) ->
  keeps (same_at world) (pre_backup cfg req env).
Proof.
  intros H.
  pose proof (same_at_trans world) as T. pose proof (same_at_refl world) as Rf.
  apply (keeps_pre_backup _ Rf). unfold pre_backup_with.
  apply (keeps_bind _ T); [apply (keeps_plugin_print _ Rf)|]. intros _.
  destruct (backup_old_world_before_restore cfg); [|keeps_steps T Rf].
  specialize (H eq_refl).
  apply (keeps_bind _ T); [apply (keeps_plugin_print _ Rf)|]. intros _.
  apply (keeps_try_except _ T); [|intros e; keeps_steps T Rf].
  apply (keeps_bind _ T); [now apply keeps_world_pre_backup_snapshot|].
  intros _. now apply keeps_world_pre_backup_archive.
Qed.

Lemma keeps_world_before_extract :
  (backup_old_world_before_restore cfg = true ->
   FS.is_prefix world (old_backup_file_path cfg req env) = false) ->
  keeps (same_at world) (before_extract cfg req env).
Proof.
  intros H. unfold before_extract.
  pose proof (same_at_trans world) as T. pose proof (same_at_refl world) as Rf.
  apply (keeps_bind _ T); [apply keeps_world_setup_logging|]. intros _.
  apply (keeps_bind _ T); [apply (keeps_chdir _ Rf T)|]. intros _.
  apply (keeps_bind _ T); [apply (keeps_wait_process _ Rf T)|]. intros _.
  now apply keeps_world_pre_backup.
Qed.

Lemma keeps_world_run_extract b :
  keeps (same_at world) (run_extract req env b).
Proof.
  apply (keeps_run_extract _ (same_at_refl world) (same_at_trans world)).
  intros n. unfold tool_extract.
  destruct (extract_entries env); [|reflexivity].
  apply same_at_alter, Layout.world_diverge_temp_world.
Qed.

Lemma keeps_world_extract_phase :
  keeps (same_at world) (extract_phase cfg req env).
Proof.
  unfold extract_phase.
  pose proof (same_at_trans world) as T. pose proof (same_at_refl world) as Rf.
  pose proof (keeps_world_rmtree _ (Layout.world_diverge_temp req)) as Hrm.
  apply (keeps_bind _ T); [apply (keeps_plugin_print _ Rf)|]. intros _.
  apply (keeps_bind _ T); [apply (keeps_read_fs _ Rf)|]. intros n.
  apply (keeps_bind _ T); [apply (keeps_when _ Rf), Hrm|]. intros _.
  apply (keeps_bind _ T).
  { apply (keeps_fs_call _ Rf). intros ? ?. apply same_at_makedirs.
    apply PathFacts.diverge_not_prefix, Layout.world_diverge_temp. }
  intros _. apply (keeps_bind _ T); [apply (keeps_plugin_print _ Rf)|]. intros _.
  destruct (use_7z cfg).
  - apply (keeps_bind _ T); [apply (keeps_read_fs _ Rf)|]. intros n1.
    destruct (negb (FS.exists_ n1 (exe_path cfg req))).
    + keeps_steps T Rf. exact Hrm.
    + apply (keeps_bind _ T); [apply (keeps_plugin_print _ Rf)|]. intros _.
      apply (keeps_bind _ T); [apply keeps_world_run_extract|]. intros rc.
      destruct (negb (rc =? 0)%Z); keeps_steps T Rf. exact Hrm.
  - apply (keeps_bind _ T); [apply (keeps_plugin_print _ Rf)|]. intros _.
    apply (keeps_bind _ T).
    { apply (keeps_fs_call _ Rf). intros ? ?. apply same_at_makedirs.
      apply PathFacts.diverge_not_prefix, Layout.world_diverge_temp_world. }
    intros _.
    apply (keeps_bind _ T); [apply keeps_world_run_extract|]. intros rc.
    destruct (negb (rc =? 0)%Z); keeps_steps T Rf. exact Hrm.
Qed.

End WorldUntouched.

(** ** The server directory stays a directory *)

Section DirStays.

Variable q : path.

Definition dir_stays (n n' : node) : Prop :=
  FS.is_dir n q = true -> FS.is_dir n' q = true.

Lemma dir_stays_refl n : dir_stays n n.
Proof. exact (fun H => H). Qed.

Lemma dir_stays_trans a b c : dir_stays a b -> dir_stays b c -> dir_stays a c.
Proof. unfold dir_stays. auto. Qed.

Lemma dir_stays_makedirs ok p n n' :
  FS.makedirs ok p n = Ok n' -> dir_stays n n'.
Proof. intros H Hq. eapply FSFacts.is_dir_makedirs_node; eauto. Qed.

Lemma dir_stays_alter f p n :
  FS.is_prefix p q = false -> dir_stays n (FS.alter_at p f n).
Proof. intros H Hq. now rewrite FSFacts.is_dir_alter_at. Qed.

Lemma dir_stays_copy2 src dst n n' :
  FS.is_prefix dst q = false -> FS.copy2 src dst n = Ok n' -> dir_stays n n'.
Proof.
  intros H. unfold FS.copy2.
  destruct (FS.get n src) as [[d ro|]|]; try discriminate.
  set (target := if FS.is_dir n dst then dst ++ FS.basename src else dst).
  assert (Ht : FS.is_prefix target q = false).
  { unfold target. destruct (FS.is_dir n dst); auto using Layout.not_prefix_app_l. }
  destruct target as [|x t] eqn:T; [discriminate|].
  destruct (negb _); [discriminate|].
  destruct (FS.get n (x :: t)) as [[? [|]|]|]; try discriminate;
    intros E;
    assert (E' : n' = FS.alter_at (x :: t) (fun _ => Some (File d ro)) n)
      by congruence;
    rewrite E'; now apply dir_stays_alter.
Qed.

Lemma dir_stays_tool_write p data n : dir_stays n (tool_write p data n).
Proof.
  intros Hq. unfold tool_write. destruct data as [d|]; [|assumption].
  destruct (FS.is_prefix p q) eqn:P.
  - apply PathFacts.is_prefix_inv in P as [r ->].
    pose proof (FSFacts.is_dir_app _ _ _ Hq) as Hp. unfold FS.is_dir in Hp.
    destruct (FS.get n p) as [[? ?|?]|]; try discriminate. assumption.
  - destruct (FS.get n p) as [[? ?|?]|]; try assumption;
      now rewrite FSFacts.is_dir_alter_at.
Qed.

Lemma keeps_dir_copy_dir cfg src dst k :
  FS.is_prefix dst q = false ->
  keeps dir_stays (copy_dir_with_progress cfg src dst k).
Proof.
  intros H. apply (keeps_copy_dir_under _ dir_stays_refl dir_stays_trans).
  - intros rel ok n n'. apply dir_stays_makedirs.
  - intros rel s n n'. apply dir_stays_copy2. now apply Layout.not_prefix_app_l.
Qed.

End DirStays.

Section ServerDirStays.

Variable cfg : configuration.
Variable req : request.
Variable env : environment.

Let sd := server_dir req.

Lemma keeps_dir_rmtree x r :
  keeps (dir_stays sd) (fs_update (FS.rmtree (sd ++ x :: r))).
Proof.
  apply keeps_fs_update. intros n.
  destruct (FSFacts.rmtree_cases (sd ++ x :: r) n) as [-> | ->];
    [|apply dir_stays_refl].
  apply dir_stays_alter. apply Layout.longer_not_prefix.
Qed.

Lemma keeps_dir_run_compress b :
  keeps (dir_stays sd) (run_compress cfg req env b).
Proof.
  apply (keeps_run_compress _ (dir_stays_refl sd) (dir_stays_trans sd)).
  intros n0. apply dir_stays_tool_write.
Qed.

Lemma keeps_dir_pre_backup : keeps (dir_stays sd) (pre_backup cfg req env).
Proof.
  pose proof (dir_stays_trans sd) as T. pose proof (dir_stays_refl sd) as Rf.
  apply (keeps_pre_backup _ Rf).
  unfold pre_backup_with, pre_backup_snapshot, pre_backup_archive.
  pose proof (keeps_dir_rmtree "temp_easybackuper_backup"%string []) as Hrm.
  assert (Hmk : forall ok p, keeps (dir_stays sd) (fs_call (FS.makedirs ok p))).
  { intros ok p. apply (keeps_fs_call _ Rf). intros n n'. apply dir_stays_makedirs. }
  apply (keeps_bind _ T); [apply (keeps_plugin_print _ Rf)|]. intros _.
  destruct (backup_old_world_before_restore cfg); [|keeps_steps T Rf].
  apply (keeps_bind _ T); [apply (keeps_plugin_print _ Rf)|]. intros _.
  apply (keeps_try_except _ T); [|intros e; keeps_steps T Rf].
  apply (keeps_bind _ T).
  { apply (keeps_bind _ T); [apply Hmk|].
    intros _. apply (keeps_bind _ T); [apply (keeps_read_fs _ Rf)|]. intros n.
    apply (keeps_bind _ T); [apply (keeps_when _ Rf), Hrm|]. intros _.
    apply (keeps_bind _ T); [apply Hmk|].
    intros _. apply (keeps_bind _ T); [apply (keeps_plugin_print _ Rf)|]. intros _.
    apply keeps_dir_copy_dir. rewrite Layout.temp_world_backup_is.
    apply Layout.longer_not_prefix. }
  intros _. apply (keeps_bind _ T).
  - destruct (use_7z cfg).
    + apply (keeps_bind _ T); [apply (keeps_read_fs _ Rf)|]. intros n1.
      destruct (negb (FS.exists_ n1 (exe_path cfg req))).
      * keeps_steps T Rf. exact Hrm.
      * apply (keeps_bind _ T); [apply (keeps_plugin_print _ Rf)|]. intros _.
        apply (keeps_bind _ T); [now apply keeps_dir_run_compress|]. intros rc.
        destruct (negb (rc =? 0)%Z); keeps_steps T Rf. exact Hrm.
    + apply (keeps_bind _ T); [apply (keeps_plugin_print _ Rf)|]. intros _.
      apply (keeps_bind _ T); [now apply keeps_dir_run_compress|]. intros rc.
      destruct (negb (rc =? 0)%Z); keeps_steps T Rf.
  - intros [c|]; keeps_steps T Rf. exact Hrm.
Qed.

(** When the run gets to the EXTRACT phase the server directory is a
    directory. *)
Lemma server_dir_before_extract s r s1 :
  before_extract cfg req env s = (Ok r, s1) ->
  FS.is_dir (fs s1) sd = true.
Proof.
  unfold before_extract. unfold bind at 1.
  destruct (setup_logging req s) as [[[]|e|] sA]; try discriminate.
  unfold bind at 1. unfold chdir at 1. unfold bind at 1, read_fs at 1.
  destruct (FS.get (fs sA) (server_dir req)) as [[d ro|es]|] eqn:G;
    try discriminate.
  unfold ret at 1. unfold bind at 1.
  pose proof (keeps_wait_process _ (dir_stays_refl sd) (dir_stays_trans sd) cfg env sA) as HW.
  destruct (wait_process cfg env sA) as [[[]|e|] sB]; try discriminate.
  intros HP.
  pose proof (keeps_dir_pre_backup sB) as HB. rewrite HP in HB. simpl in *.
  apply HB, HW. unfold FS.is_dir, sd. now rewrite G.
Qed.

End ServerDirStays.

(** ** Running a computation step by step *)

Lemma run_emit {B} e (k : unit -> M B) s :
  bind (emit e) k s = k tt (mkState (fs s) (events s ++ [e])).
Proof. reflexivity. Qed.

Lemma run_read_fs {B} (k : node -> M B) s :
  bind read_fs k s = k (fs s) s.
Proof. reflexivity. Qed.

Lemma run_fs_update {B} f (k : unit -> M B) s :
  bind (fs_update f) k s = k tt (mkState (f (fs s)) (events s)).
Proof. reflexivity. Qed.

Lemma run_fs_call {B} f (k : unit -> M B) s n' :
  f (fs s) = Ok n' ->
  bind (fs_call f) k s = k tt (mkState n' (events s)).
Proof. intros H. unfold bind, fs_call. now rewrite H. Qed.

Lemma run_ret {A B} (a : A) (k : A -> M B) s : bind (ret a) k s = k a s.
Proof. reflexivity. Qed.

Lemma run_bind_assoc {A B C} (c : M A) (k : A -> M B) (h : B -> M C) s :
  bind (bind c k) h s = bind c (fun a => bind (k a) h) s.
Proof. unfold bind. destruct (c s) as [[a|e|] s']; reflexivity. Qed.

Lemma existsb_snoc {A} (f : A -> bool) l a :
  f a = true -> existsb f (l ++ [a]) = true.
Proof. intros H. rewrite existsb_app. simpl. rewrite H. apply orb_true_iff. right. reflexivity. Qed.

(** ** Runs of the archive tools *)

(** Unpacking into an empty directory leaves what the archive holds. *)
Lemma overlay_empty es : overlay (Dir []) (Dir es) = Dir es.
Proof.
  cbn [overlay map app]. f_equal.
  induction es as [|e es IH]; [reflexivity|]. simpl. f_equal. exact IH.
Qed.

(** A tool that starts and whose output decodes answers with its return
    code, its effect on the disk done and its call recorded. *)
Lemma run_extract_done {B} req env b (k : Z -> M B) st :
  extract_starts env = true ->
  (b = Tar -> extract_decodes env = true) ->
  bind (run_extract req env b) k st
  = k (extract_returncode env)
      (mkState (tool_extract env (temp_world_dir req) (fs st))
               (events st ++ [RunExtract b (backup_file req) (temp_world_dir req)])).
Proof.
  intros Hs Hd. unfold run_extract. rewrite Hs.
  destruct b; [reflexivity|]. unfold decode_in_run. rewrite (Hd eq_refl).
  reflexivity.
Qed.

Lemma run_extract_returned req env b st rc st' :
  run_extract req env b st = (Ok rc, st') ->
  extract_starts env = true /\
  (b = Tar -> extract_decodes env = true) /\
  rc = extract_returncode env /\
  st' = mkState (tool_extract env (temp_world_dir req) (fs st))
                (events st ++ [RunExtract b (backup_file req) (temp_world_dir req)]).
Proof.
  unfold run_extract. destruct (extract_starts env); [|discriminate].
  destruct b; cbn [decode_in_run].
  - intros [= <- <-]. repeat split. discriminate.
  - destruct (extract_decodes env); [|discriminate].
    intros [= <- <-]. repeat split.
Qed.

Lemma run_compress_done {B} cfg req env b (k : Z -> M B) st :
  compress_starts env = true ->
  (b = Tar -> compress_decodes env = true) ->
  bind (run_compress cfg req env b) k st
  = k (compress_returncode env)
      (mkState (tool_write (old_backup_file_path cfg req env)
                           (compress_archive env) (fs st))
               (events st ++
                [RunCompress b (old_backup_file_path cfg req env)
                             (temp_world_backup_dir req)
                             (FS.get (fs st) (temp_world_backup_dir req))])).
Proof.
  intros Hs Hd. unfold run_compress. rewrite Hs.
  destruct b; [reflexivity|]. unfold decode_in_run. rewrite (Hd eq_refl).
  reflexivity.
Qed.

Lemma run_compress_returned cfg req env b st rc st' :
  run_compress cfg req env b st = (Ok rc, st') ->
  compress_starts env = true /\
  (b = Tar -> compress_decodes env = true) /\
  rc = compress_returncode env /\
  st' = mkState (tool_write (old_backup_file_path cfg req env)
                            (compress_archive env) (fs st))
                (events st ++
                 [RunCompress b (old_backup_file_path cfg req env)
                              (temp_world_backup_dir req)
                              (FS.get (fs st) (temp_world_backup_dir req))]).
Proof.
  unfold run_compress. destruct (compress_starts env); [|discriminate].
  destruct b; cbn [decode_in_run].
  - intros [= <- <-]. repeat split. discriminate.
  - destruct (compress_decodes env); [|discriminate].
    intros [= <- <-]. repeat split.
Qed.

(** ** EXTRACT *)

Section ExtractFails.
Variable cfg : configuration.
Variable req : request.
Variable env : environment.

Lemma temp_dir_nonempty : temp_dir req <> [].
Proof. unfold temp_dir. now destruct (server_dir req). Qed.

(** The staging directory is made afresh: what was there is removed and
    an empty directory created; nothing appears elsewhere.  A regular
    file of that name is in the way. *)
Lemma temp_dir_ready {B} (k : M B) s :
  FS.is_dir (fs s) (server_dir req) = true ->
  FS.is_file (fs s) (temp_dir req) = false ->
  exists n1,
    (n <- read_fs ;;
     when (FS.exists_ n (temp_dir req)) (fs_update (FS.rmtree (temp_dir req))) ;;;
     fs_call (FS.makedirs true (temp_dir req)) ;;; k) s
    = k (mkState n1 (events s)) /\
    FS.get n1 (temp_dir req) = Some (Dir []) /\
    (forall q, FS.is_prefix q (temp_dir req) = false ->
               FS.get (fs s) q = None -> FS.get n1 q = None).
Proof.
  intros Hsd Hnf. rewrite run_read_fs.
  set (n0 := if FS.exists_ (fs s) (temp_dir req)
             then FS.rmtree (temp_dir req) (fs s) else fs s).
  assert (H0 : FS.get n0 (temp_dir req) = None).
  { unfold n0, FS.exists_. destruct (FS.get (fs s) (temp_dir req)) eqn:G; [|exact G].
    apply FSFacts.get_rmtree_gone; [apply temp_dir_nonempty|exact Hnf]. }
  assert (H1 : FS.is_dir n0 (server_dir req) = true).
  { unfold n0. destruct (FS.exists_ _ _); [|exact Hsd].
    destruct (FSFacts.rmtree_cases (temp_dir req) (fs s)) as [-> | ->]; [|exact Hsd].
    rewrite FSFacts.is_dir_alter_at; [exact Hsd|].
    apply Layout.longer_not_prefix. }
  destruct (FSFacts.makedirs_node_child true (temp_dir req) (server_dir req)
              "temp_easybackuper"%string n0 H1 H0) as (n1 & Hmk & G).
  exists n1. split; [|split].
  - assert (E : forall h : unit -> M B,
               bind (when (FS.exists_ (fs s) (temp_dir req))
                          (fs_update (FS.rmtree (temp_dir req)))) h s
               = h tt (mkState n0 (events s))).
    { intros h. unfold n0, when. destruct (FS.exists_ _ _); [reflexivity|].
      destruct s; reflexivity. }
    rewrite E. cbv beta. rewrite (run_fs_call _ _ _ n1); [reflexivity|exact Hmk].
  - exact G.
  - intros q Hq Hn.
    rewrite (FSFacts.get_makedirs_node_other _ _ _ _ _ _ Hq Hmk).
    unfold n0. destruct (FS.exists_ _ _); [|exact Hn].
    destruct (FSFacts.rmtree_cases (temp_dir req) (fs s)) as [-> | ->]; [|exact Hn].
    now apply FSFacts.get_remove_none.
Qed.

Lemma temp_dir_gone n :
  FS.is_file n (temp_dir req) = false ->
  FS.exists_ (FS.rmtree (temp_dir req) n) (temp_dir req) = false.
Proof.
  intros H. unfold FS.exists_.
  rewrite FSFacts.get_rmtree_gone; [reflexivity|apply temp_dir_nonempty|exact H].
Qed.

Lemma dir_not_file n p : FS.is_dir n p = true -> FS.is_file n p = false.
Proof.
  unfold FS.is_dir, FS.is_file. now destruct (FS.get n p) as [[d ro|es]|].
Qed.

(** The staging directory stays a directory when the tool has unpacked
    below it. *)
Lemma staging_dir_after_tool n :
  FS.is_dir n (temp_dir req) = true ->
  FS.is_dir (tool_extract env (temp_world_dir req) n) (temp_dir req) = true.
Proof.
  intros H. unfold tool_extract. destruct (extract_entries env); [|exact H].
  rewrite FSFacts.is_dir_alter_at; [exact H|].
  unfold temp_world_dir. apply Layout.longer_not_prefix.
Qed.

Lemma extract_phase_fails s :
  FS.is_dir (fs s) (server_dir req) = true ->
  FS.is_file (fs s) (temp_dir req) = false ->
  (use_7z cfg = true /\ FS.exists_ (fs s) (exe_path cfg req) = false /\
   exe_path cfg req <> temp_dir req) \/
  (extract_starts env = true /\ extract_decodes env = true /\
   extract_returncode env <> 0%Z) ->
  exists s',
    extract_phase cfg req env s = (Ok (Some 1%Z), s') /\
    FS.exists_ (fs s') (temp_dir req) = false /\
    existsb is_extract_error (events s') = true.
Proof.
  intros Hsd Hnf Hfail. unfold extract_phase.
  change (plugin_print cfg INFO MsgRestoreStart) with (emit (Log INFO MsgRestoreStart)).
  rewrite run_emit.
  match goal with |- context [fs_call (FS.makedirs true (temp_dir req)) ;;; ?k] =>
    destruct (temp_dir_ready k (mkState (fs s) (events s ++ [Log INFO MsgRestoreStart]))
                             Hsd Hnf)
      as (n1 & E & G & Hnone) end.
  rewrite E. clear E. cbn [plugin_print]. rewrite run_emit. cbn [fs events].
  assert (Hd1 : FS.is_dir n1 (temp_dir req) = true)
    by (unfold FS.is_dir; now rewrite G).
  assert (Hdone : forall n evs m,
             FS.is_dir n (temp_dir req) = true ->
             is_extract_error (Log ERROR m) = true ->
             exists s',
               (emit (Log ERROR m) ;;; fs_update (FS.rmtree (temp_dir req)) ;;;
                ret (Some 1%Z)) (mkState n evs) = (Ok (Some 1%Z), s') /\
               FS.exists_ (fs s') (temp_dir req) = false /\
               existsb is_extract_error (events s') = true).
  { intros n evs m Hn Hm. eexists. split; [reflexivity|]. split.
    - apply temp_dir_gone. cbn [fs]. now apply dir_not_file.
    - now apply existsb_snoc. }
  destruct (use_7z cfg) eqn:U.
  - rewrite run_read_fs. cbn [fs].
    destruct (FS.exists_ n1 (exe_path cfg req)) eqn:X; cbn [negb].
    + destruct Hfail as [(_ & Hmiss & Hne)|(Hst & Hdec & Hrc)].
      * exfalso. unfold FS.exists_ in X, Hmiss.
        rewrite Hnone in X; [discriminate| |].
        -- destruct (FS.is_prefix (exe_path cfg req) (temp_dir req)) eqn:P; [|reflexivity].
           apply Layout.prefix_snoc in P as [P|P]; [contradiction|].
           apply PathFacts.is_prefix_inv in P as [r Er]. rewrite Er in Hsd.
           apply FSFacts.is_dir_app in Hsd. unfold FS.is_dir in Hsd.
           destruct (FS.get (fs s) (exe_path cfg req)); discriminate.
        -- cbn [fs]. destruct (FS.get (fs s) (exe_path cfg req)); [discriminate|reflexivity].
      * rewrite run_emit, run_extract_done; [|exact Hst|discriminate].
        apply Z.eqb_neq in Hrc. rewrite Hrc. cbn [negb].
        unfold decode. rewrite Hdec, run_ret.
        apply Hdone; [|reflexivity]. cbn [fs]. now apply staging_dir_after_tool.
    + now apply Hdone.
  - destruct Hfail as [(Hu & _)|(Hst & Hdec & Hrc)]; [discriminate|].
    rewrite run_emit.
    destruct (FSFacts.makedirs_node_child true (temp_world_dir req) (temp_dir req)
                (world_name req) n1) as (n2 & Hmk & _).
    { exact Hd1. }
    { rewrite FSFacts.get_app, G. reflexivity. }
    rewrite (run_fs_call _ _ _ n2); [|exact Hmk].
    rewrite run_extract_done; [|exact Hst|intros _; exact Hdec].
    apply Z.eqb_neq in Hrc. rewrite Hrc. cbn [negb].
    apply Hdone; [|reflexivity]. cbn [fs]. apply staging_dir_after_tool.
    eapply FSFacts.is_dir_makedirs_node; [exact Hmk|exact Hd1].
Qed.

End ExtractFails.

(** [main] is the run up to EXTRACT followed by the rest. *)
Lemma main_split cfg req env s :
  main cfg req env s =
  bind (before_extract cfg req env)
       (fun early =>
          match early with
          | Some c => ret c
          | None =>
              early <- extract_phase cfg req env ;;
              match early with
              | Some c => ret c
              | None =>
                  swap_phase cfg req ;;; restart_phase cfg req env ;;; ret 0%Z
              end
          end) s.
Proof.
  unfold main, before_extract, bind.
  destruct (setup_logging req s) as [[[]|e|] sA]; try reflexivity.
  destruct (chdir (server_dir req) sA) as [[[]|e|] sB]; try reflexivity.
  destruct (wait_process cfg env sB) as [[[]|e|] sC]; reflexivity.
Qed.

(** C5.  EXTRACT fails on the sample server.  With the 7z backend and
    its executable missing, and with [tar] returning 2, the phase does
    what the specification says of it: the error is logged, the staging
    directory is removed, [main] returns 1 and the world directory is
    what it was.  The process still leaves with status 0, not 1: the
    result of [main] is assigned to [exit_code] and never passed to
    [sys.exit].  With 7za returning 2 and diagnostics that are no text
    of the encoding, line 406 raises before the cleanup of line 408:
    [main] ends with [UnicodeDecodeError], the staging directory is
    still on disk, and the status is 0 again. *)
Theorem failed_extraction_exits_with_status_zero :
  let missing := main Sample.cfg_7z Sample.req0
                      (Sample.env_ok Sample.archive_with_folder)
                      Sample.st_no_exe in
  let failed := main Sample.cfg_tar Sample.req0 Sample.env_extract_fails
                     Sample.st0 in
  let garbled := main Sample.cfg_7z Sample.req0 Scenario.env_extract_garbled
                      Sample.st0 in
  (fst missing = Ok 1%Z /\
   existsb is_extract_error (events (snd missing)) = true /\
   FS.exists_ (fs (snd missing)) (temp_dir Sample.req0) = false /\
   FS.get (fs (snd missing)) (current_world_dir Sample.req0)
   = FS.get Sample.fs_no_exe (current_world_dir Sample.req0) /\
   fst (script Sample.cfg_7z (Sample.env_ok Sample.archive_with_folder)
               Sample.args0 Sample.st_no_exe) = Exit 0) /\
  (fst failed = Ok 1%Z /\
   existsb is_extract_error (events (snd failed)) = true /\
   FS.exists_ (fs (snd failed)) (temp_dir Sample.req0) = false /\
   FS.get (fs (snd failed)) (current_world_dir Sample.req0)
   = FS.get Sample.fs0 (current_world_dir Sample.req0) /\
   fst (script Sample.cfg_tar Sample.env_extract_fails Sample.args0 Sample.st0)
   = Exit 0) /\
  (fst garbled = Raise UnicodeDecodeError /\
   FS.is_dir (fs (snd garbled)) (temp_dir Sample.req0) = true /\
   FS.get (fs (snd garbled)) (current_world_dir Sample.req0)
   = FS.get Sample.fs0 (current_world_dir Sample.req0) /\
   fst (script Sample.cfg_7z Scenario.env_extract_garbled Sample.args0
               Sample.st0) = Exit 0).
Proof. repeat split; vm_compute; reflexivity. Qed.

(** X30.  EXTRACT, lines 378-430, when the phase itself sees the
    failure.  The run has reached the phase with nothing but a
    directory, if anything, at [temp_easybackuper], and either the 7z
    backend is configured and its executable is absent, or the
    extraction tool runs, what it printed decodes, and its return code
    is not zero.  Then the failure is logged, the staging directory is
    removed, [main] returns 1, and the phase has left the world
    directory as it found it. *)
Theorem extract_failure_is_fatal cfg req env s s1 :
  before_extract cfg req env s = (Ok None, s1) ->
  FS.is_file (fs s1) (temp_dir req) = false ->
  (use_7z cfg = true /\ FS.exists_ (fs s1) (exe_path cfg req) = false /\
   exe_path cfg req <> temp_dir req) \/
  (extract_starts env = true /\ extract_decodes env = true /\
   extract_returncode env <> 0%Z) ->
  exists s2,
    main cfg req env s = (Ok 1%Z, s2) /\
    existsb is_extract_error (events s2) = true /\
    FS.exists_ (fs s2) (temp_dir req) = false /\
    FS.get (fs s2) (current_world_dir req) = FS.get (fs s1) (current_world_dir req).
Proof.
  intros Hbefore Hnf Hfail.
  pose proof (server_dir_before_extract _ _ _ _ _ _ Hbefore) as Hsd.
  destruct (extract_phase_fails cfg req env s1 Hsd Hnf Hfail)
    as (s2 & Hex & Hgone & Hlog).
  exists s2. repeat split; auto.
  - rewrite main_split. unfold bind at 1. rewrite Hbefore.
    unfold bind. now rewrite Hex.
  - pose proof (keeps_world_extract_phase cfg req env s1) as K2.
    rewrite Hex in K2. exact K2.
Qed.

Lemma extract_failure_is_fatal_witness :
  (exists s2,
     main Sample.cfg_7z Sample.req0 (Sample.env_ok Sample.archive_with_folder)
          Sample.st_no_exe = (Ok 1%Z, s2) /\
     existsb is_extract_error (events s2) = true /\
     FS.exists_ (fs s2) (temp_dir Sample.req0) = false /\
     FS.get (fs s2) (current_world_dir Sample.req0)
     = FS.get (fs Sample.st_no_exe) (current_world_dir Sample.req0)) /\
  (exists s2,
     main Sample.cfg_tar Sample.req0 Sample.env_extract_fails Sample.st0
     = (Ok 1%Z, s2) /\
     existsb is_extract_error (events s2) = true /\
     FS.exists_ (fs s2) (temp_dir Sample.req0) = false /\
     FS.get (fs s2) (current_world_dir Sample.req0)
     = FS.get (fs Sample.st0) (current_world_dir Sample.req0)).
Proof.
  split.
  - destruct (extract_failure_is_fatal
                Sample.cfg_7z Sample.req0 (Sample.env_ok Sample.archive_with_folder)
                Sample.st_no_exe
                (snd (before_extract Sample.cfg_7z Sample.req0
                                     (Sample.env_ok Sample.archive_with_folder)
                                     Sample.st_no_exe)))
      as (s2 & E & Hlog & Hgone & Hw).
    + vm_compute. reflexivity.
    + vm_compute. reflexivity.
    + left. split; [reflexivity|]. split; [vm_compute; reflexivity|].
      vm_compute. discriminate.
    + exists s2. split; [exact E|]. split; [exact Hlog|]. split; [exact Hgone|].
      rewrite Hw. vm_compute. reflexivity.
  - destruct (extract_failure_is_fatal
                Sample.cfg_tar Sample.req0 Sample.env_extract_fails Sample.st0
                (snd (before_extract Sample.cfg_tar Sample.req0
                                     Sample.env_extract_fails Sample.st0)))
      as (s2 & E & Hlog & Hgone & Hw).
    + vm_compute. reflexivity.
    + vm_compute. reflexivity.
    + right. split; [reflexivity|]. split; [reflexivity|]. vm_compute. discriminate.
    + exists s2. split; [exact E|]. split; [exact Hlog|]. split; [exact Hgone|].
      rewrite Hw. vm_compute. reflexivity.
Defined.

(** ** Failures of the process-table query *)

(** The process-list command cannot be started: [main] ends with the
    [OSError] of [Popen], nothing of the restore phases has run. *)
Lemma query_failure_not_recovered :
  ~ query_failure_recovered Sample.cfg_tar Sample.req0 Sample.env_ps_fails
                            Sample.st0.
Proof.
  intros H. destruct (H eq_refl) as [_ Hreached].
  vm_compute in Hreached. discriminate.
Qed.

(** C7, as the code has it.  When the process-list command cannot be
    started, or its output does not decode, [main] ends with an
    exception of class [Exception], which only the top-level handler
    catches, and has recorded nothing since it started (the start-up
    banner is not part of the record): no restore phase runs.  The
    server counts as not detected only when the command has answered
    and its output does not hold the name of the server process (an
    empty output included): with the log directory made and the working
    directory changed, that is logged, and [main] is the restore phases
    run from there. *)
Theorem query_failure_ends_main cfg req env s r rest :
  process_table env = r :: rest ->
  (r = PsSpawnError \/ r = PsUndecodable ->
   exists e s',
     main cfg req env s = (Raise e, s') /\
     is_Exception e = true /\
     events s' = events s /\
     reached_extract s' = reached_extract s) /\
  (forall text sA,
     r = PsOutput text ->
     contains (process_name env) text = false ->
     (setup_logging req ;;; chdir (server_dir req)) s = (Ok tt, sA) ->
     main cfg req env s
     = restore_phases cfg req env
         (mkState (fs sA) (events sA ++ [Log INFO MsgServerNotDetected]))).
Proof.
  intros Hpt. split.
  - intros Hr.
    assert (Hq : exists e, is_Exception e = true /\
                           forall st, wait_process cfg env st = (Raise e, st)).
    { unfold wait_process. rewrite Hpt.
      destruct Hr as [-> | ->]; eexists; (split; [|intros st; reflexivity]); reflexivity. }
    destruct Hq as (e & He & Hw).
    unfold main, bind, setup_logging, fs_call, FS.makedirs.
    destruct (FS.makedirs_node true _ _ (fs s)) as [n1|e1|] eqn:E.
    + unfold chdir, bind, read_fs. cbn [fs fst snd].
      destruct (FS.get n1 (server_dir req)) as [[d ro|es]|].
      * do 2 eexists. split; [reflexivity|]. repeat split.
      * unfold ret. rewrite Hw. do 2 eexists. split; [reflexivity|]. repeat split; auto.
      * do 2 eexists. split; [reflexivity|]. repeat split.
    + do 2 eexists. split; [reflexivity|]. repeat split.
      eapply makedirs_node_raises; eauto.
    + now apply makedirs_node_returns in E.
  - intros text sA -> Hc Hsetup.
    assert (Hw : wait_process cfg env sA
                 = (Ok tt, mkState (fs sA) (events sA ++ [Log INFO MsgServerNotDetected]))).
    { unfold wait_process. rewrite Hpt. unfold query, bind, ret. rewrite Hc. reflexivity. }
    unfold main. rewrite <- run_bind_assoc. unfold bind at 1. rewrite Hsetup.
    unfold bind at 1. rewrite Hw. reflexivity.
Qed.

Lemma query_failure_ends_main_witness :
  (exists e s',
     main Sample.cfg_tar Sample.req0 Sample.env_ps_fails Sample.st0 = (Raise e, s') /\
     is_Exception e = true /\
     events s' = events Sample.st0 /\
     reached_extract s' = reached_extract Sample.st0) /\
  main Sample.cfg_tar Sample.req0 (Sample.env_ok Sample.archive_with_folder) Sample.st0
  = restore_phases Sample.cfg_tar Sample.req0 (Sample.env_ok Sample.archive_with_folder)
      (mkState (fs (snd (setup_logging Sample.req0 Sample.st0)))
               [Log INFO MsgServerNotDetected]).
Proof.
  split.
  - destruct (query_failure_ends_main Sample.cfg_tar Sample.req0 Sample.env_ps_fails
                                      Sample.st0 PsSpawnError [] eq_refl) as [H _].
    apply H. left. reflexivity.
  - destruct (query_failure_ends_main
                Sample.cfg_tar Sample.req0 (Sample.env_ok Sample.archive_with_folder)
                Sample.st0 (PsOutput "root 1 0.0 /sbin/init") [] eq_refl) as [_ H].
    apply (H "root 1 0.0 /sbin/init"%string
             (snd (setup_logging Sample.req0 Sample.st0)) eq_refl).
    + vm_compute. reflexivity.
    + vm_compute. reflexivity.
Defined.

(** ** SWAP: deletion of the old world *)

(** C6.  On the sample server the deletion unlinks every file of the old
    world, the read-only [level.dat] included, each before the directory
    that holds it is removed, and removes the subdirectory [db]; the
    root [worlds/Bedrock] itself is not removed: it is still there,
    empty, when the loop is over.  The last [DEBUG] line announces a
    deleted directory (it names [worlds]) and no call stands behind
    it. *)
Theorem old_world_root_is_left_in_place :
  let r := delete_old_world Sample.cfg_tar Sample.req0 Sample.st0 in
  fst r = Ok tt /\
  events (snd r)
  = [Log WARNING (MsgOldWorldExists (current_world_dir Sample.req0));
     Log INFO MsgDeletingOldWorld;
     Log DEBUG (MsgFileDeleted (current_world_dir Sample.req0 ++ ["db"; "000.ldb"]%string));
     Log DEBUG (MsgFileDeleted (current_world_dir Sample.req0 ++ ["level.dat"%string]));
     Log DEBUG (MsgDirDeleted (current_world_dir Sample.req0 ++ ["db"%string]));
     Log DEBUG (MsgDirDeleted (worlds_dir Sample.req0));
     Log SUCCESS MsgOldWorldDeleted] /\
  FS.get (fs (snd r)) (current_world_dir Sample.req0) = Some (Dir []) /\
  FS.exists_ (fs (snd r)) (current_world_dir Sample.req0) = true /\
  FS.is_dir (fs (snd r)) (worlds_dir Sample.req0) = true.
Proof. vm_compute. repeat split. Qed.

(** ** SWAP: where the staged files go *)

(** The archive holds [level.dat] at its top level: the run ends with 0
    and the file is at [worlds/level.dat], while [worlds/Bedrock] is an
    empty directory. *)
Lemma flat_archive_misses_world_dir :
  ~ world_populated_from_archive Sample.cfg_tar Sample.req0
                                 (Sample.env_ok Sample.archive_flat) Sample.st0.
Proof.
  intros H. destruct (H _ eq_refl) as [_ H2].
  specialize (H2 ["level.dat"%string] "new"%string false eq_refl).
  vm_compute in H2. discriminate.
Qed.

(** ** Trees and their walks *)

Module TreeFacts.
Import FS.

(** Induction on a tree with the hypothesis for every entry of a
    directory. *)
Lemma node_ind' (P : node -> Prop) :
  (forall d ro, P (File d ro)) ->
  (forall es, Forall (fun e => P (snd e)) es -> P (Dir es)) ->
  forall n, P n.
Proof.
  intros HF HD. fix IH 1. intros [d ro|es]; [apply HF|].
  apply HD. induction es as [|[x c] es IHes]; constructor; [apply IH | exact IHes].
Qed.

Lemma wf_Dir es :
  wf (Dir es) <-> NoDup (map fst es) /\ forall x c, In (x, c) es -> wf c.
Proof.
  cbn [wf]. split; intros [HN H]; split; auto.
  - induction es as [|[y c'] es IH]; intros x c []. 
    + injection H0 as <- <-. apply H.
    + destruct H as [_ H]. inversion HN; subst. eauto.
  - clear HN. induction es as [|[y c'] es IH]; [exact I|]. split.
    + apply (H y). now left.
    + apply IH. intros x c Hin. apply (H x). now right.
Qed.

Lemma assoc_In x c es : assoc x es = Some c -> In (x, c) es.
Proof.
  induction es as [|[y c'] es IH]; simpl; [discriminate|].
  destruct (String.eqb x y) eqn:E.
  - apply String.eqb_eq in E as ->. intros [= ->]. now left.
  - auto.
Qed.

Lemma In_assoc x c es : NoDup (map fst es) -> In (x, c) es -> assoc x es = Some c.
Proof.
  induction es as [|[y c'] es IH]; simpl; [tauto|].
  intros HN [[= -> ->]|H]; [now rewrite String.eqb_refl|].
  inversion HN; subst.
  destruct (String.eqb x y) eqn:E; [|auto].
  apply String.eqb_eq in E as ->. exfalso. apply H2.
  change y with (fst (y, c)). now apply in_map.
Qed.

Lemma in_dir_names x es :
  In x (dir_names es) <-> exists ds, In (x, Dir ds) es.
Proof.
  unfold dir_names. rewrite in_map_iff. split.
  - intros ([y [d ro|ds]] & <- & H); apply filter_In in H as [H E]; try discriminate.
    eauto.
  - intros [ds H]. exists (x, Dir ds). split; [reflexivity|].
    apply filter_In. auto.
Qed.

Lemma in_file_names x es :
  In x (file_names es) <-> exists d ro, In (x, File d ro) es.
Proof.
  unfold file_names. rewrite in_map_iff. split.
  - intros ([y [d ro|ds]] & <- & H); apply filter_In in H as [H E]; try discriminate.
    eauto.
  - intros (d & ro & H). exists (x, File d ro). split; [reflexivity|].
    apply filter_In. auto.
Qed.

Lemma walk_node_Dir td top es :
  walk_node td top (Dir es) =
  if td then (top, dir_names es, file_names es) :: walk_entries td top es
  else walk_entries td top es ++ [(top, dir_names es, file_names es)].
Proof. reflexivity. Qed.

Lemma in_walk_entries td top es t :
  In t (walk_entries td top es) <->
  exists x c, In (x, c) es /\ In t (walk_node td (top ++ [x]) c).
Proof.
  induction es as [|[y c'] es IH]; simpl.
  - split; [tauto | now intros (? & ? & [] & _)].
  - rewrite in_app_iff, IH. split.
    + intros [H|(x & c & H1 & H2)]; [exists y, c'; auto | exists x, c; auto].
    + intros (x & c & [[= -> ->]|H1] & H2); [now left | right; eauto].
Qed.

(** What [os.walk] yields: one triple for each directory of the tree. *)
Lemma in_walk_node td : forall T top t,
  wf T ->
  (In t (walk_node td top T) <->
   exists p es, get T p = Some (Dir es) /\
                t = (top ++ p, dir_names es, file_names es)).
Proof.
  induction T as [d ro|es IH] using node_ind'; intros top t Hwf.
  - simpl. split; [tauto|]. intros (p & es & G & _). destruct p; discriminate.
  - apply wf_Dir in Hwf as [HN Hwf].
    assert (Hin : In t (walk_entries td top es) <->
                  exists p es', p <> [] /\ get (Dir es) p = Some (Dir es') /\
                                t = (top ++ p, dir_names es', file_names es')).
    { rewrite in_walk_entries. split.
      - intros (x & c & Hxc & Ht).
        rewrite Forall_forall in IH. apply (IH _ Hxc) in Ht; [|eauto].
        destruct Ht as (p & es' & G & ->). exists (x :: p), es'.
        split; [discriminate|]. split.
        + cbn [get]. now rewrite (In_assoc _ _ _ HN Hxc).
        + now rewrite <- app_assoc.
      - intros (p & es' & Hp & G & ->). destruct p as [|x p]; [contradiction|].
        cbn [get] in G. destruct (assoc x es) as [c|] eqn:A; [|discriminate].
        apply assoc_In in A. exists x, c. split; [exact A|].
        rewrite Forall_forall in IH. apply (IH _ A); [eauto|].
        exists p, es'. split; [exact G|]. now rewrite <- app_assoc. }
    rewrite walk_node_Dir.
    assert (Hhere : forall t', (top, dir_names es, file_names es) = t' <->
                    exists p es', p = [] /\ get (Dir es) p = Some (Dir es') /\
                                  t' = (top ++ p, dir_names es', file_names es')).
    { intros t'. split.
      - intros <-. exists [], es. rewrite app_nil_r. auto.
      - intros (p & es' & -> & [= <-] & ->). now rewrite app_nil_r. }
    assert (Hall : (exists p es', p = [] /\ get (Dir es) p = Some (Dir es') /\
                                  t = (top ++ p, dir_names es', file_names es')) \/
                   (exists p es', p <> [] /\ get (Dir es) p = Some (Dir es') /\
                                  t = (top ++ p, dir_names es', file_names es')) <->
                   exists p es', get (Dir es) p = Some (Dir es') /\
                                 t = (top ++ p, dir_names es', file_names es')).
    { split.
      - intros [(p & es' & _ & G & E)|(p & es' & _ & G & E)]; eauto.
      - intros (p & es' & G & E). destruct p as [|x p].
        + left. exists [], es'. auto.
        + right. exists (x :: p), es'. repeat split; auto. discriminate. }
    rewrite <- Hall, <- Hin, <- Hhere.
    destruct td; [cbn [In]; tauto | rewrite in_app_iff; cbn [In]; tauto].
Qed.

End TreeFacts.

(** ** The plan of a directory copy *)

Module PlanSpec.
Import FS TreeFacts.

Lemma wf_get : forall T p c, wf T -> get T p = Some c -> wf c.
Proof.
  intros T p. revert T. induction p as [|x p IH]; intros T c Hwf G.
  - now injection G as <-.
  - destruct T as [d ro|es]; [discriminate|]. cbn [get] in G.
    destruct (assoc x es) as [c'|] eqn:A; [|discriminate].
    apply wf_Dir in Hwf as [_ Hwf]. apply assoc_In in A. eauto.
Qed.

Lemma relative_to_app p r : relative_to (p ++ r) p = Ok r.
Proof.
  induction p as [|x p IH]; simpl; [now destruct r|]. now rewrite String.eqb_refl.
Qed.

Lemma pairs_for_spec src dst r names :
  pairs_for src dst (src ++ r) names
  = Ok (map (fun x => ((src ++ r) ++ [x], dst ++ r ++ [x])) names).
Proof.
  induction names as [|x names IH]; cbn [pairs_for map]; [reflexivity|].
  unfold pair_for. rewrite IH.
  replace (relative_to ((src ++ r) ++ [x]) src) with (@Ok path (r ++ [x]));
    [reflexivity|].
  rewrite <- app_assoc. symmetry. apply relative_to_app.
Qed.

(** The plan drawn from triples rooted under [src]: a pair for every
    name of every triple. *)
Lemma collect_spec src dst walked :
  (forall t, In t walked -> exists r, fst (fst t) = src ++ r) ->
  exists ds fl,
    collect src dst walked = Ok (ds, fl) /\
    (forall sd, In sd ds <->
       exists r dn fn x, In (src ++ r, dn, fn) walked /\ In x dn /\
                         sd = ((src ++ r) ++ [x], dst ++ r ++ [x])) /\
    (forall sd, In sd fl <->
       exists r dn fn x, In (src ++ r, dn, fn) walked /\ In x fn /\
                         sd = ((src ++ r) ++ [x], dst ++ r ++ [x])).
Proof.
  induction walked as [|[[root dn] fn] walked IH]; intros Hroots.
  - exists [], []. split; [reflexivity|].
    split; intros sd; (split; [intros [] | intros (? & ? & ? & ? & [] & _)]).
  - destruct (Hroots _ (or_introl eq_refl)) as [r Er]. simpl in Er. subst root.
    destruct IH as (ds & fl & Hc & Hds & Hfl);
      [intros t Ht; apply Hroots; now right|].
    cbn [collect]. rewrite !pairs_for_spec, Hc. do 2 eexists. split; [reflexivity|].
    split; intros sd; rewrite in_app_iff, in_map_iff.
    + rewrite Hds. split.
      * intros [(x & <- & Hx)|(r' & dn' & fn' & x & Hin & Hx & ->)].
        -- exists r, dn, fn, x. simpl. auto.
        -- exists r', dn', fn', x. simpl. auto.
      * intros (r' & dn' & fn' & x & [E|Hin] & Hx & ->).
        -- injection E as E <- <-. apply app_inv_head in E as <-. left. eauto.
        -- right. exists r', dn', fn', x. auto.
    + rewrite Hfl. split.
      * intros [(x & <- & Hx)|(r' & dn' & fn' & x & Hin & Hx & ->)].
        -- exists r, dn, fn, x. simpl. auto.
        -- exists r', dn', fn', x. simpl. auto.
      * intros (r' & dn' & fn' & x & [E|Hin] & Hx & ->).
        -- injection E as E <- <-. apply app_inv_head in E as <-. left. eauto.
        -- right. exists r', dn', fn', x. auto.
Qed.

Lemma get_snoc T q x c :
  get T (q ++ [x]) = Some c <->
  exists es, get T q = Some (Dir es) /\ assoc x es = Some c.
Proof.
  rewrite FSFacts.get_app. destruct (get T q) as [[d ro|es]|]; cbn [get].
  - split; [discriminate | intros (? & [=] & _)].
  - destruct (assoc x es) as [c'|] eqn:A; split.
    + intros [= <-]. eauto.
    + intros (es' & [= <-] & A'). congruence.
    + discriminate.
    + intros (es' & [= <-] & A'). congruence.
  - split; [discriminate | intros (? & [=] & _)].
Qed.

Lemma snoc_cases {A} (l : list A) : l = [] \/ exists q x, l = q ++ [x].
Proof.
  destruct l as [|a l]; [now left | right].
  destruct (exists_last (l := a :: l)) as (q & x & E); [discriminate|]. eauto.
Qed.

(** The plan of a copy: a pair for every directory and every file below
    the source, each under the same relative path at the destination. *)
Lemma plan_spec src dst n T :
  get n src = Some T -> wf T ->
  exists ds fl,
    collect src dst (walk true src n) = Ok (ds, fl) /\
    (forall sd, In sd ds <->
       exists p es, p <> [] /\ get T p = Some (Dir es) /\
                    sd = (src ++ p, dst ++ p)) /\
    (forall sd, In sd fl <->
       exists p d ro, p <> [] /\ get T p = Some (File d ro) /\
                      sd = (src ++ p, dst ++ p)).
Proof.
  intros G Hwf. unfold walk. rewrite G.
  destruct (collect_spec src dst (walk_node true src T)) as (ds & fl & Hc & Hds & Hfl).
  { intros t Ht. apply (in_walk_node true T src t Hwf) in Ht as (p & es & _ & ->).
    simpl. eauto. }
  assert (Htriple : forall r dn fn,
             In (src ++ r, dn, fn) (walk_node true src T) <->
             exists es, get T r = Some (Dir es) /\ dn = dir_names es /\ fn = file_names es).
  { intros r dn fn. rewrite (in_walk_node true T src _ Hwf). split.
    - intros (p & es & Gp & E). injection E as E -> ->.
      apply app_inv_head in E as ->. eauto.
    - intros (es & Gp & -> & ->). eauto. }
  exists ds, fl. split; [exact Hc|]. split; intros sd.
  - rewrite Hds. split.
    + intros (r & dn & fn & x & Ht & Hx & ->).
      apply Htriple in Ht as (es & Gr & -> & _).
      apply in_dir_names in Hx as [es' Hx].
      pose proof (wf_get _ _ _ Hwf Gr) as Hwf'. apply wf_Dir in Hwf' as [HN _].
      exists (r ++ [x]), es'. split; [now destruct r|]. split.
      * apply get_snoc. exists es. split; [exact Gr|]. now apply In_assoc.
      * now rewrite <- !app_assoc.
    + intros (p & es' & Hp & Gp & ->).
      destruct (snoc_cases p) as [->|(r & x & ->)]; [contradiction|].
      apply get_snoc in Gp as (es & Gr & A).
      exists r, (dir_names es), (file_names es), x. split; [|split].
      * apply Htriple. eauto.
      * apply in_dir_names. exists es'. now apply assoc_In.
      * now rewrite <- !app_assoc.
  - rewrite Hfl. split.
    + intros (r & dn & fn & x & Ht & Hx & ->).
      apply Htriple in Ht as (es & Gr & _ & ->).
      apply in_file_names in Hx as (d & ro & Hx).
      pose proof (wf_get _ _ _ Hwf Gr) as Hwf'. apply wf_Dir in Hwf' as [HN _].
      exists (r ++ [x]), d, ro. split; [now destruct r|]. split.
      * apply get_snoc. exists es. split; [exact Gr|]. now apply In_assoc.
      * now rewrite <- !app_assoc.
    + intros (p & d & ro & Hp & Gp & ->).
      destruct (snoc_cases p) as [->|(r & x & ->)]; [contradiction|].
      apply get_snoc in Gp as (es & Gr & A).
      exists r, (dir_names es), (file_names es), x. split; [|split].
      * apply Htriple. eauto.
      * apply in_file_names. exists d, ro. now apply assoc_In.
      * now rewrite <- !app_assoc.
Qed.

End PlanSpec.

(** ** More on the file system operations *)

Module CopyFacts.
Import FS PathFacts FSFacts TreeFacts PlanSpec.

Lemma is_prefix_app_same d a b : is_prefix (d ++ a) (d ++ b) = is_prefix a b.
Proof. induction d as [|x d IH]; simpl; [reflexivity|]. now rewrite String.eqb_refl. Qed.

Lemma diverge_app_same d a b : diverge (d ++ a) (d ++ b) = diverge a b.
Proof. induction d as [|x d IH]; simpl; [reflexivity|]. now rewrite String.eqb_refl. Qed.

Lemma diverge_iff a b :
  diverge a b = true <-> is_prefix a b = false /\ is_prefix b a = false.
Proof.
  revert b. induction a as [|x a IH]; intros [|y b]; simpl;
    try (split; [discriminate | intros [? ?]; discriminate]).
  rewrite (String.eqb_sym y x). destruct (String.eqb x y); simpl; [apply IH|].
  split; auto.
Qed.

(** Nothing lies below a regular file. *)
Lemma file_is_leaf T a b d ro c :
  get T a = Some (File d ro) -> get T b = Some c -> is_prefix a b = true -> a = b.
Proof.
  intros Ga Gb P. apply is_prefix_inv in P as [r ->].
  rewrite get_app, Ga in Gb. destruct r; [now rewrite app_nil_r | discriminate].
Qed.

(** What lies above an entry is a directory. *)
Lemma above_is_dir T a r c :
  get T (a ++ r) = Some c -> r <> [] -> exists es, get T a = Some (Dir es).
Proof.
  rewrite get_app. destruct (get T a) as [[d ro|es]|]; try discriminate; eauto.
  destruct r; [contradiction | discriminate].
Qed.

Lemma alter_at_cons f y p es :
  p <> [] ->
  alter_at (y :: p) f (Dir es)
  = match assoc y es with
    | Some c => Dir (set_entry y (alter_at p f c) es)
    | None => Dir es
    end.
Proof. destruct p; [contradiction | reflexivity]. Qed.

Lemma get_alter_at_snoc f q x : forall n,
  is_dir n q = true ->
  get (alter_at (q ++ [x]) f n) (q ++ [x]) = f (get n (q ++ [x])).
Proof.
  unfold is_dir. induction q as [|y q IH]; intros n Hd.
  - destruct n as [d ro|es]; [discriminate|]. cbn [app alter_at get].
    destruct (assoc x es) as [c|] eqn:A; cbn [get];
      (destruct (f _) as [v|]; cbn [get];
       [now rewrite assoc_set_same | now rewrite assoc_del_same]).
  - destruct n as [d ro|es]; [discriminate|]. cbn [get] in Hd.
    destruct (assoc y es) as [c|] eqn:A; [|discriminate].
    cbn [app]. rewrite alter_at_cons by (now destruct q).
    rewrite A. cbn [get]. rewrite A, assoc_set_same. now apply IH.
Qed.

Lemma is_dir_fresh_dirs p q : is_prefix q p = true -> is_dir (fresh_dirs p) q = true.
Proof.
  unfold is_dir. revert q. induction p as [|x p IH]; intros [|y q] H; try discriminate;
    try reflexivity.
  simpl in *. apply andb_true_iff in H as [E H]. rewrite E. now apply IH.
Qed.

(** Where no regular file stands in the way, [makedirs] succeeds and
    every directory down to the target exists afterwards. *)
Lemma makedirs_node_open ok full p : forall n,
  (forall q, is_prefix q p = true -> is_file n q = false) ->
  ok = true \/ get n p = None ->
  exists n', makedirs_node ok full p n = Ok n' /\
             forall q, is_prefix q p = true -> is_dir n' q = true.
Proof.
  unfold is_file, is_dir.
  induction p as [|x p IH]; intros n Hopen Hok.
  - pose proof (Hopen [] eq_refl) as H0. destruct n as [d ro|es]; [discriminate|].
    destruct Hok as [->|Hn]; [|discriminate]. eexists. split; [reflexivity|].
    intros [|y q] Hq; [reflexivity | discriminate].
  - pose proof (Hopen [] eq_refl) as H0. destruct n as [d ro|es]; [discriminate|].
    cbn [makedirs_node]. destruct (assoc x es) as [c|] eqn:A.
    + destruct (IH c) as (c' & Hmk & Hdirs).
      * intros q Hq. specialize (Hopen (x :: q)). cbn [get is_prefix] in Hopen.
        rewrite String.eqb_refl, A in Hopen. now apply Hopen.
      * destruct Hok as [->|Hn]; [now left | right].
        cbn [get] in Hn. now rewrite A in Hn.
      * rewrite Hmk. eexists. split; [reflexivity|].
        intros [|y q] Hq; [reflexivity|]. cbn [is_prefix] in Hq.
        apply andb_true_iff in Hq as [E Hq]. apply String.eqb_eq in E as ->.
        cbn [get]. rewrite assoc_set_same. now apply Hdirs.
    + eexists. split; [reflexivity|].
      intros [|y q] Hq; [reflexivity|]. cbn [is_prefix] in Hq.
      apply andb_true_iff in Hq as [E Hq]. apply String.eqb_eq in E as ->.
      cbn [get]. rewrite assoc_set_same. now apply is_dir_fresh_dirs.
Qed.

Lemma removelast_snoc {A} (l : list A) x : removelast (l ++ [x]) = l.
Proof. rewrite removelast_app by discriminate. simpl. apply app_nil_r. Qed.

(** [copy2] either returns or raises an exception of class
    [Exception]. *)
Lemma copy2_outcome src dst n :
  (exists n', copy2 src dst n = Ok n') \/
  (exists e, copy2 src dst n = Raise e /\ is_Exception e = true).
Proof.
  unfold copy2. destruct (get n src) as [[d ro|]|]; try (right; eauto; fail).
  destruct (if is_dir n dst then dst ++ basename src else dst) as [|x t];
    [right; eauto|].
  destruct (negb _); [right; eauto|].
  destruct (get n (x :: t)) as [[? [|]|]|]; eauto.
Qed.

(** A copy to a place that can take it. *)
Lemma copy2_writes src q x n d ro :
  get n src = Some (File d ro) ->
  is_dir n q = true ->
  (get n (q ++ [x]) = None \/ exists d', get n (q ++ [x]) = Some (File d' false)) ->
  copy2 src (q ++ [x]) n
  = Ok (alter_at (q ++ [x]) (fun _ => Some (File d ro)) n).
Proof.
  intros Gs Hq Hx. unfold copy2. rewrite Gs.
  assert (Hnd : is_dir n (q ++ [x]) = false).
  { unfold is_dir. destruct Hx as [-> | [d' ->]]; reflexivity. }
  rewrite Hnd.
  assert (Hp : parent (q ++ [x]) = q) by apply removelast_snoc.
  destruct (q ++ [x]) as [|y t] eqn:E; [destruct q; discriminate E|].
  rewrite Hp, Hq. cbn [negb].
  destruct Hx as [-> | [d' ->]]; reflexivity.
Qed.

Lemma copy2_blocked src q x n d ro d' :
  get n src = Some (File d ro) ->
  is_dir n q = true ->
  get n (q ++ [x]) = Some (File d' true) ->
  copy2 src (q ++ [x]) n = Raise (PermissionError (q ++ [x])).
Proof.
  intros Gs Hq Hx. unfold copy2. rewrite Gs.
  assert (Hnd : is_dir n (q ++ [x]) = false) by (unfold is_dir; now rewrite Hx).
  rewrite Hnd.
  assert (Hp : parent (q ++ [x]) = q) by apply removelast_snoc.
  destruct (q ++ [x]) as [|y t] eqn:E; [destruct q; discriminate E|].
  rewrite Hp, Hq. cbn [negb]. now rewrite Hx.
Qed.

(** A prefix of [d ++ p] is a prefix of [d] or is [d] followed by a
    prefix of [p]. *)
Lemma prefix_of_app q d p :
  is_prefix q (d ++ p) = true ->
  is_prefix q d = true \/ exists p', q = d ++ p' /\ is_prefix p' p = true.
Proof.
  revert q. induction d as [|x d IH]; intros q H.
  - right. exists q. auto.
  - destruct q as [|y q]; [now left|]. simpl in *.
    apply andb_true_iff in H as [E H]. rewrite E. apply String.eqb_eq in E as ->.
    destruct (IH _ H) as [P|(p' & -> & P)]; [now left | right; eauto].
Qed.

End CopyFacts.

(** ** A directory copy does its work *)

(** A loop whose turns each return, keep [I], establish [P] for their
    element, and do not undo [P] for any element. *)
Lemma for_each_accum {A} (I : state -> Prop) (P : A -> state -> Prop)
      (body : A -> M unit) (l : list A) :
  (forall a s, In a l -> I s ->
     exists s', body a s = (Ok tt, s') /\ I s' /\ P a s' /\
                forall b, P b s -> P b s') ->
  forall s, I s ->
    exists s', for_each l body s = (Ok tt, s') /\ I s' /\
               (forall a, In a l -> P a s') /\
               (forall b, P b s -> P b s').
Proof.
  induction l as [|a l IH]; intros Hstep s HI.
  - exists s. repeat split; auto. intros a [].
  - destruct (Hstep a s (or_introl eq_refl) HI) as (s1 & E1 & HI1 & HP1 & Hst1).
    destruct (IH (fun b t Hb => Hstep b t (or_intror Hb)) s1 HI1)
      as (s2 & E2 & HI2 & HP2 & Hst2).
    exists s2. split; [|split; [exact HI2|split]].
    + cbn [for_each]. unfold bind. now rewrite E1.
    + intros b [<-|Hb]; auto.
    + auto.
Qed.

Section CopyCorrect.
Import FS PathFacts FSFacts TreeFacts PlanSpec CopyFacts.

Variable cfg : configuration.
Variables src dst : path.
Variable T : node.
Variable es0 : list (string * node).
Hypothesis T_dir : T = Dir es0.
Hypothesis T_wf : wf T.
Hypothesis apart : diverge src dst = true.

(** Where a directory of the source goes there is nothing yet, or a
    directory. *)
Definition dirs_ok (n : node) : Prop :=
  forall p es, get T p = Some (Dir es) ->
               get n (dst ++ p) = None \/ is_dir n (dst ++ p) = true.

(** Where a file of the source goes there is nothing yet, or a writable
    file, or the copy itself. *)
Definition files_ok (n : node) : Prop :=
  forall p d ro, get T p = Some (File d ro) ->
                 get n (dst ++ p) = None \/
                 (exists d', get n (dst ++ p) = Some (File d' false)) \/
                 get n (dst ++ p) = Some (File d ro).

Definition copy_inv (n : node) : Prop :=
  get n src = Some T /\ is_dir n dst = true /\ dirs_ok n /\ files_ok n.

Definition all_dirs (n : node) : Prop :=
  forall p es, get T p = Some (Dir es) -> is_dir n (dst ++ p) = true.

Lemma file_not_above p p2 d ro c :
  get T p = Some (File d ro) -> get T p2 = Some c -> p <> p2 ->
  is_prefix p p2 = false.
Proof.
  intros G G2 Hne. destruct (is_prefix p p2) eqn:P; [|reflexivity].
  exfalso. apply Hne. eapply file_is_leaf; eauto.
Qed.

Lemma file_path_nonempty p d ro : get T p = Some (File d ro) -> p <> [].
Proof. intros G ->. rewrite T_dir in G. discriminate. Qed.

Lemma ensure_dir_step p es s :
  get T p = Some (Dir es) ->
  copy_inv (fs s) ->
  exists s',
    ensure_dir cfg (src ++ p, dst ++ p) s = (Ok tt, s') /\
    copy_inv (fs s') /\
    is_dir (fs s') (dst ++ p) = true /\
    forall q, is_dir (fs s) q = true -> is_dir (fs s') q = true.
Proof.
  intros G (Hsrc & Hdst & Hdirs & Hfiles).
  unfold ensure_dir. rewrite run_read_fs. cbn [snd].
  destruct (exists_ (fs s) (dst ++ p)) eqn:X; cbn [negb when].
  - exists s. split; [reflexivity|]. split; [now repeat split|]. split; [|auto].
    destruct (Hdirs p es G) as [Hn|Hd]; [|exact Hd].
    unfold exists_ in X. now rewrite Hn in X.
  - assert (Hnone : get (fs s) (dst ++ p) = None).
    { unfold exists_ in X. destruct (get (fs s) (dst ++ p)); [discriminate|reflexivity]. }
    destruct (makedirs_node_open false (dst ++ p) (dst ++ p) (fs s)) as (n' & Hmk & Hmade).
    { intros q Hq. unfold is_file.
      apply prefix_of_app in Hq as [Hq|(p' & -> & Hq)].
      - apply is_prefix_inv in Hq as [r Er]. rewrite Er in Hdst.
        apply is_dir_app in Hdst. unfold is_dir in Hdst.
        destruct (get (fs s) q) as [[? ?|?]|]; try discriminate; reflexivity.
      - apply is_prefix_inv in Hq as [r Er]. subst p.
        assert (exists es', get T p' = Some (Dir es')) as [es' G'].
        { destruct r as [|x r]; [rewrite app_nil_r in G; eauto|].
          eapply above_is_dir; [exact G | discriminate]. }
        destruct (Hdirs p' es' G') as [Hn|Hd].
        + now rewrite Hn.
        + unfold is_dir in Hd.
          destruct (get (fs s) (dst ++ p')) as [[? ?|?]|]; try discriminate; reflexivity. }
    { now right. }
    assert (Hother : forall q, is_prefix q (dst ++ p) = false -> get n' q = get (fs s) q)
      by (intros q Hq; eapply get_makedirs_node_other; eauto).
    assert (Hfs : exists s', (fs_call (makedirs false (dst ++ p));;;
                              emit (MakeDirs (dst ++ p));;;
                              plugin_print cfg DEBUG (MsgDirCreated (dst ++ p))) s
                             = (Ok tt, s') /\ fs s' = n').
    { rewrite (run_fs_call _ _ _ n' Hmk), run_emit. unfold plugin_print.
      destruct (debug cfg); eexists; (split; [reflexivity|reflexivity]). }
    destruct Hfs as (s' & Es & Ef). exists s'. rewrite Ef.
    split; [exact Es|]. split; [|split].
    + split; [|split; [|split]].
      * rewrite Hother; [exact Hsrc|].
        apply diverge_not_prefix. now apply diverge_app_r.
      * apply Hmade. apply is_prefix_app.
      * intros p2 es2 G2.
        destruct (is_prefix (dst ++ p2) (dst ++ p)) eqn:P2.
        -- right. now apply Hmade.
        -- unfold is_dir. rewrite (Hother _ P2). apply (Hdirs p2 es2 G2).
      * intros p2 d2 ro2 G2.
        rewrite Hother; [apply (Hfiles p2 d2 ro2 G2)|].
        rewrite is_prefix_app_same. eapply file_not_above; eauto.
        intros ->. congruence.
    + apply Hmade. apply is_prefix_refl.
    + intros q Hq. eapply is_dir_makedirs_node; eauto.
Qed.

Lemma copy_file_step p d ro s :
  get T p = Some (File d ro) ->
  copy_inv (fs s) -> all_dirs (fs s) ->
  exists s',
    copy_file_with_progress cfg (src ++ p) (dst ++ p) s = (Ok tt, s') /\
    copy_inv (fs s') /\ all_dirs (fs s') /\
    get (fs s') (dst ++ p) = Some (File d ro) /\
    forall p2 d2 ro2,
      get T p2 = Some (File d2 ro2) ->
      get (fs s) (dst ++ p2) = Some (File d2 ro2) ->
      get (fs s') (dst ++ p2) = Some (File d2 ro2).
Proof.
  intros G (Hsrc & Hdst & Hdirs & Hfiles) Hall.
  pose proof (file_path_nonempty _ _ _ G) as Hne.
  destruct (snoc_cases p) as [->|(r & x & Ep)]; [contradiction|].
  assert (Gr : exists es, get T r = Some (Dir es)).
  { rewrite Ep in G. apply get_snoc in G as (es & Gr & _). eauto. }
  destruct Gr as [es Gr].
  assert (Hparent : is_dir (fs s) (dst ++ r) = true) by (eapply Hall; eauto).
  assert (Hsrcfile : get (fs s) (src ++ p) = Some (File d ro))
    by (now rewrite get_app, Hsrc).
  assert (Etarget : dst ++ p = (dst ++ r) ++ [x]) by (now rewrite Ep, app_assoc).
  assert (Hblocked :
            get (fs s) (dst ++ p) = Some (File d ro) ->
            ro = true ->
            exists s', copy_file_with_progress cfg (src ++ p) (dst ++ p) s = (Ok tt, s') /\
                       fs s' = fs s).
  { intros Hthere ->. unfold copy_file_with_progress, try_except.
    rewrite run_emit. unfold bind, fs_call. cbn [fs events].
    rewrite Etarget in Hthere |- *.
    rewrite (copy2_blocked _ _ _ _ _ _ _ Hsrcfile Hparent Hthere).
    cbn [is_Exception]. eexists. split; reflexivity. }
  assert (Hwrites :
            (get (fs s) (dst ++ p) = None \/
             exists d', get (fs s) (dst ++ p) = Some (File d' false)) ->
            exists s', copy_file_with_progress cfg (src ++ p) (dst ++ p) s = (Ok tt, s') /\
                       fs s' = alter_at (dst ++ p) (fun _ => Some (File d ro)) (fs s)).
  { intros Hfree. unfold copy_file_with_progress, try_except.
    rewrite run_emit. unfold bind, fs_call. cbn [fs events].
    rewrite Etarget in Hfree |- *.
    rewrite (copy2_writes _ _ _ _ _ _ Hsrcfile Hparent Hfree).
    unfold plugin_print. destruct (debug cfg); eexists; split; reflexivity. }
  assert (Hsame : forall s', fs s' = fs s ->
                             get (fs s) (dst ++ p) = Some (File d ro) ->
            copy_inv (fs s') /\ all_dirs (fs s') /\
            get (fs s') (dst ++ p) = Some (File d ro) /\
            forall p2 d2 ro2,
              get T p2 = Some (File d2 ro2) ->
              get (fs s) (dst ++ p2) = Some (File d2 ro2) ->
              get (fs s') (dst ++ p2) = Some (File d2 ro2)).
  { intros s' -> Hthere. repeat split; auto. }
  assert (Hnew : forall s',
            fs s' = alter_at (dst ++ p) (fun _ => Some (File d ro)) (fs s) ->
            copy_inv (fs s') /\ all_dirs (fs s') /\
            get (fs s') (dst ++ p) = Some (File d ro) /\
            forall p2 d2 ro2,
              get T p2 = Some (File d2 ro2) ->
              get (fs s) (dst ++ p2) = Some (File d2 ro2) ->
              get (fs s') (dst ++ p2) = Some (File d2 ro2)).
  { intros s' ->.
    assert (Hhere : get (alter_at (dst ++ p) (fun _ => Some (File d ro)) (fs s)) (dst ++ p)
                    = Some (File d ro)).
    { rewrite Etarget. now rewrite get_alter_at_snoc. }
    assert (Hfile : forall p2 d2 ro2, get T p2 = Some (File d2 ro2) -> p2 <> p ->
              get (alter_at (dst ++ p) (fun _ => Some (File d ro)) (fs s)) (dst ++ p2)
              = get (fs s) (dst ++ p2)).
    { intros p2 d2 ro2 G2 Hne2. apply get_alter_at_diverge.
      rewrite diverge_app_same. apply diverge_iff. split.
      - eapply file_not_above; eauto.
      - eapply file_not_above; eauto. }
    assert (Hdir : forall p2 es2, get T p2 = Some (Dir es2) ->
              is_dir (alter_at (dst ++ p) (fun _ => Some (File d ro)) (fs s)) (dst ++ p2)
              = is_dir (fs s) (dst ++ p2)).
    { intros p2 es2 G2. apply is_dir_alter_at. rewrite is_prefix_app_same.
      eapply file_not_above; eauto. intros ->. congruence. }
    split; [|split; [|split]].
    - split; [|split; [|split]].
      + rewrite get_alter_at_diverge; [exact Hsrc|]. now apply diverge_app_r.
      + rewrite <- (app_nil_r dst) at 2. rewrite (Hdir [] es0); [now rewrite app_nil_r|].
        now rewrite T_dir.
      + intros p2 es2 G2. right. rewrite (Hdir p2 es2 G2). eapply Hall; eauto.
      + intros p2 d2 ro2 G2. destruct (list_eq_dec string_dec p2 p) as [->|Hne2].
        * right. right. rewrite Hhere. congruence.
        * rewrite (Hfile p2 d2 ro2 G2 Hne2). apply (Hfiles p2 d2 ro2 G2).
    - intros p2 es2 G2. rewrite (Hdir p2 es2 G2). eapply Hall; eauto.
    - exact Hhere.
    - intros p2 d2 ro2 G2 Hthere. destruct (list_eq_dec string_dec p2 p) as [->|Hne2].
      + rewrite Hhere. congruence.
      + now rewrite (Hfile p2 d2 ro2 G2 Hne2). }
  destruct (Hfiles p d ro G) as [Hn|[[d' Hw]|Hthere]].
  - destruct Hwrites as (s' & E & Ef); [now left|]. exists s'. split; [exact E|]. now apply Hnew.
  - destruct Hwrites as (s' & E & Ef); [right; eauto|]. exists s'. split; [exact E|]. now apply Hnew.
  - destruct ro.
    + destruct (Hblocked Hthere eq_refl) as (s' & E & Ef). exists s'. split; [exact E|].
      now apply Hsame.
    + destruct Hwrites as (s' & E & Ef); [right; eauto|]. exists s'. split; [exact E|].
      now apply Hnew.
Qed.

Lemma in_indexed_from_inv {A} (l : list A) a :
  In a l -> forall i0, exists i, In (i, a) (indexed_from i0 l).
Proof.
  induction l as [|b l IH]; intros [] i0.
  - subst. exists i0. now left.
  - destruct (IH H (S i0)) as [i Hi]. exists i. now right.
Qed.

Lemma for_each_emit {A} (l : list A) (f : A -> event) s :
  exists s', for_each l (fun a => emit (f a)) s = (Ok tt, s') /\ fs s' = fs s.
Proof.
  revert s. induction l as [|a l IH]; intros s.
  - exists s. split; reflexivity.
  - cbn [for_each]. rewrite run_emit.
    destruct (IH (mkState (fs s) (events s ++ [f a]))) as (s' & E & Ef). eauto.
Qed.

(** The file [a] of the plan has reached its destination. *)
Definition copied (a : path * path) (s : state) : Prop :=
  forall p d ro, a = (src ++ p, dst ++ p) -> get T p = Some (File d ro) ->
                 get (fs s) (dst ++ p) = Some (File d ro).

Lemma copy_core_correct k s :
  k <> 0%Z ->
  copy_inv (fs s) ->
  exists s',
    copy_core cfg src dst k s = (Ok tt, s') /\
    copy_inv (fs s') /\ all_dirs (fs s') /\
    forall p d ro, get T p = Some (File d ro) ->
                   get (fs s') (dst ++ p) = Some (File d ro).
Proof.
  intros Hk Hinv. unfold copy_core. rewrite run_read_fs.
  destruct Hinv as (Hsrc & Hrest). 
  destruct (plan_spec src dst (fs s) T Hsrc T_wf) as (ds & fl & Hplan & Hds & Hfl).
  unfold bind at 1. unfold lift at 1. rewrite Hplan. cbn [fst snd].
  (* the directories *)
  destruct (for_each_accum (fun t => copy_inv (fs t))
                           (fun a t => is_dir (fs t) (snd a) = true)
                           (ensure_dir cfg) ds) with (s := s)
    as (s1 & E1 & Hinv1 & Hmade & _).
  { intros a t Ha Ht. apply Hds in Ha as (p & es & _ & G & ->).
    destruct (ensure_dir_step p es t G Ht) as (t' & E & Hi & Hd & Hst).
    exists t'. split; [exact E|]. split; [exact Hi|]. split; [exact Hd|].
    intros b. apply Hst. }
  { now split. }
  unfold bind at 1. rewrite E1.
  assert (Hall1 : all_dirs (fs s1)).
  { intros p es G. destruct p as [|x p].
    - rewrite app_nil_r. apply Hinv1.
    - apply (Hmade (src ++ x :: p, dst ++ x :: p)). apply Hds.
      exists (x :: p), es. repeat split; [discriminate | exact G]. }
  (* the batches *)
  destruct (BatchingFacts.make_batches_concat fl k Hk) as (batches & Hb & Hcat & _).
  unfold bind at 1. unfold lift at 1. rewrite Hb.
  destruct (for_each_accum
              (fun t => copy_inv (fs t) /\ all_dirs (fs t))
              (fun (ib : nat * list (path * path)) t =>
                 forall a, In a (snd ib) -> copied a t)
              (fun ib => emit (ThreadStart (fst ib)) ;;; copy_files cfg (snd ib))
              (indexed_from 0 batches)) with (s := s1)
    as (s2 & E2 & [Hinv2 Hall2] & Hcopied & _).
  { intros [i b] t Hib [Hit Hat]. cbn [fst snd]. rewrite run_emit. unfold copy_files.
    apply in_indexed_from in Hib.
    destruct (for_each_accum
                (fun t => copy_inv (fs t) /\ all_dirs (fs t))
                copied
                (fun sd => copy_file_with_progress cfg (fst sd) (snd sd)) b)
      with (s := mkState (fs t) (events t ++ [ThreadStart i]))
      as (t' & E & Hi' & Hc' & Hst').
    { intros a u Ha [Hiu Hau].
      assert (Hafl : In a fl) by (rewrite <- Hcat; apply in_concat; eauto).
      apply Hfl in Hafl as (p & d & ro & _ & G & ->). cbn [fst snd].
      destruct (copy_file_step p d ro u G Hiu Hau) as (u' & Eu & Hiu' & Hau' & Hhere & Hst).
      exists u'. split; [exact Eu|]. split; [now split|]. split.
      - intros p' d' ro' Ea G'. injection Ea as _ Ea.
        apply app_inv_head in Ea as <-. congruence.
      - intros b' Hb' p' d' ro' Ea G'. apply (Hst p' d' ro' G'). eapply Hb'; eauto. }
    { now split. }
    exists t'. split; [exact E|]. split; [exact Hi'|]. split; [exact Hc'|].
    intros [j b'] Hjb a Ha. apply Hst'. now apply Hjb. }
  { now split. }
  unfold bind at 1. rewrite E2.
  destruct (for_each_emit (indexed_from 0 batches) (fun ib => ThreadJoin (fst ib)) s2)
    as (s3 & E3 & Ef3).
  exists s3. rewrite Ef3. split; [exact E3|]. split; [exact Hinv2|]. split; [exact Hall2|].
  intros p d ro G.
  assert (Hafl : In (src ++ p, dst ++ p) fl).
  { apply Hfl. exists p, d, ro. repeat split; auto. eapply file_path_nonempty; eauto. }
  rewrite <- Hcat in Hafl. apply in_concat in Hafl as (b & Hb' & Hab).
  destruct (in_indexed_from_inv batches b Hb' 0) as [i Hi].
  apply (Hcopied (i, b) Hi _ Hab p d ro eq_refl G).
Qed.

(** The copy of a well-formed source tree into a destination apart
    from it, where nothing stands in the way: the call returns, every
    directory of the source exists under the destination and every file
    of the source is there with its bytes and attributes; the source is
    untouched. *)
Lemma copy_dir_correct k s :
  k <> 0%Z ->
  get (fs s) src = Some T ->
  is_dir (fs s) dst = true \/
  (get (fs s) dst = None /\
   exists pd x, dst = pd ++ [x] /\ is_dir (fs s) pd = true) ->
  dirs_ok (fs s) -> files_ok (fs s) ->
  exists s',
    copy_dir_with_progress cfg src dst k s = (Ok tt, s') /\
    get (fs s') src = Some T /\
    all_dirs (fs s') /\
    forall p d ro, get T p = Some (File d ro) ->
                   get (fs s') (dst ++ p) = Some (File d ro).
Proof.
  intros Hk Hsrc Hdst Hdirs Hfiles.
  unfold copy_dir_with_progress.
  rewrite run_read_fs.
  assert (Hcore : forall s1, copy_inv (fs s1) ->
            exists s', copy_core cfg src dst k s1 = (Ok tt, s') /\
              get (fs s') src = Some T /\ all_dirs (fs s') /\
              forall p d ro, get T p = Some (File d ro) ->
                             get (fs s') (dst ++ p) = Some (File d ro)).
  { intros s1 H1. destruct (copy_core_correct k s1 Hk H1) as (s' & E & Hi & Ha & Hf).
    exists s'. repeat split; auto. apply Hi. }
  destruct Hdst as [Hd|(Hn & pd & x & Ed & Hpd)].
  - assert (X : exists_ (fs s) dst = true).
    { unfold exists_, is_dir in *. destruct (get (fs s) dst); [reflexivity|discriminate]. }
    rewrite X. cbn [negb when]. rewrite run_ret. apply Hcore. now repeat split.
  - assert (X : exists_ (fs s) dst = false) by (unfold exists_; now rewrite Hn).
    rewrite X. cbn [negb when].
    destruct (makedirs_node_child false dst pd x (fs s) Hpd) as (n1 & Hmk & G1);
      [now rewrite <- Ed|].
    rewrite <- Ed in Hmk, G1.
    assert (Hother : forall q, is_prefix q dst = false -> get n1 q = get (fs s) q)
      by (intros q Hq; eapply get_makedirs_node_other; eauto).
    assert (Hbelow : forall p, p <> [] -> get n1 (dst ++ p) = None).
    { intros [|y p] Hp; [contradiction|].
      rewrite Hother by apply Layout.longer_not_prefix.
      now rewrite get_app, Hn. }
    assert (Hs1 : exists s1,
               forall (h : unit -> M unit),
                 bind (fs_call (makedirs false dst) ;;;
                       emit (MakeDirs dst) ;;;
                       plugin_print cfg DEBUG (MsgDirCreated dst)) h s = h tt s1 /\
                 fs s1 = n1).
    { unfold plugin_print. destruct (debug cfg); eexists; intros h;
        (rewrite run_bind_assoc, (run_fs_call _ _ _ n1 Hmk), run_bind_assoc, run_emit;
         split; reflexivity). }
    destruct Hs1 as (s1 & Hs1). destruct (Hs1 (fun _ => copy_core cfg src dst k)) as [E1 Ef1].
    rewrite E1. apply Hcore. rewrite Ef1. split; [|split; [|split]].
    + rewrite Hother; [exact Hsrc|]. now apply diverge_not_prefix.
    + unfold is_dir. now rewrite G1.
    + intros [|y p] es G; [right; rewrite app_nil_r; unfold is_dir; now rewrite G1|].
      left. now apply Hbelow.
    + intros p d ro G. left. apply Hbelow. eapply file_path_nonempty; eauto.
Qed.

End CopyCorrect.

(** ** PRE_BACKUP: what the snapshot holds *)

Section Snapshot.
Import FS PathFacts FSFacts TreeFacts CopyFacts.

Variable cfg : configuration.
Variable req : request.
Variable env : environment.




End Snapshot.

(** ** What the file system operations keep in place *)

Module ExistsFacts.
Import FS PathFacts FSFacts TreeFacts PlanSpec CopyFacts.




(** After [makedirs] every directory down to the target is there. *)
Lemma makedirs_node_made ok full p : forall n n' q,
  makedirs_node ok full p n = Ok n' ->
  is_prefix q p = true -> is_dir n' q = true.
Proof.
  unfold is_dir. induction p as [|x p IH]; intros n n' q H Hq.
  - destruct q; [|discriminate]. destruct n; simpl in H; [discriminate|].
    destruct ok; [|discriminate]. now injection H as <-.
  - destruct n as [d ro|es]; [discriminate|]. simpl in H.
    destruct q as [|y q].
    + destruct (assoc x es) as [c|].
      * destruct (makedirs_node ok full p c); try discriminate. now injection H as <-.
      * now injection H as <-.
    + simpl in Hq. apply andb_true_iff in Hq as [E Hq]. apply String.eqb_eq in E as ->.
      destruct (assoc x es) as [c|] eqn:A.
      * destruct (makedirs_node ok full p c) as [c'| |] eqn:Hc; try discriminate.
        injection H as <-. cbn [get]. rewrite assoc_set_same. eauto.
      * injection H as <-. cbn [get]. rewrite assoc_set_same.
        now apply is_dir_fresh_dirs.
Qed.


End ExistsFacts.

(** ** Directories first, threads after *)

Module ThreadFacts.
Import FS ExistsFacts Threads.








Section Invariant.

Variable cfg : configuration.
Variable files_to_copy : list (path * path).
Variable max_threads : Z.
Variable dirs_to_create : list (path * path).
Variable s0 : state.





End Invariant.
End ThreadFacts.



(** ** SWAP: the deletion loop on any tree *)

Lemma for_each_app {A} (a b : list A) body s :
  for_each (a ++ b) body s = bind (for_each a body) (fun _ => for_each b body) s.
Proof.
  revert s. induction a as [|x a IH]; intros s; [reflexivity|].
  cbn [app for_each]. unfold bind at 1 2 3.
  destruct (body x s) as [[[]|e|] s1]; [apply IH | reflexivity | reflexivity].
Qed.

Section Deletion.
Import FS PathFacts FSFacts TreeFacts PlanSpec CopyFacts ExistsFacts.

Variable cfg : configuration.

Lemma diverge_siblings root f g r r' :
  f <> g -> diverge (root ++ f :: r) (root ++ g :: r') = true.
Proof.
  intros H. apply diverge_after_stem. now apply String.eqb_neq.
Qed.

Lemma delete_walked_eq root dirs files :
  delete_walked cfg (root, dirs, files)
  = (unlink_files cfg root files ;;; rmdir_dirs cfg root dirs).
Proof. reflexivity. Qed.

(** One file, read-only or not, is unlinked. *)
Lemma unlink_one root f s :
  is_dir (fs s) root = true ->
  is_file (fs s) (root ++ [f]) = true ->
  exists s',
    (fs_call (chmod_writable (root ++ [f])) ;;;
     plugin_print cfg DEBUG (MsgFileDeleted (root ++ [f])) ;;;
     fs_call (unlink (root ++ [f]))) s = (Ok tt, s') /\
    (forall q, is_prefix (root ++ [f]) q = false ->
               is_dir (fs s') q = is_dir (fs s) q) /\
    get (fs s') (root ++ [f]) = None /\
    forall q, diverge q (root ++ [f]) = true -> get (fs s') q = get (fs s) q.
Proof.
  intros Hroot Hfile. unfold is_file in Hfile.
  destruct (get (fs s) (root ++ [f])) as [[d ro|]|] eqn:G; try discriminate.
  set (n1 := alter_at (root ++ [f]) (fun _ => Some (File d false)) (fs s)).
  set (n2 := alter_at (root ++ [f]) (fun _ => None) n1).
  assert (H1 : chmod_writable (root ++ [f]) (fs s) = Ok n1)
    by (unfold chmod_writable; now rewrite G).
  assert (Hroot1 : is_dir n1 root = true).
  { unfold n1. rewrite is_dir_alter_at; [exact Hroot | apply Layout.longer_not_prefix]. }
  assert (G1 : get n1 (root ++ [f]) = Some (File d false))
    by (unfold n1; now rewrite get_alter_at_snoc).
  assert (H2 : unlink (root ++ [f]) n1 = Ok n2)
    by (unfold unlink; now rewrite G1).
  assert (Hrun : exists s',
             (fs_call (chmod_writable (root ++ [f])) ;;;
              plugin_print cfg DEBUG (MsgFileDeleted (root ++ [f])) ;;;
              fs_call (unlink (root ++ [f]))) s = (Ok tt, s') /\ fs s' = n2).
  { rewrite (run_fs_call _ _ _ n1 H1). unfold plugin_print.
    destruct (debug cfg).
    - rewrite run_emit. unfold fs_call. cbn [fs events]. rewrite H2. eauto.
    - rewrite run_ret. unfold fs_call. cbn [fs events]. rewrite H2. eauto. }
  destruct Hrun as (s' & E & Ef). exists s'. rewrite Ef. split; [exact E|].
  split; [|split].
  - intros q Hq. unfold n2, n1. now rewrite !is_dir_alter_at.
  - unfold n2. now rewrite get_alter_at_snoc.
  - intros q Hq. unfold n2, n1. now rewrite !get_alter_at_diverge.
Qed.

Lemma unlink_files_spec root : forall files s,
  NoDup files ->
  is_dir (fs s) root = true ->
  (forall f, In f files -> is_file (fs s) (root ++ [f]) = true) ->
  exists s',
    unlink_files cfg root files s = (Ok tt, s') /\
    (forall q, (forall f, In f files -> is_prefix (root ++ [f]) q = false) ->
               is_dir (fs s') q = is_dir (fs s) q) /\
    (forall f, In f files -> get (fs s') (root ++ [f]) = None) /\
    (forall q, (forall f, In f files -> diverge q (root ++ [f]) = true) ->
               get (fs s') q = get (fs s) q).
Proof.
  unfold unlink_files.
  induction files as [|f files IH]; intros s HN Hroot Hfiles.
  - exists s. repeat split; auto. intros f [].
  - inversion HN as [|? ? Hnotin HN']; subst.
    destruct (unlink_one root f s Hroot (Hfiles f (or_introl eq_refl)))
      as (s1 & E1 & Hkind1 & Hgone & Hframe).
    assert (Hsib : forall g, In g files -> diverge (root ++ [g]) (root ++ [f]) = true).
    { intros g Hg. apply diverge_siblings. intros ->. contradiction. }
    destruct (IH s1 HN') as (s' & E & Hkind' & Hgone' & Hframe').
    { rewrite Hkind1; [exact Hroot | apply Layout.longer_not_prefix]. }
    { intros g Hg. unfold is_file. rewrite Hframe by auto. apply Hfiles. now right. }
    exists s'. split; [|split; [|split]].
    + cbn [for_each]. unfold bind at 1. now rewrite E1.
    + intros q Hq. rewrite Hkind', Hkind1; auto.
      * apply Hq. now left.
      * intros g Hg. apply Hq. now right.
    + intros g [<-|Hg]; [|auto].
      rewrite Hframe'; [exact Hgone|].
      intros g Hg. rewrite diverge_sym. auto.
    + intros q Hq. rewrite Hframe', Hframe; auto.
      * apply Hq. now left.
      * intros g Hg. apply Hq. now right.
Qed.

Lemma rmdir_one root x s :
  is_dir (fs s) root = true ->
  get (fs s) (root ++ [x]) = Some (Dir []) ->
  exists s',
    (plugin_print cfg DEBUG (MsgDirDeleted (root ++ [x])) ;;;
     fs_call (rmdir (root ++ [x]))) s = (Ok tt, s') /\
    (forall q, is_prefix (root ++ [x]) q = false ->
               is_dir (fs s') q = is_dir (fs s) q) /\
    get (fs s') (root ++ [x]) = None /\
    forall q, diverge q (root ++ [x]) = true -> get (fs s') q = get (fs s) q.
Proof.
  intros Hroot G.
  set (n1 := alter_at (root ++ [x]) (fun _ => None) (fs s)).
  assert (H1 : rmdir (root ++ [x]) (fs s) = Ok n1)
    by (unfold rmdir; now rewrite G).
  assert (Hrun : exists s',
             (plugin_print cfg DEBUG (MsgDirDeleted (root ++ [x])) ;;;
              fs_call (rmdir (root ++ [x]))) s = (Ok tt, s') /\ fs s' = n1).
  { unfold plugin_print. destruct (debug cfg).
    - rewrite run_emit. unfold fs_call. cbn [fs events]. rewrite H1. eauto.
    - rewrite run_ret. unfold fs_call. rewrite H1. eauto. }
  destruct Hrun as (s' & E & Ef). exists s'. rewrite Ef. split; [exact E|].
  split; [|split].
  - intros q Hq. unfold n1. now rewrite is_dir_alter_at.
  - unfold n1. now rewrite get_alter_at_snoc.
  - intros q Hq. unfold n1. now rewrite get_alter_at_diverge.
Qed.

Lemma rmdir_dirs_spec root : forall dirs s,
  NoDup dirs ->
  is_dir (fs s) root = true ->
  (forall x, In x dirs -> get (fs s) (root ++ [x]) = Some (Dir [])) ->
  exists s',
    rmdir_dirs cfg root dirs s = (Ok tt, s') /\
    (forall q, (forall x, In x dirs -> is_prefix (root ++ [x]) q = false) ->
               is_dir (fs s') q = is_dir (fs s) q) /\
    (forall x, In x dirs -> get (fs s') (root ++ [x]) = None) /\
    (forall q, (forall x, In x dirs -> diverge q (root ++ [x]) = true) ->
               get (fs s') q = get (fs s) q).
Proof.
  unfold rmdir_dirs.
  induction dirs as [|x dirs IH]; intros s HN Hroot Hdirs.
  - exists s. repeat split; auto. intros x [].
  - inversion HN as [|? ? Hnotin HN']; subst.
    destruct (rmdir_one root x s Hroot (Hdirs x (or_introl eq_refl)))
      as (s1 & E1 & Hkind1 & Hgone & Hframe).
    assert (Hsib : forall g, In g dirs -> diverge (root ++ [g]) (root ++ [x]) = true).
    { intros g Hg. apply diverge_siblings. intros ->. contradiction. }
    destruct (IH s1 HN') as (s' & E & Hkind' & Hgone' & Hframe').
    { rewrite Hkind1; [exact Hroot | apply Layout.longer_not_prefix]. }
    { intros g Hg. rewrite Hframe by auto. apply Hdirs. now right. }
    exists s'. split; [|split; [|split]].
    + cbn [for_each]. unfold bind at 1. now rewrite E1.
    + intros q Hq. rewrite Hkind', Hkind1; auto.
      * apply Hq. now left.
      * intros g Hg. apply Hq. now right.
    + intros g [<-|Hg]; [|auto].
      rewrite Hframe'; [exact Hgone|].
      intros g Hg. rewrite diverge_sym. auto.
    + intros q Hq. rewrite Hframe', Hframe; auto.
      * apply Hq. now left.
      * intros g Hg. apply Hq. now right.
Qed.

(** What the deletion loop leaves of a node: a directory is emptied, a
    regular file at the root of the walk is not touched. *)
Definition emptied (c : node) : node :=
  match c with
  | Dir _ => Dir []
  | File d ro => File d ro
  end.

(** The loop of lines 438-447 over the walk of the tree [T] found at
    [root]: it returns, leaves [T] emptied, and changes nothing that
    parts ways with [root]. *)
Definition deleted_ok (T : node) : Prop :=
  forall root s,
    wf T -> get (fs s) root = Some T ->
    exists s',
      for_each (walk_node false root T) (delete_walked cfg) s = (Ok tt, s') /\
      get (fs s') root = Some (emptied T) /\
      (forall q, is_prefix root q = false -> is_dir (fs s') q = is_dir (fs s) q) /\
      (forall q, diverge q root = true -> get (fs s') q = get (fs s) q).

Lemma delete_children root : forall l s,
  Forall (fun e => deleted_ok (snd e)) l ->
  NoDup (map fst l) ->
  (forall x c, In (x, c) l -> wf c) ->
  (forall x c, In (x, c) l -> get (fs s) (root ++ [x]) = Some c) ->
  exists s',
    for_each (walk_entries false root l) (delete_walked cfg) s = (Ok tt, s') /\
    (forall x c, In (x, c) l -> get (fs s') (root ++ [x]) = Some (emptied c)) /\
    (forall q, (forall x, In x (map fst l) -> is_prefix (root ++ [x]) q = false) ->
               is_dir (fs s') q = is_dir (fs s) q) /\
    (forall q, (forall x, In x (map fst l) -> diverge q (root ++ [x]) = true) ->
               get (fs s') q = get (fs s) q).
Proof.
  induction l as [|[x c] l IH]; intros s Hall HN Hwf Hget.
  - exists s. repeat split; auto; try (intros ? ? []).
  - inversion Hall as [|? ? Hc Hall']; subst. cbn [snd] in Hc.
    cbn [map fst] in HN. inversion HN as [|? ? Hnotin HN']; subst.
    destruct (Hc (root ++ [x]) s (Hwf x c (or_introl eq_refl))
                 (Hget x c (or_introl eq_refl)))
      as (s1 & E1 & Hx1 & Hkind1 & Hframe1).
    assert (Hsib : forall y, In y (map fst l) ->
                             diverge (root ++ [y]) (root ++ [x]) = true).
    { intros y Hy. apply diverge_siblings. intros ->. contradiction. }
    destruct (IH s1 Hall' HN') as (s' & E & Hl' & Hkind' & Hframe').
    { intros y c' Hin. apply (Hwf y c'). now right. }
    { intros y c' Hin. rewrite Hframe1.
      - apply Hget. now right.
      - apply Hsib. change y with (fst (y, c')). now apply in_map. }
    exists s'. split; [|split; [|split]].
    + change (walk_entries false root ((x, c) :: l))
        with (walk_node false (root ++ [x]) c ++ walk_entries false root l).
      rewrite for_each_app. unfold bind. now rewrite E1.
    + intros y c' [[= <- <-]|Hin]; [|now apply Hl'].
      rewrite Hframe'; [exact Hx1|].
      intros y Hy. rewrite diverge_sym. now apply Hsib.
    + intros q Hq. rewrite Hkind', Hkind1; auto.
      * apply Hq. now left.
      * intros y Hy. apply Hq. now right.
    + intros q Hq. rewrite Hframe', Hframe1; auto.
      * apply Hq. now left.
      * intros y Hy. apply Hq. now right.
Qed.

Lemma NoDup_filter_names (f : string * node -> bool) es :
  NoDup (map fst es) -> NoDup (map fst (filter f es)).
Proof.
  induction es as [|[x c] es IH]; intros HN; [constructor|].
  cbn [map fst] in HN. inversion HN as [|? ? Hnotin HN']; subst.
  cbn [filter]. destruct (f (x, c)); [|auto].
  cbn [map fst]. constructor; [|auto].
  intros Hin. apply Hnotin. apply in_map_iff in Hin as ([y c'] & <- & Hy).
  apply filter_In in Hy as [Hy _]. change y with (fst (y, c')). now apply in_map.
Qed.

Lemma assoc_None x es : ~ In x (map fst es) -> assoc x es = None.
Proof.
  induction es as [|[y c] es IH]; intros H; [reflexivity|].
  cbn [assoc]. destruct (String.eqb x y) eqn:E.
  - apply String.eqb_eq in E as ->. exfalso. apply H. now left.
  - apply IH. intros Hin. apply H. now right.
Qed.

Lemma all_gone_is_empty n root :
  is_dir n root = true ->
  (forall x, get n (root ++ [x]) = None) ->
  get n root = Some (Dir []).
Proof.
  unfold is_dir. intros Hd Hall.
  destruct (get n root) as [[d ro|es]|] eqn:G; try discriminate.
  destruct es as [|[x c] es]; [reflexivity|].
  specialize (Hall x). rewrite get_app, G in Hall. cbn [get assoc] in Hall.
  rewrite String.eqb_refl in Hall. discriminate.
Qed.

(** Every tree is deleted that way. *)
Lemma delete_tree : forall T, deleted_ok T.
Proof.
  induction T as [d ro|es IH] using node_ind'; intros root s Hwf G.
  - exists s. repeat split; auto.
  - apply wf_Dir in Hwf as [HN Hwf].
    assert (Hroot : is_dir (fs s) root = true) by (unfold is_dir; now rewrite G).
    assert (Hchild : forall x c, In (x, c) es -> get (fs s) (root ++ [x]) = Some c).
    { intros x c Hin. rewrite get_app, G. cbn [get]. now rewrite (In_assoc _ _ _ HN Hin). }
    destruct (delete_children root es s IH HN Hwf Hchild)
      as (s1 & E1 & Hes1 & Hkind1 & Hframe1).
    assert (Hlonger : forall (names : list string) x, In x names ->
                                    is_prefix (root ++ [x]) root = false)
      by (intros; apply Layout.longer_not_prefix).
    assert (Hroot1 : is_dir (fs s1) root = true).
    { rewrite Hkind1; [exact Hroot | eauto]. }
    assert (Hdiff : forall f x, In f (file_names es) -> In x (dir_names es) -> f <> x).
    { intros f x Hf Hx ->. apply in_file_names in Hf as (d & ro & Hf).
      apply in_dir_names in Hx as [ds Hx].
      pose proof (In_assoc _ _ _ HN Hf). pose proof (In_assoc _ _ _ HN Hx). congruence. }
    (* the files of the root *)
    destruct (unlink_files_spec root (file_names es) s1) as (s2 & E2 & Hkind2 & Hgone2 & Hframe2).
    { apply NoDup_filter_names, HN. }
    { exact Hroot1. }
    { intros f Hf. apply in_file_names in Hf as (d & ro & Hf).
      unfold is_file. now rewrite (Hes1 _ _ Hf). }
    assert (Hroot2 : is_dir (fs s2) root = true).
    { rewrite Hkind2; [exact Hroot1 | eauto]. }
    (* its subdirectories *)
    destruct (rmdir_dirs_spec root (dir_names es) s2) as (s3 & E3 & Hkind3 & Hgone3 & Hframe3).
    { apply NoDup_filter_names, HN. }
    { exact Hroot2. }
    { intros x Hx. rewrite Hframe2.
      - apply in_dir_names in Hx as [ds Hx]. now rewrite (Hes1 _ _ Hx).
      - intros f Hf. apply diverge_siblings. intros ->. eapply Hdiff; eauto. }
    assert (Hroot3 : is_dir (fs s3) root = true).
    { rewrite Hkind3; [exact Hroot2 | eauto]. }
    exists s3. split; [|split; [|split]].
    + rewrite walk_node_Dir, for_each_app. unfold bind at 1. rewrite E1.
      cbn [for_each]. rewrite delete_walked_eq.
      unfold bind. rewrite E2, E3. reflexivity.
    + cbn [emptied]. apply all_gone_is_empty; [exact Hroot3|].
      intros x. destruct (in_dec string_dec x (map fst es)) as [Hin|Hnotin].
      * apply in_map_iff in Hin as ([y [d ro|ds]] & <- & Hy); cbn [fst].
        -- assert (Hf : In y (file_names es)) by (apply in_file_names; eauto).
           rewrite Hframe3; [now apply Hgone2|].
           intros x Hx. apply diverge_siblings. eapply Hdiff; eauto.
        -- apply Hgone3. apply in_dir_names. eauto.
      * assert (Hother : forall (names : list string) y,
                   In y names -> incl names (map fst es) ->
                   diverge (root ++ [x]) (root ++ [y]) = true).
        { intros names y Hy Hincl. apply diverge_siblings. intros ->.
          apply Hnotin. now apply Hincl. }
        assert (Hfn : incl (file_names es) (map fst es))
          by (unfold file_names; intros y Hy; apply in_map_iff in Hy as (e & <- & He);
              apply filter_In in He as [He _]; now apply in_map).
        assert (Hdn : incl (dir_names es) (map fst es))
          by (unfold dir_names; intros y Hy; apply in_map_iff in Hy as (e & <- & He);
              apply filter_In in He as [He _]; now apply in_map).
        rewrite Hframe3, Hframe2, Hframe1; eauto using incl_refl.
        rewrite get_app, G. cbn [get]. now rewrite assoc_None.
    + intros q Hq.
      assert (Hsub : forall (names : list string) x, In x names ->
                                     is_prefix (root ++ [x]) q = false)
        by (intros; now apply Layout.not_prefix_app_l).
      rewrite Hkind3, Hkind2, Hkind1; eauto.
    + intros q Hq.
      assert (Hsub : forall (names : list string) x, In x names ->
                                     diverge q (root ++ [x]) = true)
        by (intros; now apply diverge_app_r).
      rewrite Hframe3, Hframe2, Hframe1; eauto.
Qed.

End Deletion.

(** ** Staged trees that fit *)

Module CompatFacts.
Import FS PathFacts FSFacts TreeFacts PlanSpec CopyFacts.

Definition oget (D : option node) (p : path) : option node :=
  match D with
  | Some n => get n p
  | None => None
  end.

Lemma compatible_Dir es ds :
  compatible (Dir es) (Some (Dir ds)) = true ->
  forall x c, In (x, c) es -> compatible c (assoc x ds) = true.
Proof.
  cbn [compatible]. induction es as [|[y c'] es IH]; intros H x c []. 
  - injection H0 as -> ->. now apply andb_true_iff in H as [H _].
  - apply andb_true_iff in H as [_ H]. eauto.
Qed.

(** What [compatible] says path by path. *)
Lemma compatible_spec : forall T D,
  compatible T D = true ->
  forall p,
    (forall es, get T p = Some (Dir es) ->
                oget D p = None \/ exists ds, oget D p = Some (Dir ds)) /\
    (forall d ro, get T p = Some (File d ro) ->
                  oget D p = None \/ exists d', oget D p = Some (File d' false)).
Proof.
  induction T as [d ro|es IH] using node_ind'; intros D HC p.
  - destruct p as [|x p]; [|split; intros; discriminate].
    split; [intros; discriminate|]. intros d0 ro0 _.
    destruct D as [[d' [|]|ds]|]; try discriminate; cbn [oget get]; eauto.
  - destruct D as [[d' ro'|ds]|]; try discriminate; [|split; intros; now left].
    destruct p as [|x p].
    + split; [|intros; discriminate]. intros es' _. right. cbn [oget get]. eauto.
    + cbn [get oget]. destruct (assoc x es) as [c|] eqn:A;
        [|split; intros; discriminate].
      apply assoc_In in A. rewrite Forall_forall in IH.
      specialize (IH _ A (assoc x ds) (compatible_Dir _ _ HC _ _ A) p).
      cbn [snd] in IH. unfold oget in IH. destruct (assoc x ds); exact IH.
Qed.

End CompatFacts.

(** ** SWAP: the whole phase *)

Section Swap.
Import FS PathFacts FSFacts TreeFacts PlanSpec CopyFacts CompatFacts.

Variable cfg : configuration.
Variable req : request.

Let world := current_world_dir req.
Let worlds := worlds_dir req.

(** The deletion of lines 433-449 on any old world: the loop returns,
    read-only files or not; a world directory is left in place, empty;
    what parts ways with the world directory is untouched. *)
Lemma delete_old_world_spec s T :
  get (fs s) world = Some T -> wf T ->
  exists s',
    delete_old_world cfg req s = (Ok tt, s') /\
    get (fs s') world = Some (emptied T) /\
    (forall q, is_prefix world q = false -> is_dir (fs s') q = is_dir (fs s) q) /\
    (forall q, diverge q world = true -> get (fs s') q = get (fs s) q).
Proof.
  intros G Hwf. unfold delete_old_world. rewrite run_read_fs.
  fold world. unfold exists_. rewrite G. cbn [when plugin_print].
  rewrite !run_emit. cbn [fs events]. unfold walk. rewrite G.
  destruct (delete_tree cfg T world
              (mkState (fs s) ((events s ++ [Log WARNING (MsgOldWorldExists world)])
                                 ++ [Log INFO MsgDeletingOldWorld])) Hwf G)
    as (s1 & E1 & G1 & Hkind & Hframe).
  cbn [fs] in Hkind, Hframe.
  unfold bind at 1. rewrite E1. unfold plugin_print.
  destruct (debug cfg); eexists; (split; [reflexivity|]); cbn [fs]; auto.
Qed.

Lemma delete_old_world_absent s :
  get (fs s) world = None -> delete_old_world cfg req s = (Ok tt, s).
Proof.
  intros G. unfold delete_old_world. rewrite run_read_fs.
  fold world. unfold exists_. now rewrite G.
Qed.

Lemma temp_world_diverge_worlds :
  diverge (temp_world_dir req) worlds = true.
Proof.
  unfold worlds, worlds_dir. rewrite Layout.temp_world_is.
  now apply (diverge_after_stem _ _ _ _ []).
Qed.

Lemma worlds_diverge_temp : diverge worlds (temp_dir req) = true.
Proof.
  unfold worlds, worlds_dir, temp_dir. now apply (diverge_after_stem _ _ _ [] []).
Qed.

(** The worlds directory after the deletion, path by path. *)
Lemma after_deletion s entries ws :
  get (fs s) (temp_world_dir req) = Some (Dir entries) ->
  get (fs s) worlds = Some (Dir ws) -> wf (Dir ws) ->
  exists s3,
    delete_old_world cfg req s = (Ok tt, s3) /\
    get (fs s3) (temp_world_dir req) = Some (Dir entries) /\
    is_dir (fs s3) worlds = true /\
    forall p, p <> [] ->
              get (fs s3) (worlds ++ p)
              = get (Dir (emptied_world (world_name req) ws)) p.
Proof.
  intros Gt Gw Hwf.
  assert (Gworld : get (fs s) world = assoc (world_name req) ws).
  { unfold world, current_world_dir. fold worlds. rewrite get_app, Gw.
    cbn [get]. now destruct (assoc (world_name req) ws). }
  assert (Hdir : is_dir (fs s) worlds = true) by (unfold is_dir; now rewrite Gw).
  assert (Hbelow : forall x r, get (fs s) (worlds ++ x :: r) = get (Dir ws) (x :: r))
    by (intros; now rewrite get_app, Gw).
  destruct (assoc (world_name req) ws) as [Tw|] eqn:A.
  - assert (HwfT : wf Tw).
    { apply wf_Dir in Hwf as [_ Hwf]. apply (Hwf (world_name req)). now apply assoc_In. }
    destruct (delete_old_world_spec s Tw Gworld HwfT) as (s3 & E & G3 & Hkind & Hframe).
    exists s3. split; [exact E|]. split; [|split].
    + rewrite Hframe; [exact Gt|]. rewrite diverge_sym.
      apply Layout.world_diverge_temp_world.
    + rewrite Hkind; [exact Hdir|]. apply Layout.longer_not_prefix.
    + intros [|x r] Hp; [contradiction|].
      destruct (String.eqb x (world_name req)) eqn:Ex.
      * apply String.eqb_eq in Ex as ->.
        replace (worlds ++ world_name req :: r) with (world ++ r)
          by (unfold world, current_world_dir, worlds; now rewrite <- app_assoc).
        rewrite get_app, G3. unfold emptied_world. rewrite A.
        destruct Tw as [d ro|ds]; cbn [emptied get].
        -- now rewrite A.
        -- now rewrite assoc_set_same.
      * rewrite Hframe, Hbelow.
        -- unfold emptied_world. rewrite A. destruct Tw as [d ro|ds]; [reflexivity|].
           cbn [get]. now rewrite assoc_set_other.
        -- unfold world, current_world_dir. fold worlds.
           apply diverge_after_stem. exact Ex.
  - rewrite (delete_old_world_absent s Gworld). exists s.
    split; [reflexivity|]. split; [exact Gt|]. split; [exact Hdir|].
    intros [|x r] Hp; [contradiction|]. rewrite Hbelow.
    unfold emptied_world. now rewrite A.
Qed.

(** The SWAP phase on a staged tree that fits: it returns; every file
    and every directory staged under [temp_easybackuper/worldName] is
    afterwards under [worlds], at the same relative path; the staging
    directory is gone. *)
Lemma swap_phase_lands s entries ws :
  get (fs s) (temp_world_dir req) = Some (Dir entries) -> wf (Dir entries) ->
  get (fs s) worlds = Some (Dir ws) -> wf (Dir ws) ->
  max_workers cfg <> 0%Z ->
  compatible (Dir entries) (Some (Dir (emptied_world (world_name req) ws))) = true ->
  exists s',
    swap_phase cfg req s = (Ok tt, s') /\
    (forall p d ro, get (Dir entries) p = Some (File d ro) ->
                    get (fs s') (worlds ++ p) = Some (File d ro)) /\
    (forall p es, get (Dir entries) p = Some (Dir es) ->
                  is_dir (fs s') (worlds ++ p) = true) /\
    exists_ (fs s') (temp_dir req) = false.
Proof.
  intros Gt Hwft Gw Hwfw Hk HC.
  destruct (after_deletion s entries ws Gt Gw Hwfw) as (s3 & E3 & Gt3 & Hdir3 & Hagree).
  unfold swap_phase. unfold bind at 1. rewrite E3. cbn [plugin_print].
  rewrite !run_emit. cbn [fs events].
  pose proof (compatible_spec _ _ HC) as Hspec.
  match goal with |- context [copy_dir_with_progress _ _ _ _ ;;; _] =>
    match goal with |- context [bind _ _ ?st] =>
      destruct (copy_dir_correct cfg (temp_world_dir req) worlds (Dir entries) entries
                  eq_refl Hwft temp_world_diverge_worlds (max_workers cfg) st Hk)
        as (s4 & E4 & Gt4 & Hdirs4 & Hfiles4)
    end end.
  - exact Gt3.
  - now left.
  - intros p es G. destruct p as [|x r]; [right; now rewrite app_nil_r|].
    cbn [fs]. unfold is_dir. rewrite Hagree by discriminate.
    destruct (proj1 (Hspec (x :: r)) es G) as [Hn|[ds Hd]]; cbn [oget] in *.
    + left. exact Hn.
    + right. now rewrite Hd.
  - intros p d ro G. destruct p as [|x r]; [discriminate|].
    cbn [fs]. rewrite Hagree by discriminate.
    destruct (proj2 (Hspec (x :: r)) d ro G) as [Hn|[d' Hd]]; cbn [oget] in *.
    + left. exact Hn.
    + right. left. eauto.
  - unfold bind at 1. unfold worlds in E4. rewrite E4.
    rewrite !run_emit, run_fs_update, !run_emit. cbn [fs events].
    eexists. split; [reflexivity|]. cbn [fs]. split; [|split].
    + intros p d ro G.
      destruct (rmtree_cases (temp_dir req) (fs s4)) as [-> | ->]; [|eauto].
      rewrite get_alter_at_diverge; [eauto|].
      apply diverge_app_l, worlds_diverge_temp.
    + intros p es G.
      destruct (rmtree_cases (temp_dir req) (fs s4)) as [-> | ->];
        [|eapply Hdirs4; eauto].
      rewrite is_dir_alter_at; [eapply Hdirs4; eauto|].
      apply diverge_not_prefix. rewrite diverge_sym.
      apply diverge_app_l, worlds_diverge_temp.
    + apply temp_dir_gone. apply dir_not_file.
      apply (is_dir_app _ _ [world_name req]). fold (temp_world_dir req).
      unfold is_dir. now rewrite Gt4.
Qed.

End Swap.

(** ** From EXTRACT to the end of the run *)

Section Landing.
Import FS PathFacts FSFacts TreeFacts PlanSpec CopyFacts ExistsFacts.

Variable cfg : configuration.
Variable req : request.
Variable env : environment.

(** When the EXTRACT phase has gone through, what the tool extracted is
    the tree at [temp_easybackuper/worldName]. *)
Lemma extract_phase_stages s1 s2 entries :
  extract_phase cfg req env s1 = (Ok None, s2) ->
  extract_entries env = Some entries ->
  get (fs s2) (temp_world_dir req) = Some (Dir entries).
Proof.
  intros H Hentries. unfold extract_phase in H. cbn [plugin_print] in H.
  rewrite run_emit, run_read_fs in H. cbn [fs] in H.
  set (sa := if exists_ (fs s1) (temp_dir req)
             then mkState (rmtree (temp_dir req) (fs s1))
                          (events s1 ++ [Log INFO MsgRestoreStart])
             else mkState (fs s1) (events s1 ++ [Log INFO MsgRestoreStart])).
  assert (Ea : forall (h : unit -> M (option Z)),
             bind (when (exists_ (fs s1) (temp_dir req))
                        (fs_update (rmtree (temp_dir req)))) h
                  (mkState (fs s1) (events s1 ++ [Log INFO MsgRestoreStart]))
             = h tt sa).
  { intros h. unfold sa, when. destruct (exists_ _ _); reflexivity. }
  rewrite Ea in H. clear Ea. unfold bind at 1 in H. unfold fs_call at 1 in H.
  destruct (makedirs true (temp_dir req) (fs sa)) as [n1| |] eqn:Hmk; try discriminate.
  assert (G1 : get n1 (temp_dir req) = Some (Dir [])).
  { apply (fresh_dir_made (temp_dir req) (fs s1)); [apply temp_dir_nonempty|].
    unfold sa in Hmk. destruct (exists_ (fs s1) (temp_dir req)); exact Hmk. }
  assert (Hd1 : is_dir n1 (temp_dir req) = true)
    by (unfold is_dir; now rewrite G1).
  rewrite run_emit in H. cbn [fs events] in H.
  assert (Hstaged : forall n,
             is_dir n (temp_dir req) = true ->
             get n (temp_world_dir req) = None \/
             get n (temp_world_dir req) = Some (Dir []) ->
             get (tool_extract env (temp_world_dir req) n) (temp_world_dir req)
             = Some (Dir entries)).
  { intros n Hn Hempty. unfold tool_extract. rewrite Hentries.
    unfold temp_world_dir in *. rewrite get_alter_at_snoc by exact Hn.
    destruct Hempty as [-> | ->]; [reflexivity|]. now rewrite overlay_empty. }
  destruct (use_7z cfg).
  - rewrite run_read_fs in H. cbn [fs] in H.
    destruct (negb (exists_ n1 (exe_path cfg req))); [discriminate|].
    rewrite run_emit in H. unfold bind at 1 in H.
    match type of H with context [run_extract req env SevenZip ?st] =>
      destruct (run_extract req env SevenZip st) as [[rc|e|] st'] eqn:R;
        try discriminate;
        apply run_extract_returned in R as (_ & _ & -> & ->) end.
    destruct (negb (extract_returncode env =? 0)%Z).
    { unfold decode in H. destruct (extract_decodes env); discriminate. }
    unfold decode in H. destruct (extract_decodes env); [|discriminate].
    rewrite run_ret in H.
    match type of H with bind (for_each ?l _) _ ?st = _ =>
      destruct (for_each_emit l (fun line => Log INFO (MsgToolOutput line)) st)
        as (sb & Eb & Efb) end.
    unfold bind at 1 in H. rewrite Eb in H. rewrite run_emit in H.
    injection H as <-. cbn [fs]. rewrite Efb. cbn [fs].
    apply Hstaged; [exact Hd1|]. left.
    unfold temp_world_dir. now rewrite get_app, G1.
  - rewrite run_emit in H. unfold bind at 1 in H. unfold fs_call at 1 in H.
    cbn [fs events] in H.
    destruct (makedirs true (temp_world_dir req) n1) as [n2| |] eqn:Hmk2;
      try discriminate.
    assert (Hd2 : is_dir n2 (temp_dir req) = true)
      by (eapply is_dir_makedirs_node; eauto).
    assert (G2 : get n2 (temp_world_dir req) = Some (Dir [])).
    { eapply makedirs_node_fresh; [exact Hmk2|].
      unfold temp_world_dir. now rewrite get_app, G1. }
    unfold bind at 1 in H.
    match type of H with context [run_extract req env Tar ?st] =>
      destruct (run_extract req env Tar st) as [[rc|e|] st'] eqn:R;
        try discriminate;
        apply run_extract_returned in R as (_ & _ & -> & ->) end.
    destruct (negb (extract_returncode env =? 0)%Z); [discriminate|].
    injection H as <-. cbn [fs]. apply Hstaged; [exact Hd2|]. now right.
Qed.

(** The restart phase returns unless the configured delay is negative,
    and leaves the file system alone. *)
Lemma restart_phase_returns s :
  (restart_status cfg = true -> (0 <= wait_time_s cfg)%Z) ->
  exists s', restart_phase cfg req env s = (Ok tt, s') /\ fs s' = fs s.
Proof.
  intros Hwait. unfold restart_phase. cbn [plugin_print]. rewrite run_emit.
  destruct (restart_status cfg); [|eexists; split; reflexivity].
  specialize (Hwait eq_refl). rewrite !run_emit. unfold sleep.
  destruct (wait_time_s cfg <? 0)%Z eqn:E; [apply Z.ltb_lt in E; lia|].
  rewrite !run_emit. unfold try_except. rewrite run_emit.
  destruct (launch_raises env); eexists; split; reflexivity.
Qed.

End Landing.

(** Any old world directory goes through the deletion the same way: the
    loop returns whatever files are read-only, and the world directory
    is still there afterwards, empty. *)
Lemma old_world_is_emptied_not_removed cfg req s es :
  FS.get (fs s) (current_world_dir req) = Some (Dir es) ->
  FS.wf (Dir es) ->
  exists s',
    delete_old_world cfg req s = (Ok tt, s') /\
    FS.get (fs s') (current_world_dir req) = Some (Dir []) /\
    forall q, FS.diverge q (current_world_dir req) = true ->
              FS.get (fs s') q = FS.get (fs s) q.
Proof.
  intros G Hwf.
  destruct (delete_old_world_spec cfg req s (Dir es) G Hwf) as (s' & E & G' & _ & Hframe).
  eauto.
Qed.

(** C2, as the code has it.  When the run has staged the archive, the
    SWAP phase empties the old world directory and copies the staging
    directory [temp_easybackuper/worldName] into [serverDirectory/worlds]
    itself: every staged file at a relative path [p] is afterwards at
    [worlds/p] with the same bytes and attributes, so
    [worlds/worldName] receives what the archive holds under a top-level
    folder named [worldName]; the staging directory is removed and
    [main] returns 0.  This is so for every worker count but zero, when
    the staged tree fits into the worlds directory (no file where a
    directory has to go, no read-only file or directory where a file
    has to go) and the delay of an enabled restart is not negative. *)
Theorem staged_files_land_in_worlds_dir cfg req env s s1 s2 entries ws :
  before_extract cfg req env s = (Ok None, s1) ->
  extract_phase cfg req env s1 = (Ok None, s2) ->
  extract_entries env = Some entries ->
  FS.wf (Dir entries) ->
  FS.get (fs s2) (worlds_dir req) = Some (Dir ws) ->
  FS.wf (Dir ws) ->
  max_workers cfg <> 0%Z ->
  compatible (Dir entries) (Some (Dir (emptied_world (world_name req) ws))) = true ->
  (restart_status cfg = true -> (0 <= wait_time_s cfg)%Z) ->
  exists s',
    main cfg req env s = (Ok 0%Z, s') /\
    (forall p d ro,
        FS.get (Dir entries) p = Some (File d ro) ->
        FS.get (fs s') (worlds_dir req ++ p) = Some (File d ro)) /\
    (forall r d ro,
        FS.get (Dir entries) (world_name req :: r) = Some (File d ro) ->
        FS.get (fs s') (current_world_dir req ++ r) = Some (File d ro)) /\
    FS.exists_ (fs s') (temp_dir req) = false.
Proof.
  intros Hbefore Hextract Hentries Hwfe Gw Hwfw Hk HC Hwait.
  pose proof (extract_phase_stages cfg req env s1 s2 entries Hextract Hentries) as Gt.
  destruct (swap_phase_lands cfg req s2 entries ws Gt Hwfe Gw Hwfw) as (s3 & E3 & Hfiles & _ & Hgone);
    [exact Hk | exact HC |].
  destruct (restart_phase_returns cfg req env s3 Hwait) as (s4 & E4 & Ef4).
  exists s4. rewrite Ef4. split; [|split; [exact Hfiles|split; [|exact Hgone]]].
  - rewrite main_split. unfold bind at 1. rewrite Hbefore.
    unfold bind at 1. rewrite Hextract.
    unfold bind at 1. rewrite E3. unfold bind at 1. now rewrite E4.
  - intros r d ro G. unfold current_world_dir. rewrite <- app_assoc.
    now apply Hfiles.
Qed.

Lemma staged_files_land_in_worlds_dir_witness :
  exists s',
    main Sample.cfg_tar Sample.req0 (Sample.env_ok Sample.archive_flat) Sample.st0
    = (Ok 0%Z, s') /\
    FS.get (fs s') (worlds_dir Sample.req0 ++ ["level.dat"%string])
    = Some (File "new" false) /\
    FS.exists_ (fs s') (temp_dir Sample.req0) = false.
Proof.
  destruct (staged_files_land_in_worlds_dir
              Sample.cfg_tar Sample.req0 (Sample.env_ok Sample.archive_flat) Sample.st0
              (snd (before_extract Sample.cfg_tar Sample.req0
                                   (Sample.env_ok Sample.archive_flat) Sample.st0))
              (snd (extract_phase Sample.cfg_tar Sample.req0
                      (Sample.env_ok Sample.archive_flat)
                      (snd (before_extract Sample.cfg_tar Sample.req0
                              (Sample.env_ok Sample.archive_flat) Sample.st0))))
              Sample.archive_flat
              [("Bedrock"%string,
                Dir [("level.dat"%string, File "old" true);
                     ("db"%string, Dir [("000.ldb"%string, File "x" false)])]);
               ("Other"%string, Dir [("level.dat"%string, File "o" false)])])
    as (s' & E & Hfiles & _ & Hgone).
  - vm_compute. reflexivity.
  - vm_compute. reflexivity.
  - reflexivity.
  - vm_compute. repeat constructor; simpl; intuition discriminate.
  - vm_compute. reflexivity.
  - vm_compute. repeat constructor; simpl; intuition discriminate.
  - vm_compute. discriminate.
  - vm_compute. reflexivity.
  - discriminate.
  - exists s'. split; [exact E|]. split; [|exact Hgone].
    apply (Hfiles ["level.dat"%string] "new"%string false). reflexivity.
Defined.

(* ================ Further properties ================ *)

(** ** More on the batches: their number and their sizes *)

Module BatchCount.
Import Batching.

Lemma range_loop_length step : 1 <= step -> forall fuel i stop,
  stop - i <= fuel ->
  List.length (range_loop fuel i stop step) = (stop - i + step - 1) / step.
Proof.
  intros Hs. induction fuel as [|fuel IH]; intros i stop Hf; simpl.
  - replace (stop - i + step - 1) with (step - 1) by lia.
    symmetry. apply Nat.div_small. lia.
  - destruct (i <? stop) eqn:E.
    + apply Nat.ltb_lt in E. simpl. rewrite IH by lia.
      destruct (Nat.le_gt_cases (i + step) stop) as [L|L].
      * replace (stop - i + step - 1)
          with ((stop - (i + step) + step - 1) + 1 * step) by lia.
        rewrite Nat.div_add by lia. lia.
      * replace (stop - (i + step) + step - 1) with (step - 1) by lia.
        rewrite (Nat.div_small (step - 1)) by lia.
        apply Nat.div_unique with (r := stop - i - 1); lia.
    + apply Nat.ltb_ge in E. simpl.
      replace (stop - i + step - 1) with (step - 1) by lia.
      symmetry. apply Nat.div_small. lia.
Qed.

Lemma nth_range_loop step : 1 <= step -> forall fuel i stop k,
  stop - i <= fuel ->
  nth_error (range_loop fuel i stop step) k
  = if i + k * step <? stop then Some (i + k * step) else None.
Proof.
  intros Hs. induction fuel as [|fuel IH]; intros i stop k Hf.
  - simpl. destruct (Nat.ltb_spec (i + k * step) stop); [lia|].
    destruct k; reflexivity.
  - simpl. destruct (Nat.ltb_spec i stop) as [L|L].
    + destruct k; simpl.
      * rewrite Nat.add_0_r. destruct (Nat.ltb_spec i stop); [reflexivity|lia].
      * rewrite IH by lia. rewrite Nat.add_assoc. reflexivity.
    + destruct (Nat.ltb_spec (i + k * step) stop); [lia|].
      destruct k; reflexivity.
Qed.

Lemma slice_length {A} (l : list A) i bs :
  List.length (slice l i (i + bs)) = Nat.min bs (List.length l - i).
Proof.
  unfold slice. rewrite length_firstn, length_skipn.
  replace (i + bs - i) with bs by lia. reflexivity.
Qed.

(** The batch size for a positive number of workers. *)
Lemma batch_size_pos n k :
  (1 <= k)%Z ->
  batch_size n k = Ok (Nat.max 1 (n / Z.to_nat k)).
Proof.
  intros Hk. unfold batch_size, floordiv.
  destruct (Z.eqb_spec k 0); [lia|]. f_equal.
  rewrite <- (Z2Nat.id k) at 1 by lia.
  rewrite <- Nat2Z.inj_div.
  destruct (Z.max_spec 1 (Z.of_nat (n / Z.to_nat k))) as [[H1 H2]|[H1 H2]];
    rewrite H2; lia.
Qed.

(** The batch size is one when the workers are more than the files, or
    when their number is negative. *)
Lemma batch_size_one n k :
  (k < 0)%Z \/ (Z.of_nat n < k)%Z -> batch_size n k = Ok 1.
Proof.
  intros Hk. unfold batch_size, floordiv.
  destruct (Z.eqb_spec k 0); [lia|]. f_equal.
  assert (Hq : (Z.of_nat n / k <= 0)%Z).
  { destruct Hk as [Hk|Hk].
    - pose proof (Z.div_mod (Z.of_nat n) k ltac:(lia)).
      pose proof (Z.mod_neg_bound (Z.of_nat n) k ltac:(lia)). nia.
    - rewrite Z.div_small by lia. lia. }
  lia.
Qed.

Lemma make_batches_unfold {A} (files : list A) k bs :
  batch_size (List.length files) k = Ok bs ->
  make_batches files k
  = Ok (map (fun i => slice files i (i + bs)) (range 0 (List.length files) bs)).
Proof. intros E. unfold make_batches. rewrite E. reflexivity. Qed.

Lemma batches_length {A} (files : list A) k bs :
  batch_size (List.length files) k = Ok bs ->
  threads_spawned files k
  = Ok ((List.length files + bs - 1) / bs).
Proof.
  intros E. unfold threads_spawned. rewrite (make_batches_unfold _ _ _ E).
  rewrite length_map. unfold range.
  rewrite range_loop_length; [|eapply BatchingFacts.batch_size_positive; eauto|lia].
  rewrite Nat.sub_0_r. reflexivity.
Qed.

Lemma count_bound n k :
  1 <= k ->
  (n + Nat.max 1 (n / k) - 1) / Nat.max 1 (n / k) <= 2 * k - 1 /\
  (n + Nat.max 1 (n / k) - 1) / Nat.max 1 (n / k) <= n.
Proof.
  intros Hk.
  pose proof (Nat.div_mod_eq n k) as D.
  pose proof (Nat.mod_upper_bound n k ltac:(lia)) as B.
  set (q := n / k) in *. set (r := n mod k) in *.
  destruct (Nat.eq_dec q 0) as [Z0|NZ].
  - rewrite Z0 in *. simpl Nat.max. rewrite Nat.div_1_r. lia.
  - replace (Nat.max 1 q) with q by lia. split.
    + apply Nat.lt_succ_r. apply Nat.Div0.div_lt_upper_bound. nia.
    + apply Nat.lt_succ_r. apply Nat.Div0.div_lt_upper_bound. nia.
Qed.

Lemma skipn_step {A} (l : list A) : forall i,
  i < List.length l -> exists a, skipn i l = a :: skipn (S i) l.
Proof.
  induction l as [|x l IH]; intros i Hi; simpl in Hi; [lia|].
  destruct i; simpl.
  - exists x. reflexivity.
  - destruct (IH i ltac:(lia)) as [a E]. exists a. rewrite E.
    destruct l; [simpl in Hi; lia|reflexivity].
Qed.

Lemma slices_of_one {A} (l : list A) : forall fuel i,
  List.length l - i <= fuel ->
  map (fun i => slice l i (i + 1)) (range_loop fuel i (List.length l) 1)
  = map (fun a => [a]) (skipn i l).
Proof.
  induction fuel as [|fuel IH]; intros i Hf; simpl.
  - rewrite skipn_all2 by lia. reflexivity.
  - destruct (Nat.ltb_spec i (List.length l)) as [L|L].
    + destruct (skipn_step l i L) as [a E]. simpl.
      rewrite IH by lia. rewrite E. simpl. f_equal.
      * unfold slice. rewrite E. replace (i + 1 - i) with 1 by lia. reflexivity.
      * rewrite Nat.add_1_r. reflexivity.
    + rewrite skipn_all2 by lia. reflexivity.
Qed.

End BatchCount.

(** X1.  [copy_dir_with_progress], lines 153-162: with [max_threads] at least
    one, a copy starts at most [2 * max_threads - 1] threads and never
    more threads than there are files; the bound is reached by
    [2 * max_threads - 1] files, each then in a batch of its own. *)
Theorem threads_below_twice_the_workers {A} (files : list A) (max_threads : Z) :
  (1 <= max_threads)%Z ->
  exists n,
    Batching.threads_spawned files max_threads = Ok n /\
    (Z.of_nat n <= 2 * max_threads - 1)%Z /\
    n <= List.length files /\
    (Z.of_nat (List.length files) = 2 * max_threads - 1 ->
     n = List.length files)%Z.
Proof.
  intros Hk.
  pose proof (BatchCount.batch_size_pos (List.length files) max_threads Hk) as E.
  rewrite (BatchCount.batches_length _ _ _ E).
  eexists. split; [reflexivity|].
  destruct (BatchCount.count_bound (List.length files) (Z.to_nat max_threads)
                                   ltac:(lia)) as [B1 B2].
  split; [lia|]. split; [exact B2|].
  intros L.
  assert (Q : List.length files / Z.to_nat max_threads <= 1).
  { apply Nat.lt_succ_r. apply Nat.Div0.div_lt_upper_bound. lia. }
  replace (Nat.max 1 (List.length files / Z.to_nat max_threads)) with 1 by lia.
  rewrite Nat.div_1_r. lia.
Qed.

Lemma threads_below_twice_the_workers_witness :
  exists n,
    Batching.threads_spawned [1; 2; 3; 4; 5; 6; 7] 4 = Ok n /\
    (Z.of_nat n <= 2 * 4 - 1)%Z /\
    n <= 7.
Proof.
  destruct (threads_below_twice_the_workers [1; 2; 3; 4; 5; 6; 7] 4 ltac:(lia))
    as [n [E [B1 [B2 _]]]].
  exists n. split; [exact E|]. split; [exact B1|exact B2].
Defined.

(** X2.  Same lines: every batch holds at least one file and at most
    [batch_size] files, and every batch but the last holds exactly
    [batch_size]. *)
Theorem every_batch_but_the_last_is_full {A} (files : list A) (max_threads : Z)
        batches bs :
  Batching.make_batches files max_threads = Ok batches ->
  Batching.batch_size (List.length files) max_threads = Ok bs ->
  forall i b,
    nth_error batches i = Some b ->
    1 <= List.length b <= bs /\
    (S i < List.length batches -> List.length b = bs).
Proof.
  intros Hm Hb i b Hn.
  pose proof (BatchingFacts.batch_size_positive _ _ _ Hb) as Hpos.
  rewrite (BatchCount.make_batches_unfold _ _ _ Hb) in Hm.
  injection Hm as <-.
  rewrite nth_error_map in Hn. unfold Batching.range in *.
  rewrite BatchCount.nth_range_loop in Hn by lia. simpl in Hn.
  destruct (Nat.ltb_spec (i * bs) (List.length files)) as [L|L]; [|discriminate].
  simpl in Hn. injection Hn as <-.
  rewrite BatchCount.slice_length. split; [lia|].
  rewrite length_map. intros Hi.
  assert (Hnext : nth_error (Batching.range_loop (List.length files - 0) 0
                                                 (List.length files) bs) (S i)
                  <> None).
  { apply nth_error_Some. exact Hi. }
  rewrite BatchCount.nth_range_loop in Hnext by lia. simpl in Hnext.
  destruct (Nat.ltb_spec (bs + i * bs) (List.length files)) as [L'|L'];
    [lia|congruence].
Qed.

Lemma every_batch_but_the_last_is_full_witness :
  1 <= List.length [1; 2] <= 2 /\
  (1 < List.length [[1; 2]; [3; 4]; [5; 6]; [7]] -> List.length [1; 2] = 2).
Proof.
  apply (every_batch_but_the_last_is_full
           [1; 2; 3; 4; 5; 6; 7] 3 [[1; 2]; [3; 4]; [5; 6]; [7]] 2
           eq_refl eq_refl 0 [1; 2] eq_refl).
Defined.

(** X3.  Same lines: a worker count above the number of files, and a
    negative one as well, gives a batch size of one, so that every
    file is copied by a thread of its own. *)
Theorem surplus_or_negative_workers_one_file_each {A} (files : list A)
        (max_threads : Z) :
  (max_threads < 0)%Z \/ (Z.of_nat (List.length files) < max_threads)%Z ->
  Batching.make_batches files max_threads = Ok (map (fun a => [a]) files) /\
  Batching.threads_spawned files max_threads = Ok (List.length files).
Proof.
  intros Hk.
  pose proof (BatchCount.batch_size_one _ _ Hk) as E.
  assert (M : Batching.make_batches files max_threads
              = Ok (map (fun a => [a]) files)).
  { rewrite (BatchCount.make_batches_unfold _ _ _ E). f_equal.
    unfold Batching.range. rewrite BatchCount.slices_of_one by lia.
    reflexivity. }
  split; [exact M|].
  unfold Batching.threads_spawned. rewrite M. rewrite length_map. reflexivity.
Qed.

Lemma surplus_or_negative_workers_one_file_each_witness :
  Batching.make_batches [1; 2; 3] (-2) = Ok [[1]; [2]; [3]] /\
  Batching.threads_spawned [1; 2; 3] (-2) = Ok 3.
Proof.
  apply (surplus_or_negative_workers_one_file_each [1; 2; 3] (-2)).
  left. lia.
Defined.

(** ** Copies that fail *)

Lemma copy_file_runs cfg src dst s :
  exists s',
    copy_file_with_progress cfg src dst s = (Ok tt, s') /\
    ((exists n',
        FS.copy2 src dst (fs s) = Ok n' /\ fs s' = n' /\
        events s'
        = events s ++ CopyFile src dst ::
                      (if debug cfg then [Log DEBUG (MsgFileCopied src dst)]
                       else [])) \/
     (exists e,
        FS.copy2 src dst (fs s) = Raise e /\ fs s' = fs s /\
        events s'
        = events s ++ [CopyFile src dst;
                       Log ERROR (MsgFileCopyFailed src dst e)])).
Proof.
  unfold copy_file_with_progress, try_except, bind, emit, fs_call. simpl.
  destruct (CopyFacts.copy2_outcome src dst (fs s)) as [[n' E]|[e [E He]]];
    rewrite E.
  - unfold plugin_print. destruct (debug cfg); simpl.
    + eexists. split; [reflexivity|]. left. exists n'. simpl.
      rewrite <- app_assoc. auto.
    + eexists. split; [reflexivity|]. left. exists n'. simpl. auto.
  - rewrite He. simpl. eexists. split; [reflexivity|]. right. exists e. simpl.
    rewrite <- app_assoc. auto.
Qed.

(** X4.  [copy_file_with_progress], lines 101-112: the call never raises.
    Either [shutil.copy2] succeeds and the file system is the one it
    leaves, or it fails, the failure is logged at [ERROR] level and the
    file system is as before. *)
Theorem failed_copy_is_logged_not_raised cfg src dst s :
  exists s',
    copy_file_with_progress cfg src dst s = (Ok tt, s') /\
    ((exists n',
        FS.copy2 src dst (fs s) = Ok n' /\ fs s' = n' /\
        existsb is_error_log (events s') = existsb is_error_log (events s)) \/
     (exists e,
        FS.copy2 src dst (fs s) = Raise e /\ fs s' = fs s /\
        events s'
        = events s ++ [CopyFile src dst;
                       Log ERROR (MsgFileCopyFailed src dst e)])).
Proof.
  destruct (copy_file_runs cfg src dst s) as [s' [E C]].
  exists s'. split; [exact E|].
  destruct C as [[n' [E1 [E2 Ev]]]|[e [E1 [E2 Ev]]]].
  - left. exists n'. split; [exact E1|]. split; [exact E2|].
    rewrite Ev, existsb_app. simpl.
    destruct (debug cfg); simpl; rewrite orb_false_r; reflexivity.
  - right. exists e. auto.
Qed.

(** X5.  The thread target [copy_files], lines 149-151: every file of the
    batch is attempted, in order, whatever happens to the files before
    it, and the thread never dies from an exception. *)
Theorem every_file_of_a_batch_is_attempted cfg files : forall s,
  exists s' tr,
    copy_files cfg files s = (Ok tt, s') /\
    events s' = events s ++ tr /\
    attempts tr = files.
Proof.
  unfold copy_files.
  induction files as [|[a b] files IH]; intros s; simpl.
  - exists s, []. rewrite app_nil_r. auto.
  - destruct (copy_file_runs cfg a b s) as [s1 [E1 C]].
    unfold bind at 1. simpl in *. rewrite E1.
    destruct (IH s1) as [s2 [tr [E2 [Ev At]]]].
    exists s2. rewrite E2.
    destruct C as [[n' [_ [_ Ev1]]]|[e [_ [_ Ev1]]]]; rewrite Ev1 in Ev;
      rewrite <- app_assoc in Ev; eexists; (split; [reflexivity|]);
      (split; [exact Ev|]); simpl; try destruct (debug cfg); simpl;
      rewrite At; reflexivity.
Qed.

(** ** How a computation can end *)

Section Ends.

Variable P : exn -> Prop.   (* the exceptions that may come out *)
Variable H : Prop.          (* whether the computation may fail to return *)

(** [ends Q c]: whenever [c] returns its value satisfies [Q], whatever
    it raises satisfies [P], and it fails to return only if [H]. *)
Definition ends {A} (Q : A -> Prop) (c : M A) : Prop :=
  forall s,
    match fst (c s) with
    | Ok a => Q a
    | Raise e => P e
    | Hang => H
    end.

Definition any {A} : A -> Prop := fun _ => True.

Lemma ends_weaken {A} (Q Q' : A -> Prop) c :
  ends Q c -> (forall a, Q a -> Q' a) -> ends Q' c.
Proof.
  intros E W s. specialize (E s). destruct (fst (c s)); auto.
Qed.

Lemma ends_ret {A} (Q : A -> Prop) a : Q a -> ends Q (ret a).
Proof. intros q s. exact q. Qed.

Lemma ends_raise {A} (Q : A -> Prop) e : P e -> ends Q (@raise A e).
Proof. intros p s. exact p. Qed.

Lemma ends_read_fs : ends any read_fs.
Proof. intros s. exact I. Qed.

Lemma ends_emit e : ends any (emit e).
Proof. intros s. exact I. Qed.

Lemma ends_fs_update f : ends any (fs_update f).
Proof. intros s. exact I. Qed.

Lemma ends_lift {A} (Q : A -> Prop) (o : outcome A) :
  match o with Ok a => Q a | Raise e => P e | Hang => H end -> ends Q (lift o).
Proof. intros q s. exact q. Qed.

Lemma ends_fs_call f :
  (forall n, match f n with Ok _ => True | Raise e => P e | Hang => H end) ->
  ends any (fs_call f).
Proof.
  intros F s. unfold fs_call. specialize (F (fs s)).
  destruct (f (fs s)); simpl; auto.
Qed.

Lemma ends_bind {A B} (Qa : A -> Prop) (Q : B -> Prop) (c : M A) (k : A -> M B) :
  ends Qa c -> (forall a, Qa a -> ends Q (k a)) -> ends Q (bind c k).
Proof.
  intros Ec Ek s. unfold bind. specialize (Ec s).
  destruct (c s) as [[a|e|] s1]; simpl in *; auto.
  apply (Ek a Ec).
Qed.

Lemma ends_seq {A B} (Q : B -> Prop) (c : M A) (k : M B) :
  ends any c -> ends Q k -> ends Q (bind c (fun _ => k)).
Proof. intros Ec Ek. apply (ends_bind any); auto. Qed.

Lemma ends_try_except {A} (Q : A -> Prop) (c : M A) h :
  ends Q c -> (forall e, ends Q (h e)) -> ends Q (try_except c h).
Proof.
  intros Ec Eh s. unfold try_except. specialize (Ec s).
  destruct (c s) as [[a|e|] s1]; simpl in *; auto.
  destruct (is_Exception e); simpl; auto. apply Eh.
Qed.

Lemma ends_for_each {A} (l : list A) body :
  (forall a, In a l -> ends any (body a)) -> ends any (for_each l body).
Proof.
  induction l as [|a l IH]; intros Hb; simpl.
  - apply ends_ret. exact I.
  - apply ends_seq; [apply Hb; left; reflexivity|].
    apply IH. intros b Hin. apply Hb. right. exact Hin.
Qed.

Lemma ends_when b c : ends any c -> ends any (when b c).
Proof. intros E. destruct b; simpl; [exact E|]. apply ends_ret. exact I. Qed.

Lemma ends_plugin_print cfg lv m : ends any (plugin_print cfg lv m).
Proof.
  unfold plugin_print. destruct lv; try apply ends_emit.
  destruct (debug cfg); [apply ends_emit|apply ends_ret; exact I].
Qed.

(** Every exception of class [Exception] is allowed from here on. *)
Hypothesis P_exception : forall e, is_Exception e = true -> P e.

Lemma ends_makedirs ok p : ends any (fs_call (FS.makedirs ok p)).
Proof.
  apply ends_fs_call. intros n. unfold FS.makedirs.
  destruct (FS.makedirs_node ok p p n) eqn:E; auto.
  - apply P_exception. eapply makedirs_node_raises; eauto.
  - exfalso. eapply makedirs_node_returns; eauto.
Qed.

Lemma ends_copy2 src dst : ends any (fs_call (FS.copy2 src dst)).
Proof.
  apply ends_fs_call. intros n.
  destruct (CopyFacts.copy2_outcome src dst n) as [[n' E]|[e [E He]]];
    rewrite E; auto.
Qed.

Lemma ends_unlink p : ends any (fs_call (FS.unlink p)).
Proof.
  apply ends_fs_call. intros n. unfold FS.unlink.
  destruct (FS.get n p) as [[d [|]|es]|]; auto.
Qed.

Lemma ends_rmdir p : ends any (fs_call (FS.rmdir p)).
Proof.
  apply ends_fs_call. intros n. unfold FS.rmdir.
  destruct (FS.get n p) as [[d ro|[|x es]]|]; auto.
Qed.

Lemma ends_chmod p : ends any (fs_call (FS.chmod_writable p)).
Proof.
  apply ends_fs_call. intros n. unfold FS.chmod_writable.
  destruct (FS.get n p) as [[d ro|es]|]; auto.
Qed.

Lemma relative_to_outcome : forall base p,
  match FS.relative_to p base with
  | Ok _ => True | Raise e => is_Exception e = true | Hang => False
  end.
Proof.
  induction base as [|b base IH]; intros p.
  - destruct p; exact I.
  - destruct p as [|x p]; simpl; [reflexivity|].
    destruct (String.eqb b x); [apply IH|reflexivity].
Qed.

Lemma pairs_for_outcome src dst root : forall names,
  match pairs_for src dst root names with
  | Ok _ => True | Raise e => is_Exception e = true | Hang => False
  end.
Proof.
  induction names as [|x names IH]; simpl; [exact I|].
  unfold pair_for.
  pose proof (relative_to_outcome src (root ++ [x])) as R.
  destruct (FS.relative_to (root ++ [x]) src); auto.
  destruct (pairs_for src dst root names); auto.
Qed.

Lemma collect_outcome src dst : forall walked,
  match collect src dst walked with
  | Ok _ => True | Raise e => is_Exception e = true | Hang => False
  end.
Proof.
  induction walked as [|[[root dirs] files] walked IH]; simpl; [exact I|].
  pose proof (pairs_for_outcome src dst root dirs) as R1.
  destruct (pairs_for src dst root dirs); auto.
  pose proof (pairs_for_outcome src dst root files) as R2.
  destruct (pairs_for src dst root files); auto.
  destruct (collect src dst walked) as [[ds fl]| |]; auto.
Qed.

Lemma make_batches_outcome {A} (files : list A) k :
  match Batching.make_batches files k with
  | Ok _ => k <> 0%Z
  | Raise e => e = ZeroDivisionError /\ k = 0%Z
  | Hang => False
  end.
Proof.
  unfold Batching.make_batches, Batching.batch_size, Batching.floordiv.
  destruct (Z.eqb_spec k 0); auto.
Qed.

Lemma ends_copy_file cfg src dst : ends any (copy_file_with_progress cfg src dst).
Proof.
  unfold copy_file_with_progress. apply ends_try_except.
  - apply ends_seq; [apply ends_emit|].
    apply ends_seq; [apply ends_copy2|apply ends_plugin_print].
  - intros e. apply ends_plugin_print.
Qed.

Lemma ends_copy_files cfg files : ends any (copy_files cfg files).
Proof. apply ends_for_each. intros a _. apply ends_copy_file. Qed.

Lemma ends_ensure_dir cfg sd : ends any (ensure_dir cfg sd).
Proof.
  unfold ensure_dir. apply (ends_bind any); [apply ends_read_fs|].
  intros n _. apply ends_when.
  apply ends_seq; [apply ends_makedirs|].
  apply ends_seq; [apply ends_emit|apply ends_plugin_print].
Qed.

Lemma ends_copy_core cfg src dst k : ends any (copy_core cfg src dst k).
Proof.
  unfold copy_core. apply (ends_bind any); [apply ends_read_fs|].
  intros n _. apply (ends_bind any).
  { apply ends_lift.
    pose proof (collect_outcome src dst (FS.walk true src n)) as C.
    destruct (collect src dst (FS.walk true src n)); auto;
      try exact I; try contradiction. }
  intros plan _.
  apply ends_seq; [apply ends_for_each; intros ? ?; cbv beta; apply ends_ensure_dir|].
  apply (ends_bind any).
  { apply ends_lift.
    pose proof (make_batches_outcome (snd plan) k) as B.
    destruct (Batching.make_batches (snd plan) k); auto;
      try exact I; try contradiction.
    destruct B as [-> _]. apply P_exception. reflexivity. }
  intros batches _.
  apply ends_seq.
  - apply ends_for_each. intros ib _.
    apply ends_seq; [apply ends_emit|apply ends_copy_files].
  - apply ends_for_each. intros ib _. apply ends_emit.
Qed.

Lemma ends_copy_dir cfg src dst k : ends any (copy_dir_with_progress cfg src dst k).
Proof.
  unfold copy_dir_with_progress. apply (ends_bind any); [apply ends_read_fs|].
  intros n _. apply ends_seq; [|apply ends_copy_core].
  apply ends_when.
  apply ends_seq; [apply ends_makedirs|].
  apply ends_seq; [apply ends_emit|apply ends_plugin_print].
Qed.

Lemma ends_decode valid : ends any (decode valid).
Proof.
  destruct valid; [apply ends_ret; exact I|].
  apply ends_raise. apply P_exception. reflexivity.
Qed.

Lemma ends_decode_in_run b valid : ends any (decode_in_run b valid).
Proof. destruct b; [apply ends_ret; exact I|apply ends_decode]. Qed.

Lemma ends_spawn_error {A} (Q : A -> Prop) b : ends Q (@raise A (spawn_error b)).
Proof. apply ends_raise. apply P_exception. now destruct b. Qed.

Lemma ends_run_compress cfg req env b :
  ends (fun rc => rc = compress_returncode env) (run_compress cfg req env b).
Proof.
  unfold run_compress. destruct (compress_starts env); [|apply ends_spawn_error].
  apply (ends_bind any); [apply ends_read_fs|].
  intros n _. apply ends_seq; [apply ends_emit|].
  apply ends_seq; [apply ends_fs_update|].
  apply ends_seq; [apply ends_decode_in_run|]. apply ends_ret. reflexivity.
Qed.

Lemma ends_run_extract req env b :
  ends (fun rc => rc = extract_returncode env) (run_extract req env b).
Proof.
  unfold run_extract. destruct (extract_starts env); [|apply ends_spawn_error].
  apply ends_seq; [apply ends_emit|].
  apply ends_seq; [apply ends_fs_update|].
  apply ends_seq; [apply ends_decode_in_run|]. apply ends_ret. reflexivity.
Qed.

Lemma ends_pre_backup_snapshot cfg req : ends any (pre_backup_snapshot cfg req).
Proof.
  unfold pre_backup_snapshot.
  apply ends_seq; [apply ends_makedirs|].
  apply (ends_bind any); [apply ends_read_fs|]. intros n _.
  apply ends_seq; [apply ends_when; apply ends_fs_update|].
  apply ends_seq; [apply ends_makedirs|].
  apply ends_seq; [apply ends_plugin_print|apply ends_copy_dir].
Qed.

(** What the PRE_BACKUP phase can answer: nothing, or the [return 1] of
    a failed 7z compression. *)
Definition pre_backup_answer (cfg : configuration) (env : environment)
           (r : option Z) : Prop :=
  r = None \/
  (r = Some 1%Z /\ use_7z cfg = true /\ compress_returncode env <> 0%Z).

Lemma ends_pre_backup_archive cfg req env :
  ends (pre_backup_answer cfg env) (pre_backup_archive cfg req env).
Proof.
  unfold pre_backup_archive.
  apply (ends_bind (pre_backup_answer cfg env)).
  - destruct (use_7z cfg) eqn:U.
    + apply (ends_bind any); [apply ends_read_fs|]. intros n _.
      destruct (negb (FS.exists_ n (exe_path cfg req))).
      * apply ends_seq; [apply ends_plugin_print|].
        apply ends_seq; [apply ends_fs_update|]. apply ends_ret. left. reflexivity.
      * apply ends_seq; [apply ends_plugin_print|].
        apply (ends_bind (fun rc => rc = compress_returncode env));
          [apply ends_run_compress|].
        intros rc ->. destruct (Z.eqb_spec (compress_returncode env) 0); cbn [negb].
        -- apply ends_seq; [apply ends_decode|].
           apply ends_seq; [apply ends_for_each; intros ? ?; cbv beta; apply ends_plugin_print|].
           apply ends_seq; [apply ends_plugin_print|].
           apply ends_seq; [apply ends_plugin_print|]. apply ends_ret. left. reflexivity.
        -- apply ends_seq; [apply ends_decode|].
           apply ends_seq; [apply ends_plugin_print|].
           apply ends_seq; [apply ends_fs_update|]. apply ends_ret.
           right. auto.
    + apply ends_seq; [apply ends_plugin_print|].
      apply (ends_bind any).
      { eapply ends_weaken; [apply ends_run_compress|]. intros; exact I. }
      intros rc _. destruct (negb (rc =? 0)%Z).
      * apply ends_seq; [apply ends_plugin_print|]. apply ends_ret. left. reflexivity.
      * apply ends_seq; [apply ends_plugin_print|].
        apply ends_seq; [apply ends_plugin_print|]. apply ends_ret. left. reflexivity.
  - intros early He. destruct early as [c|].
    + apply ends_ret. exact He.
    + apply ends_seq; [apply ends_plugin_print|].
      apply ends_seq; [apply ends_fs_update|].
      apply ends_seq; [apply ends_plugin_print|].
      apply ends_seq; [apply ends_plugin_print|]. apply ends_ret. left. reflexivity.
Qed.

Lemma ends_pre_backup_body cfg req env :
  ends (pre_backup_answer cfg env)
       (pre_backup_snapshot cfg req ;;; pre_backup_archive cfg req env).
Proof.
  apply ends_seq; [apply ends_pre_backup_snapshot|apply ends_pre_backup_archive].
Qed.

Lemma ends_extract_phase cfg req env :
  ends (fun r => r = None \/ r = Some 1%Z) (extract_phase cfg req env).
Proof.
  unfold extract_phase.
  apply ends_seq; [apply ends_plugin_print|].
  apply (ends_bind any); [apply ends_read_fs|]. intros n _.
  apply ends_seq; [apply ends_when; apply ends_fs_update|].
  apply ends_seq; [apply ends_makedirs|].
  apply ends_seq; [apply ends_plugin_print|].
  destruct (use_7z cfg).
  - apply (ends_bind any); [apply ends_read_fs|]. intros n1 _.
    destruct (negb (FS.exists_ n1 (exe_path cfg req))).
    + apply ends_seq; [apply ends_plugin_print|].
      apply ends_seq; [apply ends_fs_update|]. apply ends_ret; auto.
    + apply ends_seq; [apply ends_plugin_print|].
      apply (ends_bind any).
      { eapply ends_weaken; [apply ends_run_extract|]. intros; exact I. }
      intros rc _. destruct (negb (rc =? 0)%Z).
      * apply ends_seq; [apply ends_decode|].
        apply ends_seq; [apply ends_plugin_print|].
        apply ends_seq; [apply ends_fs_update|]. apply ends_ret; auto.
      * apply ends_seq; [apply ends_decode|].
        apply ends_seq; [apply ends_for_each; intros ? ?; cbv beta; apply ends_plugin_print|].
        apply ends_seq; [apply ends_plugin_print|]. apply ends_ret; auto.
  - apply ends_seq; [apply ends_plugin_print|].
    apply ends_seq; [apply ends_makedirs|].
    apply (ends_bind any).
    { eapply ends_weaken; [apply ends_run_extract|]. intros; exact I. }
    intros rc _. destruct (negb (rc =? 0)%Z).
    + apply ends_seq; [apply ends_plugin_print|].
      apply ends_seq; [apply ends_fs_update|]. apply ends_ret; auto.
    + apply ends_seq; [apply ends_plugin_print|]. apply ends_ret; auto.
Qed.

Lemma ends_delete_walked cfg t : ends any (delete_walked cfg t).
Proof.
  destruct t as [[root dirs] files]. unfold delete_walked.
  apply ends_seq.
  - apply ends_for_each. intros name _.
    apply ends_seq; [apply ends_chmod|].
    apply ends_seq; [apply ends_plugin_print|apply ends_unlink].
  - apply ends_for_each. intros name _.
    apply ends_seq; [apply ends_plugin_print|apply ends_rmdir].
Qed.

Lemma ends_delete_old_world cfg req : ends any (delete_old_world cfg req).
Proof.
  unfold delete_old_world. apply (ends_bind any); [apply ends_read_fs|].
  intros n _. apply ends_when.
  apply ends_seq; [apply ends_plugin_print|].
  apply ends_seq; [apply ends_plugin_print|].
  apply ends_seq; [apply ends_for_each; intros ? ?; cbv beta; apply ends_delete_walked|].
  apply ends_seq; apply ends_plugin_print.
Qed.

Lemma ends_swap_phase cfg req : ends any (swap_phase cfg req).
Proof.
  unfold swap_phase.
  apply ends_seq; [apply ends_delete_old_world|].
  do 3 (apply ends_seq; [apply ends_plugin_print|]).
  apply ends_seq; [apply ends_copy_dir|].
  do 2 (apply ends_seq; [apply ends_plugin_print|]).
  apply ends_seq; [apply ends_fs_update|].
  apply ends_seq; apply ends_plugin_print.
Qed.

Lemma ends_sleep z : ends any (sleep z).
Proof.
  unfold sleep. destruct (z <? 0)%Z.
  - apply ends_raise. apply P_exception. reflexivity.
  - apply ends_emit.
Qed.

Lemma ends_restart_phase cfg req env : ends any (restart_phase cfg req env).
Proof.
  unfold restart_phase. apply ends_seq; [apply ends_plugin_print|].
  destruct (restart_status cfg); [|apply ends_plugin_print].
  do 2 (apply ends_seq; [apply ends_plugin_print|]).
  apply ends_seq; [apply ends_sleep|].
  apply ends_seq; [apply ends_plugin_print|].
  apply ends_try_except.
  - apply ends_seq; [apply ends_plugin_print|].
    apply ends_seq; [|apply ends_plugin_print].
    destruct (launch_raises env).
    + apply ends_raise. apply P_exception. reflexivity.
    + apply ends_emit.
  - intros e. apply ends_plugin_print.
Qed.

Lemma ends_setup_logging req : ends any (setup_logging req).
Proof. apply ends_makedirs. Qed.

Lemma ends_chdir p : ends any (chdir p).
Proof.
  unfold chdir. apply (ends_bind any); [apply ends_read_fs|]. intros n _.
  destruct (FS.get n p) as [[d ro|es]|].
  - apply ends_raise. apply P_exception. reflexivity.
  - apply ends_ret. exact I.
  - apply ends_raise. apply P_exception. reflexivity.
Qed.

Lemma ends_pre_backup cfg req env :
  ends (pre_backup_answer cfg env) (pre_backup cfg req env).
Proof.
  unfold pre_backup. apply (ends_bind any).
  { unfold read_backup_old_world. destruct (restore_config_readable cfg).
    - apply ends_ret. exact I.
    - apply ends_raise. apply P_exception. reflexivity. }
  intros flag _. unfold pre_backup_with.
  apply ends_seq; [apply ends_plugin_print|].
  destruct flag.
  - apply ends_seq; [apply ends_plugin_print|].
    apply ends_try_except.
    + apply ends_pre_backup_body.
    + intros e. apply ends_seq; [apply ends_plugin_print|].
      apply ends_ret. left. reflexivity.
  - apply ends_seq; [apply ends_plugin_print|].
    apply ends_ret. left. reflexivity.
Qed.

Lemma ends_query env r :
  (r = PsInterrupted -> P KeyboardInterrupt) -> ends any (query env r).
Proof.
  intros Hi. destruct r; simpl.
  - apply ends_raise. apply P_exception. reflexivity.
  - apply ends_raise. apply P_exception. reflexivity.
  - apply ends_raise. apply Hi. reflexivity.
  - apply ends_ret. exact I.
Qed.

Lemma ends_wait_loop env : forall answers,
  H -> (In PsInterrupted answers -> P KeyboardInterrupt) ->
  ends any (wait_loop env answers).
Proof.
  induction answers as [|r answers IH]; intros Hh Hi; simpl.
  - intros s. exact Hh.
  - apply (ends_bind any).
    + apply ends_query. intros ->. apply Hi. left. reflexivity.
    + intros running _. destruct running.
      * apply ends_seq; [apply ends_emit|].
        apply IH; [exact Hh|]. intros Hin. apply Hi. right. exact Hin.
      * apply ends_ret. exact I.
Qed.

Lemma ends_wait_process cfg env :
  H -> (In PsInterrupted (process_table env) -> P KeyboardInterrupt) ->
  ends any (wait_process cfg env).
Proof.
  intros Hh Hi. unfold wait_process.
  destruct (process_table env) as [|r answers].
  - intros s. exact Hh.
  - apply (ends_bind any).
    + apply ends_query. intros ->. apply Hi. left. reflexivity.
    + intros running _. destruct running.
      * apply ends_seq; [apply ends_plugin_print|].
        apply ends_seq; [|apply ends_plugin_print].
        apply ends_wait_loop; [exact Hh|].
        intros Hin. apply Hi. right. exact Hin.
      * apply ends_plugin_print.
Qed.

Lemma ends_main cfg req env :
  H -> (In PsInterrupted (process_table env) -> P KeyboardInterrupt) ->
  ends (fun c => c = 0%Z \/ c = 1%Z) (main cfg req env).
Proof.
  intros Hh Hi. unfold main.
  apply ends_seq; [apply ends_setup_logging|].
  apply ends_seq; [apply ends_chdir|].
  apply ends_seq; [apply ends_wait_process; assumption|].
  apply (ends_bind (pre_backup_answer cfg env)); [apply ends_pre_backup|].
  intros early [->|[-> _]]; [|apply ends_ret; auto].
  apply (ends_bind (fun r => r = None \/ r = Some 1%Z));
    [apply ends_extract_phase|].
  intros early [->| ->]; [|apply ends_ret; auto].
  apply ends_seq; [apply ends_swap_phase|].
  apply ends_seq; [apply ends_restart_phase|].
  apply ends_ret. auto.
Qed.

End Ends.

(** A [try] statement whose body raises nothing but what its handler
    catches. *)
Lemma ends_try_except_catch {A} (P' P : exn -> Prop) (H : Prop)
      (Q : A -> Prop) (c : M A) h :
  ends P' H Q c ->
  (forall e, P' e -> is_Exception e = true) ->
  (forall e, ends P H Q (h e)) ->
  ends P H Q (try_except c h).
Proof.
  intros Ec Hc Eh s. unfold try_except. specialize (Ec s).
  destruct (c s) as [[a|e|] s1]; simpl in *; auto.
  rewrite (Hc e Ec). apply Eh.
Qed.

Lemma pre_backup_ends cfg req env :
  ends (fun e => e = AttributeError /\ restore_config_readable cfg = false) False
       (fun r => restore_config_readable cfg = true /\ pre_backup_answer cfg env r)
       (pre_backup cfg req env).
Proof.
  unfold pre_backup.
  apply (ends_bind _ _ (fun _ => restore_config_readable cfg = true)).
  { unfold read_backup_old_world. destruct (restore_config_readable cfg).
    - apply ends_ret. reflexivity.
    - apply ends_raise. auto. }
  intros flag Hr. unfold pre_backup_with.
  apply ends_seq; [apply ends_plugin_print|].
  destruct flag.
  - apply ends_seq; [apply ends_plugin_print|].
    apply (ends_try_except_catch (fun e => is_Exception e = true)).
    + eapply ends_weaken; [apply ends_pre_backup_body; auto|]. auto.
    + auto.
    + intros e. apply ends_seq; [apply ends_plugin_print|].
      apply ends_ret. split; [exact Hr|]. left. reflexivity.
  - apply ends_seq; [apply ends_plugin_print|].
    apply ends_ret. split; [exact Hr|]. left. reflexivity.
Qed.

(** X10.  PRE_BACKUP, lines 294-371: the only exception that leaves the
    phase is the [AttributeError] of the reads of lines 295-296, which
    no [try] encloses; it comes before anything is done or logged.  With
    a [restore_config] those reads can go through the phase returns,
    whatever the state of the disk and whatever the archive tool does
    (a tool that cannot be started, or whose output does not decode,
    included); the only way it then stops the run is the [return 1]
    that follows a failed 7z compression. *)
Theorem pre_backup_raises_only_at_its_reads cfg req env s :
  match pre_backup cfg req env s with
  | (Ok r, _) =>
      restore_config_readable cfg = true /\
      (r = None \/
       (r = Some 1%Z /\ use_7z cfg = true /\ compress_returncode env <> 0%Z))
  | (Raise e, s') =>
      e = AttributeError /\ restore_config_readable cfg = false /\ s' = s
  | (Hang, _) => False
  end.
Proof.
  pose proof (pre_backup_ends cfg req env s) as E.
  destruct (pre_backup cfg req env s) as [[r|e|] s'] eqn:R; simpl in E;
    try exact E.
  destruct E as [-> Hr]. split; [reflexivity|]. split; [exact Hr|].
  unfold pre_backup, bind, read_backup_old_world in R. rewrite Hr in R.
  now injection R as <-.
Qed.

(** X17.  The script with [main], lines 514-550.  The parser's own exits
    come first: status 2 after a usage error, status 0 once the help is
    printed.  When the parser has accepted the command line, the exit
    status is 1 exactly when one of the three arguments is missing or
    empty, and then nothing has been touched; with the three arguments
    given the process leaves with status 0, or with status 130 after an
    interrupt of the wait for the server, or it is still waiting.  No
    failure of the restore gives status 1. *)
Theorem exit_status_one_means_missing_argument cfg env p s :
  match p with
  | UsageError => process cfg env p s = (Exit 2, s)
  | HelpPrinted => process cfg env p s = (Exit 0, s)
  | Namespace a =>
      match parse_request a with
      | None => process cfg env p s = (Exit 1, s)
      | Some req =>
          fst (process cfg env p s) = Exit 0 \/
          (fst (process cfg env p s) = Exit 130 /\
           In PsInterrupted (process_table env)) \/
          fst (process cfg env p s) = NoExit
      end
  end.
Proof.
  destruct p as [a| |]; try reflexivity.
  unfold process, script. destruct (parse_request a) as [req|]; [|reflexivity].
  pose proof (ends_main
                (fun e => is_Exception e = true \/
                          (e = KeyboardInterrupt /\
                           In PsInterrupted (process_table env)))
                True (fun e He => or_introl He) cfg req env I
                (fun Hin => or_intror (conj eq_refl Hin)) s) as E.
  destruct (main cfg req env s) as [[c|e|] s'] eqn:R; simpl in E.
  - left. reflexivity.
  - destruct E as [He|[-> Hin]].
    + left. destruct e; try reflexivity; discriminate He.
    + right. left. split; [reflexivity|exact Hin].
  - right. right. reflexivity.
Qed.

(** ** Waiting for the server to stop *)

Lemma wait_loop_polls env : forall busy clear rest s,
  Forall (fun t => contains (process_name env) t = true) busy ->
  contains (process_name env) clear = false ->
  wait_loop env (map PsOutput busy ++ PsOutput clear :: rest) s
  = (Ok tt, mkState (fs s)
                    (events s ++ repeat (Sleep 1) (List.length busy))).
Proof.
  induction busy as [|t busy IH]; intros clear rest s Hb Hc; simpl.
  - unfold bind. simpl. rewrite Hc. rewrite app_nil_r.
    destruct s; reflexivity.
  - inversion Hb as [|? ? Ht Hb']; subst.
    unfold bind at 1. simpl. rewrite Ht.
    rewrite run_emit. rewrite (IH clear rest _ Hb' Hc). simpl.
    rewrite <- app_assoc. reflexivity.
Qed.

(** X8.  WAIT_PROCESS, lines 272-291: when the first listing shows the server,
    the handler polls again until a listing no longer shows it and
    sleeps one second after every listing that still does; nothing else
    happens, and the file system is not touched. *)
Theorem wait_sleeps_once_per_busy_listing cfg env s first busy clear rest :
  process_table env = PsOutput first :: map PsOutput busy ++ PsOutput clear :: rest ->
  contains (process_name env) first = true ->
  Forall (fun t => contains (process_name env) t = true) busy ->
  contains (process_name env) clear = false ->
  wait_process cfg env s
  = (Ok tt,
     mkState (fs s)
             (events s ++
              Log WARNING MsgServerRunning ::
              repeat (Sleep 1) (List.length busy) ++
              [Log SUCCESS MsgServerStopped])).
Proof.
  intros Ht Hf Hb Hc. unfold wait_process. rewrite Ht.
  unfold bind at 1. simpl. rewrite Hf. rewrite run_emit.
  unfold bind at 1. rewrite (wait_loop_polls env busy clear rest _ Hb Hc).
  unfold emit. simpl. rewrite <- !app_assoc. reflexivity.
Qed.

Lemma wait_sleeps_once_per_busy_listing_witness :
  wait_process Sample.cfg_tar Scenario.env_server_stops Sample.st0
  = (Ok tt,
     mkState Sample.fs0
             [Log WARNING MsgServerRunning; Sleep 1; Sleep 1;
              Log SUCCESS MsgServerStopped]).
Proof.
  apply (wait_sleeps_once_per_busy_listing
           Sample.cfg_tar Scenario.env_server_stops Sample.st0
           "mc 7 1.0 ./bedrock_server"%string
           ["mc 7 1.0 ./bedrock_server"%string; "mc 7 0.3 ./bedrock_server"%string]
           "root 1 0.0 /sbin/init"%string []).
  - reflexivity.
  - reflexivity.
  - repeat constructor.
  - reflexivity.
Defined.

(** ** The restart *)

(** X15.  RESTART_DECISION, lines 476-508: with the restart enabled and a
    delay that is not negative, the phase sleeps for the delay and then
    launches the start script once, from the server directory.  When
    the launch raises, the error is logged and the phase still returns:
    the result of [main] does not depend on it.  The file system is not
    touched. *)
Theorem launch_failure_is_swallowed cfg req env s :
  restart_status cfg = true ->
  (0 <= wait_time_s cfg)%Z ->
  exists s' tr,
    restart_phase cfg req env s = (Ok tt, s') /\
    fs s' = fs s /\
    events s' = events s ++ tr /\
    filter is_sleep tr = [Sleep (wait_time_s cfg)] /\
    if launch_raises env
    then filter is_launch tr = [] /\ In (Log ERROR MsgLaunchFailed) tr
    else filter is_launch tr
         = [Launch (resolve (server_dir req) (start_script_path cfg))
                   (server_dir req)] /\
         existsb is_error_log tr = false.
Proof.
  intros Hs Hw. unfold restart_phase. cbn [plugin_print]. rewrite Hs.
  rewrite !run_emit. unfold sleep.
  destruct (wait_time_s cfg <? 0)%Z eqn:E; [apply Z.ltb_lt in E; lia|].
  rewrite !run_emit. unfold try_except. rewrite run_emit.
  destruct (launch_raises env).
  - unfold bind, raise. simpl. eexists. eexists.
    split; [reflexivity|]. split; [reflexivity|]. simpl.
    split; [rewrite <- !app_assoc; reflexivity|]. simpl.
    split; [reflexivity|]. split; [reflexivity|]. find_in_list.
  - rewrite !run_emit. unfold emit. simpl. eexists. eexists.
    split; [reflexivity|]. split; [reflexivity|]. simpl.
    split; [rewrite <- !app_assoc; reflexivity|]. simpl.
    split; [reflexivity|]. split; reflexivity.
Qed.

Lemma launch_failure_is_swallowed_witness :
  exists s' tr,
    restart_phase Scenario.cfg_restart Sample.req0 Scenario.env_launch_fails
                  Sample.st0 = (Ok tt, s') /\
    fs s' = Sample.fs0 /\
    events s' = [] ++ tr /\
    filter is_sleep tr = [Sleep 3] /\
    filter is_launch tr = [] /\ In (Log ERROR MsgLaunchFailed) tr.
Proof.
  apply (launch_failure_is_swallowed
           Scenario.cfg_restart Sample.req0 Scenario.env_launch_fails Sample.st0).
  - reflexivity.
  - vm_compute. discriminate.
Defined.

(** ** The log directory and the working directory *)

(** X9.  [setup_logging] and the [os.chdir] that follows it in [main], lines
    20-21 and 258: once the log directory has been created the server
    directory is a directory, so the change of directory does not fail,
    even when the server directory did not exist before the run. *)
Theorem chdir_succeeds_after_setup_logging req s s' :
  setup_logging req s = (Ok tt, s') ->
  chdir (server_dir req) s' = (Ok tt, s') /\
  FS.is_dir (fs s') (server_dir req ++ ["logs"; "EasyBackuper"]%string) = true.
Proof.
  unfold setup_logging, fs_call. intros E.
  destruct (FS.makedirs true (server_dir req ++ ["logs"; "EasyBackuper"]%string) (fs s))
    as [n'| |] eqn:Hmk; try discriminate.
  injection E as <-. cbn [fs].
  assert (Hd : FS.is_dir n' (server_dir req) = true).
  { eapply ExistsFacts.makedirs_node_made; [exact Hmk|].
    apply PathFacts.is_prefix_app. }
  split.
  - unfold chdir. rewrite run_read_fs. cbn [fs].
    unfold FS.is_dir in Hd.
    destruct (FS.get n' (server_dir req)) as [[d ro|es]|]; try discriminate.
    reflexivity.
  - eapply ExistsFacts.makedirs_node_made; [exact Hmk|].
    apply PathFacts.is_prefix_refl.
Qed.

Lemma chdir_succeeds_after_setup_logging_witness :
  FS.exists_ (fs Scenario.st_empty) (server_dir Sample.req0) = false /\
  chdir (server_dir Sample.req0)
        (snd (setup_logging Sample.req0 Scenario.st_empty))
  = (Ok tt, snd (setup_logging Sample.req0 Scenario.st_empty)).
Proof.
  split; [reflexivity|].
  apply (chdir_succeeds_after_setup_logging
           Sample.req0 Scenario.st_empty
           (snd (setup_logging Sample.req0 Scenario.st_empty))).
  reflexivity.
Defined.

(** ** A worker count of zero *)

Section ZeroWorkers.
Import FS PathFacts FSFacts ExistsFacts.

(** No regular file appears. *)
Definition no_new_file (n n' : node) : Prop :=
  forall q, is_file n' q = true -> is_file n q = true.

Lemma no_new_file_refl n : no_new_file n n.
Proof. intros q Hq. exact Hq. Qed.

Lemma no_new_file_trans a b c :
  no_new_file a b -> no_new_file b c -> no_new_file a c.
Proof. intros Hab Hbc q Hq. apply Hab, Hbc, Hq. Qed.

Lemma makedirs_no_new_file ok p n n' :
  makedirs ok p n = Ok n' -> no_new_file n n'.
Proof.
  intros E q Hq. destruct (is_prefix q p) eqn:Pq.
  - pose proof (makedirs_node_made ok p p n n' q E Pq) as Hd.
    unfold is_file in Hq. unfold is_dir in Hd.
    destruct (get n' q) as [[d ro|es]|]; discriminate.
  - unfold is_file in *. rewrite (get_makedirs_other ok p n n' q Pq E) in Hq.
    exact Hq.
Qed.

Lemma keeps_ensure_dir_no_new_file cfg sd : keeps no_new_file (ensure_dir cfg sd).
Proof.
  unfold ensure_dir.
  apply (keeps_bind _ no_new_file_trans);
    [apply (keeps_read_fs _ no_new_file_refl)|].
  intros n. apply (keeps_when _ no_new_file_refl).
  apply (keeps_bind _ no_new_file_trans).
  - apply (keeps_fs_call _ no_new_file_refl). intros a b.
    apply makedirs_no_new_file.
  - intros _. apply (keeps_bind _ no_new_file_trans);
      [apply (keeps_emit _ no_new_file_refl)|].
    intros _. apply (keeps_plugin_print _ no_new_file_refl).
Qed.

Lemma keeps_copy_dir_zero cfg src dst :
  keeps no_new_file (copy_dir_with_progress cfg src dst 0).
Proof.
  unfold copy_dir_with_progress, copy_core.
  apply (keeps_bind _ no_new_file_trans);
    [apply (keeps_read_fs _ no_new_file_refl)|].
  intros n0. apply (keeps_bind _ no_new_file_trans).
  { apply (keeps_when _ no_new_file_refl).
    apply (keeps_bind _ no_new_file_trans).
    - apply (keeps_fs_call _ no_new_file_refl). intros a b.
      apply makedirs_no_new_file.
    - intros _. apply (keeps_bind _ no_new_file_trans);
        [apply (keeps_emit _ no_new_file_refl)|].
      intros _. apply (keeps_plugin_print _ no_new_file_refl). }
  intros _. apply (keeps_bind _ no_new_file_trans);
    [apply (keeps_read_fs _ no_new_file_refl)|].
  intros n. apply (keeps_bind _ no_new_file_trans);
    [apply (keeps_lift _ no_new_file_refl)|].
  intros plan. apply (keeps_bind _ no_new_file_trans).
  { apply (keeps_for_each _ no_new_file_refl no_new_file_trans).
    intros sd _. apply keeps_ensure_dir_no_new_file. }
  intros _. apply (keeps_bind_at _ no_new_file_trans);
    [apply (keeps_lift _ no_new_file_refl)|].
  intros s a s' E. exfalso. unfold lift in E.
  pose proof (make_batches_outcome (snd plan) 0) as B.
  destruct (Batching.make_batches (snd plan) 0); try discriminate.
  apply B. reflexivity.
Qed.

Lemma ends_copy_dir_zero cfg src dst :
  ends (fun e => is_Exception e = true) False (fun _ => False)
       (copy_dir_with_progress cfg src dst 0).
Proof.
  set (P := fun e => is_Exception e = true).
  assert (PE : forall e, is_Exception e = true -> P e) by auto.
  unfold copy_dir_with_progress, copy_core.
  apply (ends_bind P False any); [apply ends_read_fs|]. intros n0 _.
  apply (ends_bind P False any).
  { apply ends_when.
    apply ends_seq; [apply (ends_makedirs P False PE)|].
    apply ends_seq; [apply ends_emit|apply ends_plugin_print]. }
  intros _ _.
  apply (ends_bind P False any); [apply ends_read_fs|]. intros n _.
  apply (ends_bind P False any).
  { apply ends_lift.
    pose proof (collect_outcome src dst (FS.walk true src n)) as C.
    destruct (collect src dst (FS.walk true src n)); auto; exact I. }
  intros plan _.
  apply (ends_bind P False any).
  { apply ends_for_each. intros sd _. apply (ends_ensure_dir P False PE). }
  intros _ _.
  apply (ends_bind P False (fun _ => False)).
  { apply ends_lift.
    pose proof (make_batches_outcome (snd plan) 0) as B.
    destruct (Batching.make_batches (snd plan) 0); auto.
    destruct B as [-> _]. reflexivity. }
  intros a [].
Qed.

Lemma copy_dir_zero cfg src dst s :
  exists e s',
    copy_dir_with_progress cfg src dst 0 s = (Raise e, s') /\
    is_Exception e = true /\
    no_new_file (fs s) (fs s').
Proof.
  pose proof (ends_copy_dir_zero cfg src dst s) as E.
  pose proof (keeps_copy_dir_zero cfg src dst s) as K.
  destruct (copy_dir_with_progress cfg src dst 0 s) as [[a|e|] s'];
    simpl in *; try contradiction.
  exists e, s'. auto.
Qed.

End ZeroWorkers.

(** X12.  [main] with [Max_Workers] at zero, lines 154 and 433-459: the
    division by zero of the batch size is only reached by the copy of
    the SWAP phase, after the old world has been deleted.  [main] ends
    with an exception, no regular file is left under the world
    directory, and the staging directory is still on disk with what was
    extracted. *)
Theorem zero_workers_lose_the_world cfg req env s s1 s2 entries es :
  max_workers cfg = 0%Z ->
  before_extract cfg req env s = (Ok None, s1) ->
  extract_phase cfg req env s1 = (Ok None, s2) ->
  extract_entries env = Some entries ->
  FS.get (fs s2) (current_world_dir req) = Some (Dir es) ->
  FS.wf (Dir es) ->
  exists e s',
    main cfg req env s = (Raise e, s') /\
    is_Exception e = true /\
    (forall p, FS.is_file (fs s') (current_world_dir req ++ p) = false) /\
    FS.get (fs s') (temp_world_dir req) = Some (Dir entries).
Proof.
  intros Hk Hbefore Hextract Hentries Gw Hwf.
  pose proof (extract_phase_stages cfg req env s1 s2 entries Hextract Hentries) as Gt.
  destruct (delete_old_world_spec cfg req s2 (Dir es) Gw Hwf)
    as (s3 & E3 & Gw3 & _ & Hframe).
  set (s3' := mkState (fs s3)
                (((events s3 ++ [Log INFO MsgCopyStart]) ++
                  [Log INFO (MsgCopyTarget (temp_world_dir req) (worlds_dir req))]) ++
                 [Log INFO (MsgCopyThreads 0)])).
  destruct (copy_dir_zero cfg (temp_world_dir req) (worlds_dir req) s3')
    as (e & s4 & E4 & He & Hnew).
  pose proof (keeps_copy_dir (temp_world_dir req) cfg (temp_world_dir req)
                             (worlds_dir req) 0
                             (temp_world_diverge_worlds req) s3') as Hsame.
  rewrite E4 in Hsame. unfold same_at in Hsame. cbn [snd fs s3'] in Hsame.
  exists e, s4. split; [|split; [exact He|split]].
  - rewrite main_split. unfold bind at 1. rewrite Hbefore.
    unfold bind at 1. rewrite Hextract.
    unfold bind at 1. unfold swap_phase. unfold bind at 1. rewrite E3.
    cbn [plugin_print]. rewrite !run_emit. cbn [fs events].
    rewrite Hk. fold s3'. unfold bind at 1. rewrite E4. reflexivity.
  - intros p. destruct (FS.is_file (fs s4) (current_world_dir req ++ p)) eqn:F;
      [|reflexivity].
    apply Hnew in F. cbn [fs s3'] in F. unfold FS.is_file in F.
    rewrite FSFacts.get_app, Gw3 in F. simpl in F.
    destruct p; simpl in F; discriminate.
  - rewrite Hsame. rewrite Hframe; [exact Gt|].
    rewrite PathFacts.diverge_sym. apply Layout.world_diverge_temp_world.
Qed.

Lemma zero_workers_lose_the_world_witness :
  exists e s',
    main Scenario.cfg_zero_workers Sample.req0
         (Sample.env_ok Sample.archive_with_folder) Sample.st0 = (Raise e, s') /\
    is_Exception e = true /\
    (forall p, FS.is_file (fs s') (current_world_dir Sample.req0 ++ p) = false) /\
    FS.get (fs s') (temp_world_dir Sample.req0)
    = Some (Dir Sample.archive_with_folder).
Proof.
  apply (zero_workers_lose_the_world
           Scenario.cfg_zero_workers Sample.req0
           (Sample.env_ok Sample.archive_with_folder) Sample.st0
           (snd (before_extract Scenario.cfg_zero_workers Sample.req0
                   (Sample.env_ok Sample.archive_with_folder) Sample.st0))
           (snd (extract_phase Scenario.cfg_zero_workers Sample.req0
                   (Sample.env_ok Sample.archive_with_folder)
                   (snd (before_extract Scenario.cfg_zero_workers Sample.req0
                           (Sample.env_ok Sample.archive_with_folder) Sample.st0))))
           Sample.archive_with_folder
           [("level.dat"%string, File "old" true);
            ("db"%string, Dir [("000.ldb"%string, File "x" false)])]).
  - reflexivity.
  - vm_compute. reflexivity.
  - vm_compute. reflexivity.
  - reflexivity.
  - vm_compute. reflexivity.
  - vm_compute. repeat constructor; simpl; intuition discriminate.
Defined.

(** ** Copying from nothing *)

Lemma make_batches_nil {A} k :
  k <> 0%Z -> Batching.make_batches (@nil A) k = Ok [].
Proof.
  intros Hk. unfold Batching.make_batches, Batching.batch_size, Batching.floordiv.
  destruct (Z.eqb_spec k 0); [contradiction|]. reflexivity.
Qed.

Lemma copy_dir_nothing cfg src dst k s :
  k <> 0%Z ->
  (forall x es, FS.get (fs s) src <> Some (Dir (x :: es))) ->
  FS.exists_ (fs s) dst = true ->
  copy_dir_with_progress cfg src dst k s = (Ok tt, s).
Proof.
  intros Hk Hsrc Hdst. unfold copy_dir_with_progress.
  rewrite run_read_fs. rewrite Hdst. cbn [negb when]. rewrite run_ret.
  unfold copy_core. rewrite run_read_fs.
  assert (C : collect src dst (FS.walk true src (fs s)) = Ok ([], [])).
  { unfold FS.walk. destruct (FS.get (fs s) src) as [[d ro|[|x es]]|] eqn:G.
    - reflexivity.
    - simpl. unfold FS.dir_names, FS.file_names. simpl. reflexivity.
    - exfalso. eapply Hsrc. reflexivity.
    - reflexivity. }
  unfold bind at 1. unfold lift at 1. rewrite C. cbn [fst snd for_each].
  rewrite run_ret. unfold bind at 1. unfold lift at 1.
  rewrite (make_batches_nil k Hk). reflexivity.
Qed.

(** X7.  [copy_dir_with_progress], lines 121-166: a source that does not
    exist, that is a regular file or that is an empty directory is not
    an error.  With the destination in place the call changes nothing,
    starts no thread and returns. *)
Theorem copying_from_nothing_is_no_error cfg src dst max_threads s :
  max_threads <> 0%Z ->
  (forall x es, FS.get (fs s) src <> Some (Dir (x :: es))) ->
  FS.exists_ (fs s) dst = true ->
  copy_dir_with_progress cfg src dst max_threads s = (Ok tt, s).
Proof. apply copy_dir_nothing. Qed.

Lemma copying_from_nothing_is_no_error_witness :
  copy_dir_with_progress Sample.cfg_tar ["srv"; "nowhere"]%string
                         ["srv"; "worlds"]%string 4 Sample.st0
  = (Ok tt, Sample.st0).
Proof.
  apply (copying_from_nothing_is_no_error
           Sample.cfg_tar ["srv"; "nowhere"]%string ["srv"; "worlds"]%string 4
           Sample.st0).
  - discriminate.
  - intros x es. vm_compute. discriminate.
  - reflexivity.
Defined.

(** ** An extraction that produces nothing *)




(** ** A negative restart delay *)

(** X16.  [main], lines 476-481: [time.sleep] is called outside the [try] of
    the restart, so a negative [wait_time_s] raises [ValueError] out of
    [main].  This happens after the SWAP phase: the staged files are in
    the worlds directory and the staging directory is gone, but the
    start script is not launched. *)
Theorem negative_restart_delay_raises_after_the_restore
        cfg req env s s1 s2 entries ws :
  before_extract cfg req env s = (Ok None, s1) ->
  extract_phase cfg req env s1 = (Ok None, s2) ->
  extract_entries env = Some entries ->
  FS.wf (Dir entries) ->
  FS.get (fs s2) (worlds_dir req) = Some (Dir ws) ->
  FS.wf (Dir ws) ->
  (1 <= max_workers cfg)%Z ->
  compatible (Dir entries) (Some (Dir (emptied_world (world_name req) ws))) = true ->
  restart_status cfg = true ->
  (wait_time_s cfg < 0)%Z ->
  exists s3 s',
    swap_phase cfg req s2 = (Ok tt, s3) /\
    main cfg req env s = (Raise ValueError, s') /\
    (forall p d ro,
        FS.get (Dir entries) p = Some (File d ro) ->
        FS.get (fs s') (worlds_dir req ++ p) = Some (File d ro)) /\
    FS.exists_ (fs s') (temp_dir req) = false /\
    events s'
    = events s3 ++ [Log INFO (MsgRestartSetting true);
                    Log INFO MsgRestartEnabled;
                    Log INFO (MsgRestartWaiting (wait_time_s cfg))].
Proof.
  intros Hbefore Hextract Hentries Hwfe Gw Hwfw Hk HC Hs Hw.
  pose proof (extract_phase_stages cfg req env s1 s2 entries Hextract Hentries) as Gt.
  destruct (swap_phase_lands cfg req s2 entries ws Gt Hwfe Gw Hwfw)
    as (s3 & E3 & Hfiles & _ & Hgone); [lia | exact HC |].
  exists s3.
  exists (mkState (fs s3)
                  (events s3 ++ [Log INFO (MsgRestartSetting true);
                                 Log INFO MsgRestartEnabled;
                                 Log INFO (MsgRestartWaiting (wait_time_s cfg))])).
  split; [exact E3|].
  assert (E4 : restart_phase cfg req env s3
               = (Raise ValueError,
                  mkState (fs s3)
                          (events s3 ++ [Log INFO (MsgRestartSetting true);
                                         Log INFO MsgRestartEnabled;
                                         Log INFO (MsgRestartWaiting (wait_time_s cfg))]))).
  { unfold restart_phase. cbn [plugin_print]. rewrite Hs. rewrite !run_emit.
    unfold sleep. apply Z.ltb_lt in Hw. rewrite Hw.
    unfold bind, raise. cbn [fs events]. rewrite <- !app_assoc. reflexivity. }
  split; [|split; [exact Hfiles|split; [exact Hgone|reflexivity]]].
  rewrite main_split. unfold bind at 1. rewrite Hbefore.
  unfold bind at 1. rewrite Hextract.
  unfold bind at 1. rewrite E3. unfold bind at 1. rewrite E4. reflexivity.
Qed.

Lemma negative_restart_delay_raises_after_the_restore_witness :
  exists s3 s',
    swap_phase Scenario.cfg_negative_delay Sample.req0
               (snd (extract_phase Scenario.cfg_negative_delay Sample.req0
                       (Sample.env_ok Sample.archive_flat)
                       (snd (before_extract Scenario.cfg_negative_delay Sample.req0
                               (Sample.env_ok Sample.archive_flat) Sample.st0))))
    = (Ok tt, s3) /\
    main Scenario.cfg_negative_delay Sample.req0
         (Sample.env_ok Sample.archive_flat) Sample.st0
    = (Raise ValueError, s') /\
    FS.get (fs s') (worlds_dir Sample.req0 ++ ["level.dat"%string])
    = Some (File "new" false) /\
    FS.exists_ (fs s') (temp_dir Sample.req0) = false.
Proof.
  destruct (negative_restart_delay_raises_after_the_restore
              Scenario.cfg_negative_delay Sample.req0
              (Sample.env_ok Sample.archive_flat) Sample.st0
              (snd (before_extract Scenario.cfg_negative_delay Sample.req0
                      (Sample.env_ok Sample.archive_flat) Sample.st0))
              (snd (extract_phase Scenario.cfg_negative_delay Sample.req0
                      (Sample.env_ok Sample.archive_flat)
                      (snd (before_extract Scenario.cfg_negative_delay Sample.req0
                              (Sample.env_ok Sample.archive_flat) Sample.st0))))
              Sample.archive_flat
              [("Bedrock"%string,
                Dir [("level.dat"%string, File "old" true);
                     ("db"%string, Dir [("000.ldb"%string, File "x" false)])]);
               ("Other"%string, Dir [("level.dat"%string, File "o" false)])])
    as (s3 & s' & E3 & E & Hfiles & Hgone & _).
  - vm_compute. reflexivity.
  - vm_compute. reflexivity.
  - reflexivity.
  - vm_compute. repeat constructor; simpl; intuition discriminate.
  - vm_compute. reflexivity.
  - vm_compute. repeat constructor; simpl; intuition discriminate.
  - vm_compute. discriminate.
  - vm_compute. reflexivity.
  - reflexivity.
  - vm_compute. reflexivity.
  - exists s3, s'. split; [exact E3|]. split; [exact E|]. split; [|exact Hgone].
    apply (Hfiles ["level.dat"%string] "new"%string false). reflexivity.
Defined.

(** ** What a run leaves alone *)

Lemma walk_node_roots td : forall T top t,
  In t (FS.walk_node td top T) -> exists r, fst (fst t) = top ++ r.
Proof.
  induction T as [d ro|es IH] using TreeFacts.node_ind'; intros top t Hin.
  - destruct Hin.
  - rewrite TreeFacts.walk_node_Dir in Hin.
    assert (Hhere : t = (top, FS.dir_names es, FS.file_names es) ->
                    exists r, fst (fst t) = top ++ r).
    { intros ->. exists []. simpl. now rewrite app_nil_r. }
    assert (Hbelow : In t (FS.walk_entries td top es) ->
                     exists r, fst (fst t) = top ++ r).
    { intros Hb. apply TreeFacts.in_walk_entries in Hb as (x & c & Hxc & Ht).
      rewrite Forall_forall in IH. specialize (IH (x, c) Hxc (top ++ [x]) t Ht).
      destruct IH as [r Hr]. exists (x :: r). rewrite Hr.
      now rewrite <- app_assoc. }
    destruct td.
    + destruct Hin as [<-|Hin]; auto.
    + apply in_app_or in Hin as [Hin|[<-|[]]]; auto.
Qed.

(** Deleting below [base] leaves alone what parts ways with [base]. *)
Section Apart.

Variable cfg : configuration.
Variables w base : path.
Hypothesis apart : FS.diverge w base = true.

Let T := same_at_trans w.
Let Rf := same_at_refl w.

Lemma apart_below r : FS.diverge w (base ++ r) = true.
Proof. apply PathFacts.diverge_app_r, apart. Qed.

Lemma apart_chmod r :
  keeps (same_at w) (fs_call (FS.chmod_writable (base ++ r))).
Proof.
  apply (keeps_fs_call _ Rf). intros n n'. unfold FS.chmod_writable.
  destruct (FS.get n (base ++ r)) as [[d ro|es]|]; intros [= <-].
  - apply same_at_alter, apart_below.
  - apply Rf.
Qed.

Lemma apart_unlink r :
  keeps (same_at w) (fs_call (FS.unlink (base ++ r))).
Proof.
  apply (keeps_fs_call _ Rf). intros n n'. unfold FS.unlink.
  destruct (FS.get n (base ++ r)) as [[d [|]|es]|]; intros [= <-].
  apply same_at_alter, apart_below.
Qed.

Lemma apart_rmdir r :
  keeps (same_at w) (fs_call (FS.rmdir (base ++ r))).
Proof.
  apply (keeps_fs_call _ Rf). intros n n'. unfold FS.rmdir.
  destruct (FS.get n (base ++ r)) as [[d ro|[|x es]]|]; intros [= <-].
  apply same_at_alter, apart_below.
Qed.

Lemma apart_delete_walked t :
  (exists r, fst (fst t) = base ++ r) ->
  keeps (same_at w) (delete_walked cfg t).
Proof.
  destruct t as [[root dirs] files]. intros [r Hr]. simpl in Hr. subst root.
  unfold delete_walked, unlink_files, rmdir_dirs.
  apply (keeps_bind _ T).
  - apply (keeps_for_each _ Rf T). intros name _. rewrite <- app_assoc.
    apply (keeps_bind _ T); [apply apart_chmod|]. intros _.
    apply (keeps_bind _ T); [apply (keeps_plugin_print _ Rf)|]. intros _.
    apply apart_unlink.
  - intros _. apply (keeps_for_each _ Rf T). intros name _. rewrite <- app_assoc.
    apply (keeps_bind _ T); [apply (keeps_plugin_print _ Rf)|]. intros _.
    apply apart_rmdir.
Qed.

End Apart.

(** The deletion loop works below the world directory. *)
Lemma apart_delete_old_world cfg req w :
  FS.diverge w (current_world_dir req) = true ->
  keeps (same_at w) (delete_old_world cfg req).
Proof.
  intros Hw. pose proof (same_at_trans w) as T. pose proof (same_at_refl w) as Rf.
  unfold delete_old_world.
  apply (keeps_bind _ T); [apply (keeps_read_fs _ Rf)|]. intros n.
  apply (keeps_when _ Rf).
  apply (keeps_bind _ T); [apply (keeps_plugin_print _ Rf)|]. intros _.
  apply (keeps_bind _ T); [apply (keeps_plugin_print _ Rf)|]. intros _.
  apply (keeps_bind _ T); [|intros _; keeps_steps T Rf].
  apply (keeps_for_each _ Rf T). intros t Ht.
  apply (apart_delete_walked cfg w (current_world_dir req) Hw).
  unfold FS.walk in Ht.
  destruct (FS.get n (current_world_dir req)) as [c|]; [|destruct Ht].
  now apply walk_node_roots in Ht.
Qed.

Section Outside.

Variable cfg : configuration.
Variable req : request.
Variable env : environment.
Variable w : path.

(** [w] is neither the server directory, nor above it, nor in it. *)
Hypothesis outside : FS.diverge w (server_dir req) = true.

Let T := same_at_trans w.
Let Rf := same_at_refl w.

Lemma outside_below r : FS.diverge w (server_dir req ++ r) = true.
Proof. apply PathFacts.diverge_app_r, outside. Qed.

Lemma outside_rmtree r :
  keeps (same_at w) (fs_update (FS.rmtree (server_dir req ++ r))).
Proof.
  apply keeps_fs_update. intros n. apply same_at_rmtree, outside_below.
Qed.

Lemma outside_makedirs ok r :
  keeps (same_at w) (fs_call (FS.makedirs ok (server_dir req ++ r))).
Proof.
  apply (keeps_fs_call _ Rf). intros n n'. apply same_at_makedirs.
  apply PathFacts.diverge_not_prefix, outside_below.
Qed.

Lemma outside_setup_logging : keeps (same_at w) (setup_logging req).
Proof. apply outside_makedirs. Qed.

Lemma outside_run_extract b : keeps (same_at w) (run_extract req env b).
Proof.
  apply (keeps_run_extract _ Rf T). intros n. unfold tool_extract.
  destruct (extract_entries env); [|reflexivity].
  apply same_at_alter. unfold temp_world_dir, temp_dir.
  rewrite <- app_assoc. apply outside_below.
Qed.

Lemma outside_extract_phase : keeps (same_at w) (extract_phase cfg req env).
Proof.
  unfold extract_phase.
  pose proof (outside_rmtree ["temp_easybackuper"%string]) as Hrm.
  fold (temp_dir req) in Hrm.
  apply (keeps_bind _ T); [apply (keeps_plugin_print _ Rf)|]. intros _.
  apply (keeps_bind _ T); [apply (keeps_read_fs _ Rf)|]. intros n.
  apply (keeps_bind _ T); [apply (keeps_when _ Rf), Hrm|]. intros _.
  apply (keeps_bind _ T); [apply outside_makedirs|].
  intros _. apply (keeps_bind _ T); [apply (keeps_plugin_print _ Rf)|]. intros _.
  destruct (use_7z cfg).
  - apply (keeps_bind _ T); [apply (keeps_read_fs _ Rf)|]. intros n1.
    destruct (negb (FS.exists_ n1 (exe_path cfg req))).
    + keeps_steps T Rf. exact Hrm.
    + apply (keeps_bind _ T); [apply (keeps_plugin_print _ Rf)|]. intros _.
      apply (keeps_bind _ T); [apply outside_run_extract|]. intros rc.
      destruct (negb (rc =? 0)%Z); keeps_steps T Rf. exact Hrm.
  - apply (keeps_bind _ T); [apply (keeps_plugin_print _ Rf)|]. intros _.
    apply (keeps_bind _ T).
    { unfold temp_world_dir, temp_dir. rewrite <- app_assoc.
      apply outside_makedirs. }
    intros _.
    apply (keeps_bind _ T); [apply outside_run_extract|]. intros rc.
    destruct (negb (rc =? 0)%Z); keeps_steps T Rf. exact Hrm.
Qed.

Lemma outside_delete_old_world : keeps (same_at w) (delete_old_world cfg req).
Proof.
  apply apart_delete_old_world. unfold current_world_dir, worlds_dir.
  rewrite <- app_assoc. apply outside_below.
Qed.

Lemma outside_swap_phase : keeps (same_at w) (swap_phase cfg req).
Proof.
  unfold swap_phase.
  apply (keeps_bind _ T); [apply outside_delete_old_world|]. intros _.
  do 3 (apply (keeps_bind _ T); [apply (keeps_plugin_print _ Rf)|]; intros _).
  apply (keeps_bind _ T).
  { apply keeps_copy_dir. apply outside_below. }
  intros _.
  do 2 (apply (keeps_bind _ T); [apply (keeps_plugin_print _ Rf)|]; intros _).
  apply (keeps_bind _ T); [apply outside_rmtree|]. intros _.
  keeps_steps T Rf.
Qed.

Lemma outside_run_compress b :
  FS.is_prefix w (old_backup_file_path cfg req env) = false ->
  keeps (same_at w) (run_compress cfg req env b).
Proof.
  intros Ha. apply (keeps_run_compress _ Rf T).
  intros n0. now apply same_at_tool_write.
Qed.

(** The archive of the pre-restore backup goes where the configuration
    says; it is taken not to be at [w] or below it. *)
Hypothesis archive_elsewhere :
  backup_old_world_before_restore cfg = true ->
  FS.is_prefix w (old_backup_file_path cfg req env) = false.

Lemma outside_pre_backup : keeps (same_at w) (pre_backup cfg req env).
Proof.
  apply (keeps_pre_backup _ Rf). unfold pre_backup_with.
  pose proof (outside_rmtree ["temp_easybackuper_backup"%string]) as Hrm.
  fold (temp_backup_dir req) in Hrm.
  apply (keeps_bind _ T); [apply (keeps_plugin_print _ Rf)|]. intros _.
  destruct (backup_old_world_before_restore cfg) eqn:Hb; [|keeps_steps T Rf].
  pose proof (archive_elsewhere eq_refl) as Ha.
  apply (keeps_bind _ T); [apply (keeps_plugin_print _ Rf)|]. intros _.
  apply (keeps_try_except _ T); [|intros e; keeps_steps T Rf].
  apply (keeps_bind _ T).
  { unfold pre_backup_snapshot.
    apply (keeps_bind _ T).
    { apply (keeps_fs_call _ Rf). intros n n'. apply same_at_makedirs.
      unfold old_backup_file_path in Ha. now apply Layout.not_prefix_app_r in Ha. }
    intros _. apply (keeps_bind _ T); [apply (keeps_read_fs _ Rf)|]. intros n.
    apply (keeps_bind _ T); [apply (keeps_when _ Rf), Hrm|]. intros _.
    apply (keeps_bind _ T); [apply outside_makedirs|].
    intros _. apply (keeps_bind _ T); [apply (keeps_plugin_print _ Rf)|]. intros _.
    apply keeps_copy_dir. unfold temp_world_backup_dir, temp_backup_dir.
    rewrite <- app_assoc. apply outside_below. }
  intros _. unfold pre_backup_archive.
  apply (keeps_bind _ T).
  - destruct (use_7z cfg).
    + apply (keeps_bind _ T); [apply (keeps_read_fs _ Rf)|]. intros n1.
      destruct (negb (FS.exists_ n1 (exe_path cfg req))).
      * keeps_steps T Rf. exact Hrm.
      * apply (keeps_bind _ T); [apply (keeps_plugin_print _ Rf)|]. intros _.
        apply (keeps_bind _ T); [now apply outside_run_compress|]. intros rc.
        destruct (negb (rc =? 0)%Z); keeps_steps T Rf. exact Hrm.
    + apply (keeps_bind _ T); [apply (keeps_plugin_print _ Rf)|]. intros _.
      apply (keeps_bind _ T); [now apply outside_run_compress|]. intros rc.
      destruct (negb (rc =? 0)%Z); keeps_steps T Rf.
  - intros [c|]; keeps_steps T Rf. exact Hrm.
Qed.

Lemma outside_main : keeps (same_at w) (main cfg req env).
Proof.
  unfold main.
  apply (keeps_bind _ T); [apply outside_setup_logging|]. intros _.
  apply (keeps_bind _ T); [apply (keeps_chdir _ Rf T)|]. intros _.
  apply (keeps_bind _ T); [apply (keeps_wait_process _ Rf T)|]. intros _.
  apply (keeps_bind _ T); [apply outside_pre_backup|]. intros [c|].
  - apply (keeps_ret _ Rf).
  - apply (keeps_bind _ T); [apply outside_extract_phase|]. intros [c|].
    + apply (keeps_ret _ Rf).
    + apply (keeps_bind _ T); [apply outside_swap_phase|]. intros _.
      apply (keeps_bind _ T); [apply (keeps_restart_phase _ Rf T)|]. intros _.
      apply (keeps_ret _ Rf).
Qed.

End Outside.

Lemma append_nil_r (a : string) : (a ++ "")%string = a.
Proof. induction a as [|c a IH]; simpl; [reflexivity|now rewrite IH]. Qed.

Lemma append_snoc (a : string) c (b : string) :
  ((a ++ String c "") ++ b)%string = (a ++ String c b)%string.
Proof. induction a as [|d a IH]; simpl; [reflexivity|now rewrite IH]. Qed.

(** A plain name is joined as one more component. *)
Lemma split_plain text : forall piece,
  Pathlib.has_separator text = false ->
  Pathlib.split text piece = [(piece ++ text)%string].
Proof.
  induction text as [|a rest IH]; intros piece H; simpl.
  - now rewrite append_nil_r.
  - simpl in H. apply orb_false_iff in H as [H Hrest].
    apply orb_false_iff in H as [H _]. apply orb_false_iff in H as [H _].
    rewrite H, IH by exact Hrest. now rewrite append_snoc.
Qed.

Lemma joinpath_plain base name :
  Pathlib.plain name = true -> Pathlib.joinpath base name = base ++ [name].
Proof.
  unfold Pathlib.plain, Pathlib.joinpath, Pathlib.parts. intros H.
  apply andb_true_iff in H as [Hs Hn]. apply negb_true_iff in Hs, Hn.
  apply orb_false_iff in Hn as [Hn _].
  assert (Ha : Pathlib.is_absolute name = false).
  { destruct name as [|a rest]; [reflexivity|]. simpl in *.
    apply orb_false_iff in Hs as [Hs _]. apply orb_false_iff in Hs as [Hs _].
    now apply orb_false_iff in Hs as [Hs _]. }
  rewrite Ha, split_plain by exact Hs. cbn [append filter]. now rewrite Hn.
Qed.

(** X18.  [main], all of it, for a world name that is one component of a
    path: the three directories the handler builds from the name are
    then the entries of that name in [worlds], [temp_easybackuper] and
    [temp_easybackuper_backup], and the file system is only written in
    the server directory and, for the archive of the pre-restore
    backup, in the backup folder.  Whatever is found at a path that
    parts ways with the server directory, and that the archive is not
    written at or below, is the same after the run as before, however
    the run ends. *)
Theorem nothing_outside_the_server_directory_changes cfg req env s w :
  Pathlib.plain (world_name req) = true ->
  FS.diverge w (server_dir req) = true ->
  (backup_old_world_before_restore cfg = true ->
   FS.is_prefix w (old_backup_file_path cfg req env) = false) ->
  Pathlib.joinpath (worlds_dir req) (world_name req) = current_world_dir req /\
  Pathlib.joinpath (temp_dir req) (world_name req) = temp_world_dir req /\
  Pathlib.joinpath (temp_backup_dir req) (world_name req)
  = temp_world_backup_dir req /\
  FS.get (fs (snd (main cfg req env s))) w = FS.get (fs s) w.
Proof.
  intros Hplain Hout Harch.
  repeat split; try (now apply joinpath_plain).
  apply (outside_main cfg req env w Hout Harch s).
Qed.

Lemma nothing_outside_the_server_directory_changes_witness :
  Pathlib.joinpath (worlds_dir Sample.req0) "Bedrock"
  = ["srv"; "worlds"; "Bedrock"]%string /\
  FS.get (fs (snd (main Sample.cfg_tar_backup Sample.req0
                        (Sample.env_ok Sample.archive_with_folder)
                        Scenario.st_shared)))
         ["home"%string]
  = Some (Dir [("notes.txt"%string, File "mine" false)]).
Proof.
  destruct (nothing_outside_the_server_directory_changes
              Sample.cfg_tar_backup Sample.req0
              (Sample.env_ok Sample.archive_with_folder)
              Scenario.st_shared ["home"%string]) as (Hw & _ & _ & Hsame).
  - reflexivity.
  - reflexivity.
  - intros _. reflexivity.
  - split; [exact Hw|exact Hsame].
Defined.

(** ** What a run records *)

Section Emits.

Variable Q : event -> Prop.

(** [emits c]: [c] only adds to the record, and only events that
    satisfy [Q]. *)
Definition emits {A} (c : M A) : Prop :=
  forall s, exists tr, events (snd (c s)) = events s ++ tr /\ Forall Q tr.

Lemma emits_silent {A} (c : M A) :
  (forall s, events (snd (c s)) = events s) -> emits c.
Proof. intros E s. exists []. rewrite app_nil_r. split; [apply E|constructor]. Qed.

Lemma emits_ret {A} (a : A) : emits (ret a).
Proof. apply emits_silent. reflexivity. Qed.

Lemma emits_raise {A} e : emits (@raise A e).
Proof. apply emits_silent. reflexivity. Qed.

Lemma emits_lift {A} (o : outcome A) : emits (lift o).
Proof. apply emits_silent. reflexivity. Qed.

Lemma emits_hang {A} : emits (fun s => (@Hang A, s)).
Proof. apply emits_silent. reflexivity. Qed.

Lemma emits_read_fs : emits read_fs.
Proof. apply emits_silent. reflexivity. Qed.

Lemma emits_fs_update f : emits (fs_update f).
Proof. apply emits_silent. reflexivity. Qed.

Lemma emits_fs_call f : emits (fs_call f).
Proof.
  apply emits_silent. intros s. unfold fs_call. destruct (f (fs s)); reflexivity.
Qed.

Lemma emits_emit e : Q e -> emits (emit e).
Proof. intros q s. exists [e]. split; [reflexivity|]. constructor; [exact q|constructor]. Qed.

Lemma emits_bind {A B} (c : M A) (k : A -> M B) :
  emits c -> (forall a, emits (k a)) -> emits (bind c k).
Proof.
  intros Ec Ek s. unfold bind. destruct (Ec s) as [tr [E1 F1]].
  destruct (c s) as [[a|e|] s1]; simpl in *.
  - destruct (Ek a s1) as [tr2 [E2 F2]]. exists (tr ++ tr2).
    rewrite E2, E1, app_assoc. split; [reflexivity|]. apply Forall_app. auto.
  - exists tr. auto.
  - exists tr. auto.
Qed.

Lemma emits_try_except {A} (c : M A) h :
  emits c -> (forall e, emits (h e)) -> emits (try_except c h).
Proof.
  intros Ec Eh s. unfold try_except. destruct (Ec s) as [tr [E1 F1]].
  destruct (c s) as [[a|e|] s1]; simpl in *; try (exists tr; auto; fail).
  destruct (is_Exception e); [|exists tr; auto].
  destruct (Eh e s1) as [tr2 [E2 F2]]. exists (tr ++ tr2).
  rewrite E2, E1, app_assoc. split; [reflexivity|]. apply Forall_app. auto.
Qed.

Lemma emits_for_each {A} (l : list A) body :
  (forall a, emits (body a)) -> emits (for_each l body).
Proof.
  intros Hb. induction l as [|a l IH]; simpl.
  - apply emits_ret.
  - apply emits_bind; [apply Hb|]. intros _. exact IH.
Qed.

Lemma emits_when b c : emits c -> emits (when b c).
Proof. intros E. destruct b; simpl; [exact E|apply emits_ret]. Qed.

Lemma emits_decode valid : emits (decode valid).
Proof. destruct valid; [apply emits_ret|apply emits_raise]. Qed.

Lemma emits_decode_in_run b valid : emits (decode_in_run b valid).
Proof. destruct b; [apply emits_ret|apply emits_decode]. Qed.

Lemma emits_pre_backup_from cfg req env :
  emits (pre_backup_with cfg req env (backup_old_world_before_restore cfg)) ->
  emits (pre_backup cfg req env).
Proof.
  intros K s. unfold pre_backup, bind, read_backup_old_world.
  destruct (restore_config_readable cfg); [apply K|].
  exists []. rewrite app_nil_r. split; [reflexivity|constructor].
Qed.

End Emits.

(** What a run under the configuration [cfg] can record: a [DEBUG] line
    only with debugging on, a compression only with the pre-restore
    backup on, a launch only with the restart on, and no sleep but the
    one second of the polling loop and the delay of the restart. *)
Definition allowed (cfg : configuration) (e : event) : Prop :=
  match e with
  | Log DEBUG _ => debug cfg = true
  | RunCompress _ _ _ _ => backup_old_world_before_restore cfg = true
  | Launch _ _ => restart_status cfg = true
  | Sleep z => z = 1%Z \/ (restart_status cfg = true /\ z = wait_time_s cfg)
  | _ => True
  end.

Section Allowed.

Variable cfg : configuration.
Variable req : request.
Variable env : environment.

Lemma emits_plugin_print lv m : emits (allowed cfg) (plugin_print cfg lv m).
Proof.
  unfold plugin_print. destruct lv; try (apply emits_emit; exact I).
  destruct (debug cfg) eqn:D; [|apply emits_ret].
  apply emits_emit. exact D.
Qed.

Ltac emits_steps :=
  repeat first
    [ apply emits_plugin_print
    | apply emits_ret
    | apply emits_raise
    | apply emits_read_fs
    | apply emits_lift
    | apply emits_fs_call
    | apply emits_fs_update
    | apply emits_hang
    | apply emits_when
    | apply emits_decode
    | apply emits_decode_in_run
    | apply emits_emit; exact I
    | apply emits_bind; [ | intros ? ]
    | apply emits_try_except; [ | intros ? ]
    | apply emits_for_each; intros ? ].

Lemma emits_copy_dir src dst k :
  emits (allowed cfg) (copy_dir_with_progress cfg src dst k).
Proof.
  unfold copy_dir_with_progress, copy_core, ensure_dir, copy_files,
    copy_file_with_progress.
  emits_steps.
Qed.

Lemma emits_wait_loop answers : emits (allowed cfg) (wait_loop env answers).
Proof.
  induction answers as [|r answers IH]; simpl; [apply emits_hang|].
  apply emits_bind.
  - destruct r; simpl; emits_steps.
  - intros [|]; [|apply emits_ret].
    apply emits_bind; [apply emits_emit; left; reflexivity|].
    intros _. exact IH.
Qed.

Lemma emits_wait_process : emits (allowed cfg) (wait_process cfg env).
Proof.
  unfold wait_process. destruct (process_table env) as [|r answers];
    [apply emits_hang|].
  apply emits_bind.
  - destruct r; simpl; emits_steps.
  - intros [|]; emits_steps. apply emits_wait_loop.
Qed.

Lemma emits_pre_backup : emits (allowed cfg) (pre_backup cfg req env).
Proof.
  apply emits_pre_backup_from. unfold pre_backup_with.
  apply emits_bind; [apply emits_plugin_print|]. intros _.
  destruct (backup_old_world_before_restore cfg) eqn:B; [|emits_steps].
  assert (C : forall b, emits (allowed cfg) (run_compress cfg req env b)).
  { intros b. unfold run_compress.
    destruct (compress_starts env); [|apply emits_raise].
    apply emits_bind; [apply emits_read_fs|]. intros n.
    apply emits_bind; [apply emits_emit; exact B|]. intros _. emits_steps. }
  apply emits_bind; [apply emits_plugin_print|]. intros _.
  apply emits_try_except; [|intros e; emits_steps].
  apply emits_bind.
  { unfold pre_backup_snapshot. emits_steps. }
  intros _. unfold pre_backup_archive.
  apply emits_bind.
  - destruct (use_7z cfg).
    + apply emits_bind; [apply emits_read_fs|]. intros n.
      destruct (negb (FS.exists_ n (exe_path cfg req))); [emits_steps|].
      apply emits_bind; [apply emits_plugin_print|]. intros _.
      apply emits_bind; [apply C|]. intros rc.
      destruct (negb (rc =? 0)%Z); emits_steps.
    + apply emits_bind; [apply emits_plugin_print|]. intros _.
      apply emits_bind; [apply C|]. intros rc.
      destruct (negb (rc =? 0)%Z); emits_steps.
  - intros [c|]; emits_steps.
Qed.

Lemma emits_extract_phase : emits (allowed cfg) (extract_phase cfg req env).
Proof.
  assert (X : forall b, emits (allowed cfg) (run_extract req env b)).
  { intros b. unfold run_extract.
    destruct (extract_starts env); [|apply emits_raise]. emits_steps. }
  unfold extract_phase.
  apply emits_bind; [apply emits_plugin_print|]. intros _.
  apply emits_bind; [apply emits_read_fs|]. intros n.
  apply emits_bind; [emits_steps|]. intros _.
  apply emits_bind; [emits_steps|]. intros _.
  apply emits_bind; [apply emits_plugin_print|]. intros _.
  destruct (use_7z cfg).
  - apply emits_bind; [apply emits_read_fs|]. intros n1.
    destruct (negb (FS.exists_ n1 (exe_path cfg req))); [emits_steps|].
    apply emits_bind; [apply emits_plugin_print|]. intros _.
    apply emits_bind; [apply X|]. intros rc.
    destruct (negb (rc =? 0)%Z); emits_steps.
  - apply emits_bind; [apply emits_plugin_print|]. intros _.
    apply emits_bind; [emits_steps|]. intros _.
    apply emits_bind; [apply X|]. intros rc.
    destruct (negb (rc =? 0)%Z); emits_steps.
Qed.

Lemma emits_swap_phase : emits (allowed cfg) (swap_phase cfg req).
Proof.
  unfold swap_phase, delete_old_world.
  apply emits_bind.
  { apply emits_bind; [apply emits_read_fs|]. intros n. apply emits_when.
    apply emits_bind; [apply emits_plugin_print|]. intros _.
    apply emits_bind; [apply emits_plugin_print|]. intros _.
    apply emits_bind; [|intros _; emits_steps].
    apply emits_for_each. intros [[root dirs] files].
    unfold delete_walked, unlink_files, rmdir_dirs. emits_steps. }
  intros _.
  do 3 (apply emits_bind; [apply emits_plugin_print|]; intros _).
  apply emits_bind; [apply emits_copy_dir|]. intros _. emits_steps.
Qed.

Lemma emits_restart_phase : emits (allowed cfg) (restart_phase cfg req env).
Proof.
  unfold restart_phase.
  apply emits_bind; [apply emits_plugin_print|]. intros _.
  destruct (restart_status cfg) eqn:R; [|emits_steps].
  do 2 (apply emits_bind; [apply emits_plugin_print|]; intros _).
  apply emits_bind.
  { unfold sleep. destruct (wait_time_s cfg <? 0)%Z; [apply emits_raise|].
    apply emits_emit. right. split; [exact R|reflexivity]. }
  intros _. apply emits_bind; [apply emits_plugin_print|]. intros _.
  apply emits_try_except; [|intros e; emits_steps].
  apply emits_bind; [apply emits_plugin_print|]. intros _.
  apply emits_bind; [|intros _; apply emits_plugin_print].
  destruct (launch_raises env); [apply emits_raise|].
  apply emits_emit. exact R.
Qed.

Lemma emits_main : emits (allowed cfg) (main cfg req env).
Proof.
  unfold main.
  apply emits_bind; [unfold setup_logging; apply emits_fs_call|]. intros _.
  apply emits_bind.
  { unfold chdir. apply emits_bind; [apply emits_read_fs|]. intros n.
    destruct (FS.get n (server_dir req)) as [[d ro|es]|]; emits_steps. }
  intros _.
  apply emits_bind; [apply emits_wait_process|]. intros _.
  apply emits_bind; [apply emits_pre_backup|]. intros [c|]; [apply emits_ret|].
  apply emits_bind; [apply emits_extract_phase|]. intros [c|]; [apply emits_ret|].
  apply emits_bind; [apply emits_swap_phase|]. intros _.
  apply emits_bind; [apply emits_restart_phase|]. intros _. apply emits_ret.
Qed.

End Allowed.

Lemma allowed_no_launch cfg tr :
  restart_status cfg = false -> Forall (allowed cfg) tr ->
  existsb is_launch tr = false /\
  Forall (fun e => is_sleep e = true -> e = Sleep 1) tr.
Proof.
  intros R F. induction F as [|e tr He F IH]; [split; [reflexivity|constructor]|].
  destruct IH as [IH1 IH2]. simpl. split.
  - rewrite IH1. destruct e; simpl in *; try reflexivity. congruence.
  - constructor; [|exact IH2]. intros Hs.
    destruct e; simpl in *; try discriminate.
    destruct He as [->|[He _]]; [reflexivity|congruence].
Qed.

Lemma allowed_no_debug cfg tr :
  debug cfg = false -> Forall (allowed cfg) tr -> existsb is_debug_log tr = false.
Proof.
  intros D F. induction F as [|e tr He F IH]; [reflexivity|].
  simpl. rewrite IH. destruct e as [[| | | |] m| | | | | | | |]; simpl in *;
    try reflexivity. congruence.
Qed.

(** X19.  [main], all of it: a run only adds to its record; with the restart
    disabled it never launches the start script, and never sleeps except
    for the one second between two looks at the process table. *)
Theorem no_launch_unless_restart_is_enabled cfg req env s :
  restart_status cfg = false ->
  exists tr,
    events (snd (main cfg req env s)) = events s ++ tr /\
    existsb is_launch tr = false /\
    Forall (fun e => is_sleep e = true -> e = Sleep 1) tr.
Proof.
  intros R. destruct (emits_main cfg req env s) as [tr [E F]].
  exists tr. split; [exact E|]. apply (allowed_no_launch cfg); assumption.
Qed.

Lemma no_launch_unless_restart_is_enabled_witness :
  exists tr,
    events (snd (main Sample.cfg_tar Sample.req0 Scenario.env_server_stops
                      Sample.st0)) = [] ++ tr /\
    existsb is_launch tr = false /\
    Forall (fun e => is_sleep e = true -> e = Sleep 1) tr.
Proof.
  apply (no_launch_unless_restart_is_enabled
           Sample.cfg_tar Sample.req0 Scenario.env_server_stops Sample.st0).
  reflexivity.
Defined.

(** X20.  [plugin_print] as [main] uses it, lines 63-65: with debugging off
    no [DEBUG] line is printed in the whole of a run, however it
    ends. *)
Theorem no_debug_line_unless_debug_is_on cfg req env s :
  debug cfg = false ->
  exists tr,
    events (snd (main cfg req env s)) = events s ++ tr /\
    existsb is_debug_log tr = false.
Proof.
  intros D. destruct (emits_main cfg req env s) as [tr [E F]].
  exists tr. split; [exact E|]. apply (allowed_no_debug cfg); assumption.
Qed.

Lemma no_debug_line_unless_debug_is_on_witness :
  exists tr,
    events (snd (main Scenario.cfg_restart Sample.req0
                      (Sample.env_ok Sample.archive_with_folder) Sample.st0))
    = [] ++ tr /\
    existsb is_debug_log tr = false.
Proof.
  apply (no_debug_line_unless_debug_is_on
           Scenario.cfg_restart Sample.req0
           (Sample.env_ok Sample.archive_with_folder) Sample.st0).
  reflexivity.
Defined.

(** ** The end of the compression step *)

Lemma temp_backup_gone req n :
  FS.is_file n (temp_backup_dir req) = false ->
  FS.exists_ (FS.rmtree (temp_backup_dir req) n) (temp_backup_dir req) = false.
Proof.
  intros H. unfold FS.exists_. rewrite FSFacts.get_rmtree_gone; [reflexivity| |exact H].
  unfold temp_backup_dir. destruct (server_dir req); discriminate.
Qed.

Lemma temp_backup_gone_twice req n :
  FS.is_file n (temp_backup_dir req) = false ->
  FS.exists_ (FS.rmtree (temp_backup_dir req) (FS.rmtree (temp_backup_dir req) n))
             (temp_backup_dir req) = false.
Proof.
  intros H. apply temp_backup_gone. unfold FS.is_file.
  pose proof (temp_backup_gone req n H) as G. unfold FS.exists_ in G.
  now destruct (FS.get (FS.rmtree (temp_backup_dir req) n) (temp_backup_dir req)).
Qed.

(** X11.  The second half of PRE_BACKUP, lines 324-366, entered as the
    first half leaves it, with [temp_easybackuper_backup] a directory.
    Every way out of the step that returns (the missing 7z executable,
    the [return 1] of a failed 7z compression, a finished compression,
    a failed [tar]) has gone through the removal of that directory.
    The step raises when the archive tool cannot be started or when
    what it printed does not decode, and only then; the directory with
    the copy of the worlds is then still on disk when the exception
    leaves the step. *)
Theorem compression_step_removes_the_snapshot cfg req env s :
  FS.is_dir (fs s) (temp_backup_dir req) = true ->
  match pre_backup_archive cfg req env s with
  | (Ok _, s') => FS.exists_ (fs s') (temp_backup_dir req) = false
  | (Raise _, s') =>
      FS.is_dir (fs s') (temp_backup_dir req) = true /\
      (compress_starts env = false \/ compress_decodes env = false)
  | (Hang, _) => False
  end.
Proof.
  intros Hd.
  pose proof (dir_not_file _ _ Hd) as Hnf.
  assert (Hw : FS.is_dir (tool_write (old_backup_file_path cfg req env)
                                     (compress_archive env) (fs s))
                         (temp_backup_dir req) = true)
    by (now apply dir_stays_tool_write).
  pose proof (dir_not_file _ _ Hw) as Hwnf.
  assert (Hclean : forall n evs,
             exists s',
               (emit (Log INFO (MsgCleaningTempBackup (temp_backup_dir req))) ;;;
                fs_update (FS.rmtree (temp_backup_dir req)) ;;;
                emit (Log SUCCESS MsgTempBackupCleaned) ;;;
                emit (Log SUCCESS MsgPreBackupDone) ;;;
                ret None) (mkState n evs) = (Ok (@None Z), s') /\
               fs s' = FS.rmtree (temp_backup_dir req) n).
  { intros n evs. rewrite run_emit, run_fs_update, !run_emit.
    eexists. split; reflexivity. }
  unfold pre_backup_archive.
  destruct (use_7z cfg).
  - rewrite run_bind_assoc, run_read_fs.
    destruct (negb (FS.exists_ (fs s) (exe_path cfg req))).
    + cbn [plugin_print]. rewrite run_bind_assoc, run_emit.
      rewrite run_bind_assoc, run_fs_update, run_ret. cbn [fs events].
      match goal with |- context [_ (mkState ?n ?evs)] =>
        destruct (Hclean n evs) as (s' & E & F) end.
      rewrite E, F. now apply temp_backup_gone_twice.
    + cbn [plugin_print]. rewrite run_bind_assoc, run_emit, run_bind_assoc.
      destruct (compress_starts env) eqn:S.
      2:{ unfold run_compress, bind, raise. rewrite S. cbn [fs]. auto. }
      rewrite run_compress_done by (auto; discriminate). cbn [fs events].
      destruct (negb (compress_returncode env =? 0)%Z);
        rewrite run_bind_assoc; unfold decode;
        (destruct (compress_decodes env) eqn:D;
         [rewrite run_ret | unfold bind, raise; cbn [fs]; auto]).
      * rewrite run_bind_assoc, run_emit, run_bind_assoc, run_fs_update, run_ret.
        unfold ret. cbn [fs]. now apply temp_backup_gone.
      * rewrite run_bind_assoc.
        match goal with |- context [bind (for_each ?l _) _ ?st] =>
          destruct (for_each_emit l (fun line => Log INFO (MsgToolOutput line)) st)
            as (sb & Eb & Efb) end.
        unfold bind at 1. rewrite Eb.
        rewrite run_bind_assoc, run_emit, run_bind_assoc, run_emit, run_ret.
        match goal with |- context [_ (mkState ?n ?evs)] =>
          destruct (Hclean n evs) as (s' & E & F) end.
        rewrite E, F. cbn [fs]. rewrite Efb. cbn [fs]. now apply temp_backup_gone.
  - cbn [plugin_print]. rewrite run_bind_assoc, run_emit, run_bind_assoc.
    destruct (compress_starts env) eqn:S.
    2:{ unfold run_compress, bind, raise. rewrite S. cbn [fs]. auto. }
    destruct (compress_decodes env) eqn:D.
    2:{ unfold run_compress, bind, raise. rewrite S. cbn [decode_in_run].
        unfold decode. rewrite D. cbn [emit fs_update read_fs raise fs]. auto. }
    rewrite run_compress_done by auto. cbn [fs events].
    destruct (negb (compress_returncode env =? 0)%Z).
    + rewrite run_bind_assoc, run_emit, run_ret.
      match goal with |- context [_ (mkState ?n ?evs)] =>
        destruct (Hclean n evs) as (s' & E & F) end.
      rewrite E, F. cbn [fs]. now apply temp_backup_gone.
    + rewrite run_bind_assoc, run_emit, run_bind_assoc, run_emit, run_ret.
      match goal with |- context [_ (mkState ?n ?evs)] =>
        destruct (Hclean n evs) as (s' & E & F) end.
      rewrite E, F. cbn [fs]. now apply temp_backup_gone.
Qed.

Lemma compression_step_removes_the_snapshot_witness :
  FS.is_dir (fs Scenario.st_snapshot) (temp_backup_dir Sample.req0) = true /\
  (fst (pre_backup_archive Sample.cfg_tar_backup Sample.req0
                           (Sample.env_ok Sample.archive_with_folder)
                           Scenario.st_snapshot)
   = Ok None /\
   match pre_backup_archive Sample.cfg_tar_backup Sample.req0
                            (Sample.env_ok Sample.archive_with_folder)
                            Scenario.st_snapshot with
   | (Ok _, s') => FS.exists_ (fs s') (temp_backup_dir Sample.req0) = false
   | (Raise _, s') =>
       FS.is_dir (fs s') (temp_backup_dir Sample.req0) = true /\
       (compress_starts (Sample.env_ok Sample.archive_with_folder) = false \/
        compress_decodes (Sample.env_ok Sample.archive_with_folder) = false)
   | (Hang, _) => False
   end) /\
  (fst (pre_backup_archive Sample.cfg_tar_backup Sample.req0
                           Scenario.env_compress_missing Scenario.st_snapshot)
   = Raise (FileNotFoundError ["tar"%string]) /\
   match pre_backup_archive Sample.cfg_tar_backup Sample.req0
                            Scenario.env_compress_missing Scenario.st_snapshot with
   | (Ok _, s') => FS.exists_ (fs s') (temp_backup_dir Sample.req0) = false
   | (Raise _, s') =>
       FS.is_dir (fs s') (temp_backup_dir Sample.req0) = true /\
       (compress_starts Scenario.env_compress_missing = false \/
        compress_decodes Scenario.env_compress_missing = false)
   | (Hang, _) => False
   end).
Proof.
  assert (Hd : FS.is_dir (fs Scenario.st_snapshot) (temp_backup_dir Sample.req0) = true)
    by (vm_compute; reflexivity).
  split; [exact Hd|]. split.
  - split; [vm_compute; reflexivity|].
    exact (compression_step_removes_the_snapshot
             Sample.cfg_tar_backup Sample.req0
             (Sample.env_ok Sample.archive_with_folder) Scenario.st_snapshot Hd).
  - split; [vm_compute; reflexivity|].
    exact (compression_step_removes_the_snapshot
             Sample.cfg_tar_backup Sample.req0
             Scenario.env_compress_missing Scenario.st_snapshot Hd).
Defined.

(** ** The destinations of a copy *)

Module Destinations.
Import FS TreeFacts PlanSpec.

(** The regular files below [T], by their paths from [r] on, in the
    order of the walk. *)
Fixpoint rel_files (r : path) (T : node) : list path :=
  match T with
  | File _ _ => []
  | Dir es =>
      map (fun x => r ++ [x]) (file_names es) ++
      (fix go (l : list (string * node)) : list path :=
         match l with
         | [] => []
         | (x, c) :: l' => rel_files (r ++ [x]) c ++ go l'
         end) es
  end.

Definition rel_files_below (r : path) : list (string * node) -> list path :=
  fix go (l : list (string * node)) : list path :=
    match l with
    | [] => []
    | (x, c) :: l' => rel_files (r ++ [x]) c ++ go l'
    end.

Lemma rel_files_Dir r es :
  rel_files r (Dir es)
  = map (fun x => r ++ [x]) (file_names es) ++ rel_files_below r es.
Proof. reflexivity. Qed.

Lemma NoDup_map_inj {A B} (f : A -> B) (l : list A) :
  (forall x y, In x l -> In y l -> f x = f y -> x = y) ->
  NoDup l -> NoDup (map f l).
Proof.
  intros Hinj Hnd. induction Hnd as [|a l Ha Hnd IH]; simpl; constructor.
  - intros Hin. apply in_map_iff in Hin as [y [E Hy]].
    assert (y = a) by (apply Hinj; [right; exact Hy|left; reflexivity|exact E]).
    subst. contradiction.
  - apply IH. intros x y Hx Hy. apply Hinj; right; assumption.
Qed.

Lemma rel_files_prefix : forall T r q,
  In q (rel_files r T) -> exists p, p <> [] /\ q = r ++ p.
Proof.
  induction T as [d ro|es IH] using node_ind'; intros r q Hin; [destruct Hin|].
  rewrite rel_files_Dir in Hin. apply in_app_or in Hin as [Hin|Hin].
  - apply in_map_iff in Hin as [x [<- _]]. exists [x]. split; [discriminate|reflexivity].
  - induction es as [|[x c] es IHes]; [destruct Hin|].
    simpl in Hin. apply in_app_or in Hin as [Hin|Hin].
    + inversion IH as [|? ? Hc _]; subst. simpl in Hc.
      destruct (Hc _ _ Hin) as [p [_ ->]]. exists (x :: p).
      split; [discriminate|]. now rewrite <- app_assoc.
    + inversion IH; subst. auto.
Qed.

Lemma rel_files_below_prefix r : forall es q,
  In q (rel_files_below r es) ->
  exists x c p, In (x, c) es /\ p <> [] /\ q = r ++ x :: p.
Proof.
  induction es as [|[x c] es IH]; intros q Hin; [destruct Hin|].
  simpl in Hin. apply in_app_or in Hin as [Hin|Hin].
  - apply rel_files_prefix in Hin as [p [Hp ->]].
    exists x, c, p. split; [left; reflexivity|]. split; [exact Hp|].
    now rewrite <- app_assoc.
  - destruct (IH q Hin) as (y & c' & p & Hy & Hp & ->).
    exists y, c', p. split; [right; exact Hy|]. split; [exact Hp|reflexivity].
Qed.

Lemma rel_files_NoDup : forall T r, wf T -> NoDup (rel_files r T).
Proof.
  induction T as [d ro|es IH] using node_ind'; intros r Hwf; [constructor|].
  rewrite rel_files_Dir. apply wf_Dir in Hwf as [Hnd Hwf].
  apply NoDup_app.
  - apply NoDup_map_inj.
    + intros x y _ _ E. apply app_inv_head in E. congruence.
    + unfold file_names. apply NoDup_filter_names. exact Hnd.
  - clear - IH Hnd Hwf. revert IH Hnd Hwf.
    induction es as [|[x c] es IHes]; intros IH Hnd Hwf; [constructor|].
    simpl. inversion IH as [|? ? Hc IH']; subst. simpl in Hc.
    simpl in Hnd. inversion Hnd as [|? ? Hx Hnd']; subst.
    apply NoDup_app.
    + apply Hc. apply (Hwf x c). left. reflexivity.
    + apply IHes; [exact IH'|exact Hnd'|].
      intros y c' Hy. apply (Hwf y c'). right. exact Hy.
    + intros q Hq Hq'.
      apply rel_files_prefix in Hq as [p [_ ->]].
      apply rel_files_below_prefix in Hq' as (y & c' & p' & Hy & _ & E).
      rewrite <- app_assoc in E. apply app_inv_head in E.
      simpl in E. inversion E; subst.
      apply Hx. apply in_map_iff. eexists. split; [|exact Hy]. reflexivity.
  - intros q Hq Hq'.
    apply in_map_iff in Hq as [x [<- _]].
    apply rel_files_below_prefix in Hq' as (y & c' & p' & _ & Hp & E).
    apply app_inv_head in E. inversion E; subst. now apply Hp.
Qed.

Lemma collect_app src dst : forall a b d1 f1 d2 f2,
  collect src dst a = Ok (d1, f1) ->
  collect src dst b = Ok (d2, f2) ->
  collect src dst (a ++ b) = Ok (d1 ++ d2, f1 ++ f2).
Proof.
  induction a as [|[[root dirs] files] a IH]; intros b d1 f1 d2 f2 Ea Eb.
  - simpl in Ea. injection Ea as <- <-. exact Eb.
  - simpl in *.
    destruct (pairs_for src dst root dirs) as [ds| |]; try discriminate.
    destruct (pairs_for src dst root files) as [fls| |]; try discriminate.
    destruct (collect src dst a) as [[da fa]| |] eqn:Ca; try discriminate.
    injection Ea as <- <-.
    rewrite (IH b da fa d2 f2 eq_refl Eb). now rewrite <- !app_assoc.
Qed.

(** The files the walk of [T] hands to [collect], and where they go. *)
Lemma collect_files src dst : forall T r,
  exists ds,
    collect src dst (walk_node true (src ++ r) T)
    = Ok (ds, map (fun p => (src ++ p, dst ++ p)) (rel_files r T)).
Proof.
  induction T as [d ro|es IH] using node_ind'; intros r.
  - exists []. reflexivity.
  - rewrite walk_node_Dir, rel_files_Dir.
    assert (Hbelow : exists ds,
               collect src dst (walk_entries true (src ++ r) es)
               = Ok (ds, map (fun p => (src ++ p, dst ++ p)) (rel_files_below r es))).
    { clear - IH. induction es as [|[x c] es IHes]; [exists []; reflexivity|].
      inversion IH as [|? ? Hc IH']; subst. simpl in Hc.
      destruct (Hc (r ++ [x])) as [d1 E1]. destruct (IHes IH') as [d2 E2].
      exists (d1 ++ d2). simpl. rewrite map_app.
      apply collect_app; [|exact E2].
      rewrite app_assoc in E1. exact E1. }
    destruct Hbelow as [d2 E2].
    simpl. rewrite !pairs_for_spec. rewrite E2.
    eexists. f_equal. f_equal. rewrite map_app, map_map.
    f_equal. apply map_ext. intros x. now rewrite <- app_assoc.
Qed.

End Destinations.

(** X6.  [copy_dir_with_progress], lines 129-162, on a source tree without
    two entries of one name in a directory: no destination is listed
    twice in [files_to_copy], so that two batches never hold the same
    destination and no two worker threads write the same file. *)
Theorem no_two_threads_write_the_same_file src dst n T plan max_threads batches :
  FS.get n src = Some T ->
  FS.wf T ->
  collect src dst (FS.walk true src n) = Ok plan ->
  Batching.make_batches (snd plan) max_threads = Ok batches ->
  NoDup (map snd (snd plan)) /\
  forall i j bi bj,
    i <> j -> nth_error batches i = Some bi -> nth_error batches j = Some bj ->
    forall a b, In a bi -> In b bj -> snd a <> snd b.
Proof.
  intros G Hwf C B. unfold FS.walk in C. rewrite G in C.
  destruct (Destinations.collect_files src dst T []) as [ds E].
  rewrite app_nil_r in E. rewrite E in C. injection C as <-. simpl in *.
  assert (ND : NoDup (map snd (map (fun p => (src ++ p, dst ++ p))
                                   (Destinations.rel_files [] T)))).
  { rewrite map_map. simpl. apply Destinations.NoDup_map_inj.
    - intros x y _ _ Exy. now apply app_inv_head in Exy.
    - apply Destinations.rel_files_NoDup. exact Hwf. }
  split; [exact ND|].
  assert (Hk : max_threads <> 0%Z).
  { intros ->. unfold Batching.make_batches, Batching.batch_size,
      Batching.floordiv in B. simpl in B. discriminate. }
  destruct (BatchingFacts.make_batches_concat
              (map (fun p => (src ++ p, dst ++ p)) (Destinations.rel_files [] T))
              max_threads Hk) as (bs & B' & Hcat & _).
  assert (Ebs : Ok bs = Ok batches)
    by (etransitivity; [symmetry; exact B'|exact B]).
  injection Ebs as ->.
  intros i j bi bj Hij Hi Hj a b Ha Hb Eab.
  assert (ND' : NoDup (List.concat (map (map snd) batches))).
  { rewrite <- concat_map. unfold path in *. rewrite Hcat. exact ND. }
  apply (BatchingFacts.concat_NoDup_disjoint (map (map snd) batches) ND'
           i j (map snd bi) (map snd bj) Hij) with (x := snd a).
  - rewrite nth_error_map, Hi. reflexivity.
  - rewrite nth_error_map, Hj. reflexivity.
  - apply in_map. exact Ha.
  - rewrite Eab. apply in_map. exact Hb.
Qed.

Lemma no_two_threads_write_the_same_file_witness :
  NoDup (map snd
             [(["srv"; "worlds"; "Bedrock"; "level.dat"],
               ["srv"; "copy"; "level.dat"]);
              (["srv"; "worlds"; "Bedrock"; "db"; "000.ldb"],
               ["srv"; "copy"; "db"; "000.ldb"])]%string) /\
  forall i j bi bj,
    i <> j ->
    nth_error [[(["srv"; "worlds"; "Bedrock"; "level.dat"],
                 ["srv"; "copy"; "level.dat"])];
               [(["srv"; "worlds"; "Bedrock"; "db"; "000.ldb"],
                 ["srv"; "copy"; "db"; "000.ldb"])]]%string i = Some bi ->
    nth_error [[(["srv"; "worlds"; "Bedrock"; "level.dat"],
                 ["srv"; "copy"; "level.dat"])];
               [(["srv"; "worlds"; "Bedrock"; "db"; "000.ldb"],
                 ["srv"; "copy"; "db"; "000.ldb"])]]%string j = Some bj ->
    forall a b, In a bi -> In b bj -> snd a <> snd b.
Proof.
  apply (no_two_threads_write_the_same_file
           ["srv"; "worlds"; "Bedrock"]%string ["srv"; "copy"]%string
           Sample.fs0
           (Dir [("level.dat"%string, File "old" true);
                 ("db"%string, Dir [("000.ldb"%string, File "x" false)])])
           ([(["srv"; "worlds"; "Bedrock"; "db"], ["srv"; "copy"; "db"])],
            [(["srv"; "worlds"; "Bedrock"; "level.dat"],
              ["srv"; "copy"; "level.dat"]);
             (["srv"; "worlds"; "Bedrock"; "db"; "000.ldb"],
              ["srv"; "copy"; "db"; "000.ldb"])])%string
           4).
  - reflexivity.
  - vm_compute. repeat constructor; simpl; intuition discriminate.
  - vm_compute. reflexivity.
  - vm_compute. reflexivity.
Defined.

(** ** The configuration [load_config] answers with *)

Module ConfigFacts.
Import Config.

Lemma lookup_set_same k v d : lookup k (set k v d) = Some v.
Proof.
  induction d as [|[k' v'] d IH]; simpl.
  - now rewrite String.eqb_refl.
  - destruct (String.eqb k k') eqn:E; simpl.
    + now rewrite String.eqb_refl.
    + now rewrite E.
Qed.

Lemma lookup_set_other k k' v d :
  String.eqb k' k = false -> lookup k' (set k v d) = lookup k' d.
Proof.
  intros Hne. induction d as [|[k0 v0] d IH]; simpl.
  - now rewrite Hne.
  - destruct (String.eqb k k0) eqn:E; simpl.
    + apply String.eqb_eq in E as <-. now rewrite Hne.
    + destruct (String.eqb k' k0); [reflexivity|exact IH].
Qed.

Lemma lookup_set k k' v d :
  lookup k' (set k v d) = if String.eqb k' k then Some v else lookup k' d.
Proof.
  destruct (String.eqb k' k) eqn:E.
  - apply String.eqb_eq in E as ->. apply lookup_set_same.
  - now apply lookup_set_other.
Qed.

(** Merging a dictionary with unique keys: its items win. *)
Lemma lookup_merge k : forall items d,
  NoDup (map fst items) ->
  lookup k (fold_left (fun acc kv => set (fst kv) (snd kv) acc) items d)
  = match lookup k items with
    | Some v => Some v
    | None => lookup k d
    end.
Proof.
  induction items as [|[k0 v0] items IH]; intros d Hnd; simpl; [reflexivity|].
  inversion Hnd as [|? ? Hk0 Hnd']; subst.
  rewrite IH by exact Hnd'.
  destruct (String.eqb k k0) eqn:E.
  - apply String.eqb_eq in E as ->.
    assert (Hn : lookup k0 items = None).
    { clear - Hk0. induction items as [|[k1 v1] items IH]; simpl; [reflexivity|].
      destruct (String.eqb k0 k1) eqn:E1.
      - apply String.eqb_eq in E1 as ->. exfalso. apply Hk0. left. reflexivity.
      - apply IH. intros Hin. apply Hk0. right. exact Hin. }
    rewrite Hn. apply lookup_set_same.
  - destruct (lookup k items); [reflexivity|]. simpl.
    now apply lookup_set_other.
Qed.

(** No key is lost in an update, finished or not. *)
Definition keeps_keys (d d' : dict) : Prop :=
  forall k, lookup k d <> None -> lookup k d' <> None.

Lemma keeps_keys_set k v d : keeps_keys d (set k v d).
Proof.
  intros k' H. rewrite lookup_set. destruct (String.eqb k' k); [discriminate|exact H].
Qed.

Lemma keeps_keys_fold : forall items d,
  keeps_keys d (fold_left (fun acc kv => set (fst kv) (snd kv) acc) items d).
Proof.
  induction items as [|[k v] items IH]; intros d k' H; simpl; [exact H|].
  apply IH. now apply keeps_keys_set.
Qed.

Lemma keeps_keys_update_seq : forall items d,
  keeps_keys d (fst (update_seq items d)).
Proof.
  induction items as [|x items IH]; intros d k' H; simpl; [exact H|].
  destruct (item_pair x) as [[kx vx]|e]; simpl; [|exact H].
  unfold store. simpl.
  destruct kx; simpl; try exact H; try (now apply IH).
  apply IH. now apply keeps_keys_set.
Qed.

Lemma keeps_keys_update d x : keeps_keys d (fst (update d x)).
Proof.
  destruct x as [| | | |s|items|items]; simpl; try (intros k H; exact H).
  - destruct s; intros k H; exact H.
  - apply keeps_keys_update_seq.
  - apply keeps_keys_fold.
Qed.

Section Answer.

Variable json_load : string -> option json.
Variables server_dir cwd : path.
Variable n : node.

(** The dictionary [load_config] returns is the default one, or the
    default one after the update. *)
Lemma answer_cases g :
  fst (load_config json_load server_dir cwd n g) = default_config \/
  exists config,
    fst (load_config json_load server_dir cwd n g)
    = fst (update default_config config).
Proof.
  unfold load_config.
  destruct (find_config n (possible_paths server_dir cwd)) as [probes [p|]];
    [|left; reflexivity].
  destruct (open_and_load json_load n p) as [config|e]; [|left; reflexivity].
  right. exists config.
  destruct (update default_config config) as [d updated]. simpl.
  destruct (load_body p config updated _) as [[a|e] st']; reflexivity.
Qed.

End Answer.

End ConfigFacts.

(** X21.  [load_config], lines 168-232, and the reads of [main]: whatever is
    on disk and whatever the configuration file holds, the dictionary
    returned has the keys [use_7z] and [exe_7z_path].  The subscripts
    [config['use_7z']] and [config['exe_7z_path']] of [main] find their
    keys, and the defaults of [config.get("use_7z", True)] and
    [config.get("exe_7z_path", ...)] in the pre-restore backup are never
    the value read. *)
Theorem returned_configuration_has_the_backend_keys
        json_load server_dir cwd n g :
  let config := fst (Config.load_config json_load server_dir cwd n g) in
  exists use_7z exe_7z_path,
    Config.lookup "use_7z" config = Some use_7z /\
    Config.lookup "exe_7z_path" config = Some exe_7z_path /\
    (forall default, Config.get_or config "use_7z" default = use_7z) /\
    (forall default, Config.get_or config "exe_7z_path" default = exe_7z_path).
Proof.
  intros config.
  assert (K : forall k, Config.lookup k Config.default_config <> None ->
                        Config.lookup k config <> None).
  { intros k Hk. unfold config.
    destruct (ConfigFacts.answer_cases json_load server_dir cwd n g) as [->|[c ->]];
      [exact Hk|].
    now apply ConfigFacts.keeps_keys_update. }
  pose proof (K "use_7z"%string ltac:(discriminate)) as K1.
  pose proof (K "exe_7z_path"%string ltac:(discriminate)) as K2.
  destruct (Config.lookup "use_7z" config) as [u|] eqn:E1; [|contradiction].
  destruct (Config.lookup "exe_7z_path" config) as [e|] eqn:E2; [|contradiction].
  exists u, e. unfold Config.get_or. rewrite E1, E2. auto.
Qed.

(** X22.  [load_config], lines 174-185: a configuration file in the server
    directory is the one that is read; what the working directory of
    the process holds then plays no part in the result. *)
Theorem server_directory_configuration_comes_first
        json_load server_dir n g cwd1 cwd2 :
  FS.exists_ n (server_dir ++ Config.config_file) = true ->
  Config.load_config json_load server_dir cwd1 n g
  = Config.load_config json_load server_dir cwd2 n g.
Proof.
  intros H. unfold Config.load_config, Config.possible_paths. simpl.
  rewrite H. reflexivity.
Qed.

Lemma server_directory_configuration_comes_first_witness :
  Config.load_config ConfigScenario.parse ["srv"%string] ["home"%string]
                     ConfigScenario.fs_two_files Config.initial_globals
  = Config.load_config ConfigScenario.parse ["srv"%string] ["tmp"%string]
                       ConfigScenario.fs_two_files Config.initial_globals.
Proof.
  apply (server_directory_configuration_comes_first
           ConfigScenario.parse ["srv"%string] ConfigScenario.fs_two_files
           Config.initial_globals ["home"%string] ["tmp"%string]).
  reflexivity.
Defined.

(** X23.  [load_config], lines 195-205 and 228-232: when the file holds a JSON
    object, every key of the file is in the dictionary returned with the
    value of the file, and every other key has its default.  This is so
    whether or not the rest of the load goes through: the update comes
    first. *)
Theorem file_settings_override_the_defaults
        json_load server_dir cwd n g probes p items :
  Config.find_config n (Config.possible_paths server_dir cwd) = (probes, Some p) ->
  Config.open_and_load json_load n p = Config.Got (Config.JDict items) ->
  NoDup (map fst items) ->
  forall k,
    Config.lookup k (fst (Config.load_config json_load server_dir cwd n g))
    = match Config.lookup k items with
      | Some v => Some v
      | None => Config.lookup k Config.default_config
      end.
Proof.
  intros Hf Ho Hnd k. unfold Config.load_config. rewrite Hf, Ho.
  cbn [Config.update].
  destruct (Config.load_body p (Config.JDict items) None _) as [[a|e] st'];
    simpl; now apply ConfigFacts.lookup_merge.
Qed.

Lemma file_settings_override_the_defaults_witness :
  Config.lookup "use_7z"
    (fst (Config.load_config ConfigScenario.parse ["srv"%string] ["home"%string]
                             ConfigScenario.fs_null_restore Config.initial_globals))
  = Some (Config.JBool true) /\
  Config.lookup "exe_7z_path"
    (fst (Config.load_config ConfigScenario.parse ["srv"%string] ["home"%string]
                             ConfigScenario.fs_null_restore Config.initial_globals))
  = Some (Config.JStr "./plugins/EasyBackuper/7za.exe").
Proof.
  split;
    apply (file_settings_override_the_defaults
             ConfigScenario.parse ["srv"%string] ["home"%string]
             ConfigScenario.fs_null_restore Config.initial_globals
             [(INFO, Config.MsgTrying (["srv"%string] ++ Config.config_file) true)]
             (["srv"%string] ++ Config.config_file)
             ConfigScenario.null_restore_items);
    try reflexivity;
    repeat constructor; simpl; intuition discriminate.
Defined.

(** X24.  [load_config], lines 187-192 and 200-202 with 229-232: when no
    candidate exists, or the file found cannot be opened or parsed, the
    dictionary returned is the default one and no global is assigned;
    [main] then reads a worker count of 4 and no pre-restore backup from
    the globals as the module sets them up. *)
Theorem without_a_readable_file_the_defaults_apply
        json_load server_dir cwd n g :
  snd (Config.find_config n (Config.possible_paths server_dir cwd)) = None \/
  (exists p e,
      snd (Config.find_config n (Config.possible_paths server_dir cwd)) = Some p /\
      Config.open_and_load json_load n p = Config.Failed e) ->
  fst (Config.load_config json_load server_dir cwd n g) = Config.default_config /\
  fst (snd (Config.load_config json_load server_dir cwd n g)) = g /\
  (g = Config.initial_globals ->
   Config.read_max_workers
     (fst (snd (Config.load_config json_load server_dir cwd n g)))
   = Config.JInt 4 /\
   Config.read_backup_old_world
     (fst (snd (Config.load_config json_load server_dir cwd n g)))
   = Config.Got (Config.JBool false)).
Proof.
  intros H. unfold Config.load_config.
  destruct (Config.find_config n (Config.possible_paths server_dir cwd))
    as [probes found]. simpl in H.
  destruct H as [->|(p & e & -> & Ho)].
  - simpl. split; [reflexivity|]. split; [reflexivity|].
    intros ->. split; reflexivity.
  - rewrite Ho. simpl. split; [reflexivity|]. split; [reflexivity|].
    intros ->. split; reflexivity.
Qed.

Lemma without_a_readable_file_the_defaults_apply_witness :
  fst (Config.load_config ConfigScenario.parse ["srv"%string] ["home"%string]
                          ConfigScenario.fs_garbled Config.initial_globals)
  = Config.default_config /\
  fst (snd (Config.load_config ConfigScenario.parse ["srv"%string] ["home"%string]
                               ConfigScenario.fs_garbled Config.initial_globals))
  = Config.initial_globals.
Proof.
  destruct (without_a_readable_file_the_defaults_apply
              ConfigScenario.parse ["srv"%string] ["home"%string]
              ConfigScenario.fs_garbled Config.initial_globals) as [H1 [H2 _]].
  - right. exists (["srv"%string] ++ Config.config_file), Config.DecodeFailed.
    split; reflexivity.
  - split; [exact H1|exact H2].
Defined.

(** X25.  [load_config], lines 208-232, and line 295 of [main]: a [Restore]
    entry that is not an object, or whose [config] entry is not one,
    makes the load fail with an [AttributeError] that [load_config]
    catches: [debug] and [max_workers] keep the values they had.  The
    entry has been assigned to the global [restore_config] by then, and
    the read of the backup flag in [main], which no [try] surrounds,
    raises the same error. *)
Theorem malformed_restore_section_fails_main_later
        json_load server_dir cwd n g probes p items :
  Config.find_config n (Config.possible_paths server_dir cwd) = (probes, Some p) ->
  Config.open_and_load json_load n p = Config.Got (Config.JDict items) ->
  (match Config.get_or items "Restore" (Config.JDict []) with
   | Config.JDict restore =>
       match Config.get_or restore "config" (Config.JDict []) with
       | Config.JDict _ => False
       | _ => True
       end
   | _ => True
   end) ->
  let after := snd (Config.load_config json_load server_dir cwd n g) in
  In (WARNING, Config.MsgLoadFailed Config.AttributeErr) (snd after) /\
  Config.global_debug (fst after) = Config.global_debug g /\
  Config.global_max_workers (fst after) = Config.global_max_workers g /\
  Config.global_restore_config (fst after)
  = Config.get_or items "Restore" (Config.JDict []) /\
  Config.read_backup_old_world (fst after) = Config.Failed Config.AttributeErr.
Proof.
  intros Hf Ho Hbad after. unfold after, Config.load_config. rewrite Hf, Ho.
  cbn [Config.update]. unfold Config.load_body, Config.read_backup_old_world.
  cbn [Config.bind Config.say Config.call Config.ret Config.assign Config.get
       fst snd].
  destruct (Config.get_or items "Restore" (Config.JDict [])) as [| | | | | |restore];
    cbn [Config.bind Config.say Config.call Config.ret Config.assign Config.get
         Config.handler Config.set_restore_config Config.set_config
         Config.global_debug Config.global_max_workers
         Config.global_restore_config fst snd];
    try (split; [apply in_or_app; right; left; reflexivity|];
         repeat split; reflexivity).
  destruct (Config.get_or restore "config" (Config.JDict []))
    as [| | | | | |nested] eqn:En;
    try contradiction;
    cbn [Config.bind Config.say Config.call Config.ret Config.assign Config.get
         Config.handler Config.set_restore_config Config.set_config
         Config.global_debug Config.global_max_workers
         Config.global_restore_config fst snd];
    (split; [apply in_or_app; right; left; reflexivity|]);
    repeat split; try reflexivity; rewrite ?En; reflexivity.
Qed.

Lemma malformed_restore_section_fails_main_later_witness :
  let after :=
    snd (Config.load_config ConfigScenario.parse ["srv"%string] ["home"%string]
                            ConfigScenario.fs_null_restore Config.initial_globals) in
  In (WARNING, Config.MsgLoadFailed Config.AttributeErr) (snd after) /\
  Config.global_debug (fst after) = Config.JBool false /\
  Config.global_max_workers (fst after) = None /\
  Config.global_restore_config (fst after) = Config.JNull /\
  Config.read_backup_old_world (fst after) = Config.Failed Config.AttributeErr.
Proof.
  apply (malformed_restore_section_fails_main_later
           ConfigScenario.parse ["srv"%string] ["home"%string]
           ConfigScenario.fs_null_restore Config.initial_globals
           [(INFO, Config.MsgTrying (["srv"%string] ++ Config.config_file) true)]
           (["srv"%string] ++ Config.config_file)
           ConfigScenario.null_restore_items).
  - reflexivity.
  - reflexivity.
  - exact I.
Defined.

(** X26.  [load_config], lines 208-228, and the reads of [main]: with a JSON
    object whose [Restore] section is well formed the load goes through,
    and [main] afterwards reads the backup flag and the worker count the
    file gives, or [False] and 4 where the file is silent.  The debug
    flag is the one of [Restore.config]. *)
Theorem loaded_values_reach_main
        json_load server_dir cwd n g probes p items restore nested :
  Config.find_config n (Config.possible_paths server_dir cwd) = (probes, Some p) ->
  Config.open_and_load json_load n p = Config.Got (Config.JDict items) ->
  Config.get_or items "Restore" (Config.JDict []) = Config.JDict restore ->
  Config.get_or restore "config" (Config.JDict []) = Config.JDict nested ->
  let after := snd (Config.load_config json_load server_dir cwd n g) in
  In (SUCCESS, Config.MsgLoaded p) (snd after) /\
  Config.read_backup_old_world (fst after)
  = Config.Got (Config.get_or nested "backup_old_world_before_restore"
                              (Config.JBool false)) /\
  Config.read_max_workers (fst after)
  = Config.get_or items "Max_Workers" (Config.JInt 4) /\
  Config.global_debug (fst after)
  = Config.get_or nested "debug" (Config.JBool false).
Proof.
  intros Hf Ho Hr Hn after. unfold after, Config.load_config. rewrite Hf, Ho.
  cbn [Config.update]. unfold Config.load_body, Config.read_backup_old_world,
                         Config.read_max_workers.
  cbn [Config.bind Config.say Config.call Config.ret Config.assign Config.get
       fst snd].
  rewrite Hr.
  cbn [Config.bind Config.say Config.call Config.ret Config.assign Config.get
       Config.set_restore_config Config.set_config fst snd
       Config.global_restore_config].
  rewrite Hn.
  cbn [Config.bind Config.say Config.call Config.ret Config.assign Config.get
       Config.set_restore_config Config.set_config Config.set_debug
       Config.set_max_workers fst snd
       Config.global_restore_config Config.global_debug
       Config.global_max_workers].
  rewrite ?Hr. cbn [Config.get]. rewrite ?Hn.
  split; [|repeat split; reflexivity].
  apply in_or_app. left. apply in_or_app. right. left. reflexivity.
Qed.

Lemma loaded_values_reach_main_witness :
  let after :=
    snd (Config.load_config ConfigScenario.parse ["srv"%string] ["home"%string]
                            ConfigScenario.fs_two_files Config.initial_globals) in
  Config.read_backup_old_world (fst after) = Config.Got (Config.JBool true) /\
  Config.read_max_workers (fst after) = Config.JInt 8 /\
  Config.global_debug (fst after) = Config.JBool true.
Proof.
  destruct (loaded_values_reach_main
              ConfigScenario.parse ["srv"%string] ["home"%string]
              ConfigScenario.fs_two_files Config.initial_globals
              [(INFO, Config.MsgTrying (["srv"%string] ++ Config.config_file) true)]
              (["srv"%string] ++ Config.config_file)
              ConfigScenario.full_items
              [("config"%string,
                Config.JDict [("debug"%string, Config.JBool true);
                              ("backup_old_world_before_restore"%string,
                               Config.JBool true)])]
              [("debug"%string, Config.JBool true);
               ("backup_old_world_before_restore"%string, Config.JBool true)])
    as [_ H]; try reflexivity.
  exact H.
Defined.

(** ** The console and the log file *)

Lemma log_level_at_least_info level l :
  Console.log_level_map level = Some l ->
  String.eqb level "DEBUG" = false ->
  (Console.logging_INFO <= l)%Z.
Proof.
  unfold Console.log_level_map. intros H Hd. rewrite Hd in H.
  repeat match type of H with
         | (if ?b then _ else _) = _ => destruct b
         end;
    try discriminate; injection H as <-;
    unfold Console.logging_INFO, Console.logging_WARNING, Console.logging_ERROR;
    lia.
Qed.

(** X27.  [plugin_print] with the logger of [setup_logging], lines 27-33 and
    63-99: the call returns [True] for every level name.  Either it is
    a [DEBUG] line with debugging off, and then nothing is printed and
    nothing is logged, or the line is printed on the console and the
    record is written to the log file: the level the logger was set up
    with never holds back what [plugin_print] hands to it.  Before the
    logger is assigned, the line goes to the console only. *)
Theorem console_and_log_file_agree debug text level out :
  let r := Console.plugin_print
             debug (Some (Console.setup_logging_level debug)) text level out in
  fst r = true /\
  ((String.eqb level "DEBUG" = true /\ debug = false /\ snd r = out) \/
   (exists l,
      Console.console (snd r)
      = Console.console out ++ [(Console.logger_head level ++ text)%string] /\
      Console.log_file (snd r) = Console.log_file out ++ [(l, text)] /\
      (Console.logging_DEBUG <= l <= Console.logging_ERROR)%Z)) /\
  Console.log_file (snd (Console.plugin_print debug None text level out))
  = Console.log_file out.
Proof.
  intros r. unfold r, Console.plugin_print.
  destruct (String.eqb level "DEBUG") eqn:Hd; destruct debug; simpl.
  - (* a DEBUG line, debugging on *)
    unfold Console.log_level_map. rewrite Hd.
    unfold Console.logger_log, Console.setup_logging_level. simpl.
    split; [reflexivity|]. split; [|reflexivity].
    right. exists Console.logging_DEBUG. simpl.
    split; [reflexivity|]. split; [reflexivity|].
    unfold Console.logging_DEBUG, Console.logging_ERROR. lia.
  - (* a DEBUG line, debugging off *)
    split; [reflexivity|]. split; [|reflexivity]. left. auto.
  - (* another line, debugging on *)
    split; [reflexivity|]. split; [|reflexivity]. right.
    destruct (Console.log_level_map level) as [l|] eqn:Hl.
    + pose proof (log_level_at_least_info level l Hl Hd) as Hge.
      assert (Hle : (l <= Console.logging_ERROR)%Z).
      { revert Hl. unfold Console.log_level_map. rewrite Hd.
        repeat match goal with
               | |- (if ?b then _ else _) = _ -> _ => destruct b
               end; intros [= <-];
          unfold Console.logging_INFO, Console.logging_WARNING,
            Console.logging_ERROR; lia. }
      exists l. unfold Console.logger_log, Console.setup_logging_level.
      unfold Console.logging_DEBUG, Console.logging_INFO in *.
      destruct (Z.leb_spec 10 l); [|lia]. simpl.
      split; [reflexivity|]. split; [reflexivity|]. lia.
    + exists Console.logging_INFO. simpl.
      split; [reflexivity|]. split; [reflexivity|].
      unfold Console.logging_DEBUG, Console.logging_INFO, Console.logging_ERROR.
      lia.
  - (* another line, debugging off *)
    split; [reflexivity|]. split; [|reflexivity]. right.
    destruct (Console.log_level_map level) as [l|] eqn:Hl.
    + pose proof (log_level_at_least_info level l Hl Hd) as Hge.
      assert (Hle : (l <= Console.logging_ERROR)%Z).
      { revert Hl. unfold Console.log_level_map. rewrite Hd.
        repeat match goal with
               | |- (if ?b then _ else _) = _ -> _ => destruct b
               end; intros [= <-];
          unfold Console.logging_INFO, Console.logging_WARNING,
            Console.logging_ERROR; lia. }
      exists l. unfold Console.logger_log, Console.setup_logging_level.
      unfold Console.logging_DEBUG, Console.logging_INFO in *.
      destruct (Z.leb_spec 20 l); [|lia]. simpl.
      split; [reflexivity|]. split; [reflexivity|]. lia.
    + exists Console.logging_INFO. simpl.
      split; [reflexivity|]. split; [reflexivity|].
      unfold Console.logging_DEBUG, Console.logging_INFO, Console.logging_ERROR.
      lia.
Qed.

(** ** The worlds a restore does not name *)

Section CopyFrame.
Import FS PathFacts FSFacts TreeFacts PlanSpec CopyFacts.

Variable cfg : configuration.
Variables src dst q : path.
Variable es : list (string * node).

Hypothesis es_wf : wf (Dir es).

(** [q] is below [dst], under a name the source does not have. *)
Hypothesis q_apart : forall x c, In (x, c) es -> diverge q (dst ++ [x]) = true.
Hypothesis q_below : is_prefix q dst = false.
Hypothesis src_apart : is_prefix src dst = false.

Let T := same_at_trans q.
Let Rf := same_at_refl q.

Lemma plan_targets_apart n plan :
  get n src = Some (Dir es) ->
  collect src dst (walk true src n) = Ok plan ->
  forall sd, In sd (fst plan) \/ In sd (snd plan) -> diverge q (snd sd) = true.
Proof.
  intros G C sd Hsd.
  destruct (plan_spec src dst n (Dir es) G es_wf) as (ds & fl & C' & Hds & Hfl).
  rewrite C' in C. injection C as <-. simpl in Hsd.
  assert (Hp : exists p c, p <> [] /\ get (Dir es) p = Some c /\ snd sd = dst ++ p).
  { destruct Hsd as [H|H].
    - apply Hds in H as (p & es' & Hne & Gp & ->). eauto.
    - apply Hfl in H as (p & d & ro & Hne & Gp & ->). eauto. }
  destruct Hp as (p & c & Hne & Gp & ->).
  destruct p as [|x p]; [contradiction|]. simpl in Gp.
  destruct (assoc x es) as [cx|] eqn:Ax; [|discriminate].
  apply assoc_In in Ax.
  change (dst ++ x :: p) with (dst ++ [x] ++ p). rewrite app_assoc.
  apply diverge_app_r. eapply q_apart; eauto.
Qed.

Lemma keeps_ensure_dir_at sd :
  diverge q (snd sd) = true -> keeps (same_at q) (ensure_dir cfg sd).
Proof.
  intros H. unfold ensure_dir. keeps_steps T Rf.
  apply (keeps_fs_call _ Rf). intros n n'. apply same_at_makedirs.
  now apply diverge_not_prefix.
Qed.

Lemma keeps_copy_file_at a b :
  diverge q b = true -> keeps (same_at q) (copy_file_with_progress cfg a b).
Proof.
  intros H. unfold copy_file_with_progress. keeps_steps T Rf.
  apply (keeps_fs_call _ Rf). intros n n'. now apply same_at_copy2.
Qed.

Lemma keeps_copy_rest plan k :
  (forall sd, In sd (fst plan) \/ In sd (snd plan) -> diverge q (snd sd) = true) ->
  keeps (same_at q)
    (for_each (fst plan) (ensure_dir cfg);;;
     batches <- lift (Batching.make_batches (snd plan) k);;
     for_each (indexed_from 0 batches)
       (fun ib => emit (ThreadStart (fst ib));;; copy_files cfg (snd ib));;;
     for_each (indexed_from 0 batches) (fun ib => emit (ThreadJoin (fst ib)))).
Proof.
  intros Htargets.
  apply (keeps_bind _ T).
  { apply (keeps_for_each _ Rf T). intros sd Hin.
    apply keeps_ensure_dir_at. apply Htargets. now left. }
  intros _. apply (keeps_bind_at _ T); [apply (keeps_lift _ Rf)|].
  intros s batches s' Hb. unfold lift in Hb. injection Hb as Hb <-.
  assert (Hin : forall b, In b batches -> forall sd, In sd b -> In sd (snd plan)).
  { destruct (Z.eq_dec k 0) as [->|Hk].
    - unfold Batching.make_batches, Batching.batch_size, Batching.floordiv in Hb.
      simpl in Hb. discriminate.
    - destruct (BatchingFacts.make_batches_concat (snd plan) k Hk)
        as (bs & Hbs & Hcat & _).
      rewrite Hb in Hbs. injection Hbs as <-.
      intros b Hbin sd Hsdin. rewrite <- Hcat. apply in_concat. eauto. }
  revert s. change (keeps (same_at q)
    (for_each (indexed_from 0 batches)
       (fun ib => emit (ThreadStart (fst ib));;; copy_files cfg (snd ib));;;
     for_each (indexed_from 0 batches) (fun ib => emit (ThreadJoin (fst ib))))).
  apply (keeps_bind _ T).
  - apply (keeps_for_each _ Rf T). intros [i b] Hib. simpl.
    apply (keeps_bind _ T); [apply (keeps_emit _ Rf)|].
    intros _. unfold copy_files.
    apply (keeps_for_each _ Rf T). intros [sp dp] Hsd.
    apply in_indexed_from in Hib.
    apply keeps_copy_file_at.
    apply (Htargets (sp, dp)). right. eapply Hin; eauto.
  - intros _. keeps_steps T Rf.
Qed.

Lemma copy_dir_frame k s :
  get (fs s) src = Some (Dir es) ->
  get (fs (snd (copy_dir_with_progress cfg src dst k s))) q = get (fs s) q.
Proof.
  intros G. unfold copy_dir_with_progress. rewrite run_read_fs.
  set (c1 := when (negb (exists_ (fs s) dst))
                  (fs_call (makedirs false dst);;;
                   emit (MakeDirs dst);;;
                   plugin_print cfg DEBUG (MsgDirCreated dst))).
  assert (K1 : keeps (same_at q) c1).
  { unfold c1. keeps_steps T Rf. apply (keeps_fs_call _ Rf). intros n n'.
    now apply same_at_makedirs. }
  assert (K1' : keeps (same_at src) c1).
  { unfold c1.
    pose proof (same_at_trans src) as T'. pose proof (same_at_refl src) as Rf'.
    keeps_steps T' Rf'. apply (keeps_fs_call _ Rf'). intros n n'.
    now apply same_at_makedirs. }
  specialize (K1 s). specialize (K1' s). unfold same_at in K1, K1'.
  unfold bind at 1. destruct (c1 s) as [[[]|e|] sa]; simpl in *;
    [|exact K1|exact K1].
  rewrite <- K1. rewrite G in K1'.
  unfold copy_core. rewrite run_read_fs.
  unfold bind at 1. unfold lift at 1.
  destruct (collect src dst (walk true src (fs sa))) as [plan| |] eqn:C;
    try reflexivity.
  apply (keeps_copy_rest plan k (plan_targets_apart (fs sa) plan K1' C) sa).
Qed.

End CopyFrame.

(** X14.  SWAP, lines 432-466: the deletion works below the world directory
    and the copy only writes under the names the staging directory has
    at its top level.  Any other entry of the worlds directory, another
    world with all its files, is the same after the phase as before,
    however the phase ends. *)
Theorem swap_spares_the_worlds_the_archive_does_not_name
        cfg req s entries other :
  FS.get (fs s) (temp_world_dir req) = Some (Dir entries) ->
  FS.wf (Dir entries) ->
  other <> world_name req ->
  FS.assoc other entries = None ->
  FS.get (fs (snd (swap_phase cfg req s))) (worlds_dir req ++ [other])
  = FS.get (fs s) (worlds_dir req ++ [other]).
Proof.
  intros Gt Hwf Hother Habsent.
  set (q := worlds_dir req ++ [other]).
  pose proof (same_at_trans q) as T. pose proof (same_at_refl q) as Rf.
  assert (Hqw : FS.diverge q (current_world_dir req) = true).
  { unfold q, current_world_dir. rewrite CopyFacts.diverge_app_same. simpl.
    destruct (String.eqb other (world_name req)) eqn:E; [|reflexivity].
    apply String.eqb_eq in E. contradiction. }
  assert (Hqt : FS.diverge q (temp_dir req) = true).
  { unfold q. apply PathFacts.diverge_app_l, worlds_diverge_temp. }
  assert (Hqe : forall x c, In (x, c) entries ->
                            FS.diverge q (worlds_dir req ++ [x]) = true).
  { intros x c Hin. unfold q. rewrite CopyFacts.diverge_app_same. simpl.
    destruct (String.eqb other x) eqn:E; [|reflexivity].
    apply String.eqb_eq in E as <-.
    apply TreeFacts.wf_Dir in Hwf as [Hnd _].
    rewrite (TreeFacts.In_assoc other c entries Hnd Hin) in Habsent.
    discriminate. }
  unfold swap_phase. unfold bind at 1.
  pose proof (apart_delete_old_world cfg req q Hqw s) as K3.
  pose proof (apart_delete_old_world cfg req (temp_world_dir req)
                ltac:(rewrite PathFacts.diverge_sym;
                      apply Layout.world_diverge_temp_world) s) as K3'.
  unfold same_at in K3, K3'.
  destruct (delete_old_world cfg req s) as [[[]|e|] s3]; simpl in *;
    [|exact K3|exact K3].
  rewrite <- K3. rewrite Gt in K3'.
  cbn [plugin_print]. rewrite !run_emit. cbn [fs events].
  match goal with |- context [bind (copy_dir_with_progress _ _ _ _) _ ?st] =>
    set (s3' := st) end.
  pose proof (copy_dir_frame cfg (temp_world_dir req) (worlds_dir req) q entries
                Hwf Hqe
                ltac:(unfold q; apply Layout.longer_not_prefix)
                ltac:(apply PathFacts.diverge_not_prefix,
                        temp_world_diverge_worlds)
                (max_workers cfg) s3' K3') as K4.
  unfold bind at 1.
  destruct (copy_dir_with_progress cfg (temp_world_dir req) (worlds_dir req)
                                   (max_workers cfg) s3') as [[[]|e|] s4];
    cbn [fst snd] in *; [|exact K4|exact K4].
  rewrite !run_emit, run_fs_update, !run_emit. cbn [emit snd fs].
  change (FS.get (fs s3') q) with (FS.get (fs s3) q) in K4.
  rewrite <- K4. apply (same_at_rmtree q (temp_dir req) (fs s4) Hqt).
Qed.

Lemma swap_spares_the_worlds_the_archive_does_not_name_witness :
  FS.get (fs (snd (swap_phase Sample.cfg_tar Sample.req0
                     (snd (extract_phase Sample.cfg_tar Sample.req0
                             (Sample.env_ok Sample.archive_with_folder)
                             Sample.st0)))))
         (worlds_dir Sample.req0 ++ ["Other"%string])
  = Some (Dir [("level.dat"%string, File "o" false)]).
Proof.
  apply (swap_spares_the_worlds_the_archive_does_not_name
           Sample.cfg_tar Sample.req0
           (snd (extract_phase Sample.cfg_tar Sample.req0
                   (Sample.env_ok Sample.archive_with_folder) Sample.st0))
           Sample.archive_with_folder "Other"%string).
  - vm_compute. reflexivity.
  - vm_compute. repeat constructor; simpl; intuition discriminate.
  - discriminate.
  - reflexivity.
Defined.

(** ** Read-only files and leftovers *)

(** X28.  The deletion loop of SWAP, lines 435-448, on a world directory
    without two entries of one name in a directory: the loop returns,
    read-only files or not, and afterwards nothing is left below the
    world directory, which is still there as an empty directory. *)
Theorem deletion_removes_read_only_files_too cfg req s es :
  FS.get (fs s) (current_world_dir req) = Some (Dir es) ->
  FS.wf (Dir es) ->
  exists s',
    delete_old_world cfg req s = (Ok tt, s') /\
    FS.is_dir (fs s') (current_world_dir req) = true /\
    forall p, p <> [] -> FS.get (fs s') (current_world_dir req ++ p) = None.
Proof.
  intros G Hwf.
  destruct (delete_old_world_spec cfg req s (Dir es) G Hwf) as (s' & E & G' & _).
  exists s'. split; [exact E|]. simpl in G'. split.
  - unfold FS.is_dir. now rewrite G'.
  - intros p Hp. rewrite FSFacts.get_app, G'.
    destruct p; [contradiction|reflexivity].
Qed.

Lemma deletion_removes_read_only_files_too_witness :
  FS.get (fs Sample.st0) (current_world_dir Sample.req0 ++ ["level.dat"%string])
  = Some (File "old" true) /\
  exists s',
    delete_old_world Sample.cfg_tar Sample.req0 Sample.st0 = (Ok tt, s') /\
    FS.is_dir (fs s') (current_world_dir Sample.req0) = true /\
    FS.get (fs s') (current_world_dir Sample.req0 ++ ["level.dat"%string]) = None.
Proof.
  split; [reflexivity|].
  destruct (deletion_removes_read_only_files_too
              Sample.cfg_tar Sample.req0 Sample.st0
              [("level.dat"%string, File "old" true);
               ("db"%string, Dir [("000.ldb"%string, File "x" false)])])
    as (s' & E & Hd & Hgone).
  - reflexivity.
  - vm_compute. repeat constructor; simpl; intuition discriminate.
  - exists s'. split; [exact E|]. split; [exact Hd|].
    apply Hgone. discriminate.
Defined.

(** X29.  EXTRACT, lines 378-430: the staging directory is removed and made
    anew before the tool runs, so that after a successful extraction
    [temp_easybackuper/worldName] holds what the archive unpacks to and
    nothing that an earlier run left there.  The tool itself removes
    nothing: it lays the archive over what its target holds. *)
Theorem staging_holds_what_was_extracted cfg req env s s' entries :
  extract_phase cfg req env s = (Ok None, s') ->
  extract_entries env = Some entries ->
  FS.get (fs s') (temp_world_dir req) = Some (Dir entries) /\
  forall p, FS.get (fs s') (temp_world_dir req ++ p) = FS.get (Dir entries) p.
Proof.
  intros E He.
  pose proof (extract_phase_stages cfg req env s s' entries E He) as G.
  split; [exact G|]. intros p. rewrite FSFacts.get_app, G. reflexivity.
Qed.

Lemma staging_holds_what_was_extracted_witness :
  FS.get (fs Leftovers.st_stale)
         (temp_world_dir Sample.req0 ++ ["stale.dat"%string])
  = Some (File "stale" false) /\
  FS.get (tool_extract (Sample.env_ok Sample.archive_flat)
                       (temp_world_dir Sample.req0) (fs Leftovers.st_stale))
         (temp_world_dir Sample.req0 ++ ["stale.dat"%string])
  = Some (File "stale" false) /\
  FS.get (fs (snd (extract_phase Sample.cfg_tar Sample.req0
                     (Sample.env_ok Sample.archive_flat) Leftovers.st_stale)))
         (temp_world_dir Sample.req0 ++ ["stale.dat"%string])
  = None.
Proof.
  split; [reflexivity|]. split; [reflexivity|].
  destruct (staging_holds_what_was_extracted
              Sample.cfg_tar Sample.req0 (Sample.env_ok Sample.archive_flat)
              Leftovers.st_stale
              (snd (extract_phase Sample.cfg_tar Sample.req0
                      (Sample.env_ok Sample.archive_flat) Leftovers.st_stale))
              Sample.archive_flat) as [_ H].
  - vm_compute. reflexivity.
  - reflexivity.
  - rewrite H. reflexivity.
Defined.

(** ** PRE_BACKUP: what the archive tool is called on *)

Module MakedirsFacts.
Import FS FSFacts TreeFacts.







End MakedirsFacts.

(** Computations that call no archive tool for a compression. *)
Section Quiet.

Let quiet (e : event) : Prop := is_run_compress e = false.





End Quiet.

Section Recorded.
Import FS FSFacts TreeFacts MakedirsFacts.

Variable cfg : configuration.
Variable req : request.
Variable env : environment.

Let quiet (e : event) : Prop := is_run_compress e = false.





End Recorded.

Section SnapshotReturned.
Import FS PathFacts FSFacts TreeFacts PlanSpec MakedirsFacts.

Variable cfg : configuration.
Variable req : request.



End SnapshotReturned.



